(** * Asynchronous recursive delete (rm-rf-async.c): model and properties

    The C program deletes a directory tree with GIO's asynchronous file
    operations.  Every asynchronous call registers a callback; the GLib main
    loop later delivers the completion by running that callback on the single
    main thread.  The embedding below keeps that shape:

    - the [AsyncRmContext] structs live in a heap indexed by address;
    - every [g_file_*_async] call appends an operation to the list of
      operations in flight (issue order);
    - one main-loop iteration picks any operation in flight, lets the
      environment decide whether it failed, and runs the callback of the
      source on the state;
    - [fatal_gerror] prints and exits the process.

    The filesystem below the path given on the command line is an
    environment parameter. *)

From stdpp Require Import gmap strings list fin_maps.
From Stdlib Require Import ZArith Lia.

Local Open Scope Z_scope.

(** ** GLib / GIO data *)

(** [guint] arithmetic: 32-bit unsigned, wrapping. *)
Definition guint_max : Z := 2 ^ 32.
Definition guint_wrap (z : Z) : Z := z mod guint_max.

Definition G_PRIORITY_DEFAULT : Z := 0.

Inductive GFileType :=
| G_FILE_TYPE_UNKNOWN
| G_FILE_TYPE_REGULAR
| G_FILE_TYPE_DIRECTORY
| G_FILE_TYPE_SYMBOLIC_LINK
| G_FILE_TYPE_SPECIAL
| G_FILE_TYPE_SHORTCUT
| G_FILE_TYPE_MOUNTABLE.

#[global] Instance GFileType_eq_dec : EqDecision GFileType.
Proof. solve_decision. Defined.

Inductive GFileQueryInfoFlags :=
| G_FILE_QUERY_INFO_NONE
| G_FILE_QUERY_INFO_NOFOLLOW_SYMLINKS.

#[global] Instance GFileQueryInfoFlags_eq_dec : EqDecision GFileQueryInfoFlags.
Proof. solve_decision. Defined.

Record GFileInfo := mkInfo {
  g_file_info_get_name : string;
  g_file_info_get_file_type : GFileType
}.

(** A [GFile] is a path handle: the string it was created from (NULL when
    [g_file_new_for_path] was given NULL) and the child names appended by
    [g_file_get_child]. *)
Record GFile := mkFile {
  g_file_base : option string;
  g_file_rel : list string
}.

#[global] Instance GFile_eq_dec : EqDecision GFile.
Proof. solve_decision. Defined.

Definition g_file_new_for_path (path : option string) : GFile :=
  mkFile path [].

Definition g_file_get_child (parent : GFile) (name : string) : GFile :=
  mkFile (g_file_base parent) (g_file_rel parent ++ [name]).

Record GError := mkError { error_message : string }.

(** A cancellation token is identified by a number. *)
Definition GCancellable := nat.

(** ** The filesystem (environment) *)

#[warnings="-register-all"]
Inductive fsnode :=
| FsRegular
| FsSpecial
| FsSymlink (target : list string)
| FsDir (entries : list (string * fsnode)).

Fixpoint lookup_entry (name : string) (es : list (string * fsnode)) : option fsnode :=
  match es with
  | [] => None
  | (n, x) :: es' => if decide (n = name) then Some x else lookup_entry name es'
  end.

Fixpoint fs_lookup (t : fsnode) (p : list string) : option fsnode :=
  match p with
  | [] => Some t
  | n :: p' =>
      match t with
      | FsDir es =>
          match lookup_entry n es with
          | Some x => fs_lookup x p'
          | None => None
          end
      | _ => None
      end
  end.

(** Number of filesystem entries in a tree, the root included. *)
Fixpoint count_entries (t : fsnode) : Z :=
  match t with
  | FsDir es =>
      1 + (fix go (l : list (string * fsnode)) : Z :=
             match l with
             | [] => 0
             | (_, x) :: l' => count_entries x + go l'
             end) es
  | _ => 1
  end.

Fixpoint count_list (es : list (string * fsnode)) : Z :=
  match es with
  | [] => 0
  | (_, x) :: es' => count_entries x + count_list es'
  end.

(** Sibling names are unique, at every level. *)
Fixpoint fs_wf (t : fsnode) : Prop :=
  match t with
  | FsDir es =>
      NoDup (map fst es) /\
      (fix go (l : list (string * fsnode)) : Prop :=
         match l with
         | [] => True
         | (_, x) :: l' => fs_wf x /\ go l'
         end) es
  | _ => True
  end.

Fixpoint fs_wf_list (es : list (string * fsnode)) : Prop :=
  match es with
  | [] => True
  | (_, x) :: es' => fs_wf x /\ fs_wf_list es'
  end.

(** The file type the listing reports for a node.  With
    [G_FILE_QUERY_INFO_NOFOLLOW_SYMLINKS] a symbolic link is reported as
    such; without it the type of the link's target is reported. *)
Definition plain_type (x : fsnode) : GFileType :=
  match x with
  | FsRegular => G_FILE_TYPE_REGULAR
  | FsSpecial => G_FILE_TYPE_SPECIAL
  | FsSymlink _ => G_FILE_TYPE_SYMBOLIC_LINK
  | FsDir _ => G_FILE_TYPE_DIRECTORY
  end.

Definition reported_type (top : fsnode) (flags : GFileQueryInfoFlags) (x : fsnode) : GFileType :=
  match x, flags with
  | FsSymlink target, G_FILE_QUERY_INFO_NONE =>
      match fs_lookup top target with
      | Some y => plain_type y
      | None => G_FILE_TYPE_SYMBOLIC_LINK
      end
  | _, _ => plain_type x
  end.

Definition list_directory (top : fsnode) (flags : GFileQueryInfoFlags)
    (es : list (string * fsnode)) : list GFileInfo :=
  map (fun e => mkInfo (fst e) (reported_type top flags (snd e))) es.

(** What a handle denotes: nothing for the NULL path, otherwise the node
    reached from the tree at the base path. *)
Definition resolve (top : fsnode) (f : GFile) : option fsnode :=
  match g_file_base f with
  | None => None
  | Some _ => fs_lookup top (g_file_rel f)
  end.

(** ** Program data *)

(** The callback and user data stored in a [GSimpleAsyncResult] by
    [rm_rf_async]: either [on_rm_rf_complete] with the parent context, or
    [on_rm_finished] with the main loop. *)
Inductive ResultCallback :=
| CbOnRmRfComplete (parent : nat)
| CbOnRmFinished.

Record GSimpleAsyncResult := mkResult {
  res_source_object : GFile;
  res_callback : ResultCallback;
  res_error : option GError
}.

Record AsyncRmContext := mkCtx {
  priority : Z;
  cancellable : option GCancellable;
  num_files_pending : Z;
  have_more_files : bool;
  file : GFile;
  result : GSimpleAsyncResult
}.

Record GFileEnumerator := mkEnum {
  g_file_enumerator_get_container : GFile;
  enum_rest : list GFileInfo
}.

Inductive DeleteCallback :=
| CbOnFileDeleted
| CbOnEndDirectoryDeleted.

#[global] Instance DeleteCallback_eq_dec : EqDecision DeleteCallback.
Proof. solve_decision. Defined.

(** Operations in flight.  The callback of [OpEnumerateChildren] is always
    [on_enumerate_children] and that of [OpNextFiles] is always
    [on_next_files]; [data] is the address of the context passed as user
    data. *)
Inductive Op :=
| OpEnumerateChildren (f : GFile) (attributes : string)
    (flags : GFileQueryInfoFlags) (io_priority : Z)
    (canc : option GCancellable) (data : nat)
| OpNextFiles (e : GFileEnumerator) (num_files : nat) (io_priority : Z)
    (canc : option GCancellable) (data : nat)
| OpDelete (f : GFile) (io_priority : Z) (canc : option GCancellable)
    (cb : DeleteCallback) (data : nat).

Definition op_data (o : Op) : nat :=
  match o with
  | OpEnumerateChildren _ _ _ _ _ d => d
  | OpNextFiles _ _ _ _ d => d
  | OpDelete _ _ _ _ d => d
  end.

Definition op_cancellable (o : Op) : option GCancellable :=
  match o with
  | OpEnumerateChildren _ _ _ _ c _ => c
  | OpNextFiles _ _ _ c _ => c
  | OpDelete _ _ c _ _ => c
  end.

Definition op_priority (o : Op) : Z :=
  match o with
  | OpEnumerateChildren _ _ _ p _ _ => p
  | OpNextFiles _ _ p _ _ => p
  | OpDelete _ p _ _ _ => p
  end.

(** Observable events, newest first in the trace. *)
Inductive Event :=
| EvIssue (o : Op)
| EvRemoved (f : GFile)
| EvComplete (c : nat) (r : GSimpleAsyncResult)
| EvPrint (n : Z)
| EvPrintErr (msg : string).

Inductive Status :=
| Running
| Exited (code : Z)
| Fault.

(** The program state.  [heap] holds the live [AsyncRmContext]s by
    address and [brk] is the address the next [g_new0] returns.  Addresses
    are names only: a fresh one for every allocation, where [malloc] may
    hand a freed one out again; their order means nothing in the
    program. *)
Record State := mkState {
  heap : gmap nat AsyncRmContext;
  brk : nat;
  inflight : list Op;
  files_deleted : Z;
  timeout_source : bool;
  loop_running : bool;
  status : Status;
  trace : list Event
}.

(** ** State updates *)

Definition set_heap (h : gmap nat AsyncRmContext) (st : State) : State :=
  mkState h (brk st) (inflight st) (files_deleted st) (timeout_source st)
    (loop_running st) (status st) (trace st).

Definition set_inflight (l : list Op) (st : State) : State :=
  mkState (heap st) (brk st) l (files_deleted st) (timeout_source st)
    (loop_running st) (status st) (trace st).

Definition set_status (s : Status) (st : State) : State :=
  mkState (heap st) (brk st) (inflight st) (files_deleted st)
    (timeout_source st) (loop_running st) s (trace st).

Definition emit (ev : Event) (st : State) : State :=
  mkState (heap st) (brk st) (inflight st) (files_deleted st)
    (timeout_source st) (loop_running st) (status st) (ev :: trace st).

(** [files_deleted++] on a [guint]. *)
Definition incr_files_deleted (st : State) : State :=
  mkState (heap st) (brk st) (inflight st) (guint_wrap (files_deleted st + 1))
    (timeout_source st) (loop_running st) (status st) (trace st).

(** Dereferencing a context that is not allocated. *)
Definition fault (st : State) : State := set_status Fault st.

(** Registering an asynchronous operation with the main loop. *)
Definition issue (o : Op) (st : State) : State :=
  emit (EvIssue o) (set_inflight (inflight st ++ [o]) st).

Definition g_file_delete_async (f : GFile) (io_priority : Z)
    (canc : option GCancellable) (cb : DeleteCallback) (data : nat)
    (st : State) : State :=
  issue (OpDelete f io_priority canc cb data) st.

Definition g_file_enumerator_next_files_async (e : GFileEnumerator)
    (num_files : nat) (io_priority : Z) (canc : option GCancellable)
    (data : nat) (st : State) : State :=
  issue (OpNextFiles e num_files io_priority canc data) st.

(** GIO returns at once, without registering anything, when the file is
    NULL ([g_return_if_fail (G_IS_FILE (file))]). *)
Definition g_file_enumerate_children_async (f : GFile) (attributes : string)
    (flags : GFileQueryInfoFlags) (io_priority : Z)
    (canc : option GCancellable) (data : nat) (st : State) : State :=
  match g_file_base f with
  | None => st
  | Some _ => issue (OpEnumerateChildren f attributes flags io_priority canc data) st
  end.

Definition g_main_loop_quit (st : State) : State :=
  mkState (heap st) (brk st) (inflight st) (files_deleted st)
    (timeout_source st) false (status st) (trace st).

Definition g_free (data : nat) (st : State) : State :=
  set_heap (delete data (heap st)) st.

(** ** The program *)

(** [fatal_gerror]: print the message on the error stream, [exit (1)]. *)
Definition fatal_gerror (error : GError) (st : State) : State :=
  set_status (Exited 1) (emit (EvPrintErr (error_message error)) st).

Definition check_no_children (data : nat) (st : State) : State :=
  match heap st !! data with
  | None => fault st
  | Some d =>
      if (num_files_pending d =? 0) && negb (have_more_files d)
      then g_file_delete_async (file d) (priority d) (cancellable d)
             CbOnEndDirectoryDeleted data st
      else st
  end.

(** [data->num_files_pending--] on a [guint]. *)
Definition decr_pending (data : nat) (st : State) : State :=
  match heap st !! data with
  | None => fault st
  | Some d =>
      set_heap (<[data := mkCtx (priority d) (cancellable d)
                            (guint_wrap (num_files_pending d - 1))
                            (have_more_files d) (file d) (result d)]> (heap st)) st
  end.

(** [data->num_files_pending++] on a [guint]. *)
Definition incr_pending (data : nat) (st : State) : State :=
  match heap st !! data with
  | None => fault st
  | Some d =>
      set_heap (<[data := mkCtx (priority d) (cancellable d)
                            (guint_wrap (num_files_pending d + 1))
                            (have_more_files d) (file d) (result d)]> (heap st)) st
  end.

Definition set_have_more_files (data : nat) (b : bool) (st : State) : State :=
  match heap st !! data with
  | None => fault st
  | Some d =>
      set_heap (<[data := mkCtx (priority d) (cancellable d)
                            (num_files_pending d) b (file d) (result d)]> (heap st)) st
  end.

(** [rm_rf_finish]: the error propagated from the result, if any ([None]
    when the function returns TRUE). *)
Definition rm_rf_finish (r : GSimpleAsyncResult) : option GError :=
  res_error r.

Definition on_file_deleted (object : GFile) (failure : option GError)
    (data : nat) (st : State) : State :=
  match failure with
  | Some e => fatal_gerror e st
  | None =>
      let st := emit (EvRemoved object) st in
      let st := incr_files_deleted st in
      let st := decr_pending data st in
      check_no_children data st
  end.

Definition on_rm_rf_complete (r : GSimpleAsyncResult) (data : nat)
    (st : State) : State :=
  match rm_rf_finish r with
  | Some e => fatal_gerror e st
  | None =>
      let st := decr_pending data st in
      check_no_children data st
  end.

Definition on_rm_finished (r : GSimpleAsyncResult) (st : State) : State :=
  match rm_rf_finish r with
  | Some e => fatal_gerror e st
  | None => g_main_loop_quit st
  end.

(** [g_simple_async_result_complete] runs the stored callback at once, on
    the caller's stack. *)
Definition g_simple_async_result_complete (r : GSimpleAsyncResult)
    (st : State) : State :=
  match res_callback r with
  | CbOnRmRfComplete parent => on_rm_rf_complete r parent st
  | CbOnRmFinished => on_rm_finished r st
  end.

Definition on_end_directory_deleted (f : GFile) (failure : option GError)
    (data : nat) (st : State) : State :=
  match failure with
  | Some e => fatal_gerror e st
  | None =>
      let st := emit (EvRemoved f) st in
      let st := incr_files_deleted st in
      match heap st !! data with
      | None => fault st
      | Some d =>
          let st := emit (EvComplete data (result d)) st in
          let st := g_simple_async_result_complete (result d) st in
          match status st with
          | Running => g_free data st
          | _ => st
          end
      end
  end.

Definition rm_rf_async (f : GFile) (io_priority : Z)
    (canc : option GCancellable) (callback : ResultCallback)
    (st : State) : State :=
  let data := brk st in
  let d := mkCtx io_priority canc 0 false f (mkResult f callback None) in
  let st := mkState (<[data := d]> (heap st)) (S data) (inflight st)
              (files_deleted st) (timeout_source st) (loop_running st)
              (status st) (trace st) in
  g_file_enumerate_children_async (file d) "standard::name,standard::type"
    G_FILE_QUERY_INFO_NOFOLLOW_SYMLINKS io_priority canc data st.

(** One turn of the [for] loop of [on_next_files]. *)
Definition dispatch_entry (parent : GFile) (data : nat) (st : State)
    (file_info : GFileInfo) : State :=
  let f := g_file_get_child parent (g_file_info_get_name file_info) in
  let st := incr_pending data st in
  match heap st !! data with
  | None => fault st
  | Some d =>
      if decide (g_file_info_get_file_type file_info = G_FILE_TYPE_DIRECTORY)
      then rm_rf_async f (priority d) (cancellable d) (CbOnRmRfComplete data) st
      else g_file_delete_async f (priority d) None CbOnFileDeleted data st
  end.

(** [g_file_enumerator_next_files_finish]: up to [num_files] entries, and
    the enumerator advanced past them. *)
Definition g_file_enumerator_next_files_finish (e : GFileEnumerator)
    (num_files : nat) : list GFileInfo * GFileEnumerator :=
  (take num_files (enum_rest e),
   mkEnum (g_file_enumerator_get_container e) (drop num_files (enum_rest e))).

(** The first half of [on_next_files]: the [if (files) ... else ...]. *)
Definition on_next_files_head (files : list GFileInfo) (e : GFileEnumerator)
    (data : nat) (st : State) : State :=
  match files with
  | _ :: _ =>
      let st := set_have_more_files data true st in
      g_file_enumerator_next_files_async e 20 G_PRIORITY_DEFAULT None data st
  | [] =>
      let st := set_have_more_files data false st in
      check_no_children data st
  end.

Definition on_next_files (e : GFileEnumerator) (num_files : nat)
    (failure : option GError) (data : nat) (st : State) : State :=
  match failure with
  | Some err => fatal_gerror err st
  | None =>
      let '(files, e') := g_file_enumerator_next_files_finish e num_files in
      let st := on_next_files_head files e' data st in
      let parent := g_file_enumerator_get_container e' in
      fold_left (dispatch_entry parent data) files st
  end.

Section Engine.

(** The entry found at the path given on the command line, the path taken
    as it stands: [top] is a directory when the path names a directory
    itself.  A path that is a symbolic link to a directory is outside this
    model ([opendir] goes through such a link, and the final delete removes
    the link); [FsSymlink] at the top stands for a link to something that
    is not a directory. *)
Variable top : fsnode.

(** [g_file_enumerate_children_finish]: the enumerator over the
    directory's entries, or the error. *)
Definition g_file_enumerate_children_finish (f : GFile)
    (flags : GFileQueryInfoFlags) (failure : option GError)
    : GError + GFileEnumerator :=
  match failure with
  | Some e => inl e
  | None =>
      match resolve top f with
      | Some (FsDir es) => inr (mkEnum f (list_directory top flags es))
      | Some _ => inl (mkError "Error opening directory: Not a directory")
      | None => inl (mkError "Error opening directory: No such file or directory")
      end
  end.

Definition on_enumerate_children (f : GFile) (flags : GFileQueryInfoFlags)
    (failure : option GError) (data : nat) (st : State) : State :=
  match g_file_enumerate_children_finish f flags failure with
  | inl e => fatal_gerror e st
  | inr enumerator =>
      match heap st !! data with
      | None => fault st
      | Some d =>
          g_file_enumerator_next_files_async enumerator 20 (priority d)
            (cancellable d) data st
      end
  end.

(** Delivering the completion of an operation runs its callback. *)
Definition deliver (o : Op) (failure : option GError) (st : State) : State :=
  match o with
  | OpEnumerateChildren f _ flags _ _ data =>
      on_enumerate_children f flags failure data st
  | OpNextFiles e num_files _ _ data =>
      on_next_files e num_files failure data st
  | OpDelete f _ _ CbOnFileDeleted data =>
      on_file_deleted f failure data st
  | OpDelete f _ _ CbOnEndDirectoryDeleted data =>
      on_end_directory_deleted f failure data st
  end.

End Engine.

(** ** The process *)

(** [print_progress]: prints the counter and returns FALSE. *)
Definition print_progress (st : State) : State * bool :=
  (emit (EvPrint (files_deleted st)) st, false).

(** GLib removes a timeout source whose callback returns FALSE. *)
Definition timeout_dispatch (st : State) : State :=
  if timeout_source st then
    let '(st', again) := print_progress st in
    mkState (heap st') (brk st') (inflight st') (files_deleted st') again
      (loop_running st') (status st') (trace st')
  else st.

(** [argv[i]]: the argument, NULL at index [argc], nothing beyond. *)
Definition argv_get (argv : list string) (i : nat) : option (option string) :=
  match argv !! i with
  | Some s => Some (Some s)
  | None => if decide (i = length argv) then Some None else None
  end.

(** [main] up to the call of [g_main_loop_run]. *)
Definition main_start_path (path_arg : option string) : State :=
  let st := mkState ∅ 0%nat [] 0 false true Running [] in
  let path := g_file_new_for_path path_arg in
  let st := rm_rf_async path G_PRIORITY_DEFAULT None CbOnRmFinished st in
  mkState (heap st) (brk st) (inflight st) (files_deleted st) true
    (loop_running st) (status st) (trace st).

Definition main_start (argv : list string) : option State :=
  match argv_get argv 1 with
  | Some path_arg => Some (main_start_path path_arg)
  | None => None
  end.

(** [main] after [g_main_loop_run] has returned. *)
Definition main_finish (st : State) : State :=
  let '(st', _) := print_progress st in
  set_status (Exited 0) st'.

(** What the main loop does in one iteration: a timer tick, or the
    completion of the [i]-th operation in flight, failed or not. *)
Inductive Choice :=
| Tick
| Complete (i : nat) (failure : option GError).

Definition main_loop_iterate (top : fsnode) (c : Choice) (st : State) : State :=
  match c with
  | Tick => timeout_dispatch st
  | Complete i failure =>
      match inflight st !! i with
      | None => st
      | Some o => deliver top o failure (set_inflight (delete i (inflight st)) st)
      end
  end.

Definition step (top : fsnode) (st : State) (c : Choice) : State :=
  match status st with
  | Running =>
      let st := main_loop_iterate top c st in
      match status st with
      | Running => if loop_running st then st else main_finish st
      | _ => st
      end
  | _ => st
  end.

Definition run (top : fsnode) (st : State) (cs : list Choice) : State :=
  fold_left (step top) cs st.

(** ** Schedules and sample trees *)

Definition ok (i : nat) : Choice := Complete i None.

Definition root_file : GFile := g_file_new_for_path (Some "root"%string).

Definition tree_empty : fsnode := FsDir [].

Definition tree_one_file : fsnode := FsDir [("a.txt"%string, FsRegular)].

Definition tree_nested : fsnode :=
  FsDir [("a.txt"%string, FsRegular);
         ("sub"%string, FsDir [("b.txt"%string, FsRegular);
                               ("c.txt"%string, FsRegular)])].

(** The engine started on [root_file] with a given priority and token, as a
    caller other than [main] may do. *)
Definition engine_start (io_priority : Z) (canc : option GCancellable) : State :=
  rm_rf_async root_file io_priority canc CbOnRmFinished
    (mkState ∅ 0%nat [] 0 false true Running []).

(** ** Reading the trace *)

Definition is_print (ev : Event) : bool :=
  match ev with EvPrint _ => true | _ => false end.

Definition is_print_err (ev : Event) : bool :=
  match ev with EvPrintErr _ => true | _ => false end.

Definition is_complete (ev : Event) : bool :=
  match ev with EvComplete _ _ => true | _ => false end.

Definition is_removed (ev : Event) : bool :=
  match ev with EvRemoved _ => true | _ => false end.

(** The completion callback of context [c] was invoked. *)
Definition is_complete_of (c : nat) (ev : Event) : bool :=
  match ev with EvComplete c' _ => bool_decide (c' = c) | _ => false end.

Definition count_events (p : Event -> bool) (t : list Event) : Z :=
  foldr (fun ev acc => (if p ev then 1 else 0) + acc) 0 t.

(** Sum of a weight over the operations issued so far. *)
Definition tsum (w : Op -> Z) (t : list Event) : Z :=
  foldr (fun ev acc => match ev with EvIssue o => w o | _ => 0 end + acc) 0 t.

(** The top-level completion notification was delivered with an error
    payload. *)
Definition notified_with_error (st : State) : Prop :=
  exists c r e, EvComplete c r ∈ trace st /\
                res_callback r = CbOnRmFinished /\ res_error r = Some e.

Definition is_batch_request (o : Op) : bool :=
  match o with OpNextFiles _ _ _ _ _ => true | _ => false end.

(** The operations a callback has added to those in flight. *)
Definition issued_by (before after : State) : list Op :=
  drop (length (inflight before)) (inflight after).

(** In a list of operations in issue order, every request for a batch comes
    after every other operation. *)
Definition request_after_dispatch (ops : list Op) : Prop :=
  forall i j o1 o2,
    ops !! i = Some o1 -> ops !! j = Some o2 ->
    is_batch_request o1 = true -> is_batch_request o2 = false ->
    (j < i)%nat.

(** ** Counting operations and contexts *)

Definition b2z (b : bool) : Z := if b then 1 else 0.

(** Sum of a weight over the operations in flight. *)
Definition osum (w : Op -> Z) (l : list Op) : Z :=
  foldr (fun o acc => w o + acc) 0 l.

(** Sum of a weight over the contexts allocated below address [n]. *)
Definition hsum (w : AsyncRmContext -> Z) (h : gmap nat AsyncRmContext) (n : nat) : Z :=
  foldr (fun i acc => from_option w 0 (h !! i) + acc) 0 (seq 0 n).

(** Leaf deletes in flight on behalf of context [c]. *)
Definition leaf_op_of (c : nat) (o : Op) : Z :=
  match o with
  | OpDelete _ _ _ CbOnFileDeleted d => b2z (bool_decide (d = c))
  | _ => 0
  end.

(** Listing operations (open or batch) in flight for context [c]. *)
Definition listing_op_of (c : nat) (o : Op) : Z :=
  match o with
  | OpEnumerateChildren _ _ _ _ _ d => b2z (bool_decide (d = c))
  | OpNextFiles _ _ _ _ d => b2z (bool_decide (d = c))
  | _ => 0
  end.

(** Deletes of context [c]'s own directory in flight. *)
Definition end_op_of (c : nat) (o : Op) : Z :=
  match o with
  | OpDelete _ _ _ CbOnEndDirectoryDeleted d => b2z (bool_decide (d = c))
  | _ => 0
  end.

(** Contexts whose completion callback is [on_rm_rf_complete] on [c]. *)
Definition child_ctx_of (c : nat) (d : AsyncRmContext) : Z :=
  match res_callback (result d) with
  | CbOnRmRfComplete p => b2z (bool_decide (p = c))
  | CbOnRmFinished => 0
  end.

(** Child operations of context [c] scheduled and not yet completed. *)
Definition children_in_flight (st : State) (c : nat) : Z :=
  osum (leaf_op_of c) (inflight st) + hsum (child_ctx_of c) (heap st) (brk st).

Definition listing_in_flight (st : State) (c : nat) : Z :=
  osum (listing_op_of c) (inflight st).

Definition end_in_flight (st : State) (c : nat) : Z :=
  osum (end_op_of c) (inflight st).

(** ** Entries still to delete *)

(** Entries strictly below a directory handle. *)
Definition entries_below (top : fsnode) (f : GFile) : Z :=
  match resolve top f with
  | Some (FsDir es) => count_list es
  | _ => 0
  end.

(** Entries a listed entry stands for: itself, and what is below it when it
    is reported as a directory. *)
Definition info_weight (top : fsnode) (parent : GFile) (i : GFileInfo) : Z :=
  if decide (g_file_info_get_file_type i = G_FILE_TYPE_DIRECTORY)
  then 1 + entries_below top (g_file_get_child parent (g_file_info_get_name i))
  else 1.

Definition infos_weight (top : fsnode) (parent : GFile) (l : list GFileInfo) : Z :=
  foldr (fun i acc => info_weight top parent i + acc) 0 l.

Definition op_weight (top : fsnode) (o : Op) : Z :=
  match o with
  | OpEnumerateChildren f _ _ _ _ _ => entries_below top f
  | OpNextFiles e _ _ _ _ =>
      infos_weight top (g_file_enumerator_get_container e) (enum_rest e)
  | OpDelete _ _ _ CbOnFileDeleted _ => 1
  | OpDelete _ _ _ CbOnEndDirectoryDeleted _ => 0
  end.

(** Entries not yet deleted, as the state accounts for them: the weight of
    the operations in flight plus one per live context (its directory). *)
Definition remaining (top : fsnode) (st : State) : Z :=
  osum (op_weight top) (inflight st) + hsum (fun _ => 1) (heap st) (brk st).

(** ** The invariant *)

(** An operation in flight refers to a live context and agrees with it. *)
Definition op_ok (h : gmap nat AsyncRmContext) (o : Op) : Prop :=
  exists d, h !! op_data o = Some d /\
    match o with
    | OpEnumerateChildren f _ flags _ _ _ =>
        flags = G_FILE_QUERY_INFO_NOFOLLOW_SYMLINKS /\ f = file d
    | OpNextFiles e n _ _ _ =>
        (0 < n)%nat /\ g_file_enumerator_get_container e = file d
    | OpDelete f _ _ CbOnEndDirectoryDeleted _ => f = file d
    | OpDelete f _ _ CbOnFileDeleted _ => True
    end.

(** The fields of a context that never change. *)
Definition ctx_static_ok (h : gmap nat AsyncRmContext) (c : nat)
    (d : AsyncRmContext) : Prop :=
  res_error (result d) = None /\
  res_source_object (result d) = file d /\
  g_file_base (file d) <> None /\
  match res_callback (result d) with
  | CbOnRmRfComplete p => (p < c)%nat /\ is_Some (h !! p)
  | CbOnRmFinished => c = 0%nat
  end.

(** The counters of a context against the operations in flight: [ci] child
    operations, [l] listing operations, [e] deletes of its directory.
    Between the completion of a child operation (or the end of the listing)
    and the check that follows, the context is in a relaxed state: [owed]
    is then [Some k], where [k] is the number of decrements still to
    come. *)
Definition ctx_num_ok (owed : option Z) (d : AsyncRmContext) (ci l e : Z) : Prop :=
  num_files_pending d = ci + default 0 owed /\
  0 <= ci /\ 0 <= l /\ 0 <= e /\
  l + e <= 1 /\
  (have_more_files d = true -> l = 1) /\
  (l = 1 -> have_more_files d = true \/ ci = 0) /\
  (e = 1 -> ci = 0) /\
  (owed = None -> l + e = 0 -> 0 < ci) /\
  (owed <> None -> e = 0 /\ (l = 1 -> have_more_files d = true)).

(** The relaxed context, if any, and what it is owed. *)
Definition owed_at (lax : option (nat * Z)) (c : nat) : option Z :=
  match lax with
  | Some (c', k) => if decide (c' = c) then Some k else None
  | None => None
  end.

Record Inv (top : fsnode) (total credit : Z) (lax : option (nat * Z)) (st : State) : Prop := mkInv {
  inv_fresh : forall c, (brk st <= c)%nat -> heap st !! c = None;
  inv_ops : Forall (op_ok (heap st)) (inflight st);
  inv_static : forall c d, heap st !! c = Some d -> ctx_static_ok (heap st) c d;
  inv_num : forall c d, heap st !! c = Some d ->
      ctx_num_ok (owed_at lax c) d
        (children_in_flight st c) (listing_in_flight st c) (end_in_flight st c);
  inv_pot : files_deleted st + remaining top st + credit = total;
  inv_credit : 0 <= credit;
  inv_files : 0 <= files_deleted st;
  inv_total : total < guint_max;
  inv_loop : loop_running st = true;
  inv_status : status st = Running
}.

(** [main] has returned 0: everything was deleted and nothing is left in
    flight. *)
Definition Finished (total : Z) (st : State) : Prop :=
  status st = Exited 0 /\ files_deleted st = total /\
  inflight st = [] /\ heap st = ∅.

(** What holds between two iterations of the main loop. *)
Definition Good (top : fsnode) (total : Z) (st : State) : Prop :=
  Inv top total 0 None st \/ Finished total st \/ status st = Exited 1.

(** ** What a callback may do besides completing its operation

    [extends st st']: from [st] to [st'] operations were issued (each with
    its trace event, in order) and contexts were allocated or had their
    counters updated; nothing was deleted, printed, completed or freed.
    A context allocated on the way has its listing being opened (unless its
    file is NULL). *)
Record extends (st st' : State) : Prop := mkExtends {
  ext_ops : exists ops, inflight st' = inflight st ++ ops /\
                        trace st' = map EvIssue (rev ops) ++ trace st;
  ext_files : files_deleted st' = files_deleted st;
  ext_timeout : timeout_source st' = timeout_source st;
  ext_loop : loop_running st' = loop_running st;
  ext_heap : forall c d, heap st !! c = Some d ->
      exists d', heap st' !! c = Some d' /\ file d' = file d /\
                 result d' = result d;
  ext_brk : (brk st <= brk st')%nat;
  ext_new : forall c, (brk st <= c)%nat -> (c < brk st')%nat ->
      exists d, heap st' !! c = Some d /\
        (g_file_base (file d) = None \/
         exists a fl p cc, OpEnumerateChildren (file d) a fl p cc c ∈ inflight st');
  ext_old : forall c, (c < brk st)%nat -> is_Some (heap st' !! c) ->
      is_Some (heap st !! c)
}.

(** Addresses from [brk] on are not allocated. *)
Definition fresh (st : State) : Prop :=
  forall c, (brk st <= c)%nat -> heap st !! c = None.

(** The state once the [i]-th operation in flight has been taken out for
    delivery. *)
Definition taken (i : nat) (st : State) : State :=
  set_inflight (delete i (inflight st)) st.

(** A directory was deleted: what [on_end_directory_deleted] has done when
    it calls [g_simple_async_result_complete]. *)
Definition directory_gone (f : GFile) (c : nat) (d : AsyncRmContext)
    (st : State) : State :=
  emit (EvComplete c (result d))
    (incr_files_deleted (emit (EvRemoved f) st)).

(** ** The iterations of the main loop, case by case

    What one iteration does from a state that satisfies the invariant:
    the dereferences succeed and every callback takes a known path. *)
Inductive transition (top : fsnode) (st st' : State) : Prop :=
| tr_idle :
    st' = st -> transition top st st'
| tr_tick :
    timeout_source st = true ->
    st' = timeout_dispatch st -> transition top st st'
| tr_fail i o e :
    inflight st !! i = Some o ->
    st' = fatal_gerror e (taken i st) -> transition top st st'
| tr_enumerate i f a fl p cc c d es :
    inflight st !! i = Some (OpEnumerateChildren f a fl p cc c) ->
    heap st !! c = Some d ->
    resolve top f = Some (FsDir es) ->
    st' = g_file_enumerator_next_files_async
            (mkEnum f (list_directory top fl es)) 20 (priority d)
            (cancellable d) c (taken i st) ->
    transition top st st'
| tr_next_files i e n p cc c :
    inflight st !! i = Some (OpNextFiles e n p cc c) ->
    st' = on_next_files e n None c (taken i st) ->
    transition top st st'
| tr_leaf i f p cc c :
    inflight st !! i = Some (OpDelete f p cc CbOnFileDeleted c) ->
    files_deleted st + 1 < guint_max ->
    st' = on_file_deleted f None c (taken i st) ->
    transition top st st'
| tr_end_child i f p cc c d q :
    inflight st !! i = Some (OpDelete f p cc CbOnEndDirectoryDeleted c) ->
    heap st !! c = Some d ->
    res_callback (result d) = CbOnRmRfComplete q ->
    files_deleted st + 1 < guint_max ->
    st' = g_free c (on_rm_rf_complete (result d) q
                      (directory_gone f c d (taken i st))) ->
    transition top st st'
| tr_end_root i f p cc d :
    inflight st !! i = Some (OpDelete f p cc CbOnEndDirectoryDeleted 0) ->
    heap st !! 0%nat = Some d ->
    res_callback (result d) = CbOnRmFinished ->
    files_deleted st + 1 < guint_max ->
    st' = main_finish (g_free 0 (g_main_loop_quit
                         (directory_gone f 0 d (taken i st)))) ->
    transition top st st'.

(** ** What the trace must look like *)

(** Every completion callback follows the delete of its own directory and
    carries no error; every delete of a directory is issued after the
    entries of that directory have been removed. *)
Fixpoint trace_ok (top : fsnode) (t : list Event) : Prop :=
  match t with
  | [] => True
  | ev :: pre =>
      match ev with
      | EvComplete c r =>
          res_error r = None /\
          exists pre', pre = EvRemoved (res_source_object r) :: pre'
      | EvIssue (OpDelete f _ _ CbOnEndDirectoryDeleted _) =>
          forall es n x, resolve top f = Some (FsDir es) -> (n, x) ∈ es ->
            EvRemoved (g_file_get_child f n) ∈ pre
      | _ => True
      end /\ trace_ok top pre
  end.

(** An operation in flight that accounts for the entry [name] (handle
    [child]) of context [c]'s directory. *)
Definition op_covers (c : nat) (child : GFile) (name : string) (o : Op) : Prop :=
  match o with
  | OpEnumerateChildren _ _ _ _ _ k => k = c
  | OpNextFiles e _ _ _ k =>
      k = c /\ name ∈ map g_file_info_get_name (enum_rest e)
  | OpDelete f _ _ CbOnFileDeleted k => k = c /\ f = child
  | OpDelete _ _ _ CbOnEndDirectoryDeleted _ => False
  end.

(** The entry is still to be listed or dispatched, or is being deleted, or
    has been removed. *)
Definition covered (st : State) (c : nat) (child : GFile) (name : string) : Prop :=
  (exists o, o ∈ inflight st /\ op_covers c child name o) \/
  (exists k dk, heap st !! k = Some dk /\ file dk = child /\
                res_callback (result dk) = CbOnRmRfComplete c) \/
  EvRemoved child ∈ trace st.

(** Every entry of every directory being deleted is accounted for. *)
Definition cover_all (top : fsnode) (st : State) : Prop :=
  forall c d es n x,
    heap st !! c = Some d -> resolve top (file d) = Some (FsDir es) ->
    (n, x) ∈ es -> covered st c (g_file_get_child (file d) n) n.

(** The trace against the state, while the loop runs. *)
Record J (top : fsnode) (st : State) : Prop := mkJ {
  j_files : files_deleted st = count_events is_removed (trace st);
  j_noerr : count_events is_print_err (trace st) = 0;
  j_prints : count_events is_print (trace st) + b2z (timeout_source st) <= 1;
  j_issue_end : forall c,
      tsum (end_op_of c) (trace st) =
      end_in_flight st c + count_events (is_complete_of c) (trace st);
  j_completed : forall c,
      count_events (is_complete_of c) (trace st) =
      match heap st !! c with
      | Some _ => 0
      | None => if decide (c < brk st)%nat then 1 else 0
      end;
  j_trace : trace_ok top (trace st);
  j_cover : cover_all top st;
  j_root : is_Some (heap st !! 0%nat)
}.

(** What holds of every state the process reaches. *)
Record Facts (top : fsnode) (total : Z) (st : State) : Prop := mkFacts {
  f_trace : trace_ok top (trace st);
  f_issue_once : forall c, tsum (end_op_of c) (trace st) <= 1;
  f_sink_once : forall c, count_events (is_complete_of c) (trace st) <= 1;
  f_files : files_deleted st = count_events is_removed (trace st);
  f_prints : count_events is_print (trace st) <= 2;
  f_status :
    match status st with
    | Running => count_events is_print_err (trace st) = 0
    | Exited code =>
        (code = 0 /\ count_events is_print_err (trace st) = 0 /\
         files_deleted st = total /\
         (exists t, trace st = EvPrint total :: t) /\
         forall c, (c < brk st)%nat ->
           tsum (end_op_of c) (trace st) = 1 /\
           count_events (is_complete_of c) (trace st) = 1) \/
        (code = 1 /\ count_events is_print_err (trace st) = 1 /\
         exists msg t, trace st = EvPrintErr msg :: t)
    | Fault => False
    end
}.

(** Freeing a context, or none. *)
Definition g_free_opt (fc : option nat) (st : State) : State :=
  match fc with
  | Some c => g_free c st
  | None => st
  end.

(** The process has stopped, with what is known of its last state. *)
Definition Stopped (top : fsnode) (total : Z) (st : State) : Prop :=
  Facts top total st /\ (Finished total st \/ status st = Exited 1).

(** Every reachable state is of one of two kinds. *)
Definition Reach (top : fsnode) (total : Z) (st : State) : Prop :=
  (Inv top total 0 None st /\ J top st) \/ Stopped top total st.

(** A run in which the delete of the only file fails. *)
Definition failing_run : State :=
  run tree_one_file (main_start_path (Some "root"%string))
    [ok 0%nat; ok 0%nat; Complete 1 (Some (mkError "Permission denied"))].

(** The state in which the first batch of [tree_one_file] is about to be
    delivered. *)
Definition first_batch_pending : State :=
  run tree_one_file (main_start_path (Some "root"%string)) [ok 0%nat].

(** The values printed on the output stream, oldest first. *)
Definition trace_prints (st : State) : list Z :=
  omap (fun ev => match ev with EvPrint n => Some n | _ => None end)
    (rev (trace st)).

(** The operations the loop of [on_next_files] issues for a batch, in
    order: a listing for each entry reported as a directory (its context
    at the next free address), a delete for any other entry. *)
Fixpoint dispatched_ops (parent : GFile) (prio : Z)
    (canc : option GCancellable) (data next : nat)
    (files : list GFileInfo) : list Op :=
  match files with
  | [] => []
  | info :: rest =>
      let f := g_file_get_child parent (g_file_info_get_name info) in
      if decide (g_file_info_get_file_type info = G_FILE_TYPE_DIRECTORY)
      then OpEnumerateChildren f "standard::name,standard::type"
             G_FILE_QUERY_INFO_NOFOLLOW_SYMLINKS prio canc next
           :: dispatched_ops parent prio canc data (S next) rest
      else OpDelete f prio None CbOnFileDeleted data
           :: dispatched_ops parent prio canc data next rest
  end.

(** ** Listings and the filesystem *)

Definition is_dir (top : fsnode) (f : GFile) : Prop :=
  exists es, resolve top f = Some (FsDir es).

(** A listing is opened without following symbolic links and, the handle
    made from the command line apart, on a directory; the entries an
    enumerator reports as directories are directories. *)
Definition op_fs_ok (top : fsnode) (o : Op) : Prop :=
  match o with
  | OpEnumerateChildren f _ fl _ _ c =>
      fl = G_FILE_QUERY_INFO_NOFOLLOW_SYMLINKS /\
      (g_file_rel f = [] \/ is_dir top f)
  | OpNextFiles e _ _ _ _ =>
      forall info, info ∈ enum_rest e ->
        g_file_info_get_file_type info = G_FILE_TYPE_DIRECTORY ->
        is_dir top (g_file_get_child (g_file_enumerator_get_container e)
                      (g_file_info_get_name info))
  | OpDelete _ _ _ _ _ => True
  end.

Definition K (top : fsnode) (st : State) : Prop :=
  Forall (op_fs_ok top) (inflight st) /\
  forall o, EvIssue o ∈ trace st -> op_fs_ok top o.

Definition is_delete (o : Op) : Prop :=
  match o with OpDelete _ _ _ _ _ => True | _ => False end.

(** The schedule that always delivers the oldest operation in flight,
    successfully. *)
Definition oldest_first (n : nat) : list Choice := repeat (ok 0%nat) n.

(** A directory holding a symbolic link to its own sub-directory. *)
Definition tree_with_link : fsnode :=
  FsDir [("lnk"%string, FsSymlink ["sub"%string]);
         ("sub"%string, FsDir [("f"%string, FsRegular)])].

(** [tree_nested] with its listing delivered and its entries dispatched. *)
Definition nested_dispatched : State :=
  run tree_nested (main_start_path (Some "root"%string)) (oldest_first 2).

(** The complete run on [tree_nested]. *)
Definition nested_done : State :=
  run tree_nested (main_start_path (Some "root"%string)) (oldest_first 13).

(** ** Work still to do *)

(** Deliveries an entry waiting in a batch still stands for: for a file
    its delete; for a directory its listing, its batches and its own
    delete, and as much for everything below it. *)
Definition info_cost (top : fsnode) (parent : GFile) (i : GFileInfo) : Z :=
  if decide (g_file_info_get_file_type i = G_FILE_TYPE_DIRECTORY)
  then 4 + 4 * entries_below top (g_file_get_child parent (g_file_info_get_name i))
  else 2.

Definition infos_cost (top : fsnode) (parent : GFile) (l : list GFileInfo) : Z :=
  foldr (fun i acc => info_cost top parent i + acc) 0 l.

Definition op_cost (top : fsnode) (o : Op) : Z :=
  match o with
  | OpEnumerateChildren f _ _ _ _ _ => 4 * entries_below top f + 2
  | OpNextFiles e _ _ _ _ =>
      1 + infos_cost top (g_file_enumerator_get_container e) (enum_rest e)
  | OpDelete _ _ _ CbOnFileDeleted _ => 1
  | OpDelete _ _ _ CbOnEndDirectoryDeleted _ => 0
  end.

(** A bound on the deliveries still to come: the cost of the operations in
    flight plus one per live context. *)
Definition work (top : fsnode) (st : State) : Z :=
  osum (op_cost top) (inflight st) + hsum (fun _ => 1) (heap st) (brk st).

(** Completions delivered by a schedule. *)
Definition is_delivery (ch : Choice) : bool :=
  match ch with Tick => false | Complete _ _ => true end.

Definition deliveries (cs : list Choice) : Z :=
  Z.of_nat (length (List.filter is_delivery cs)).

(** A schedule in which every operation succeeds: while the process runs,
    each iteration is a timer tick or the successful completion of an
    operation in flight. *)
Fixpoint all_succeed (top : fsnode) (st : State) (cs : list Choice) : Prop :=
  match cs with
  | [] => True
  | ch :: cs' =>
      (status st = Running ->
       ch = Tick \/
       exists i, ch = Complete i None /\ (i < length (inflight st))%nat) /\
      all_succeed top (step top st ch) cs'
  end.

(** ** What the operations are issued on *)

Definition is_leaf (top : fsnode) (f : GFile) : Prop :=
  exists x, resolve top f = Some x /\ plain_type x <> G_FILE_TYPE_DIRECTORY.

(** Every operation is issued on an entry of the tree: a listing and the
    delete of a context's own directory on a directory, the delete of a
    leaf on an entry that is not a directory; and an enumerator reports
    entries of its directory with their own types. *)
Definition op_target_ok (top : fsnode) (o : Op) : Prop :=
  match o with
  | OpEnumerateChildren f _ _ _ _ _ => is_dir top f
  | OpNextFiles e _ _ _ _ =>
      forall info, info ∈ enum_rest e ->
        exists x,
          resolve top (g_file_get_child (g_file_enumerator_get_container e)
                         (g_file_info_get_name info)) = Some x /\
          g_file_info_get_file_type info = plain_type x
  | OpDelete f _ _ CbOnFileDeleted _ => is_leaf top f
  | OpDelete f _ _ CbOnEndDirectoryDeleted _ => is_dir top f
  end.

Definition Targets (top : fsnode) (st : State) : Prop :=
  Forall (op_target_ok top) (inflight st) /\
  (forall o, EvIssue o ∈ trace st -> op_target_ok top o) /\
  (forall c d, heap st !! c = Some d -> is_dir top (file d)).

(** Whenever a directory has been removed, its entries had been. *)
Definition children_first (top : fsnode) (st : State) : Prop :=
  forall f es n x,
    EvRemoved f ∈ trace st -> resolve top f = Some (FsDir es) ->
    (n, x) ∈ es -> EvRemoved (g_file_get_child f n) ∈ trace st.

(** The handles removed so far, newest first. *)
Definition removed_files (st : State) : list GFile :=
  omap (fun ev => match ev with EvRemoved f => Some f | _ => None end)
    (trace st).

(** The paths of all the entries of a tree, relative to its root (the
    root itself is the empty path). *)
Fixpoint all_paths (t : fsnode) : list (list string) :=
  [] :: match t with
        | FsDir es =>
            (fix go (l : list (string * fsnode)) : list (list string) :=
               match l with
               | [] => []
               | (n, x) :: l' => map (cons n) (all_paths x) ++ go l'
               end) es
        | _ => []
        end.

Fixpoint all_paths_list (es : list (string * fsnode)) : list (list string) :=
  match es with
  | [] => []
  | (n, x) :: es' => map (cons n) (all_paths x) ++ all_paths_list es'
  end.

(** ** Counting directories *)

(** Number of directories in a tree, the root included. *)
Fixpoint count_dirs (t : fsnode) : Z :=
  match t with
  | FsDir es =>
      1 + (fix go (l : list (string * fsnode)) : Z :=
             match l with
             | [] => 0
             | (_, x) :: l' => count_dirs x + go l'
             end) es
  | _ => 0
  end.

Fixpoint count_dirs_list (es : list (string * fsnode)) : Z :=
  match es with
  | [] => 0
  | (_, x) :: es' => count_dirs x + count_dirs_list es'
  end.

(** Directories strictly below a directory handle. *)
Definition dirs_below (top : fsnode) (f : GFile) : Z :=
  match resolve top f with
  | Some (FsDir es) => count_dirs_list es
  | _ => 0
  end.

(** Directories a listed entry stands for. *)
Definition info_dirs (top : fsnode) (parent : GFile) (i : GFileInfo) : Z :=
  if decide (g_file_info_get_file_type i = G_FILE_TYPE_DIRECTORY)
  then 1 + dirs_below top (g_file_get_child parent (g_file_info_get_name i))
  else 0.

Definition infos_dirs (top : fsnode) (parent : GFile) (l : list GFileInfo) : Z :=
  foldr (fun i acc => info_dirs top parent i + acc) 0 l.

(** Directories an operation in flight will still lead to. *)
Definition op_dirs (top : fsnode) (o : Op) : Z :=
  match o with
  | OpEnumerateChildren f _ _ _ _ _ => dirs_below top f
  | OpNextFiles e _ _ _ _ =>
      infos_dirs top (g_file_enumerator_get_container e) (enum_rest e)
  | OpDelete _ _ _ _ _ => 0
  end.

(** Contexts allocated so far plus the directories still to be found. *)
Definition dirs_accounted (top : fsnode) (st : State) : Z :=
  Z.of_nat (brk st) + osum (op_dirs top) (inflight st).

(** * The gjs script (rm-rf-async.js)

    The script has the structure of the C program, with these differences:
    the contexts are JavaScript objects, never freed by the script; there
    are two counters, [numFilesDeleted] and [numDirsDeleted]; no timer and
    no output; every operation is issued with priority 0 and no
    cancellable; and an operation that fails makes its [*_finish] call
    throw, which ends the callback there: gjs logs the exception and the
    main loop goes on. *)

(** The callback given to [rmRfAsync]: [Lang.bind(this, this.onRmRfComplete)]
    of the parent context, or the function that quits the loop. *)
Inductive JsCallback :=
| JsOnRmRfComplete (this : nat)
| JsLoopQuit.

Record JsContext := mkJsCtx {
  numFilesPending : Z;
  path : GFile;
  callback : JsCallback;
  haveMoreFiles : bool
}.

Record JsState := mkJs {
  js_heap : gmap nat JsContext;
  js_next : nat;
  js_inflight : list Op;
  numFilesDeleted : Z;
  numDirsDeleted : Z;
  js_loop_running : bool;
  js_log : list (Op * GError)
}.

(** JavaScript numbers are IEEE doubles.  [js_number z] is the double
    nearest to the integer [z], a tie going to the neighbour with the even
    mantissa: between 2^(52+e) and 2^(53+e) in absolute value the doubles
    are the multiples of 2^e.  Every integer up to 2^53 in absolute value
    is a double.  (Finite numbers only: nothing here comes near 2^1024.) *)
Definition js_max_safe : Z := 2 ^ 53.

Definition js_number (z : Z) : Z :=
  let q := 2 ^ Z.max 0 (Z.log2 (Z.abs z) - 52) in
  let r := z mod q in
  let lo := z - r in
  if decide (2 * r < q) then lo
  else if decide (q < 2 * r) then lo + q
  else if Z.even (lo / q) then lo else lo + q.

(** [n++] and [n--] on a number that holds an integer. *)
Definition js_incr (z : Z) : Z := js_number (z + 1).

Definition js_decr (z : Z) : Z := js_number (z - 1).

Definition js_set_heap (h : gmap nat JsContext) (st : JsState) : JsState :=
  mkJs h (js_next st) (js_inflight st) (numFilesDeleted st) (numDirsDeleted st)
    (js_loop_running st) (js_log st).

Definition js_set_inflight (l : list Op) (st : JsState) : JsState :=
  mkJs (js_heap st) (js_next st) l (numFilesDeleted st) (numDirsDeleted st)
    (js_loop_running st) (js_log st).

Definition js_issue (o : Op) (st : JsState) : JsState :=
  js_set_inflight (js_inflight st ++ [o]) st.

(** A field update on [this]. *)
Definition js_update (this : nat) (f : JsContext -> JsContext) (st : JsState)
    : JsState :=
  match js_heap st !! this with
  | None => st
  | Some d => js_set_heap (<[this := f d]> (js_heap st)) st
  end.

Definition js_set_numFilesPending (z : Z) (d : JsContext) : JsContext :=
  mkJsCtx z (path d) (callback d) (haveMoreFiles d).

Definition js_set_haveMoreFiles (b : bool) (d : JsContext) : JsContext :=
  mkJsCtx (numFilesPending d) (path d) (callback d) b.

(** An exception thrown by a callback. *)
Definition js_throw (o : Op) (e : GError) (st : JsState) : JsState :=
  mkJs (js_heap st) (js_next st) (js_inflight st) (numFilesDeleted st)
    (numDirsDeleted st) (js_loop_running st) ((o, e) :: js_log st).

Definition js_loop_quit (st : JsState) : JsState :=
  mkJs (js_heap st) (js_next st) (js_inflight st) (numFilesDeleted st)
    (numDirsDeleted st) false (js_log st).

Definition checkNoChildren (this : nat) (st : JsState) : JsState :=
  match js_heap st !! this with
  | None => st
  | Some d =>
      if (numFilesPending d =? 0) && negb (haveMoreFiles d)
      then js_issue (OpDelete (path d) 0 None CbOnEndDirectoryDeleted this) st
      else st
  end.

Definition js_incr_numFilesDeleted (st : JsState) : JsState :=
  mkJs (js_heap st) (js_next st) (js_inflight st) (js_incr (numFilesDeleted st))
    (numDirsDeleted st) (js_loop_running st) (js_log st).

Definition js_incr_numDirsDeleted (st : JsState) : JsState :=
  mkJs (js_heap st) (js_next st) (js_inflight st) (numFilesDeleted st)
    (js_incr (numDirsDeleted st)) (js_loop_running st) (js_log st).

Definition onFileDeleted (this : nat) (st : JsState) : JsState :=
  let st := js_incr_numFilesDeleted st in
  let st := js_update this
              (fun d => js_set_numFilesPending (js_decr (numFilesPending d)) d) st in
  checkNoChildren this st.

Definition onRmRfComplete (this : nat) (st : JsState) : JsState :=
  let st := js_incr_numDirsDeleted st in
  let st := js_update this
              (fun d => js_set_numFilesPending (js_decr (numFilesPending d)) d) st in
  checkNoChildren this st.

Definition js_call (cb : JsCallback) (st : JsState) : JsState :=
  match cb with
  | JsOnRmRfComplete this => onRmRfComplete this st
  | JsLoopQuit => js_loop_quit st
  end.

Definition onEndDirectoryDeleted (this : nat) (st : JsState) : JsState :=
  match js_heap st !! this with
  | None => st
  | Some d => js_call (callback d) st
  end.

Definition rmRfAsync (p : GFile) (cb : JsCallback) (st : JsState) : JsState :=
  let context := js_next st in
  let st := mkJs (<[context := mkJsCtx 0 p cb false]> (js_heap st)) (S context)
              (js_inflight st) (numFilesDeleted st) (numDirsDeleted st)
              (js_loop_running st) (js_log st) in
  js_issue (OpEnumerateChildren p "standard::name,standard::type"
              G_FILE_QUERY_INFO_NOFOLLOW_SYMLINKS 0 None context) st.

(** One turn of the [for] loop of [onNextFiles]. *)
Definition js_dispatch_entry (parent : GFile) (this : nat) (st : JsState)
    (fileInfo : GFileInfo) : JsState :=
  let file := g_file_get_child parent (g_file_info_get_name fileInfo) in
  let st := js_update this
              (fun d => js_set_numFilesPending (js_incr (numFilesPending d)) d) st in
  if decide (g_file_info_get_file_type fileInfo = G_FILE_TYPE_DIRECTORY)
  then rmRfAsync file (JsOnRmRfComplete this) st
  else js_issue (OpDelete file 0 None CbOnFileDeleted this) st.

Definition onNextFiles (enumerator : GFileEnumerator) (num_files : nat)
    (this : nat) (st : JsState) : JsState :=
  let parent := g_file_enumerator_get_container enumerator in
  let '(files, enumerator') :=
    g_file_enumerator_next_files_finish enumerator num_files in
  let st :=
    match files with
    | _ :: _ =>
        let st := js_update this (js_set_haveMoreFiles true) st in
        js_issue (OpNextFiles enumerator' 20 0 None this) st
    | [] =>
        let st := js_update this (js_set_haveMoreFiles false) st in
        checkNoChildren this st
    end in
  fold_left (js_dispatch_entry parent this) files st.

Definition onEnumerateChildren (top : fsnode) (o : Op) (p : GFile)
    (flags : GFileQueryInfoFlags) (this : nat) (st : JsState) : JsState :=
  match g_file_enumerate_children_finish top p flags None with
  | inl e => js_throw o e st
  | inr enumerator => js_issue (OpNextFiles enumerator 20 0 None this) st
  end.

(** Delivering the completion of an operation runs its callback; when the
    operation failed the [*_finish] call at the head of the callback
    throws. *)
Definition js_deliver (top : fsnode) (o : Op) (failure : option GError)
    (st : JsState) : JsState :=
  match failure with
  | Some e => js_throw o e st
  | None =>
      match o with
      | OpEnumerateChildren p _ flags _ _ this =>
          onEnumerateChildren top o p flags this st
      | OpNextFiles e num_files _ _ this => onNextFiles e num_files this st
      | OpDelete _ _ _ CbOnFileDeleted this => onFileDeleted this st
      | OpDelete _ _ _ CbOnEndDirectoryDeleted this =>
          onEndDirectoryDeleted this st
      end
  end.

(** The script up to [loop.run()], for [ARGV[0]]. *)
Definition js_main_start (argv0 : string) : JsState :=
  rmRfAsync (g_file_new_for_path (Some argv0)) JsLoopQuit
    (mkJs ∅ 0%nat [] 0 0 true []).

(** One iteration of the main loop; the script has no timer, so [Tick]
    dispatches nothing.  Once [loop.quit()] has been called [loop.run()]
    returns and the script is over. *)
Definition js_step (top : fsnode) (st : JsState) (c : Choice) : JsState :=
  if js_loop_running st then
    match c with
    | Tick => st
    | Complete i failure =>
        match js_inflight st !! i with
        | None => st
        | Some o => js_deliver top o failure
                      (js_set_inflight (delete i (js_inflight st)) st)
        end
    end
  else st.

Definition js_run (top : fsnode) (st : JsState) (cs : list Choice) : JsState :=
  fold_left (js_step top) cs st.

(** The counters, the loop flag and the log: what the operations on
    contexts and the issue of an operation leave alone. *)
Definition js_counters (st : JsState) : Z * Z * bool * list (Op * GError) :=
  (numFilesDeleted st, numDirsDeleted st, js_loop_running st, js_log st).

(** A schedule in which every iteration, for as long as the loop runs,
    delivers the successful completion of an operation in flight. *)
Fixpoint js_productive (top : fsnode) (st : JsState) (cs : list Choice) : Prop :=
  match cs with
  | [] => True
  | ch :: cs' =>
      (js_loop_running st = true ->
       exists i, ch = Complete i None /\ (i < length (js_inflight st))%nat) /\
      js_productive top (js_step top st ch) cs'
  end.

(** ** The script against the C program *)

Definition js_callback_of (cb : ResultCallback) : JsCallback :=
  match cb with
  | CbOnRmRfComplete parent => JsOnRmRfComplete parent
  | CbOnRmFinished => JsLoopQuit
  end.

Definition js_context_of (d : AsyncRmContext) : JsContext :=
  mkJsCtx (num_files_pending d) (file d)
    (js_callback_of (res_callback (result d))) (have_more_files d).

(** The script's state has the shape of the C program's: the same
    contexts where the C program still has them, the same operations in
    flight, those whose callback threw apart. *)
Definition Shape (js : JsState) (c : State) : Prop :=
  js_next js = brk c /\
  inflight c ≡ₚ js_inflight js ++ map fst (js_log js) /\
  forall k d, heap c !! k = Some d ->
    js_heap js !! k = Some (js_context_of d) /\
    priority d = 0 /\ cancellable d = None.

(** Contexts the C program has freed. *)
Definition freed (c : State) : Z :=
  Z.of_nat (brk c) - hsum (fun _ => 1) (heap c) (brk c).

(** The script simulates the C program: the shape is the same, the two
    counters of the script split the counter of the C program, and the
    loop of the script runs for as long as the C program does. *)
Definition Sim (js : JsState) (c : State) : Prop :=
  Shape js c /\
  0 <= numFilesDeleted js /\
  numFilesDeleted js = files_deleted c - freed c /\
  match status c with
  | Running => js_loop_running js = true /\ numDirsDeleted js = freed c
  | Exited 0 => js_loop_running js = false /\ numDirsDeleted js = freed c - 1
  | _ => False
  end.


(** * Counting lemmas *)

Lemma b2z_nonneg b : 0 <= b2z b.
Proof. destruct b; simpl; lia. Qed.

Lemma b2z_le1 b : b2z b <= 1.
Proof. destruct b; simpl; lia. Qed.

Lemma osum_nil w : osum w [] = 0.
Proof. reflexivity. Qed.

Lemma osum_cons w o l : osum w (o :: l) = w o + osum w l.
Proof. reflexivity. Qed.

Lemma osum_app w l1 l2 : osum w (l1 ++ l2) = osum w l1 + osum w l2.
Proof. induction l1 as [|o l1 IH]; simpl; [lia|]. rewrite IH. lia. Qed.

Lemma osum_snoc w l o : osum w (l ++ [o]) = osum w l + w o.
Proof. rewrite osum_app. simpl. lia. Qed.

Lemma osum_delete w (l : list Op) i o :
  l !! i = Some o -> osum w (delete i l) = osum w l - w o.
Proof.
  revert i. induction l as [|x l IH]; intros [|i] H; simpl in *; try discriminate.
  - inversion H; subst. lia.
  - rewrite (IH _ H). lia.
Qed.

Lemma osum_nonneg w l : (forall o, 0 <= w o) -> 0 <= osum w l.
Proof. intros Hw. induction l as [|o l IH]; simpl; [lia|]. specialize (Hw o). lia. Qed.

Lemma osum_le w1 w2 l : (forall o, w1 o <= w2 o) -> osum w1 l <= osum w2 l.
Proof. intros Hw. induction l as [|o l IH]; simpl; [lia|]. specialize (Hw o). lia. Qed.

Lemma osum_elem w (l : list Op) o :
  (forall o, 0 <= w o) -> o ∈ l -> w o <= osum w l.
Proof.
  intros Hw Hin. induction Hin as [o l|o x l Hin IH]; simpl.
  - pose proof (osum_nonneg w l Hw). lia.
  - specialize (Hw x). lia.
Qed.

Lemma hsum_S w h n :
  hsum w h (S n) = hsum w h n + from_option w 0 (h !! n).
Proof.
  unfold hsum. rewrite seq_S. simpl.
  generalize (seq 0 n). intros l.
  induction l as [|i l IH]; simpl; [lia|]. rewrite IH. lia.
Qed.

Lemma hsum_ext w h h' n :
  (forall i, (i < n)%nat -> h !! i = h' !! i) -> hsum w h n = hsum w h' n.
Proof.
  induction n as [|n IH]; intros H; [reflexivity|].
  rewrite !hsum_S, IH, (H n) by (intros; try apply H; lia). reflexivity.
Qed.

Lemma hsum_insert_ge w (h : gmap nat AsyncRmContext) c d n :
  (n <= c)%nat -> hsum w (<[c := d]> h) n = hsum w h n.
Proof.
  intros Hle. apply hsum_ext. intros i Hi.
  rewrite lookup_insert_ne by lia. reflexivity.
Qed.

Lemma hsum_insert w (h : gmap nat AsyncRmContext) c d n :
  (c < n)%nat ->
  hsum w (<[c := d]> h) n = hsum w h n - from_option w 0 (h !! c) + w d.
Proof.
  induction n as [|n IH]; intros Hlt; [lia|].
  rewrite !hsum_S. destruct (decide (c = n)) as [->|Hne].
  - rewrite hsum_insert_ge by lia. rewrite lookup_insert_eq. simpl. lia.
  - rewrite IH by lia. rewrite lookup_insert_ne by done. lia.
Qed.

Lemma hsum_delete_ge w (h : gmap nat AsyncRmContext) c n :
  (n <= c)%nat -> hsum w (delete c h) n = hsum w h n.
Proof.
  intros Hle. apply hsum_ext. intros i Hi.
  rewrite lookup_delete_ne by lia. reflexivity.
Qed.

Lemma hsum_delete w (h : gmap nat AsyncRmContext) c n :
  (c < n)%nat ->
  hsum w (delete c h) n = hsum w h n - from_option w 0 (h !! c).
Proof.
  induction n as [|n IH]; intros Hlt; [lia|].
  rewrite !hsum_S. destruct (decide (c = n)) as [->|Hne].
  - rewrite hsum_delete_ge by lia. rewrite lookup_delete_eq. simpl. lia.
  - rewrite IH by lia. rewrite lookup_delete_ne by done. lia.
Qed.

Lemma hsum_nonneg w h n : (forall d, 0 <= w d) -> 0 <= hsum w h n.
Proof.
  intros Hw. induction n as [|n IH]; [reflexivity|].
  rewrite hsum_S. destruct (h !! n) as [d|]; simpl; [specialize (Hw d)|]; lia.
Qed.

Lemma hsum_le w1 w2 h n :
  (forall d, w1 d <= w2 d) -> hsum w1 h n <= hsum w2 h n.
Proof.
  intros Hw. induction n as [|n IH]; [reflexivity|].
  rewrite !hsum_S. destruct (h !! n) as [d|]; simpl; [specialize (Hw d)|]; lia.
Qed.

Lemma hsum_elem w (h : gmap nat AsyncRmContext) n c d :
  (forall d, 0 <= w d) -> (c < n)%nat -> h !! c = Some d -> w d <= hsum w h n.
Proof.
  intros Hw. induction n as [|n IH]; intros Hlt Hc; [lia|].
  rewrite hsum_S. destruct (decide (c = n)) as [->|Hne].
  - rewrite Hc. simpl. pose proof (hsum_nonneg w h n Hw). lia.
  - specialize (IH ltac:(lia) Hc).
    destruct (h !! n) as [d'|]; simpl; [specialize (Hw d')|]; lia.
Qed.

(** * The filesystem *)

Lemma fsnode_rect_list (P : fsnode -> Prop) :
  P FsRegular -> P FsSpecial -> (forall t, P (FsSymlink t)) ->
  (forall es, Forall (fun e => P (snd e)) es -> P (FsDir es)) ->
  forall t, P t.
Proof.
  intros HR HS HL HD. fix IH 1. intros [| |t|es].
  - exact HR.
  - exact HS.
  - apply HL.
  - apply HD. induction es as [|[n x] es IHes]; constructor.
    + simpl. apply IH.
    + exact IHes.
Qed.

Lemma count_entries_dir es : count_entries (FsDir es) = 1 + count_list es.
Proof.
  reflexivity.
Qed.

Lemma fs_wf_dir es : fs_wf (FsDir es) <-> NoDup (map fst es) /\ fs_wf_list es.
Proof.
  reflexivity.
Qed.

Lemma count_entries_pos t : 1 <= count_entries t.
Proof.
  induction t as [| |t|es IH] using fsnode_rect_list; try (simpl; lia).
  rewrite count_entries_dir.
  induction IH as [|[n x] es Hx _ IH']; simpl in *; lia.
Qed.

Lemma count_list_nonneg es : 0 <= count_list es.
Proof.
  induction es as [|[n x] es IH]; simpl; [lia|].
  pose proof (count_entries_pos x). lia.
Qed.

Lemma entries_below_nonneg top f : 0 <= entries_below top f.
Proof.
  unfold entries_below. destruct (resolve top f) as [[| | |es]|]; try lia.
  apply count_list_nonneg.
Qed.

Lemma info_weight_pos top parent i : 1 <= info_weight top parent i.
Proof.
  unfold info_weight. case_decide; [|lia].
  pose proof (entries_below_nonneg top
    (g_file_get_child parent (g_file_info_get_name i))). lia.
Qed.

Lemma infos_weight_nonneg top parent l : 0 <= infos_weight top parent l.
Proof.
  induction l as [|i l IH]; simpl; [lia|].
  pose proof (info_weight_pos top parent i). lia.
Qed.

Lemma infos_weight_length top parent l :
  Z.of_nat (length l) <= infos_weight top parent l.
Proof.
  induction l as [|i l IH]; simpl; [lia|].
  pose proof (info_weight_pos top parent i). lia.
Qed.

Lemma infos_weight_app top parent l1 l2 :
  infos_weight top parent (l1 ++ l2) =
  infos_weight top parent l1 + infos_weight top parent l2.
Proof. induction l1 as [|i l1 IH]; simpl; [lia|]. rewrite IH. lia. Qed.

Lemma infos_weight_take_drop top parent n l :
  infos_weight top parent l =
  infos_weight top parent (take n l) + infos_weight top parent (drop n l).
Proof. rewrite <- infos_weight_app, take_drop. reflexivity. Qed.

Lemma op_weight_nonneg top o : 0 <= op_weight top o.
Proof.
  destruct o as [f a fl p c d|e n p c d|f p c [] d]; simpl; try lia.
  - apply entries_below_nonneg.
  - apply infos_weight_nonneg.
Qed.

Lemma lookup_entry_NoDup n x es :
  NoDup (map fst es) -> (n, x) ∈ es -> lookup_entry n es = Some x.
Proof.
  induction es as [|[m y] es IH]; intros Hnd Hin.
  - by apply elem_of_nil in Hin.
  - simpl in *. apply NoDup_cons in Hnd as [Hm Hnd].
    apply elem_of_cons in Hin as [Heq|Hin].
    + inversion Heq; subst. rewrite decide_True; done.
    + rewrite decide_False; [by apply IH|].
      intros ->. apply Hm. apply list_elem_of_fmap. by exists (n, x).
Qed.

Lemma fs_lookup_app t p q :
  fs_lookup t (p ++ q) =
  match fs_lookup t p with Some x => fs_lookup x q | None => None end.
Proof.
  revert t. induction p as [|n p IH]; intros t; simpl; [reflexivity|].
  destruct t as [| | |es]; try reflexivity.
  destruct (lookup_entry n es); [apply IH|reflexivity].
Qed.

Lemma fs_wf_list_elem es n x : fs_wf_list es -> (n, x) ∈ es -> fs_wf x.
Proof.
  induction es as [|[m y] es IH]; intros Hwf Hin.
  - by apply elem_of_nil in Hin.
  - simpl in Hwf. apply elem_of_cons in Hin as [Heq|Hin].
    + inversion Heq; subst. tauto.
    + apply IH; tauto.
Qed.

Lemma lookup_entry_elem n x es : lookup_entry n es = Some x -> (n, x) ∈ es.
Proof.
  induction es as [|[m y] es IH]; simpl; [discriminate|].
  case_decide; intros Hx.
  - inversion Hx; subst. apply elem_of_cons. by left.
  - apply elem_of_cons. right. by apply IH.
Qed.

Lemma fs_lookup_wf t p x : fs_wf t -> fs_lookup t p = Some x -> fs_wf x.
Proof.
  revert t. induction p as [|n p IH]; intros t Hwf H; simpl in H.
  - by inversion H; subst.
  - destruct t as [| | |es]; try discriminate.
    destruct (lookup_entry n es) as [y|] eqn:E; [|discriminate].
    apply (IH y); [|done].
    apply fs_wf_dir in Hwf as [_ Hwf].
    eapply fs_wf_list_elem; [done|]. by apply lookup_entry_elem.
Qed.

Lemma resolve_child top f es n x :
  resolve top f = Some (FsDir es) -> NoDup (map fst es) -> (n, x) ∈ es ->
  resolve top (g_file_get_child f n) = Some x.
Proof.
  unfold resolve, g_file_get_child. simpl.
  destruct (g_file_base f); [|discriminate].
  intros Hf Hnd Hin. rewrite fs_lookup_app, Hf. simpl.
  by rewrite (lookup_entry_NoDup n x es Hnd Hin).
Qed.

Lemma reported_type_nofollow top x :
  reported_type top G_FILE_QUERY_INFO_NOFOLLOW_SYMLINKS x = plain_type x.
Proof. by destruct x. Qed.

(** The weight of a directory's listing is the number of entries below
    it. *)
Lemma infos_weight_listing top f es :
  fs_wf top -> resolve top f = Some (FsDir es) ->
  infos_weight top f (list_directory top G_FILE_QUERY_INFO_NOFOLLOW_SYMLINKS es)
  = count_list es.
Proof.
  intros Hwf Hf.
  assert (Hnd : NoDup (map fst es)).
  { unfold resolve in Hf. destruct (g_file_base f); [|discriminate].
    apply (fs_lookup_wf _ _ _ Hwf) in Hf. by apply fs_wf_dir in Hf as [? _]. }
  assert (Hsub : forall e, e ∈ es -> e ∈ es) by auto.
  revert Hsub. generalize es at 1 3 4. intros l.
  induction l as [|[n x] l IH]; intros Hsub; simpl; [reflexivity|].
  rewrite IH by (intros e He; apply Hsub, elem_of_cons; by right).
  f_equal. unfold info_weight. simpl. rewrite reported_type_nofollow.
  assert (Hx : (n, x) ∈ es) by (apply Hsub, elem_of_cons; by left).
  destruct x as [| |t|es']; simpl; try reflexivity.
  unfold entries_below. rewrite (resolve_child top f es n _ Hf Hnd Hx).
  reflexivity.
Qed.

(** * Preservation of the invariant *)

Ltac st_simpl :=
  cbn [heap brk inflight files_deleted timeout_source loop_running status trace
       emit set_inflight set_heap set_status incr_files_deleted issue g_free
       g_main_loop_quit fault fatal_gerror g_file_delete_async
       g_file_enumerator_next_files_async] in *.

Ltac unfold_counts :=
  unfold children_in_flight, listing_in_flight, end_in_flight, remaining in *.

Ltac w_simpl :=
  cbn [leaf_op_of listing_op_of end_op_of op_weight op_data b2z default
       from_option id] in *.

Lemma guint_wrap_small z : 0 <= z < guint_max -> guint_wrap z = z.
Proof. intros H. unfold guint_wrap. apply Z.mod_small. exact H. Qed.

Lemma leaf_op_of_nonneg c o : 0 <= leaf_op_of c o.
Proof. destruct o as [| |? ? ? [] ?]; simpl; try lia; apply b2z_nonneg. Qed.

Lemma listing_op_of_nonneg c o : 0 <= listing_op_of c o.
Proof. destruct o; simpl; try lia; apply b2z_nonneg. Qed.

Lemma end_op_of_nonneg c o : 0 <= end_op_of c o.
Proof. destruct o as [| |? ? ? [] ?]; simpl; try lia; apply b2z_nonneg. Qed.

Lemma child_ctx_of_nonneg c d : 0 <= child_ctx_of c d.
Proof.
  unfold child_ctx_of. destruct (res_callback (result d)); [apply b2z_nonneg|lia].
Qed.

Lemma child_ctx_of_le1 c d : child_ctx_of c d <= 1.
Proof.
  unfold child_ctx_of. destruct (res_callback (result d)); [apply b2z_le1|lia].
Qed.

Lemma leaf_op_of_le_weight top c o : leaf_op_of c o <= op_weight top o.
Proof.
  pose proof (op_weight_nonneg top o).
  destruct o as [| |? ? ? [] ?]; simpl in *; try lia. apply b2z_le1.
Qed.

Lemma children_le_remaining top st c :
  children_in_flight st c <= remaining top st.
Proof.
  unfold children_in_flight, remaining.
  pose proof (osum_le (leaf_op_of c) (op_weight top) (inflight st)
                (leaf_op_of_le_weight top c)).
  pose proof (hsum_le (child_ctx_of c) (fun _ => 1) (heap st) (brk st)
                (child_ctx_of_le1 c)).
  lia.
Qed.

(** The three indicators partition the operations of a context. *)
Lemma op_indicators c o :
  leaf_op_of c o + listing_op_of c o + end_op_of c o =
  b2z (bool_decide (op_data o = c)).
Proof. destruct o as [| |? ? ? [] ?]; simpl; lia. Qed.

Lemma hsum_update_same w (h : gmap nat AsyncRmContext) c d d' n :
  h !! c = Some d -> w d' = w d -> hsum w (<[c := d']> h) n = hsum w h n.
Proof.
  intros Hc Hw. destruct (decide (c < n)%nat).
  - rewrite hsum_insert by done. rewrite Hc. simpl. lia.
  - apply hsum_insert_ge. lia.
Qed.

Lemma op_ok_mono (h h' : gmap nat AsyncRmContext) o :
  (forall k d, h !! k = Some d -> exists d', h' !! k = Some d' /\ file d' = file d) ->
  op_ok h o -> op_ok h' o.
Proof.
  intros Hh (d & Hd & Ho). destruct (Hh _ _ Hd) as (d' & Hd' & Hf).
  exists d'. split; [done|]. rewrite Hf.
  destruct o as [| |? ? ? [] ?]; done.
Qed.

Lemma ctx_static_ok_mono (h h' : gmap nat AsyncRmContext) c d :
  (forall k, is_Some (h !! k) -> is_Some (h' !! k)) ->
  ctx_static_ok h c d -> ctx_static_ok h' c d.
Proof.
  intros Hh (H1 & H2 & H3 & H4). repeat split; try done.
  destruct (res_callback (result d)); [|done].
  destruct H4; split; auto.
Qed.
Lemma owed_at_same c k : owed_at (Some (c, k)) c = Some k.
Proof. unfold owed_at. by rewrite decide_True. Qed.

Lemma owed_at_other c c' k : c' <> c -> owed_at (Some (c, k)) c' = None.
Proof. intros H. unfold owed_at. by rewrite decide_False. Qed.

Lemma inv_live_lt top total cr lax st c d :
  Inv top total cr lax st -> heap st !! c = Some d -> (c < brk st)%nat.
Proof.
  intros HI Hd. destruct (decide (c < brk st)%nat) as [|Hge]; [done|].
  rewrite (inv_fresh _ _ _ _ _ HI c) in Hd by lia. discriminate.
Qed.

Lemma decr_pending_inv top total cr c d st :
  Inv top total cr (Some (c, 1)) st -> heap st !! c = Some d ->
  Inv top total cr (Some (c, 0)) (decr_pending c st).
Proof.
  intros HI Hd. unfold decr_pending. rewrite Hd.
  pose proof (inv_live_lt _ _ _ _ _ _ _ HI Hd) as Hlt.
  pose proof (children_le_remaining top st c) as Hle.
  pose proof (osum_nonneg _ (inflight st) (op_weight_nonneg top)) as Hw.
  pose proof (hsum_nonneg (fun _ => 1) (heap st) (brk st) ltac:(intros; lia)) as Hh.
  destruct HI as [Hfresh Hops Hstat Hnum Hpot Hcr Hfiles Htot Hloop Hstatus].
  pose proof (Hnum c d Hd) as Hn. rewrite owed_at_same in Hn.
  destruct Hn as (H1 & H2 & H3 & H4 & H5 & H6 & H7 & H8 & H9 & H10).
  simpl in H1. destruct H10 as [He0 Hl1]; [done|].
  rewrite guint_wrap_small by (unfold remaining in *; lia).
  constructor; st_simpl; try done.
  - intros c' Hc'. rewrite lookup_insert_ne by lia. auto.
  - eapply Forall_impl; [exact Hops|]. intros o. apply op_ok_mono.
    intros k dk Hk. destruct (decide (k = c)) as [->|Hne].
    + rewrite lookup_insert_eq. rewrite Hd in Hk. inversion Hk; subst. eauto.
    + rewrite lookup_insert_ne by done. eauto.
  - intros c' d' Hd'.
    assert (Hmono : forall k, is_Some (heap st !! k) ->
              is_Some (<[c := mkCtx (priority d) (cancellable d)
                 (num_files_pending d - 1) (have_more_files d) (file d)
                 (result d)]> (heap st) !! k)).
    { intros k Hk. destruct (decide (k = c)) as [->|Hne].
      - rewrite lookup_insert_eq. eauto.
      - by rewrite lookup_insert_ne. }
    destruct (decide (c' = c)) as [->|Hne].
    + rewrite lookup_insert_eq in Hd'. inversion Hd'; subst d'.
      eapply ctx_static_ok_mono; [exact Hmono|]. apply (Hstat c d Hd).
    + rewrite lookup_insert_ne in Hd' by done.
      eapply ctx_static_ok_mono; [exact Hmono|]. by apply Hstat.
  - intros c' d' Hd'. unfold_counts. st_simpl.
    rewrite (hsum_update_same _ _ _ d) by done.
    destruct (decide (c' = c)) as [->|Hne].
    + rewrite lookup_insert_eq in Hd'. inversion Hd'; subst d'.
      rewrite owed_at_same. unfold ctx_num_ok. simpl.
      repeat split; try lia; try done.
    + rewrite lookup_insert_ne in Hd' by done.
      rewrite owed_at_other by done.
      specialize (Hnum c' d' Hd'). by rewrite owed_at_other in Hnum.
  - unfold_counts. st_simpl. rewrite (hsum_update_same _ _ _ d) by done. done.
Qed.

Lemma check_no_children_inv top total cr c d st :
  Inv top total cr (Some (c, 0)) st -> heap st !! c = Some d ->
  Inv top total cr None (check_no_children c st).
Proof.
  intros HI Hd. unfold check_no_children. rewrite Hd.
  pose proof (inv_num _ _ _ _ _ HI c d Hd) as Hn.
  rewrite owed_at_same in Hn.
  destruct Hn as (H1 & H2 & H3 & H4 & H5 & H6 & H7 & H8 & H9 & H10).
  simpl in H1. destruct H10 as [He Hl]; [done|].
  destruct HI as [Hfresh Hops Hstat Hnum Hpot Hcr Hfiles Htot Hloop Hstatus].
  destruct ((num_files_pending d =? 0) && negb (have_more_files d)) eqn:Hcond.
  - apply andb_true_iff in Hcond as [Hp Hm].
    apply Z.eqb_eq in Hp. apply negb_true_iff in Hm.
    constructor; st_simpl; try done.
    + apply Forall_app. split; [done|]. constructor; [|done].
      exists d. simpl. done.
    + intros c' d' Hd'. specialize (Hnum c' d' Hd').
      unfold_counts. st_simpl. rewrite !osum_snoc. simpl.
      destruct (decide (c' = c)) as [->|Hne].
      * rewrite bool_decide_eq_true_2 by done. simpl.
        rewrite Hd in Hd'. inversion Hd'; subst d'.
        unfold ctx_num_ok. rewrite Hm in *. cbn [default].
        repeat split; try lia; try done.
      * rewrite (bool_decide_eq_false_2 (c = c')) by done.
        rewrite owed_at_other in Hnum by done.
        simpl. rewrite !Z.add_0_r. exact Hnum.
    + unfold_counts. st_simpl. rewrite osum_snoc. simpl. lia.
  - constructor; try done.
    intros c' d' Hd'. specialize (Hnum c' d' Hd').
    destruct (decide (c' = c)) as [->|Hne].
    + rewrite Hd in Hd'. inversion Hd'; subst d'.
      unfold ctx_num_ok in *. simpl.
      repeat split; try lia; try done.
      intros _ Hz. apply andb_false_iff in Hcond as [Hc|Hc].
      * apply Z.eqb_neq in Hc. lia.
      * apply negb_false_iff in Hc. specialize (H6 Hc). lia.
    + rewrite owed_at_other in Hnum by done. exact Hnum.
Qed.
Lemma counts_nonneg st c :
  0 <= children_in_flight st c /\ 0 <= listing_in_flight st c /\
  0 <= end_in_flight st c.
Proof.
  unfold_counts. 
  pose proof (osum_nonneg _ (inflight st) (leaf_op_of_nonneg c)).
  pose proof (osum_nonneg _ (inflight st) (listing_op_of_nonneg c)).
  pose proof (osum_nonneg _ (inflight st) (end_op_of_nonneg c)).
  pose proof (hsum_nonneg _ (heap st) (brk st) (child_ctx_of_nonneg c)).
  lia.
Qed.

Lemma remaining_nonneg top st : 0 <= remaining top st.
Proof.
  unfold remaining.
  pose proof (osum_nonneg _ (inflight st) (op_weight_nonneg top)).
  pose proof (hsum_nonneg (fun _ => 1) (heap st) (brk st) ltac:(intros; lia)).
  lia.
Qed.

Lemma inv_op_live top total cr lax st i o :
  Inv top total cr lax st -> inflight st !! i = Some o -> op_ok (heap st) o.
Proof.
  intros HI Hi. pose proof (inv_ops _ _ _ _ _ HI) as Hops.
  rewrite Forall_lookup in Hops. eauto.
Qed.

Lemma remove_leaf_inv top total st i f p cc c d ev :
  Inv top total 0 None st ->
  inflight st !! i = Some (OpDelete f p cc CbOnFileDeleted c) ->
  heap st !! c = Some d ->
  Inv top total 0 (Some (c, 1))
    (incr_files_deleted (emit ev (set_inflight (delete i (inflight st)) st))).
Proof.
  intros HI Hi Hd.
  set (st' := set_inflight (delete i (inflight st)) st).
  pose proof (counts_nonneg st' c) as Hnn.
  pose proof (remaining_nonneg top st') as Hrn.
  subst st'.
  destruct HI as [Hfresh Hops Hstat Hnum Hpot Hcr Hfiles Htot Hloop Hstatus].
  unfold_counts. st_simpl.
  rewrite !(osum_delete _ _ _ _ Hi) in *. w_simpl.
  assert (Hwrap : guint_wrap (files_deleted st + 1) = files_deleted st + 1)
    by (apply guint_wrap_small; lia).
  constructor; st_simpl; rewrite ?Hwrap; try done; try lia.
  - by apply Forall_delete.
  - intros c' d' Hd'. specialize (Hnum c' d' Hd').
    unfold_counts. st_simpl. rewrite !(osum_delete _ _ _ _ Hi). w_simpl.
    rewrite !Z.sub_0_r.
    destruct (decide (c' = c)) as [->|Hne].
    + rewrite owed_at_same. rewrite bool_decide_eq_true_2 by done.
      rewrite bool_decide_eq_true_2 in Hnn by done.
      cbn [owed_at] in Hnum. unfold ctx_num_ok in *. w_simpl.
      destruct Hnum as (H1 & H2 & H3 & H4 & H5 & H6 & H7 & H8 & H9 & H10).
      repeat split; try lia; try done.
      * intros Hl. destruct (H7 Hl); [by left|lia].
      * intros Hl. destruct (H7 Hl); [done|lia].
    + rewrite owed_at_other by done.
      rewrite (bool_decide_eq_false_2 (c = c')) by done. w_simpl.
      rewrite Z.sub_0_r. exact Hnum.
  - unfold_counts. st_simpl. rewrite (osum_delete _ _ _ _ Hi). simpl. lia.
Qed.

Lemma on_file_deleted_inv top total st i f p cc c :
  Inv top total 0 None st ->
  inflight st !! i = Some (OpDelete f p cc CbOnFileDeleted c) ->
  Inv top total 0 None
    (on_file_deleted f None c (set_inflight (delete i (inflight st)) st)).
Proof.
  intros HI Hi.
  destruct (inv_op_live _ _ _ _ _ _ _ HI Hi) as (d & Hd & _). simpl in Hd.
  unfold on_file_deleted.
  pose proof (remove_leaf_inv _ _ _ _ _ _ _ _ _ (EvRemoved f) HI Hi Hd) as H1.
  pose proof (decr_pending_inv _ _ _ _ _ _ H1 Hd) as H2.
  eapply check_no_children_inv; [exact H2|].
  unfold decr_pending. st_simpl. rewrite Hd. st_simpl.
  apply lookup_insert_eq.
Qed.
Lemma heap_update_mono (h : gmap nat AsyncRmContext) c d d' :
  h !! c = Some d -> file d' = file d ->
  forall k dk, h !! k = Some dk ->
    exists dk', <[c := d']> h !! k = Some dk' /\ file dk' = file dk.
Proof.
  intros Hc Hf k dk Hk. destruct (decide (k = c)) as [->|Hne].
  - rewrite lookup_insert_eq. rewrite Hc in Hk. inversion Hk; subst. eauto.
  - rewrite lookup_insert_ne by done. eauto.
Qed.

Lemma heap_update_some (h : gmap nat AsyncRmContext) c d' :
  forall k, is_Some (h !! k) -> is_Some (<[c := d']> h !! k).
Proof.
  intros k Hk. destruct (decide (k = c)) as [->|Hne].
  - rewrite lookup_insert_eq. eauto.
  - by rewrite lookup_insert_ne.
Qed.

Lemma static_update (h : gmap nat AsyncRmContext) c d d' :
  h !! c = Some d -> file d' = file d -> result d' = result d ->
  (forall k dk, h !! k = Some dk -> ctx_static_ok h k dk) ->
  forall k dk, <[c := d']> h !! k = Some dk ->
    ctx_static_ok (<[c := d']> h) k dk.
Proof.
  intros Hc Hf Hr Hstat k dk Hk.
  destruct (decide (k = c)) as [->|Hne].
  - rewrite lookup_insert_eq in Hk. inversion Hk; subst dk.
    specialize (Hstat c d Hc).
    eapply ctx_static_ok_mono; [apply heap_update_some|].
    unfold ctx_static_ok in *. rewrite Hf, Hr. exact Hstat.
  - rewrite lookup_insert_ne in Hk by done.
    eapply ctx_static_ok_mono; [apply heap_update_some|]. by apply Hstat.
Qed.

(** The listing of context [c] has come to its end. *)
Lemma remove_listing_end_inv top total st i e n p cc c d :
  Inv top total 0 None st ->
  inflight st !! i = Some (OpNextFiles e n p cc c) ->
  enum_rest e = [] ->
  heap st !! c = Some d ->
  Inv top total 0 (Some (c, 0))
    (set_have_more_files c false (set_inflight (delete i (inflight st)) st)).
Proof.
  intros HI Hi He Hd.
  pose proof (inv_live_lt _ _ _ _ _ _ _ HI Hd) as Hlt.
  set (st' := set_inflight (delete i (inflight st)) st).
  pose proof (counts_nonneg st' c) as Hnn. subst st'.
  destruct HI as [Hfresh Hops Hstat Hnum Hpot Hcr Hfiles Htot Hloop Hstatus].
  unfold set_have_more_files. st_simpl. rewrite Hd.
  unfold_counts. st_simpl.
  rewrite !(osum_delete _ _ _ _ Hi) in *. w_simpl.
  constructor; st_simpl; try done.
  - intros c' Hc'. rewrite lookup_insert_ne by lia. auto.
  - apply Forall_delete. eapply Forall_impl; [exact Hops|].
    intros o. apply op_ok_mono. by apply (heap_update_mono _ _ d).
  - by apply (static_update _ _ d).
  - intros c' d' Hd'. unfold_counts. st_simpl.
    rewrite !(osum_delete _ _ _ _ Hi). w_simpl.
    rewrite (hsum_update_same _ _ _ d) by done. rewrite !Z.sub_0_r.
    destruct (decide (c' = c)) as [->|Hne].
    + rewrite lookup_insert_eq in Hd'. inversion Hd'; subst d'.
      rewrite owed_at_same. rewrite bool_decide_eq_true_2 in * by done.
      specialize (Hnum c d Hd). cbn [owed_at] in Hnum.
      unfold ctx_num_ok in *. w_simpl.
      destruct Hnum as (H1 & H2 & H3 & H4 & H5 & H6 & H7 & H8 & H9 & H10).
      repeat split; try lia; try done.
    + rewrite lookup_insert_ne in Hd' by done.
      rewrite owed_at_other by done.
      rewrite (bool_decide_eq_false_2 (c = c')) by done. w_simpl.
      rewrite Z.sub_0_r. by apply Hnum.
  - unfold_counts. st_simpl. rewrite (osum_delete _ _ _ _ Hi). w_simpl.
    rewrite He. simpl.
    rewrite (hsum_update_same _ _ _ d) by done. lia.
Qed.

(** The listing of a directory has been opened. *)
Lemma on_enumerate_children_inv top total st i f a fl p cc c :
  fs_wf top ->
  Inv top total 0 None st ->
  inflight st !! i = Some (OpEnumerateChildren f a fl p cc c) ->
  let st' := on_enumerate_children top f fl None c
               (set_inflight (delete i (inflight st)) st) in
  status st' = Running -> Inv top total 0 None st'.
Proof.
  intros Hwf HI Hi.
  destruct (inv_op_live _ _ _ _ _ _ _ HI Hi) as (d & Hd & -> & ->).
  simpl in Hd. unfold on_enumerate_children, g_file_enumerate_children_finish.
  destruct (resolve top (file d)) as [[| | |es]|] eqn:Hres; simpl;
    try discriminate.
  rewrite Hd. intros _.
  destruct HI as [Hfresh Hops Hstat Hnum Hpot Hcr Hfiles Htot Hloop Hstatus].
  constructor; st_simpl; try done.
  - apply Forall_app. split; [by apply Forall_delete|].
    constructor; [|done]. exists d. simpl. split; [done|]. split; [lia|done].
  - intros c' d' Hd'. specialize (Hnum c' d' Hd').
    unfold_counts. st_simpl.
    rewrite !osum_snoc, !(osum_delete _ _ _ _ Hi). w_simpl.
    replace (_ - b2z _ + b2z _) with (osum (listing_op_of c') (inflight st)) by lia.
    rewrite !Z.add_0_r, !Z.sub_0_r. exact Hnum.
  - unfold_counts. st_simpl.
    rewrite !osum_snoc, !(osum_delete _ _ _ _ Hi). w_simpl. simpl.
    rewrite (infos_weight_listing top (file d) es Hwf Hres).
    unfold entries_below in *. rewrite Hres in *. lia.
Qed.
Lemma osum_zero_elem w (l : list Op) o :
  (forall o, 0 <= w o) -> osum w l = 0 -> o ∈ l -> w o = 0.
Proof.
  intros Hw Hz Hin. pose proof (osum_elem w l o Hw Hin).
  specialize (Hw o). lia.
Qed.

Lemma hsum_zero_elem w (h : gmap nat AsyncRmContext) n c d :
  (forall d, 0 <= w d) -> hsum w h n = 0 -> (c < n)%nat -> h !! c = Some d ->
  w d = 0.
Proof.
  intros Hw Hz Hlt Hc. pose proof (hsum_elem w h n c d Hw Hlt Hc).
  specialize (Hw d). lia.
Qed.

(** No operation refers to a context whose three counters are zero. *)
Lemma no_ops_of c (l : list Op) :
  osum (leaf_op_of c) l = 0 -> osum (listing_op_of c) l = 0 ->
  osum (end_op_of c) l = 0 ->
  Forall (fun o => op_data o <> c) l.
Proof.
  intros H1 H2 H3. apply Forall_forall. intros o Hin Heq.
  pose proof (osum_zero_elem _ _ _ (leaf_op_of_nonneg c) H1 Hin).
  pose proof (osum_zero_elem _ _ _ (listing_op_of_nonneg c) H2 Hin).
  pose proof (osum_zero_elem _ _ _ (end_op_of_nonneg c) H3 Hin).
  pose proof (op_indicators c o) as Hi.
  rewrite bool_decide_eq_true_2 in Hi by done. simpl in Hi. lia.
Qed.

Lemma op_ok_delete (h : gmap nat AsyncRmContext) c o :
  op_data o <> c -> op_ok h o -> op_ok (delete c h) o.
Proof.
  intros Hne (d & Hd & Ho). exists d. split; [|done].
  by rewrite lookup_delete_ne.
Qed.

(** A context's directory is gone and its parent has not yet been told. *)
Lemma remove_end_child_inv top total st i f pr cc c d p ev1 ev2 :
  Inv top total 0 None st ->
  inflight st !! i = Some (OpDelete f pr cc CbOnEndDirectoryDeleted c) ->
  heap st !! c = Some d ->
  res_callback (result d) = CbOnRmRfComplete p ->
  Inv top total 0 (Some (p, 1))
    (g_free c (emit ev2 (incr_files_deleted
       (emit ev1 (set_inflight (delete i (inflight st)) st))))).
Proof.
  intros HI Hi Hd Hcb.
  pose proof (inv_live_lt _ _ _ _ _ _ _ HI Hd) as Hlt.
  set (st' := set_inflight (delete i (inflight st)) st).
  pose proof (counts_nonneg st' c) as Hnn.
  pose proof (remaining_nonneg top st') as Hrn. subst st'.
  destruct HI as [Hfresh Hops Hstat Hnum Hpot Hcr Hfiles Htot Hloop Hstatus].
  pose proof (Hnum c d Hd) as Hn. cbn [owed_at] in Hn.
  pose proof (Hstat c d Hd) as (Hs1 & Hs2 & Hs3 & Hs4).
  rewrite Hcb in Hs4. destruct Hs4 as [Hpc [dp Hdp]].
  pose proof (hsum_nonneg (fun _ => 1) (heap st) (brk st) ltac:(intros; lia)) as Hh1.
  pose proof (hsum_elem (fun _ => 1) (heap st) (brk st) c d
                ltac:(intros; lia) Hlt Hd) as Hh2.
  pose proof (hsum_nonneg _ (heap st) (brk st) (child_ctx_of_nonneg c)) as Hh3.
  pose proof (osum_nonneg _ (inflight st) (leaf_op_of_nonneg c)) as Hh4.
  pose proof (osum_nonneg _ (inflight st) (op_weight_nonneg top)) as Hh5.
  unfold_counts. st_simpl.
  rewrite !(osum_delete _ _ _ _ Hi) in *. w_simpl.
  rewrite bool_decide_eq_true_2 in * by done. w_simpl.
  destruct Hn as (H1 & H2 & H3 & H4 & H5 & H6 & H7 & H8 & H9 & H10).
  assert (HE : osum (end_op_of c) (inflight st) = 1) by lia.
  assert (HL : osum (listing_op_of c) (inflight st) = 0) by lia.
  specialize (H8 HE).
  assert (Hwrap : guint_wrap (files_deleted st + 1) = files_deleted st + 1)
    by (apply guint_wrap_small; lia).
  assert (Hnochild : forall k dk, heap st !! k = Some dk -> child_ctx_of c dk = 0).
  { intros k dk Hk. eapply (hsum_zero_elem _ (heap st) (brk st) k);
      [apply child_ctx_of_nonneg|lia| |done].
    destruct (decide (k < brk st)%nat); [done|].
    rewrite Hfresh in Hk by lia. discriminate. }
  constructor; st_simpl; rewrite ?Hwrap; try done; try lia.
  - intros c' Hc'. rewrite lookup_delete_ne by lia. auto.
  - assert (Hno : Forall (fun o => op_data o <> c) (delete i (inflight st))).
    { apply no_ops_of; rewrite (osum_delete _ _ _ _ Hi); w_simpl;
        rewrite ?bool_decide_eq_true_2 by done; w_simpl; lia. }
    apply Forall_delete with (i := i) in Hops.
    rewrite Forall_forall in *. intros o Ho.
    apply op_ok_delete; auto.
  - intros c' d' Hd'. apply lookup_delete_Some in Hd' as [Hne Hd'].
    specialize (Hstat c' d' Hd'). specialize (Hnochild c' d' Hd').
    destruct Hstat as (Ht1 & Ht2 & Ht3 & Ht4). repeat split; try done.
    unfold child_ctx_of in Hnochild.
    destruct (res_callback (result d')) as [q|]; [|done].
    destruct Ht4 as [Hq Hlive]. split; [done|].
    rewrite lookup_delete_ne; [done|]. intros ->.
    rewrite bool_decide_eq_true_2 in Hnochild by done. discriminate.
  - intros c' d' Hd'. apply lookup_delete_Some in Hd' as [Hne Hd'].
    specialize (Hnum c' d' Hd'). cbn [owed_at] in Hnum.
    unfold_counts. st_simpl.
    rewrite !(osum_delete _ _ _ _ Hi). w_simpl.
    rewrite (hsum_delete _ _ _ _ Hlt), Hd. w_simpl.
    rewrite (bool_decide_eq_false_2 (c = c')) by done. w_simpl.
    rewrite !Z.sub_0_r. unfold child_ctx_of at 2. rewrite Hcb.
    destruct (decide (c' = p)) as [->|Hnp].
    + rewrite owed_at_same. rewrite bool_decide_eq_true_2 by done.
      pose proof (hsum_elem _ (heap st) (brk st) c d (child_ctx_of_nonneg p) Hlt Hd) as Hge.
      unfold child_ctx_of at 1 in Hge. rewrite Hcb in Hge.
      rewrite bool_decide_eq_true_2 in Hge by done.
      pose proof (osum_nonneg _ (inflight st) (leaf_op_of_nonneg p)).
      unfold ctx_num_ok in *. w_simpl.
      destruct Hnum as (G1 & G2 & G3 & G4 & G5 & G6 & G7 & G8 & G9 & G10).
      repeat split; try lia; try done.
      * intros Hl. destruct (G7 Hl); [by left|lia].
      * intros Hl. destruct (G7 Hl); [done|lia].
    + rewrite owed_at_other by done.
      rewrite (bool_decide_eq_false_2 (p = c')) by done. w_simpl.
      rewrite Z.sub_0_r. exact Hnum.
  - unfold_counts. st_simpl. rewrite (osum_delete _ _ _ _ Hi). w_simpl.
    rewrite (hsum_delete _ _ _ _ Hlt), Hd. w_simpl. lia.
Qed.
Lemma g_free_decr_comm c p st :
  c <> p -> g_free c (decr_pending p st) = decr_pending p (g_free c st).
Proof.
  intros Hne. unfold decr_pending, g_free. st_simpl.
  rewrite lookup_delete_ne by done.
  destruct (heap st !! p) as [dp|]; [|reflexivity].
  unfold set_heap. simpl. f_equal. by rewrite delete_insert_ne.
Qed.

Lemma g_free_check_comm c p st :
  c <> p -> g_free c (check_no_children p st) = check_no_children p (g_free c st).
Proof.
  intros Hne. unfold check_no_children, g_free. st_simpl.
  rewrite lookup_delete_ne by done.
  destruct (heap st !! p) as [dp|]; [|reflexivity].
  destruct (_ && _); reflexivity.
Qed.

Lemma decr_pending_status p st :
  is_Some (heap st !! p) -> status (decr_pending p st) = status st.
Proof. intros [d Hd]. unfold decr_pending. by rewrite Hd. Qed.

Lemma decr_pending_live p st k :
  is_Some (heap st !! k) -> is_Some (heap (decr_pending p st) !! k).
Proof.
  intros Hk. unfold decr_pending.
  destruct (heap st !! p) as [d|] eqn:Hd; [|done].
  st_simpl. by apply heap_update_some.
Qed.

Lemma check_no_children_status p st :
  is_Some (heap st !! p) -> status (check_no_children p st) = status st.
Proof.
  intros [d Hd]. unfold check_no_children. rewrite Hd.
  by destruct (_ && _).
Qed.

Lemma on_end_directory_deleted_child_inv top total st i f pr cc c d p :
  Inv top total 0 None st ->
  inflight st !! i = Some (OpDelete f pr cc CbOnEndDirectoryDeleted c) ->
  heap st !! c = Some d ->
  res_callback (result d) = CbOnRmRfComplete p ->
  Inv top total 0 None
    (on_end_directory_deleted f None c (set_inflight (delete i (inflight st)) st)).
Proof.
  intros HI Hi Hd Hcb.
  pose proof (inv_static _ _ _ _ _ HI c d Hd) as (Hs1 & Hs2 & Hs3 & Hs4).
  rewrite Hcb in Hs4. destruct Hs4 as [Hpc Hp].
  pose proof (remove_end_child_inv _ _ _ _ _ _ _ _ _ _
                (EvRemoved f) (EvComplete c (result d)) HI Hi Hd Hcb) as H1.
  unfold on_end_directory_deleted. st_simpl. rewrite Hd.
  unfold g_simple_async_result_complete. rewrite Hcb.
  unfold on_rm_rf_complete, rm_rf_finish. rewrite Hs1.
  set (X := emit _ (incr_files_deleted _)) in *.
  assert (HpX : is_Some (heap X !! p)) by (subst X; st_simpl; done).
  rewrite check_no_children_status by (by apply decr_pending_live).
  rewrite decr_pending_status by done.
  replace (status X) with Running
    by (subst X; st_simpl; symmetry; apply (inv_status _ _ _ _ _ HI)).
  assert (Hne : c <> p) by lia.
  rewrite g_free_check_comm, g_free_decr_comm by done.
  assert (Hp' : is_Some (heap (g_free c X) !! p)).
  { subst X. st_simpl. by rewrite lookup_delete_ne. }
  destruct Hp' as [dp Hdp].
  pose proof (decr_pending_inv _ _ _ _ _ _ H1 Hdp) as H2.
  destruct (decr_pending_live p (g_free c X) p (ltac:(eauto))) as [dp' Hdp'].
  by eapply check_no_children_inv.
Qed.
(** When the root context has no child in flight, it is the only context. *)
Lemma only_root_live top total cr lax st d0 :
  Inv top total cr lax st ->
  heap st !! 0%nat = Some d0 ->
  children_in_flight st 0 = 0 ->
  forall k dk, heap st !! k = Some dk -> k = 0%nat.
Proof.
  intros HI H0 Hci.
  assert (Hh : hsum (child_ctx_of 0) (heap st) (brk st) = 0).
  { unfold children_in_flight in Hci.
    pose proof (osum_nonneg _ (inflight st) (leaf_op_of_nonneg 0)).
    pose proof (hsum_nonneg _ (heap st) (brk st) (child_ctx_of_nonneg 0)). lia. }
  intros k. induction k as [k IH] using lt_wf_ind. intros dk Hk.
  destruct (decide (k = 0%nat)) as [|Hne]; [done|]. exfalso.
  pose proof (inv_static _ _ _ _ _ HI k dk Hk) as (_ & _ & _ & Hs).
  pose proof (inv_live_lt _ _ _ _ _ _ _ HI Hk) as Hlt.
  pose proof (hsum_zero_elem _ _ _ _ _ (child_ctx_of_nonneg 0) Hh Hlt Hk) as Hz.
  unfold child_ctx_of in Hz.
  destruct (res_callback (result dk)) as [q|]; [|done].
  destruct Hs as [Hq [dq Hdq]].
  specialize (IH q Hq dq Hdq). subst q.
  rewrite bool_decide_eq_true_2 in Hz by done. discriminate.
Qed.

Lemma hsum_empty w n : hsum w ∅ n = 0.
Proof.
  induction n as [|n IH]; [reflexivity|].
  rewrite hsum_S, IH, lookup_empty. reflexivity.
Qed.

(** The root directory is gone: nothing is left, and the loop is told to
    stop. *)
Lemma on_end_directory_deleted_root top total st i f pr cc c d :
  Inv top total 0 None st ->
  inflight st !! i = Some (OpDelete f pr cc CbOnEndDirectoryDeleted c) ->
  heap st !! c = Some d ->
  res_callback (result d) = CbOnRmFinished ->
  let st' := on_end_directory_deleted f None c
               (set_inflight (delete i (inflight st)) st) in
  status st' = Running /\ loop_running st' = false /\
  files_deleted st' = total /\ inflight st' = [] /\ heap st' = ∅ /\
  trace st' = EvComplete c (result d) :: EvRemoved f :: trace st /\
  timeout_source st' = timeout_source st.
Proof.
  intros HI Hi Hd Hcb.
  pose proof (inv_static _ _ _ _ _ HI c d Hd) as (Hs1 & Hs2 & Hs3 & Hs4).
  rewrite Hcb in Hs4. subst c.
  pose proof (inv_live_lt _ _ _ _ _ _ _ HI Hd) as Hlt.
  pose proof (inv_num _ _ _ _ _ HI _ d Hd) as Hn. cbn [owed_at] in Hn.
  destruct Hn as (H1 & H2 & H3 & H4 & H5 & H6 & H7 & H8 & H9 & H10).
  pose proof (counts_nonneg (set_inflight (delete i (inflight st)) st) 0) as Hnn.
  pose proof (osum_nonneg _ (inflight st) (leaf_op_of_nonneg 0)) as Hh4.
  pose proof (hsum_nonneg _ (heap st) (brk st) (child_ctx_of_nonneg 0)) as Hh3.
  pose proof (osum_nonneg _ (inflight st) (op_weight_nonneg top)) as Hh5.
  pose proof (hsum_elem (fun _ => 1) (heap st) (brk st) _ d
                ltac:(intros; lia) Hlt Hd) as Hh2.
  pose proof (inv_pot _ _ _ _ _ HI) as Hpot.
  pose proof (inv_files _ _ _ _ _ HI) as Hfiles.
  pose proof (inv_total _ _ _ _ _ HI) as Htot.
  unfold_counts. st_simpl.
  rewrite !(osum_delete _ _ _ _ Hi) in Hnn. w_simpl.
  rewrite bool_decide_eq_true_2 in Hnn by done. w_simpl.
  assert (HE : osum (end_op_of 0) (inflight st) = 1) by lia.
  assert (HL : osum (listing_op_of 0) (inflight st) = 0) by lia.
  specialize (H8 HE).
  assert (Honly : forall k dk, heap st !! k = Some dk -> k = 0%nat).
  { eapply only_root_live; [exact HI|exact Hd|]. unfold children_in_flight. lia. }
  assert (Hheap : delete 0%nat (heap st) = ∅).
  { apply map_eq. intros k. rewrite lookup_empty.
    destruct (decide (k = 0%nat)) as [->|Hne]; [apply lookup_delete_eq|].
    rewrite lookup_delete_ne by done.
    destruct (heap st !! k) as [dk|] eqn:Hk; [|done].
    by apply Honly in Hk. }
  assert (Hops : delete i (inflight st) = []).
  { destruct (delete i (inflight st)) as [|o l] eqn:Hdel; [done|]. exfalso.
    assert (Hno : Forall (fun o => op_data o <> 0%nat) (delete i (inflight st))).
    { apply no_ops_of; rewrite (osum_delete _ _ _ _ Hi); w_simpl;
        rewrite ?bool_decide_eq_true_2 by done; w_simpl; lia. }
    pose proof (inv_ops _ _ _ _ _ HI) as Hok.
    apply Forall_delete with (i := i) in Hok.
    rewrite Hdel in Hno, Hok.
    apply Forall_cons in Hno as [Hno _]. apply Forall_cons in Hok as [Hok _].
    destruct Hok as (dk & Hdk & _). apply Honly in Hdk. done. }
  assert (Hwrap : guint_wrap (files_deleted st + 1) = files_deleted st + 1)
    by (apply guint_wrap_small; lia).
  unfold on_end_directory_deleted. st_simpl. rewrite Hd.
  unfold g_simple_async_result_complete. rewrite Hcb.
  unfold on_rm_finished, rm_rf_finish. rewrite Hs1. st_simpl.
  rewrite (inv_status _ _ _ _ _ HI). st_simpl.
  rewrite Hwrap, Hheap, Hops.
  repeat split; try done.
  - apply (inv_status _ _ _ _ _ HI).
  - pose proof (osum_delete (op_weight top) _ _ _ Hi) as Hw.
    rewrite Hops in Hw. w_simpl. simpl in Hw.
    assert (Hl1 : hsum (fun _ => 1) (heap st) (brk st) = 1).
    { pose proof (hsum_delete (fun _ => 1) (heap st) _ _ Hlt) as Hx.
      rewrite Hheap, hsum_empty, Hd in Hx. simpl in Hx. lia. }
    lia.
Qed.
Lemma osum_zero w (l : list Op) :
  Forall (fun o => w o = 0) l -> osum w l = 0.
Proof. induction 1 as [|o l Ho _ IH]; simpl; lia. Qed.

Lemma hsum_zero w (h : gmap nat AsyncRmContext) n :
  (forall i d, (i < n)%nat -> h !! i = Some d -> w d = 0) -> hsum w h n = 0.
Proof.
  induction n as [|n IH]; intros H; [reflexivity|].
  rewrite hsum_S, IH by (intros; eapply H; [|done]; lia).
  destruct (h !! n) as [d|] eqn:Hd; simpl; [|lia].
  rewrite (H n d); [lia|lia|done].
Qed.

(** Nothing refers to an address that has not been allocated yet. *)
Lemma fresh_counts top total cr lax st k :
  Inv top total cr lax st -> (brk st <= k)%nat ->
  osum (leaf_op_of k) (inflight st) = 0 /\
  osum (listing_op_of k) (inflight st) = 0 /\
  osum (end_op_of k) (inflight st) = 0 /\
  hsum (child_ctx_of k) (heap st) (brk st) = 0.
Proof.
  intros HI Hk.
  assert (Hdata : Forall (fun o => op_data o <> k) (inflight st)).
  { eapply Forall_impl; [apply (inv_ops _ _ _ _ _ HI)|].
    intros o (d & Hd & _) Heq. rewrite Heq in Hd.
    rewrite (inv_fresh _ _ _ _ _ HI) in Hd by done. discriminate. }
  repeat split.
  - apply osum_zero. eapply Forall_impl; [exact Hdata|].
    intros o Ho. destruct o as [| |? ? ? [] ?]; simpl in *; try done.
    by rewrite bool_decide_eq_false_2.
  - apply osum_zero. eapply Forall_impl; [exact Hdata|].
    intros o Ho. destruct o as [| |? ? ? [] ?]; simpl in *; try done;
    by rewrite bool_decide_eq_false_2.
  - apply osum_zero. eapply Forall_impl; [exact Hdata|].
    intros o Ho. destruct o as [| |? ? ? [] ?]; simpl in *; try done.
    by rewrite bool_decide_eq_false_2.
  - apply hsum_zero. intros i d Hi Hd.
    pose proof (inv_static _ _ _ _ _ HI i d Hd) as (_ & _ & _ & Hs).
    unfold child_ctx_of. destruct (res_callback (result d)) as [q|]; [|done].
    destruct Hs as [Hq _]. rewrite bool_decide_eq_false_2 by lia. done.
Qed.

(** One turn of the loop of [on_next_files]: the entry's weight moves from
    the credit to the operations in flight. *)
Lemma dispatch_entry_inv top total cr st c d info :
  Inv top total cr None st ->
  heap st !! c = Some d ->
  have_more_files d = true ->
  info_weight top (file d) info <= cr ->
  let st' := dispatch_entry (file d) c st info in
  Inv top total (cr - info_weight top (file d) info) None st' /\
  exists d', heap st' !! c = Some d' /\ have_more_files d' = true /\
             file d' = file d.
Proof.
  intros HI Hd Hmore Hcr.
  pose proof (inv_live_lt _ _ _ _ _ _ _ HI Hd) as Hlt.
  pose proof (children_le_remaining top st c) as Hle.
  pose proof (info_weight_pos top (file d) info) as Hpos.
  pose proof (fresh_counts _ _ _ _ _ (brk st) HI ltac:(lia)) as (F1 & F2 & F3 & F4).
  pose proof (inv_static _ _ _ _ _ HI c d Hd) as (Hs1 & Hs2 & Hs3 & Hs4).
  destruct HI as [Hfresh Hops Hstat Hnum Hpot Hcr0 Hfiles Htot Hloop Hstatus].
  pose proof (Hnum c d Hd) as Hn. cbn [owed_at] in Hn.
  destruct Hn as (H1 & H2 & H3 & H4 & H5 & H6 & H7 & H8 & H9 & H10).
  specialize (H6 Hmore). w_simpl.
  assert (Hwrap : guint_wrap (num_files_pending d + 1) = num_files_pending d + 1).
  { apply guint_wrap_small. lia. }
  unfold dispatch_entry, incr_pending. rewrite Hd. st_simpl.
  rewrite lookup_insert_eq, Hwrap. cbn [priority cancellable].
  set (d1 := mkCtx (priority d) (cancellable d) (num_files_pending d + 1)
               (have_more_files d) (file d) (result d)).
  unfold info_weight in *.
  destruct (decide (g_file_info_get_file_type info = G_FILE_TYPE_DIRECTORY))
    as [Hdir|Hndir].
  - (* a sub-directory: a context of its own *)
    unfold rm_rf_async, g_file_enumerate_children_async. st_simpl.
    cbn [file].
    set (child := g_file_get_child (file d) (g_file_info_get_name info)) in *.
    set (dn := mkCtx (priority d) (cancellable d) 0 false child
                 (mkResult child (CbOnRmRfComplete c) None)).
    assert (Hchild : file dn = child) by reflexivity.
    assert (Hb : g_file_base child = g_file_base (file d)) by reflexivity.
    rewrite Hb. destruct (g_file_base (file d)) as [base|] eqn:Hbase; [|done].
    split.
    + constructor; st_simpl; try done; try lia.
      * intros k Hk. rewrite !lookup_insert_ne by lia. apply Hfresh. lia.
      * apply Forall_app. split.
        -- eapply Forall_impl; [exact Hops|]. intros o Ho.
           eapply op_ok_mono; [|eapply op_ok_mono; [|exact Ho]].
           ++ intros k dk Hk. exists dk. split; [|done].
              rewrite lookup_insert_ne; [done|]. intros <-.
              destruct (decide (brk st = c)) as [E|E]; [lia|].
              rewrite lookup_insert_ne in Hk by done.
              rewrite Hfresh in Hk by lia. done.
           ++ by apply (heap_update_mono _ _ d).
        -- constructor; [|done]. exists dn. simpl.
           rewrite lookup_insert_eq. done.
      * intros k dk Hk. destruct (decide (k = brk st)) as [->|Hne].
        -- rewrite lookup_insert_eq in Hk. inversion Hk; subst dk.
           split; [done|]. split; [done|].
           split; [simpl; by rewrite Hbase|]. simpl. split; [lia|].
           rewrite lookup_insert_ne by lia. rewrite lookup_insert_eq. eauto.
        -- rewrite lookup_insert_ne in Hk by done.
           eapply ctx_static_ok_mono; [apply heap_update_some|].
           by apply (static_update _ _ d) in Hk.
      * intros k dk Hk. unfold_counts. st_simpl.
        rewrite !osum_snoc, !hsum_S, lookup_insert_eq. w_simpl.
        rewrite hsum_insert_ge by lia.
        rewrite (hsum_update_same _ _ _ d) by done.
        rewrite !Z.add_0_r.
        destruct (decide (k = brk st)) as [->|Hne].
        -- rewrite lookup_insert_eq in Hk. inversion Hk; subst dk.
           rewrite bool_decide_eq_true_2 by done.
           rewrite F1, F2, F3, F4.
           unfold child_ctx_of; simpl.
           rewrite bool_decide_eq_false_2 by lia.
           unfold ctx_num_ok; simpl. repeat split; try lia; try done.
        -- rewrite lookup_insert_ne in Hk by done.
           rewrite (bool_decide_eq_false_2 (brk st = k)) by done. w_simpl.
           rewrite Z.add_0_r.
           destruct (decide (k = c)) as [->|Hnc].
           ++ rewrite lookup_insert_eq in Hk. inversion Hk; subst dk.
              unfold child_ctx_of at 2; simpl.
              rewrite bool_decide_eq_true_2 by done.
              unfold ctx_num_ok; simpl. rewrite Hmore.
              repeat split; try lia; try done.
           ++ rewrite lookup_insert_ne in Hk by done.
              unfold child_ctx_of at 2; simpl.
              rewrite bool_decide_eq_false_2 by done. rewrite Z.add_0_r.
              by apply Hnum.
      * unfold_counts. st_simpl.
        rewrite !osum_snoc, !hsum_S, lookup_insert_eq. w_simpl.
        rewrite hsum_insert_ge by lia.
        rewrite (hsum_update_same _ _ _ d) by done.
        fold child. rewrite <- Hchild in *. unfold dn at 1. simpl. lia.
    + exists d1. split; [|done]. st_simpl.
      rewrite lookup_insert_ne by lia. apply lookup_insert_eq.
  - (* anything else: delete it *)
    split.
    + constructor; st_simpl; try done; try lia.
      * intros k Hk. rewrite lookup_insert_ne by lia. auto.
      * apply Forall_app. split.
        -- eapply Forall_impl; [exact Hops|]. intros o.
           apply op_ok_mono. by apply (heap_update_mono _ _ d).
        -- constructor; [|done]. exists d1. simpl.
           rewrite lookup_insert_eq. done.
      * by apply (static_update _ _ d).
      * intros k dk Hk. unfold_counts. st_simpl.
        rewrite !osum_snoc. w_simpl.
        rewrite (hsum_update_same _ _ _ d) by done.
        rewrite !Z.add_0_r.
        destruct (decide (k = c)) as [->|Hnc].
        -- rewrite lookup_insert_eq in Hk. inversion Hk; subst dk.
           rewrite bool_decide_eq_true_2 by done.
           unfold ctx_num_ok; simpl. rewrite Hmore.
           repeat split; try lia; try done.
        -- rewrite lookup_insert_ne in Hk by done.
           rewrite (bool_decide_eq_false_2 (c = k)) by done. w_simpl.
           rewrite Z.add_0_r. by apply Hnum.
      * unfold_counts. st_simpl. rewrite !osum_snoc. w_simpl.
        rewrite (hsum_update_same _ _ _ d) by done. lia.
    + exists d1. split; [|done]. st_simpl. apply lookup_insert_eq.
Qed.
Lemma dispatch_loop_inv top total files : forall cr st c d,
  Inv top total cr None st ->
  heap st !! c = Some d ->
  have_more_files d = true ->
  infos_weight top (file d) files <= cr ->
  Inv top total (cr - infos_weight top (file d) files) None
    (fold_left (dispatch_entry (file d) c) files st).
Proof.
  induction files as [|info files IH]; intros cr st c d HI Hd Hmore Hcr.
  - simpl. by rewrite Z.sub_0_r.
  - simpl in *.
    pose proof (infos_weight_nonneg top (file d) files) as Hnn.
    destruct (dispatch_entry_inv top total cr st c d info HI Hd Hmore ltac:(lia))
      as (HI' & d' & Hd' & Hmore' & Hfile).
    specialize (IH _ _ c d' HI' Hd' Hmore').
    rewrite Hfile in IH.
    replace (cr - (info_weight top (file d) info + infos_weight top (file d) files))
      with (cr - info_weight top (file d) info - infos_weight top (file d) files)
      by lia.
    apply IH. lia.
Qed.

(** A non-empty batch: the next one is requested, and the entries wait to
    be dispatched. *)
Lemma next_files_head_inv top total st i e n p cc c d :
  Inv top total 0 None st ->
  inflight st !! i = Some (OpNextFiles e n p cc c) ->
  heap st !! c = Some d ->
  take n (enum_rest e) <> [] ->
  let e' := mkEnum (g_file_enumerator_get_container e) (drop n (enum_rest e)) in
  let st' := on_next_files_head (take n (enum_rest e)) e' c
               (set_inflight (delete i (inflight st)) st) in
  Inv top total (infos_weight top (file d) (take n (enum_rest e))) None st' /\
  exists d', heap st' !! c = Some d' /\ have_more_files d' = true /\
             file d' = file d.
Proof.
  intros HI Hi Hd Hne.
  destruct (inv_op_live _ _ _ _ _ _ _ HI Hi) as (d0 & Hd0 & Hn0 & Hcont).
  simpl in Hd0. rewrite Hd in Hd0. inversion Hd0; subst d0.
  pose proof (inv_live_lt _ _ _ _ _ _ _ HI Hd) as Hlt.
  set (st1 := set_inflight (delete i (inflight st)) st).
  pose proof (counts_nonneg st1 c) as Hnn. subst st1.
  destruct HI as [Hfresh Hops Hstat Hnum Hpot Hcr Hfiles Htot Hloop Hstatus].
  unfold on_next_files_head.
  destruct (take n (enum_rest e)) as [|x l] eqn:Htake; [done|].
  rewrite <- Htake.
  unfold set_have_more_files. st_simpl. rewrite Hd.
  unfold_counts. st_simpl.
  rewrite !(osum_delete _ _ _ _ Hi) in *. w_simpl.
  rewrite bool_decide_eq_true_2 in Hnn by done. w_simpl.
  set (d1 := mkCtx _ _ _ _ _ _).
  split.
  - constructor; st_simpl; try done.
    + intros k Hk. rewrite lookup_insert_ne by lia. auto.
    + apply Forall_app. split.
      * apply Forall_delete. eapply Forall_impl; [exact Hops|].
        intros o. apply op_ok_mono. by apply (heap_update_mono _ _ d).
      * constructor; [|done]. exists d1. simpl.
        rewrite lookup_insert_eq. split; [done|]. split; [lia|done].
    + by apply (static_update _ _ d).
    + intros k dk Hk. unfold_counts. st_simpl.
      rewrite !osum_snoc, !(osum_delete _ _ _ _ Hi). w_simpl.
      rewrite (hsum_update_same _ _ _ d) by done.
      rewrite !Z.add_0_r, !Z.sub_0_r.
      replace (_ - b2z _ + b2z _) with (osum (listing_op_of k) (inflight st)) by lia.
      destruct (decide (k = c)) as [->|Hnc].
      * rewrite lookup_insert_eq in Hk. inversion Hk; subst dk.
        specialize (Hnum c d Hd). cbn [owed_at] in Hnum.
        unfold ctx_num_ok in *. simpl.
        destruct Hnum as (H1 & H2 & H3 & H4 & H5 & H6 & H7 & H8 & H9 & H10).
        repeat split; try lia; try done.
      * rewrite lookup_insert_ne in Hk by done. by apply Hnum.
    + unfold_counts. st_simpl.
      rewrite !osum_snoc, !(osum_delete _ _ _ _ Hi). w_simpl. simpl.
      rewrite (hsum_update_same _ _ _ d) by done.
      rewrite Hcont.
      pose proof (infos_weight_take_drop top (file d) n (enum_rest e)). lia.
    + apply infos_weight_nonneg.
  - exists d1. split; [|done]. st_simpl. apply lookup_insert_eq.
Qed.

Lemma on_next_files_inv top total st i e n p cc c :
  Inv top total 0 None st ->
  inflight st !! i = Some (OpNextFiles e n p cc c) ->
  Inv top total 0 None
    (on_next_files e n None c (set_inflight (delete i (inflight st)) st)).
Proof.
  intros HI Hi.
  destruct (inv_op_live _ _ _ _ _ _ _ HI Hi) as (d & Hd & Hn0 & Hcont).
  simpl in Hd. unfold on_next_files, g_file_enumerator_next_files_finish.
  cbn [g_file_enumerator_get_container].
  destruct (decide (take n (enum_rest e) = [])) as [Hnil|Hne].
  - rewrite Hnil. simpl.
    assert (Hrest : enum_rest e = []).
    { destruct (enum_rest e); [done|]. destruct n; [lia|]. discriminate. }
    pose proof (remove_listing_end_inv _ _ _ _ _ _ _ _ _ _ HI Hi Hrest Hd) as H1.
    eapply check_no_children_inv; [exact H1|].
    unfold set_have_more_files. st_simpl. rewrite Hd. st_simpl.
    apply lookup_insert_eq.
  - destruct (next_files_head_inv _ _ _ _ _ _ _ _ _ _ HI Hi Hd Hne)
      as (H1 & d' & Hd' & Hmore & Hfile).
    pose proof (dispatch_loop_inv top total (take n (enum_rest e)) _ _ c d'
                  H1 Hd' Hmore) as H2.
    rewrite Hfile, Z.sub_diag, <- Hcont in H2.
    apply H2. lia.
Qed.
Lemma deliver_failure top o e st :
  status (deliver top o (Some e) st) = Exited 1 /\
  trace (deliver top o (Some e) st) = EvPrintErr (error_message e) :: trace st.
Proof. destruct o as [| |? ? ? [] ?]; split; reflexivity. Qed.

Lemma on_enumerate_children_status top st f fl c :
  is_Some (heap st !! c) -> status st = Running ->
  let st' := on_enumerate_children top f fl None c st in
  status st' = Running \/ status st' = Exited 1.
Proof.
  intros [d Hd] Hst. simpl. unfold on_enumerate_children.
  destruct (g_file_enumerate_children_finish top f fl None); simpl.
  - by right.
  - rewrite Hd. simpl. by left.
Qed.

(** Delivering a completion keeps the invariant, or stops the loop with
    everything deleted, or exits with code 1. *)
Lemma deliver_inv top total st i o failure :
  fs_wf top ->
  Inv top total 0 None st ->
  inflight st !! i = Some o ->
  let st' := deliver top o failure (set_inflight (delete i (inflight st)) st) in
  Inv top total 0 None st' \/
  (status st' = Running /\ loop_running st' = false /\
   files_deleted st' = total /\ inflight st' = [] /\ heap st' = ∅) \/
  status st' = Exited 1.
Proof.
  intros Hwf HI Hi. destruct failure as [e|].
  { right. right. apply deliver_failure. }
  destruct (inv_op_live _ _ _ _ _ _ _ HI Hi) as (d & Hd & Hok).
  destruct o as [f a fl p cc c|e n p cc c|f p cc [] c]; simpl in *.
  - destruct (on_enumerate_children_status top
                (set_inflight (delete i (inflight st)) st) f fl c) as [H|H].
    + st_simpl. eauto.
    + st_simpl. apply (inv_status _ _ _ _ _ HI).
    + left. by eapply on_enumerate_children_inv.
    + by right; right.
  - left. by eapply on_next_files_inv.
  - left. by eapply on_file_deleted_inv.
  - destruct (res_callback (result d)) as [q|] eqn:Hcb.
    + left. by eapply on_end_directory_deleted_child_inv.
    + right. left.
      destruct (on_end_directory_deleted_root _ _ _ _ _ _ _ _ _ HI Hi Hd Hcb)
        as (H1 & H2 & H3 & H4 & H5 & _).
      done.
Qed.

Lemma timeout_dispatch_inv top total st :
  Inv top total 0 None st -> Inv top total 0 None (timeout_dispatch st).
Proof.
  intros [Hfresh Hops Hstat Hnum Hpot Hcr Hfiles Htot Hloop Hstatus].
  unfold timeout_dispatch. destruct (timeout_source st); [|by constructor].
  by constructor.
Qed.

Lemma step_good top total st c :
  fs_wf top -> Good top total st -> Good top total (step top st c).
Proof.
  intros Hwf [HI|[HF|HE]].
  - unfold step. rewrite (inv_status _ _ _ _ _ HI).
    destruct c as [|i failure]; simpl.
    + pose proof (timeout_dispatch_inv _ _ _ HI) as HI'.
      rewrite (inv_status _ _ _ _ _ HI'), (inv_loop _ _ _ _ _ HI').
      by left.
    + destruct (inflight st !! i) as [o|] eqn:Hi.
      * destruct (deliver_inv top total st i o failure Hwf HI Hi)
          as [HI'|[(H1 & H2 & H3 & H4 & H5)|HE]].
        -- rewrite (inv_status _ _ _ _ _ HI'), (inv_loop _ _ _ _ _ HI').
           by left.
        -- rewrite H1, H2. right. left. unfold main_finish. simpl.
           repeat split; done.
        -- rewrite HE. by right; right.
      * rewrite (inv_status _ _ _ _ _ HI), (inv_loop _ _ _ _ _ HI). by left.
  - unfold step. pose proof HF as (Hs & _). rewrite Hs. by right; left.
  - unfold step. rewrite HE. by right; right.
Qed.

Lemma run_good top total cs : forall st,
  fs_wf top -> Good top total st -> Good top total (run top st cs).
Proof.
  induction cs as [|c cs IH]; intros st Hwf HG; [done|].
  simpl. apply IH; [done|]. by apply step_good.
Qed.

Lemma count_entries_below top path :
  1 + entries_below top (g_file_new_for_path (Some path)) = count_entries top.
Proof.
  unfold entries_below, resolve. simpl. by destruct top.
Qed.

(** The engine started on a path satisfies the invariant. *)
Lemma rm_rf_async_root_inv top path prio canc tmo :
  count_entries top < guint_max ->
  Inv top (count_entries top) 0 None
    (rm_rf_async (g_file_new_for_path (Some path)) prio canc CbOnRmFinished
       (mkState ∅ 0%nat [] 0 tmo true Running [])).
Proof.
  intros Hlt. pose proof (count_entries_below top path) as Hc.
  set (root := g_file_new_for_path (Some path)) in *.
  set (d0 := mkCtx prio canc 0 false root (mkResult root CbOnRmFinished None)).
  unfold rm_rf_async, g_file_enumerate_children_async. simpl.
  constructor; st_simpl; try done.
  - intros c Hc'. rewrite lookup_insert_ne by lia. apply lookup_empty.
  - constructor; [|done]. exists d0. simpl. by rewrite lookup_insert_eq.
  - intros c d Hd. apply lookup_insert_Some in Hd as [[<- <-]|[_ Hd]].
    + by repeat split.
    + by rewrite lookup_empty in Hd.
  - intros c d Hd. apply lookup_insert_Some in Hd as [[<- <-]|[_ Hd]].
    + unfold_counts. st_simpl. unfold hsum, ctx_num_ok. simpl.
      rewrite lookup_insert_eq. simpl. repeat split; try lia; try done.
      intros _. by right.
    + by rewrite lookup_empty in Hd.
  - unfold_counts. st_simpl. unfold hsum. simpl.
    rewrite lookup_insert_eq. simpl. fold root. lia.
Qed.

Lemma main_start_good top path :
  count_entries top < guint_max ->
  Good top (count_entries top) (main_start_path (Some path)).
Proof.
  intros Hlt. left. unfold main_start_path.
  pose proof (rm_rf_async_root_inv top path G_PRIORITY_DEFAULT None false Hlt)
    as [Hfresh Hops Hstat Hnum Hpot Hcr Hfiles Htot Hloop Hstatus].
  by constructor.
Qed.

(** Every state the process reaches is good. *)
Lemma reachable_good top path cs :
  fs_wf top -> count_entries top < guint_max ->
  Good top (count_entries top) (run top (main_start_path (Some path)) cs).
Proof.
  intros Hwf Hlt. apply run_good; [done|]. by apply main_start_good.
Qed.
(** * What callbacks add to the state *)

Lemma extends_refl st : extends st st.
Proof.
  constructor; try done.
  - exists []. by rewrite app_nil_r.
  - intros c d Hd. eauto.
  - intros c H1 H2. lia.
Qed.

Lemma extends_trans st1 st2 st3 :
  extends st1 st2 -> extends st2 st3 -> extends st1 st3.
Proof.
  intros [[o1 [A1 A2]] B1 C1 D1 E1 F1 G1 H1] [[o2 [A3 A4]] B2 C2 D2 E2 F2 G2 H2].
  constructor; try congruence; try lia.
  - exists (o1 ++ o2). rewrite A3, A1, A4, A2, rev_app_distr, map_app, !app_assoc.
    done.
  - intros c d Hd. destruct (E1 c d Hd) as (d' & Hd' & Hf & Hr).
    destruct (E2 c d' Hd') as (d'' & Hd'' & Hf' & Hr').
    exists d''. split; [done|]. split; congruence.
  - intros c Hc1 Hc3. destruct (decide (c < brk st2)%nat) as [Hlt|Hge].
    + destruct (G1 c Hc1 Hlt) as (d & Hd & Hop).
      destruct (E2 c d Hd) as (d' & Hd' & Hf & _).
      exists d'. split; [done|]. rewrite Hf.
      destruct Hop as [Hb|(a & fl & p & cc & Hop)]; [by left|].
      right. exists a, fl, p, cc. rewrite A3. apply elem_of_app. by left.
    + apply G2; lia.
  - intros c Hc Hlive. apply H1; [done|]. apply H2; [lia|done].
Qed.

Lemma extends_issue o st : extends st (issue o st).
Proof.
  constructor; st_simpl; try done.
  - exists [o]. done.
  - intros c d Hd. eauto.
  - intros c H1 H2. lia.
Qed.

Lemma extends_fault st : extends st (fault st).
Proof.
  constructor; st_simpl; try done.
  - exists []. by rewrite app_nil_r.
  - intros c d Hd. eauto.
  - intros c H1 H2. lia.
Qed.

(** Updating the counters of a live context. *)
Lemma extends_update st c d d' :
  heap st !! c = Some d -> file d' = file d -> result d' = result d ->
  extends st (set_heap (<[c := d']> (heap st)) st).
Proof.
  intros Hd Hf Hr. constructor; st_simpl; try done.
  - exists []. by rewrite app_nil_r.
  - intros k dk Hk. destruct (decide (k = c)) as [->|Hne].
    + rewrite lookup_insert_eq. rewrite Hd in Hk. inversion Hk; subst. eauto.
    + rewrite lookup_insert_ne by done. eauto.
  - intros k H1 H2. lia.
  - intros k Hk Hlive. destruct (decide (k = c)) as [->|Hne]; [eauto|].
    by rewrite lookup_insert_ne in Hlive.
Qed.

Lemma extends_decr_pending c st : extends st (decr_pending c st).
Proof.
  unfold decr_pending. destruct (heap st !! c) as [d|] eqn:Hd.
  - by apply (extends_update _ _ d).
  - apply extends_fault.
Qed.

Lemma extends_incr_pending c st : extends st (incr_pending c st).
Proof.
  unfold incr_pending. destruct (heap st !! c) as [d|] eqn:Hd.
  - by apply (extends_update _ _ d).
  - apply extends_fault.
Qed.

Lemma extends_set_have_more_files c b st :
  extends st (set_have_more_files c b st).
Proof.
  unfold set_have_more_files. destruct (heap st !! c) as [d|] eqn:Hd.
  - by apply (extends_update _ _ d).
  - apply extends_fault.
Qed.

Lemma extends_check_no_children c st : extends st (check_no_children c st).
Proof.
  unfold check_no_children. destruct (heap st !! c) as [d|].
  - destruct (_ && _); [apply extends_issue|apply extends_refl].
  - apply extends_fault.
Qed.

Lemma fresh_update st c d d' :
  heap st !! c = Some d -> fresh st ->
  fresh (set_heap (<[c := d']> (heap st)) st).
Proof.
  intros Hd Hf k Hk. st_simpl.
  rewrite lookup_insert_ne; [by apply Hf|]. intros <-.
  rewrite Hf in Hd by done. discriminate.
Qed.

Lemma fresh_decr_pending c st : fresh st -> fresh (decr_pending c st).
Proof.
  intros Hf. unfold decr_pending. destruct (heap st !! c) as [d|] eqn:Hd.
  - by apply (fresh_update _ _ d).
  - exact Hf.
Qed.

Lemma fresh_incr_pending c st : fresh st -> fresh (incr_pending c st).
Proof.
  intros Hf. unfold incr_pending. destruct (heap st !! c) as [d|] eqn:Hd.
  - by apply (fresh_update _ _ d).
  - exact Hf.
Qed.

Lemma fresh_set_have_more_files c b st :
  fresh st -> fresh (set_have_more_files c b st).
Proof.
  intros Hf. unfold set_have_more_files.
  destruct (heap st !! c) as [d|] eqn:Hd.
  - by apply (fresh_update _ _ d).
  - exact Hf.
Qed.

Lemma fresh_check_no_children c st :
  fresh st -> fresh (check_no_children c st).
Proof.
  intros Hf. unfold check_no_children. destruct (heap st !! c) as [d|].
  - by destruct (_ && _).
  - exact Hf.
Qed.

Lemma fresh_rm_rf_async f prio canc cb st :
  fresh st -> fresh (rm_rf_async f prio canc cb st).
Proof.
  intros Hf. unfold rm_rf_async, g_file_enumerate_children_async.
  cbn [file]. destruct (g_file_base f); intros k Hk; st_simpl;
    (rewrite lookup_insert_ne by lia; apply Hf; lia).
Qed.

Lemma extends_rm_rf_async f prio canc cb st :
  fresh st -> extends st (rm_rf_async f prio canc cb st).
Proof.
  intros Hfresh. unfold rm_rf_async.
  set (d := mkCtx _ _ _ _ _ _).
  set (st1 := mkState _ _ _ _ _ _ _ _).
  unfold g_file_enumerate_children_async.
  destruct (g_file_base (file d)) as [base|] eqn:Hbase;
    (constructor; subst st1; st_simpl; try done; try lia;
     [ try (by exists []; rewrite app_nil_r); try (by eexists [_])
     | intros c dc Hc; exists dc; split; [|done];
       rewrite lookup_insert_ne; [done|]; intros <-;
       rewrite Hfresh in Hc by lia; done
     | intros c Hc1 Hc2; replace c with (brk st) by lia;
       exists d; rewrite lookup_insert_eq; split; [done|]
     | intros c Hc Hlive; by rewrite lookup_insert_ne in Hlive by lia ]).
  - right. eexists _, _, _, _. apply elem_of_app. right.
    apply elem_of_cons. by left.
  - by left.
Qed.

Lemma dispatch_entry_extends parent c st info :
  fresh st ->
  extends st (dispatch_entry parent c st info) /\
  fresh (dispatch_entry parent c st info).
Proof.
  intros Hf. unfold dispatch_entry.
  pose proof (extends_incr_pending c st) as H1.
  pose proof (fresh_incr_pending c st Hf) as Hf1.
  destruct (heap (incr_pending c st) !! c) as [d|].
  - case_decide.
    + split; [|by apply fresh_rm_rf_async].
      eapply extends_trans; [exact H1|]. by apply extends_rm_rf_async.
    + split; [|done].
      eapply extends_trans; [exact H1|]. apply extends_issue.
  - split; [|done]. eapply extends_trans; [exact H1|apply extends_fault].
Qed.

Lemma dispatch_loop_extends parent c files : forall st,
  fresh st ->
  extends st (fold_left (dispatch_entry parent c) files st) /\
  fresh (fold_left (dispatch_entry parent c) files st).
Proof.
  induction files as [|info files IH]; intros st Hf; simpl.
  - split; [apply extends_refl|done].
  - destruct (dispatch_entry_extends parent c st info Hf) as [H1 Hf1].
    destruct (IH _ Hf1) as [H2 Hf2].
    split; [|done]. by eapply extends_trans.
Qed.

Lemma on_next_files_head_extends files e c st :
  extends st (on_next_files_head files e c st) /\
  (fresh st -> fresh (on_next_files_head files e c st)).
Proof.
  unfold on_next_files_head. destruct files as [|x l].
  - split.
    + eapply extends_trans; [apply extends_set_have_more_files|].
      apply extends_check_no_children.
    + intros Hf. apply fresh_check_no_children. by apply fresh_set_have_more_files.
  - split.
    + eapply extends_trans; [apply extends_set_have_more_files|].
      apply extends_issue.
    + intros Hf. by apply fresh_set_have_more_files.
Qed.

Lemma on_next_files_extends e n c st :
  fresh st -> extends st (on_next_files e n None c st).
Proof.
  intros Hf. unfold on_next_files, g_file_enumerator_next_files_finish.
  destruct (on_next_files_head_extends (take n (enum_rest e))
              (mkEnum (g_file_enumerator_get_container e) (drop n (enum_rest e)))
              c st) as [H1 Hf1].
  eapply extends_trans; [exact H1|].
  apply dispatch_loop_extends. by apply Hf1.
Qed.

Lemma on_file_deleted_extends f c st :
  extends (incr_files_deleted (emit (EvRemoved f) st))
    (on_file_deleted f None c st).
Proof.
  unfold on_file_deleted.
  eapply extends_trans; [apply extends_decr_pending|].
  apply extends_check_no_children.
Qed.

Lemma on_rm_rf_complete_extends r p st :
  res_error r = None -> extends st (on_rm_rf_complete r p st).
Proof.
  intros Hr. unfold on_rm_rf_complete, rm_rf_finish. rewrite Hr.
  eapply extends_trans; [apply extends_decr_pending|].
  apply extends_check_no_children.
Qed.

Lemma on_enumerate_children_extends top f fl c st :
  status (on_enumerate_children top f fl None c st) = Running ->
  extends st (on_enumerate_children top f fl None c st).
Proof.
  unfold on_enumerate_children.
  destruct (g_file_enumerate_children_finish top f fl None); [done|].
  intros _. destruct (heap st !! c); [apply extends_issue|apply extends_fault].
Qed.
Lemma files_deleted_room top total st :
  Inv top total 0 None st -> 1 <= remaining top st ->
  files_deleted st + 1 < guint_max.
Proof.
  intros HI Hr. pose proof (inv_pot _ _ _ _ _ HI).
  pose proof (inv_total _ _ _ _ _ HI). lia.
Qed.

Lemma remaining_live top total st c d :
  Inv top total 0 None st -> heap st !! c = Some d -> 1 <= remaining top st.
Proof.
  intros HI Hd. pose proof (inv_live_lt _ _ _ _ _ _ _ HI Hd) as Hlt.
  pose proof (hsum_elem (fun _ => 1) (heap st) (brk st) c d
                ltac:(intros; lia) Hlt Hd).
  pose proof (osum_nonneg _ (inflight st) (op_weight_nonneg top)).
  unfold remaining. cbn beta in *. lia.
Qed.

(** Every iteration from a state satisfying the invariant is one of the
    transitions. *)
Lemma step_transition top total st ch :
  Inv top total 0 None st -> transition top st (step top st ch).
Proof.
  intros HI. unfold step. rewrite (inv_status _ _ _ _ _ HI).
  destruct ch as [|i failure]; simpl.
  - pose proof (timeout_dispatch_inv _ _ _ HI) as HI'.
    rewrite (inv_status _ _ _ _ _ HI'), (inv_loop _ _ _ _ _ HI').
    destruct (timeout_source st) eqn:Ht.
    + by apply tr_tick.
    + apply tr_idle. unfold timeout_dispatch. by rewrite Ht.
  - destruct (inflight st !! i) as [o|] eqn:Hi.
    2:{ rewrite (inv_status _ _ _ _ _ HI), (inv_loop _ _ _ _ _ HI).
        by apply tr_idle. }
    fold (taken i st).
    destruct failure as [e|].
    { destruct (deliver_failure top o e (taken i st)) as [Hs _].
      rewrite Hs. apply (tr_fail _ _ _ i o e); [done|].
      by destruct o as [| |? ? ? [] ?]. }
    destruct (inv_op_live _ _ _ _ _ _ _ HI Hi) as (d & Hd & Hok).
    pose proof (remaining_live _ _ _ _ _ HI Hd) as Hrem.
    pose proof (files_deleted_room _ _ _ HI Hrem) as Hroom.
    destruct o as [f a fl p cc c|e n p cc c|f p cc [] c];
      cbn [deliver op_data] in *.
    + unfold on_enumerate_children, g_file_enumerate_children_finish.
      destruct (resolve top f) as [[| | |es]|] eqn:Hres; simpl;
        try (eapply tr_fail; [exact Hi|reflexivity]).
      rewrite Hd. simpl.
      rewrite (inv_status _ _ _ _ _ HI), (inv_loop _ _ _ _ _ HI).
      by eapply tr_enumerate.
    + pose proof (on_next_files_inv _ _ _ _ _ _ _ _ _ HI Hi) as HI'.
      fold (taken i st) in HI'.
      rewrite (inv_status _ _ _ _ _ HI'), (inv_loop _ _ _ _ _ HI').
      by eapply tr_next_files.
    + pose proof (on_file_deleted_inv _ _ _ _ _ _ _ _ HI Hi) as HI'.
      fold (taken i st) in HI'.
      rewrite (inv_status _ _ _ _ _ HI'), (inv_loop _ _ _ _ _ HI').
      by eapply tr_leaf.
    + pose proof (inv_static _ _ _ _ _ HI c d Hd) as (Hs1 & Hs2 & Hs3 & Hs4).
      destruct (res_callback (result d)) as [q|] eqn:Hcb.
      * pose proof (on_end_directory_deleted_child_inv _ _ _ _ _ _ _ _ _ _
                      HI Hi Hd Hcb) as HI'.
        fold (taken i st) in HI'.
        rewrite (inv_status _ _ _ _ _ HI'), (inv_loop _ _ _ _ _ HI').
        eapply tr_end_child; try done.
        unfold on_end_directory_deleted in *. st_simpl.
        unfold taken in *. st_simpl. rewrite Hd in *.
        unfold g_simple_async_result_complete in *. rewrite Hcb in *.
        unfold directory_gone.
        pose proof (inv_status _ _ _ _ _ HI') as Hst.
        destruct (status (on_rm_rf_complete _ _ _)) eqn:Hst'; try done;
          simpl in Hst; rewrite Hst' in Hst; discriminate.
      * subst c.
        destruct (on_end_directory_deleted_root _ _ _ _ _ _ _ _ _ HI Hi Hd Hcb)
          as (H1 & H2 & _).
        fold (taken i st) in H1, H2. rewrite H1, H2.
        eapply tr_end_root; try done.
        unfold on_end_directory_deleted. unfold taken. st_simpl.
        rewrite Hd. unfold g_simple_async_result_complete. rewrite Hcb.
        unfold on_rm_finished, rm_rf_finish. rewrite Hs1. st_simpl.
        rewrite (inv_status _ _ _ _ _ HI). reflexivity.
Qed.
(** * The trace *)

Lemma count_events_app p t1 t2 :
  count_events p (t1 ++ t2) = count_events p t1 + count_events p t2.
Proof. induction t1 as [|ev t1 IH]; simpl; [lia|]. rewrite IH. lia. Qed.

Lemma count_events_nonneg p t : 0 <= count_events p t.
Proof. induction t as [|ev t IH]; simpl; [lia|]. destruct (p ev); lia. Qed.

Lemma count_events_issues p (ops : list Op) :
  (forall o, p (EvIssue o) = false) -> count_events p (map EvIssue ops) = 0.
Proof.
  intros Hp. induction ops as [|o ops IH]; simpl; [done|].
  rewrite Hp, IH. done.
Qed.

Lemma tsum_app w t1 t2 : tsum w (t1 ++ t2) = tsum w t1 + tsum w t2.
Proof. induction t1 as [|ev t1 IH]; simpl; [lia|]. rewrite IH. lia. Qed.

Lemma osum_rev w (l : list Op) : osum w (rev l) = osum w l.
Proof.
  induction l as [|o l IH]; simpl; [done|]. rewrite osum_snoc, IH. lia.
Qed.

Lemma tsum_issues w (ops : list Op) : tsum w (map EvIssue ops) = osum w ops.
Proof. induction ops as [|o ops IH]; simpl; [done|]. by rewrite IH. Qed.

Lemma tsum_nonneg w t : (forall o, 0 <= w o) -> 0 <= tsum w t.
Proof.
  intros Hw. induction t as [|ev t IH]; simpl; [lia|].
  destruct ev; try lia. specialize (Hw o). lia.
Qed.

Lemma extends_tsum w st st' :
  extends st st' ->
  tsum w (trace st') - osum w (inflight st') =
  tsum w (trace st) - osum w (inflight st).
Proof.
  intros [[ops [H1 H2]] _ _ _ _ _ _ _].
  rewrite H1, H2, tsum_app, osum_app, tsum_issues, osum_rev. lia.
Qed.

Lemma extends_count p st st' :
  (forall o, p (EvIssue o) = false) -> extends st st' ->
  count_events p (trace st') = count_events p (trace st).
Proof.
  intros Hp [[ops [H1 H2]] _ _ _ _ _ _ _].
  rewrite H2, count_events_app, count_events_issues by done. lia.
Qed.

Lemma extends_trace_elem st st' ev :
  extends st st' -> ev ∈ trace st -> ev ∈ trace st'.
Proof.
  intros [[ops [H1 H2]] _ _ _ _ _ _ _] H. rewrite H2.
  apply elem_of_app. by right.
Qed.

Lemma extends_removed_elem st st' f :
  extends st st' -> EvRemoved f ∈ trace st' -> EvRemoved f ∈ trace st.
Proof.
  intros [[ops [H1 H2]] _ _ _ _ _ _ _] H. rewrite H2 in H.
  apply elem_of_app in H as [H|H]; [|done].
  apply list_elem_of_fmap in H as (o & Ho & _). discriminate.
Qed.

Lemma extends_inflight_elem st st' o :
  extends st st' -> o ∈ inflight st -> o ∈ inflight st'.
Proof.
  intros [[ops [H1 H2]] _ _ _ _ _ _ _] H. rewrite H1.
  apply elem_of_app. by left.
Qed.

Lemma covered_extends st st' c child n :
  extends st st' -> covered st c child n -> covered st' c child n.
Proof.
  intros He [(o & Ho & Hc)|[(k & dk & Hk & Hf & Hr)|H]].
  - left. exists o. split; [by eapply extends_inflight_elem|done].
  - right. left. destruct (ext_heap _ _ He k dk Hk) as (dk' & Hk' & Hf' & Hr').
    exists k, dk'. split; [done|]. split; congruence.
  - right. right. by eapply extends_trace_elem.
Qed.

Lemma elem_of_delete_or (l : list Op) i o o' :
  l !! i = Some o -> o' ∈ l -> o' = o \/ o' ∈ delete i l.
Proof.
  revert i. induction l as [|x l IH]; intros i Hi Hin.
  - by apply elem_of_nil in Hin.
  - destruct i as [|i]; simpl in *.
    + inversion Hi; subst. apply elem_of_cons in Hin as [->|Hin]; auto.
    + apply elem_of_cons in Hin as [->|Hin].
      * right. apply elem_of_cons. by left.
      * destruct (IH i Hi Hin) as [->|H]; [by left|].
        right. apply elem_of_cons. by right.
Qed.

(** Liveness of addresses across [extends]. *)
Lemma extends_live st st' k :
  extends st st' -> fresh st -> fresh st' ->
  (is_Some (heap st' !! k) <->
   is_Some (heap st !! k) \/ ((brk st <= k)%nat /\ (k < brk st')%nat)).
Proof.
  intros He Hf Hf'. split.
  - intros Hk. destruct (decide (k < brk st)%nat) as [Hlt|Hge].
    + left. by apply (ext_old _ _ He).
    + right. split; [lia|]. destruct (decide (k < brk st')%nat); [done|].
      destruct Hk as [d Hd]. rewrite Hf' in Hd by lia. done.
  - intros [[d Hd]|[H1 H2]].
    + destruct (ext_heap _ _ He k d Hd) as (d' & Hd' & _). eauto.
    + destruct (ext_new _ _ He k H1 H2) as (d & Hd & _). eauto.
Qed.

Lemma trace_ok_issues top (ops : list Op) t :
  trace_ok top t ->
  (forall f p cc c, OpDelete f p cc CbOnEndDirectoryDeleted c ∈ ops ->
     forall es n x, resolve top f = Some (FsDir es) -> (n, x) ∈ es ->
       EvRemoved (g_file_get_child f n) ∈ t) ->
  trace_ok top (map EvIssue ops ++ t).
Proof.
  intros Ht. induction ops as [|o ops IH]; intros H; simpl; [done|].
  split.
  - destruct o as [| |f p cc [] c]; try done.
    intros es n x Hres Hin. apply elem_of_app. right.
    eapply H; [|done|done]. apply elem_of_cons. by left.
  - apply IH. intros f p cc c Hin. apply (H f p cc c).
    apply elem_of_cons. by right.
Qed.
Lemma inv_is_fresh top total cr lax st : Inv top total cr lax st -> fresh st.
Proof. intros HI. exact (inv_fresh _ _ _ _ _ HI). Qed.

Lemma elem_of_rev_list {A} (l : list A) x : x ∈ rev l <-> x ∈ l.
Proof. rewrite !list_elem_of_In. symmetry. apply in_rev. Qed.

(** When the delete of a directory is in flight, the entries of the
    directory have been removed. *)
Lemma end_in_flight_children_removed top total st f p cc k :
  Inv top total 0 None st -> cover_all top st ->
  OpDelete f p cc CbOnEndDirectoryDeleted k ∈ inflight st ->
  forall es n x, resolve top f = Some (FsDir es) -> (n, x) ∈ es ->
    EvRemoved (g_file_get_child f n) ∈ trace st.
Proof.
  intros HI Hcov Hin es n x Hres Hx.
  pose proof (inv_ops _ _ _ _ _ HI) as Hops.
  rewrite Forall_forall in Hops.
  destruct (Hops _ Hin) as (dk & Hdk & Hf). simpl in Hdk, Hf. subst f.
  pose proof (inv_num _ _ _ _ _ HI k dk Hdk) as Hn. cbn [owed_at] in Hn.
  destruct Hn as (H1 & H2 & H3 & H4 & H5 & H6 & H7 & H8 & H9 & H10).
  pose proof (osum_elem _ _ _ (end_op_of_nonneg k) Hin) as He.
  simpl in He. rewrite bool_decide_eq_true_2 in He by done. simpl in He.
  unfold_counts.
  assert (HE : osum (end_op_of k) (inflight st) = 1) by lia.
  specialize (H8 HE).
  pose proof (osum_nonneg _ (inflight st) (leaf_op_of_nonneg k)) as Hl0.
  pose proof (hsum_nonneg _ (heap st) (brk st) (child_ctx_of_nonneg k)) as Hc0.
  destruct (Hcov k dk es n x Hdk Hres Hx)
    as [(o & Ho & Hc)|[(j & dj & Hj & Hfj & Hrj)|H]]; [| |done]; exfalso.
  - pose proof (osum_elem _ _ _ (leaf_op_of_nonneg k) Ho) as Ha.
    pose proof (osum_elem _ _ _ (listing_op_of_nonneg k) Ho) as Hb.
    destruct o as [? ? ? ? ? k'|? ? ? ? k'|? ? ? [] k']; simpl in *;
      try done; destruct_and?; subst;
      rewrite bool_decide_eq_true_2 in * by done; simpl in *; lia.
  - pose proof (inv_live_lt _ _ _ _ _ _ _ HI Hj) as Hlt.
    pose proof (hsum_elem _ _ _ _ _ (child_ctx_of_nonneg k) Hlt Hj) as Ha.
    unfold child_ctx_of in Ha at 1. rewrite Hrj in Ha.
    rewrite bool_decide_eq_true_2 in Ha by done. simpl in Ha. lia.
Qed.

(** Operations issued from a state whose trace is in order keep it in
    order, provided the resulting state accounts for every entry. *)
Lemma trace_ok_step top total X st' :
  (exists ops, inflight st' = inflight X ++ ops /\
               trace st' = map EvIssue (rev ops) ++ trace X) ->
  trace_ok top (trace X) ->
  Inv top total 0 None st' -> cover_all top st' ->
  trace_ok top (trace st').
Proof.
  intros (ops & Hops & Htr) Hok HI Hcov. rewrite Htr.
  apply trace_ok_issues; [done|].
  intros f p cc c Hin es n x Hres Hx.
  assert (Hin' : OpDelete f p cc CbOnEndDirectoryDeleted c ∈ inflight st').
  { rewrite Hops. apply elem_of_app. right. by apply elem_of_rev_list. }
  pose proof (end_in_flight_children_removed _ _ _ _ _ _ _ HI Hcov Hin'
                es n x Hres Hx) as H.
  rewrite Htr in H. apply elem_of_app in H as [H|H]; [|done].
  apply list_elem_of_fmap in H as (o & Ho & _). discriminate.
Qed.
(** * Every entry stays accounted for *)

Lemma cover_all_extends top X Y :
  extends X Y -> fresh X -> fresh Y ->
  (forall c d, (brk X <= c)%nat -> heap Y !! c = Some d ->
     g_file_base (file d) <> None) ->
  cover_all top X -> cover_all top Y.
Proof.
  intros He HfX HfY Hbase Hcov c d es n x Hd Hres Hx.
  destruct (decide (c < brk X)%nat) as [Hlt|Hge].
  - destruct (ext_old _ _ He c Hlt ltac:(eauto)) as [d0 Hd0].
    destruct (ext_heap _ _ He c d0 Hd0) as (d' & Hd' & Hf & _).
    rewrite Hd in Hd'. inversion Hd'; subst d'.
    rewrite Hf in *. eapply covered_extends; [done|].
    by eapply Hcov.
  - assert (Hc : (c < brk Y)%nat).
    { destruct (decide (c < brk Y)%nat); [done|].
      rewrite HfY in Hd by lia. done. }
    destruct (ext_new _ _ He c ltac:(lia) Hc) as (d' & Hd' & Hop).
    rewrite Hd in Hd'. inversion Hd'; subst d'.
    destruct Hop as [Hb|(a & fl & p & cc & Hop)].
    + apply Hbase in Hd; [done|lia].
    + left. eexists. split; [exact Hop|]. done.
Qed.

Lemma inv_base top total cr lax st c d :
  Inv top total cr lax st -> heap st !! c = Some d ->
  g_file_base (file d) <> None.
Proof. intros HI Hd. by destruct (inv_static _ _ _ _ _ HI c d Hd) as (_ & _ & ? & _). Qed.

(** The listing has been opened. *)
Lemma cover_enumerate top total st i f a fl p cc c d es :
  Inv top total 0 None st -> cover_all top st ->
  inflight st !! i = Some (OpEnumerateChildren f a fl p cc c) ->
  heap st !! c = Some d ->
  resolve top f = Some (FsDir es) ->
  cover_all top
    (g_file_enumerator_next_files_async (mkEnum f (list_directory top fl es))
       20 (priority d) (cancellable d) c (taken i st)).
Proof.
  intros HI Hcov Hi Hd Hres c' d' es' n x Hd' Hres' Hx.
  destruct (inv_op_live _ _ _ _ _ _ _ HI Hi) as (d0 & Hd0 & -> & ->).
  simpl in Hd0. rewrite Hd in Hd0. inversion Hd0; subst d0.
  unfold taken in *. st_simpl.
  destruct (Hcov c' d' es' n x Hd' Hres' Hx)
    as [(o & Ho & Hc)|[(k & dk & Hk & Hfk & Hrk)|H]].
  - left. destruct (elem_of_delete_or _ _ _ _ Hi Ho) as [->|Hin].
    + simpl in Hc. subst c'. rewrite Hd in Hd'. inversion Hd'; subst d'.
      rewrite Hres in Hres'. inversion Hres'; subst es'.
      eexists. split; [apply elem_of_app; right; apply elem_of_cons; by left|].
      simpl. split; [done|]. unfold list_directory.
      rewrite <- list_fmap_compose. apply list_elem_of_fmap.
      exists (n, x). done.
    + exists o. split; [|done]. apply elem_of_app. by left.
  - right. left. eauto.
  - right. right. apply elem_of_cons. by right.
Qed.

(** A plain entry has been deleted. *)
Lemma cover_leaf_removed top st i f p cc c :
  cover_all top st ->
  inflight st !! i = Some (OpDelete f p cc CbOnFileDeleted c) ->
  cover_all top (incr_files_deleted (emit (EvRemoved f) (taken i st))).
Proof.
  intros Hcov Hi c' d' es' n x Hd' Hres' Hx.
  unfold taken in *. st_simpl.
  destruct (Hcov c' d' es' n x Hd' Hres' Hx)
    as [(o & Ho & Hc)|[(k & dk & Hk & Hfk & Hrk)|H]].
  - destruct (elem_of_delete_or _ _ _ _ Hi Ho) as [->|Hin].
    + simpl in Hc. destruct Hc as [-> ->].
      right. right. apply elem_of_cons. by left.
    + left. eauto.
  - right. left. eauto.
  - right. right. apply elem_of_cons. by right.
Qed.

(** A directory has been deleted; its context is still allocated. *)
Lemma cover_directory_gone top st i f p cc c d :
  cover_all top st ->
  inflight st !! i = Some (OpDelete f p cc CbOnEndDirectoryDeleted c) ->
  cover_all top (directory_gone f c d (taken i st)).
Proof.
  intros Hcov Hi c' d' es' n x Hd' Hres' Hx.
  unfold directory_gone, taken in *. st_simpl.
  destruct (Hcov c' d' es' n x Hd' Hres' Hx)
    as [(o & Ho & Hc)|[(k & dk & Hk & Hfk & Hrk)|H]].
  - destruct (elem_of_delete_or _ _ _ _ Hi Ho) as [->|Hin]; [done|].
    left. eauto.
  - right. left. eauto.
  - right. right. apply elem_of_cons. right. apply elem_of_cons. by right.
Qed.

(** Freeing the context of a directory that has been removed. *)
Lemma cover_free top st c d :
  cover_all top st -> heap st !! c = Some d ->
  EvRemoved (file d) ∈ trace st ->
  cover_all top (g_free c st).
Proof.
  intros Hcov Hd Hrem c' d' es' n x Hd' Hres' Hx.
  st_simpl. apply lookup_delete_Some in Hd' as [Hne Hd'].
  destruct (Hcov c' d' es' n x Hd' Hres' Hx)
    as [(o & Ho & Hc)|[(k & dk & Hk & Hfk & Hrk)|H]].
  - left. eauto.
  - destruct (decide (k = c)) as [->|Hnk].
    + rewrite Hd in Hk. inversion Hk; subst dk.
      right. right. by rewrite <- Hfk.
    + right. left. exists k, dk. st_simpl. by rewrite lookup_delete_ne.
  - by right; right.
Qed.

(** Each entry of a batch is covered once the loop has run. *)
Lemma dispatch_entry_covers parent c st info :
  fresh st -> is_Some (heap st !! c) ->
  covered (dispatch_entry parent c st info) c
    (g_file_get_child parent (g_file_info_get_name info))
    (g_file_info_get_name info).
Proof.
  intros Hf [d Hd]. unfold dispatch_entry, incr_pending. rewrite Hd.
  st_simpl. rewrite lookup_insert_eq. cbn [priority cancellable].
  case_decide.
  - right. left. unfold rm_rf_async, g_file_enumerate_children_async.
    cbn [file]. eexists (brk st), _.
    destruct (g_file_base _); st_simpl; rewrite lookup_insert_eq; done.
  - left. eexists. split; [apply elem_of_app; right; apply elem_of_cons; by left|].
    done.
Qed.

Lemma dispatch_loop_covers parent c files : forall st,
  fresh st -> is_Some (heap st !! c) ->
  forall info, info ∈ files ->
    covered (fold_left (dispatch_entry parent c) files st) c
      (g_file_get_child parent (g_file_info_get_name info))
      (g_file_info_get_name info).
Proof.
  induction files as [|x files IH]; intros st Hf Hc info Hin.
  - by apply elem_of_nil in Hin.
  - simpl. destruct (dispatch_entry_extends parent c st x Hf) as [He Hf'].
    apply elem_of_cons in Hin as [->|Hin].
    + eapply covered_extends; [by apply dispatch_loop_extends|].
      by apply dispatch_entry_covers.
    + apply IH; [done| |done].
      destruct Hc as [d Hd].
      destruct (ext_heap _ _ He c d Hd) as (d' & Hd' & _). eauto.
Qed.
(** A batch has been received and dispatched. *)
Lemma cover_next_files top total st i e n p cc c :
  Inv top total 0 None st -> cover_all top st ->
  inflight st !! i = Some (OpNextFiles e n p cc c) ->
  Inv top total 0 None (on_next_files e n None c (taken i st)) ->
  cover_all top (on_next_files e n None c (taken i st)).
Proof.
  intros HI Hcov Hi HI'.
  destruct (inv_op_live _ _ _ _ _ _ _ HI Hi) as (d & Hd & Hn & Hcont).
  simpl in Hd.
  assert (HfX : fresh (taken i st)) by exact (inv_is_fresh _ _ _ _ _ HI).
  pose proof (on_next_files_extends e n c (taken i st) HfX) as He.
  intros c' d' es' n' x Hd' Hres' Hx.
  destruct (decide (c' < brk st)%nat) as [Hlt|Hge].
  2:{ assert (Hc : (c' < brk (on_next_files e n None c (taken i st)))%nat)
        by (by eapply inv_live_lt).
      destruct (ext_new _ _ He c' ltac:(simpl; lia) Hc) as (d'' & Hd'' & Hop).
      rewrite Hd' in Hd''. inversion Hd''; subst d''.
      destruct Hop as [Hb|(a & fl & p' & cc' & Hop)].
      - by apply (inv_base _ _ _ _ _ _ _ HI') in Hd'.
      - left. eexists. split; [exact Hop|done]. }
  destruct (ext_old _ _ He c' Hlt ltac:(eauto)) as [d0 Hd0].
  destruct (ext_heap _ _ He c' d0 Hd0) as (d'' & Hd'' & Hf & _).
  rewrite Hd' in Hd''. inversion Hd''; subst d''.
  unfold taken in Hd0. st_simpl. rewrite Hf in *.
  destruct (Hcov c' d0 es' n' x Hd0 Hres' Hx)
    as [(o & Ho & Hc)|[(k & dk & Hk & Hfk & Hrk)|H]].
  - destruct (elem_of_delete_or _ _ _ _ Hi Ho) as [->|Hin].
    + simpl in Hc. destruct Hc as [<- Hname].
      rewrite Hd in Hd0. inversion Hd0; subst d0.
      rewrite <- (take_drop n (enum_rest e)), fmap_app in Hname.
      unfold on_next_files, g_file_enumerator_next_files_finish in *.
      cbn [g_file_enumerator_get_container] in *.
      set (files := take n (enum_rest e)) in *.
      set (e' := mkEnum _ _) in *.
      destruct (on_next_files_head_extends files e' c (taken i st)) as [Heh Hfh].
      specialize (Hfh HfX).
      assert (Hch : is_Some (heap (on_next_files_head files e' c (taken i st)) !! c)).
      { destruct (ext_heap _ _ Heh c d Hd) as (dh & Hdh & _). eauto. }
      apply elem_of_app in Hname as [Hname|Hname].
      * apply list_elem_of_fmap in Hname as (info & -> & Hinfo).
        rewrite <- Hcont.
        by apply dispatch_loop_covers.
      * left. exists (OpNextFiles e' 20 G_PRIORITY_DEFAULT None c).
        split; [|done].
        eapply extends_inflight_elem; [by apply dispatch_loop_extends|].
        unfold on_next_files_head. destruct files as [|y l] eqn:Hfiles.
        { exfalso. subst files.
          assert (enum_rest e = []) as Hr.
          { destruct (enum_rest e); [done|]. destruct n; [lia|]. discriminate. }
          rewrite Hr, drop_nil in Hname. by apply elem_of_nil in Hname. }
        st_simpl. apply elem_of_app. right. apply elem_of_cons. by left.
    + eapply covered_extends; [exact He|]. left. eauto.
  - eapply covered_extends; [exact He|]. right. left. eauto.
  - eapply covered_extends; [exact He|]. by right; right.
Qed.
(** * The trace against the state *)

Lemma J_assemble top total X Y fc :
  extends X Y -> fresh X -> fresh Y ->
  (forall c, fc = Some c -> (c < brk X)%nat) ->
  Inv top total 0 None (g_free_opt fc Y) ->
  cover_all top (g_free_opt fc Y) ->
  files_deleted X = count_events is_removed (trace X) ->
  count_events is_print_err (trace X) = 0 ->
  count_events is_print (trace X) + b2z (timeout_source X) <= 1 ->
  (forall k, tsum (end_op_of k) (trace X) =
             end_in_flight X k + count_events (is_complete_of k) (trace X)) ->
  (forall k, count_events (is_complete_of k) (trace X) =
             match heap (g_free_opt fc X) !! k with
             | Some _ => 0
             | None => if decide (k < brk X)%nat then 1 else 0
             end) ->
  trace_ok top (trace X) ->
  is_Some (heap (g_free_opt fc X) !! 0%nat) ->
  J top (g_free_opt fc Y).
Proof.
  intros He HfX HfY Hfc HI Hcov H1 H2 H3 H4 H5 H6 H7.
  assert (Hsame : inflight (g_free_opt fc Y) = inflight Y /\
                  trace (g_free_opt fc Y) = trace Y /\
                  files_deleted (g_free_opt fc Y) = files_deleted Y /\
                  timeout_source (g_free_opt fc Y) = timeout_source Y /\
                  brk (g_free_opt fc Y) = brk Y) by (by destruct fc).
  destruct Hsame as (S1 & S2 & S3 & S4 & S5).
  constructor; rewrite ?S1, ?S2, ?S3, ?S4, ?S5.
  - rewrite (ext_files _ _ He), (extends_count is_removed _ _ ltac:(done) He).
    done.
  - by rewrite (extends_count is_print_err _ _ ltac:(done) He).
  - by rewrite (extends_count is_print _ _ ltac:(done) He), (ext_timeout _ _ He).
  - intros k. pose proof (extends_tsum (end_op_of k) _ _ He) as Ht.
    unfold end_in_flight in *. rewrite S1.
    rewrite (extends_count (is_complete_of k) _ _ ltac:(done) He).
    specialize (H4 k). lia.
  - intros k. rewrite (extends_count (is_complete_of k) _ _ ltac:(done) He), H5.
    pose proof (ext_brk _ _ He) as Hbrk.
    assert (Hlive : forall j, is_Some (heap Y !! j) <->
              is_Some (heap X !! j) \/ ((brk X <= j)%nat /\ (j < brk Y)%nat))
      by (intros j; by apply extends_live).
    assert (HXY : forall j, is_Some (heap (g_free_opt fc Y) !! j) <->
              is_Some (heap (g_free_opt fc X) !! j) \/
              ((brk X <= j)%nat /\ (j < brk Y)%nat)).
    { intros j. destruct fc as [c|]; simpl; [|apply Hlive].
      specialize (Hfc c eq_refl).
      destruct (decide (j = c)) as [->|Hne].
      - rewrite !lookup_delete_eq. split; [by intros [? ?]|].
        intros [[? ?]|[? ?]]; [done|lia].
      - rewrite !lookup_delete_ne by done. apply Hlive. }
    specialize (HXY k).
    destruct (heap (g_free_opt fc X) !! k) as [dx|] eqn:EX.
    + destruct HXY as [_ HXY]. destruct HXY as [dy ->]; [left; eauto|done].
    + destruct (heap (g_free_opt fc Y) !! k) as [dy|] eqn:EY.
      * destruct HXY as [HXY _]. destruct HXY as [[? ?]|[? ?]]; [eauto|done|].
        rewrite decide_False by lia. done.
      * destruct (decide (k < brk X)%nat).
        -- rewrite decide_True by lia. done.
        -- destruct (decide (k < brk Y)%nat) as [Hlt|]; [|done].
           destruct HXY as [_ HXY]. destruct HXY as [? ?]; [right; lia|done].
  - rewrite <- S2.
    apply (trace_ok_step top total X (g_free_opt fc Y)); try done.
    destruct (ext_ops _ _ He) as (ops & Ho1 & Ho2).
    exists ops. by rewrite S1, S2.
  - done.
  - destruct fc as [c|]; simpl in *.
    + destruct (decide (c = 0%nat)) as [->|Hne].
      * rewrite lookup_delete_eq in H7. by destruct H7.
      * rewrite lookup_delete_ne in * by done.
        destruct H7 as [d0 Hd0].
        destruct (ext_heap _ _ He _ d0 Hd0) as (d' & Hd' & _). eauto.
    + destruct H7 as [d0 Hd0].
      destruct (ext_heap _ _ He _ d0 Hd0) as (d' & Hd' & _). eauto.
Qed.
Lemma count_events_cons p ev t :
  count_events p (ev :: t) = (if p ev then 1 else 0) + count_events p t.
Proof. reflexivity. Qed.

Lemma tsum_cons w ev t :
  tsum w (ev :: t) = match ev with EvIssue o => w o | _ => 0 end + tsum w t.
Proof. reflexivity. Qed.

Lemma fresh_on_rm_rf_complete r q st :
  fresh st -> fresh (on_rm_rf_complete r q st).
Proof.
  intros Hf. unfold on_rm_rf_complete. destruct (rm_rf_finish r); [done|].
  apply fresh_check_no_children. by apply fresh_decr_pending.
Qed.

Lemma J_step top total st st' :
  Inv top total 0 None st -> J top st -> transition top st st' ->
  Inv top total 0 None st' -> J top st'.
Proof.
  intros HI [J1 J2 J3 J4 J5 J6 J7 J8] Htr HI'.
  pose proof (inv_is_fresh _ _ _ _ _ HI) as Hfr.
  pose proof (inv_is_fresh _ _ _ _ _ HI') as Hfr'.
  destruct Htr as [->|Ht ->|i o e Hi ->|i f a fl p cc c d es Hi Hd Hres ->
                  |i e n p cc c Hi ->|i f p cc c Hi Hroom ->
                  |i f p cc c d q Hi Hd Hcb Hroom ->|i f p cc d Hi Hd Hcb Hroom ->].
  - by constructor.
  - unfold timeout_dispatch in *. rewrite Ht in *. simpl in *.
    constructor; simpl; try done.
    + simpl in J3. lia.
    + intros c' d' es' n x Hd' Hres' Hx. simpl in Hd'.
      destruct (J7 c' d' es' n x Hd' Hres' Hx) as [?|[?|?]];
        [by left|by right; left|].
      right. right. simpl. apply elem_of_cons. by right.
  - pose proof (inv_status _ _ _ _ _ HI'). done.
  - apply (J_assemble top total (taken i st) _ None); try done.
    + apply extends_issue.
    + by eapply cover_enumerate.
    + intros k. unfold end_in_flight, taken. st_simpl.
      rewrite (osum_delete _ _ _ _ Hi). w_simpl. rewrite Z.sub_0_r. apply J4.
  - apply (J_assemble top total (taken i st) _ None); try done.
    + by apply on_next_files_extends.
    + by eapply cover_next_files.
    + intros k. unfold end_in_flight, taken. st_simpl.
      rewrite (osum_delete _ _ _ _ Hi). w_simpl. rewrite Z.sub_0_r. apply J4.
  - set (X := incr_files_deleted (emit (EvRemoved f) (taken i st))).
    assert (HcX : cover_all top X) by (by eapply cover_leaf_removed).
    apply (J_assemble top total X _ None); try done.
    + apply on_file_deleted_extends.
    + eapply (cover_all_extends top X); try done.
      * apply on_file_deleted_extends.
      * intros k dk _ Hk. by eapply inv_base.
    + subst X. unfold taken. st_simpl.
      rewrite guint_wrap_small by (pose proof (inv_files _ _ _ _ _ HI); lia).
      rewrite ?count_events_cons. simpl. lia.
    + intros k. subst X. unfold end_in_flight, taken. st_simpl.
      rewrite (osum_delete _ _ _ _ Hi). w_simpl. rewrite Z.sub_0_r. apply J4.
  - destruct (inv_op_live _ _ _ _ _ _ _ HI Hi) as (d0 & Hd0 & Hf).
    simpl in Hd0, Hf. rewrite Hd in Hd0. inversion Hd0; subst d0. subst f.
    pose proof (inv_static _ _ _ _ _ HI c d Hd) as (Hs1 & Hs2 & Hs3 & Hs4).
    pose proof (inv_live_lt _ _ _ _ _ _ _ HI Hd) as Hlt.
    set (X := directory_gone (file d) c d (taken i st)) in *.
    set (Y := on_rm_rf_complete (result d) q X) in *.
    assert (He : extends X Y) by (by apply on_rm_rf_complete_extends).
    assert (HfY : fresh Y) by (by apply fresh_on_rm_rf_complete).
    assert (HcX : cover_all top X) by (by eapply cover_directory_gone).
    assert (HcY : cover_all top Y).
    { eapply (cover_all_extends top X); try done.
      intros k dk Hk Hdk. apply (inv_base _ _ _ _ _ k dk HI').
      simpl. rewrite lookup_delete_ne; [done|].
      subst X. unfold directory_gone, taken in Hk. st_simpl. lia. }
    apply (J_assemble top total X Y (Some c)); try done.
    + intros k [= <-]. done.
    + simpl. destruct (ext_heap _ _ He c d Hd) as (d' & Hd' & Hf' & _).
      eapply cover_free; [done|exact Hd'|].
      rewrite Hf'. eapply extends_trace_elem; [exact He|].
      subst X. unfold directory_gone. st_simpl.
      apply elem_of_cons. right. apply elem_of_cons. by left.
    + subst X. unfold directory_gone, taken. st_simpl.
      rewrite guint_wrap_small by (pose proof (inv_files _ _ _ _ _ HI); lia).
      rewrite ?count_events_cons. simpl. lia.
    + intros k. subst X. unfold end_in_flight, directory_gone, taken. st_simpl.
      rewrite (osum_delete _ _ _ _ Hi). w_simpl.
      rewrite !count_events_cons, !tsum_cons. simpl.
      specialize (J4 k). unfold end_in_flight in J4.
      case_bool_decide; simpl; lia.
    + intros k. subst X. unfold directory_gone, taken. st_simpl.
      rewrite !count_events_cons. simpl.
      specialize (J5 k). destruct (decide (k = c)) as [->|Hne].
      * rewrite bool_decide_eq_true_2 by done.
        rewrite lookup_delete_eq, decide_True by done.
        rewrite Hd in J5. lia.
      * rewrite bool_decide_eq_false_2 by done.
        rewrite lookup_delete_ne by done. done.
    + subst X. unfold directory_gone, taken. st_simpl.
      split; [|split; [done|done]]. split; [done|]. rewrite Hs2. eauto.
    + subst X. unfold directory_gone, taken. simpl.
      rewrite Hcb in Hs4. rewrite lookup_delete_ne by lia. done.
  - pose proof (inv_status _ _ _ _ _ HI'). done.
Qed.
(** * Facts about every reachable state *)

Lemma dead_no_end_op top total st c :
  Inv top total 0 None st -> heap st !! c = None -> end_in_flight st c = 0.
Proof.
  intros HI Hc. unfold end_in_flight. apply osum_zero.
  eapply Forall_impl; [apply (inv_ops _ _ _ _ _ HI)|].
  intros o (d & Hd & _). destruct o as [| |? ? ? [] k]; simpl in *; try done.
  rewrite bool_decide_eq_false_2; [done|]. intros ->. congruence.
Qed.

Lemma J_issue_once top total st c :
  Inv top total 0 None st -> J top st ->
  tsum (end_op_of c) (trace st) <= 1 /\
  count_events (is_complete_of c) (trace st) <= 1.
Proof.
  intros HI HJ. pose proof (j_issue_end _ _ HJ c) as H1.
  pose proof (j_completed _ _ HJ c) as H2.
  destruct (heap st !! c) as [d|] eqn:Hd.
  - pose proof (inv_num _ _ _ _ _ HI c d Hd) as Hn. cbn [owed_at] in Hn.
    destruct Hn as (_ & _ & ? & ? & ? & _). split; lia.
  - rewrite (dead_no_end_op _ _ _ _ HI Hd) in H1.
    destruct (decide (c < brk st)%nat); split; lia.
Qed.

Lemma Facts_of_J top total st :
  Inv top total 0 None st -> J top st -> Facts top total st.
Proof.
  intros HI HJ. constructor.
  - apply (j_trace _ _ HJ).
  - intros c. by apply (J_issue_once top total st c).
  - intros c. by apply (J_issue_once top total st c).
  - apply (j_files _ _ HJ).
  - pose proof (j_prints _ _ HJ). destruct (timeout_source st); simpl in *; lia.
  - rewrite (inv_status _ _ _ _ _ HI). apply (j_noerr _ _ HJ).
Qed.

(** A fatal error: the message is printed and the process exits with 1. *)
Lemma Facts_fail top total st i e :
  Inv top total 0 None st -> J top st ->
  Facts top total (fatal_gerror e (taken i st)).
Proof.
  intros HI HJ. destruct (Facts_of_J _ _ _ HI HJ) as [F1 F2 F3 F4 F5 F6].
  rewrite (inv_status _ _ _ _ _ HI) in F6.
  constructor; unfold taken; st_simpl;
    rewrite ?count_events_cons, ?tsum_cons; simpl; try done.
  right. split; [done|]. split; [lia|]. eauto.
Qed.

Lemma on_end_directory_deleted_root_eq top total st i f p cc d :
  Inv top total 0 None st ->
  inflight st !! i = Some (OpDelete f p cc CbOnEndDirectoryDeleted 0) ->
  heap st !! 0%nat = Some d ->
  res_callback (result d) = CbOnRmFinished ->
  on_end_directory_deleted f None 0 (taken i st) =
  g_free 0 (g_main_loop_quit (directory_gone f 0 d (taken i st))).
Proof.
  intros HI Hi Hd Hcb.
  pose proof (inv_static _ _ _ _ _ HI _ d Hd) as (Hs1 & _).
  unfold on_end_directory_deleted, directory_gone, taken. st_simpl.
  rewrite Hd. unfold g_simple_async_result_complete. rewrite Hcb.
  unfold on_rm_finished, rm_rf_finish. rewrite Hs1. st_simpl.
  by rewrite (inv_status _ _ _ _ _ HI).
Qed.

(** The root directory is gone: [main] prints the final count and
    returns 0. *)
Lemma Facts_finish top total st i f p cc d :
  Inv top total 0 None st -> J top st ->
  inflight st !! i = Some (OpDelete f p cc CbOnEndDirectoryDeleted 0) ->
  heap st !! 0%nat = Some d ->
  res_callback (result d) = CbOnRmFinished ->
  Facts top total
    (main_finish (g_free 0 (g_main_loop_quit (directory_gone f 0 d (taken i st))))).
Proof.
  intros HI HJ Hi Hd Hcb.
  destruct (Facts_of_J _ _ _ HI HJ) as [F1 F2 F3 F4 F5 F6].
  rewrite (inv_status _ _ _ _ _ HI) in F6.
  destruct (on_end_directory_deleted_root _ _ _ _ _ _ _ _ _ HI Hi Hd Hcb)
    as (_ & _ & Hfiles & _).
  fold (taken i st) in Hfiles.
  rewrite (on_end_directory_deleted_root_eq _ _ _ _ _ _ _ _ HI Hi Hd Hcb) in Hfiles.
  destruct (inv_op_live _ _ _ _ _ _ _ HI Hi) as (d0 & Hd0 & Hf).
  simpl in Hd0, Hf. rewrite Hd in Hd0. inversion Hd0; subst d0. subst f.
  pose proof (inv_static _ _ _ _ _ HI _ d Hd) as (Hs1 & Hs2 & _).
  pose proof (inv_num _ _ _ _ _ HI _ d Hd) as Hn. cbn [owed_at] in Hn.
  destruct Hn as (N1 & N2 & N3 & N4 & N5 & N6 & N7 & N8 & N9 & N10).
  pose proof (osum_elem _ _ _ (end_op_of_nonneg 0)
                (list_elem_of_lookup_2 _ _ _ Hi)) as He.
  simpl in He. unfold end_in_flight in *.
  assert (HE : osum (end_op_of 0) (inflight st) = 1) by lia.
  unfold main_finish, directory_gone, taken in *. st_simpl.
  pose proof (j_prints _ _ HJ) as Hp.
  constructor; st_simpl; rewrite ?count_events_cons, ?tsum_cons; simpl.
  - split; [done|]. split; [|split; [done|done]]. split; [done|].
    rewrite Hs2. eauto.
  - intros c. specialize (F2 c). lia.
  - intros c. pose proof (j_completed _ _ HJ c) as Hc.
    specialize (F3 c). case_bool_decide; [subst; rewrite Hd in Hc|]; lia.
  - rewrite guint_wrap_small in *
      by (pose proof (inv_files _ _ _ _ _ HI); pose proof (inv_total _ _ _ _ _ HI);
          pose proof (remaining_live _ _ _ _ _ HI Hd);
          pose proof (inv_pot _ _ _ _ _ HI); lia).
    lia.
  - destruct (timeout_source st); simpl in *; lia.
  - left. split; [done|]. split; [lia|]. split; [done|].
    split; [rewrite Hfiles; eauto|].
    intros c Hc. pose proof (j_completed _ _ HJ c) as H5.
    pose proof (j_issue_end _ _ HJ c) as H4. unfold end_in_flight in H4.
    destruct (decide (c = 0%nat)) as [->|Hne].
    + rewrite bool_decide_eq_true_2 by done. rewrite Hd in H5. lia.
    + rewrite bool_decide_eq_false_2 by done.
      destruct (heap st !! c) as [dc|] eqn:Hdc.
      * exfalso. apply Hne.
        eapply (only_root_live _ _ _ _ _ _ HI Hd); [|exact Hdc]. lia.
      * pose proof (dead_no_end_op _ _ _ _ HI Hdc) as H0.
        unfold end_in_flight in H0.
        rewrite decide_True in H5 by done. lia.
Qed.
Lemma step_stopped top st ch :
  status st <> Running -> step top st ch = st.
Proof. intros H. unfold step. by destruct (status st). Qed.

Lemma step_reach top total st ch :
  fs_wf top -> Reach top total st -> Reach top total (step top st ch).
Proof.
  intros Hwf [[HI HJ]|[HF HS]].
  2:{ rewrite step_stopped; [by right|].
      destruct HS as [(-> & _)| ->]; done. }
  pose proof (step_transition top total st ch HI) as Htr.
  pose proof (step_good top total st ch Hwf (or_introl HI)) as [HI'|Hstop].
  { left. split; [done|]. exact (J_step top total st _ HI HJ Htr HI'). }
  right. split; [|done].
  assert (Hst : status (step top st ch) <> Running).
  { destruct Hstop as [(-> & _)| ->]; done. }
  pose proof (inv_status _ _ _ _ _ HI) as Hrun.
  destruct Htr as [E|Ht E|i o e Hi E|i f a fl p cc c d es Hi Hd Hres E
                  |i e n p cc c Hi E|i f p cc c Hi Hroom E
                  |i f p cc c d q Hi Hd Hcb Hroom E|i f p cc d Hi Hd Hcb Hroom E];
    rewrite E in *.
  - done.
  - exfalso. apply Hst. unfold timeout_dispatch. by destruct (timeout_source st).
  - by apply Facts_fail.
  - exfalso. by apply Hst.
  - exfalso. apply Hst.
    apply (inv_status _ _ _ _ _ (on_next_files_inv _ _ _ _ _ _ _ _ _ HI Hi)).
  - exfalso. apply Hst.
    apply (inv_status _ _ _ _ _ (on_file_deleted_inv _ _ _ _ _ _ _ _ HI Hi)).
  - exfalso. apply Hst.
    pose proof (inv_static _ _ _ _ _ HI c d Hd) as (Hs1 & Hs2 & Hs3 & Hs4).
    rewrite Hcb in Hs4. destruct Hs4 as [_ Hq].
    unfold on_rm_rf_complete, rm_rf_finish. rewrite Hs1. st_simpl.
    rewrite check_no_children_status, decr_pending_status; try done.
    apply decr_pending_live. done.
  - by eapply Facts_finish.
Qed.

Lemma run_reach top total cs : forall st,
  fs_wf top -> Reach top total st -> Reach top total (run top st cs).
Proof.
  induction cs as [|c cs IH]; intros st Hwf HR; [done|].
  simpl. apply IH; [done|]. by apply step_reach.
Qed.

Lemma rm_rf_async_root_J top path prio canc :
  J top (rm_rf_async (g_file_new_for_path (Some path)) prio canc CbOnRmFinished
           (mkState ∅ 0%nat [] 0 true true Running [])).
Proof.
  unfold rm_rf_async, g_file_enumerate_children_async. simpl.
  constructor; st_simpl; simpl; try done.
  - intros c. destruct (decide (c = 0%nat)) as [->|Hne].
    + by rewrite lookup_insert_eq.
    + rewrite lookup_insert_ne, lookup_empty by done.
      rewrite decide_False by lia. done.
  - intros c d es n x Hd Hres Hx. st_simpl.
    apply lookup_insert_Some in Hd as [[<- <-]|[_ Hd]];
      [|by rewrite lookup_empty in Hd].
    left. eexists. split; [apply elem_of_cons; by left|]. done.
Qed.

(** The state [main] enters the loop with. *)
Lemma main_start_reach top path :
  count_entries top < guint_max ->
  Reach top (count_entries top) (main_start_path (Some path)).
Proof.
  intros Hlt. left. split.
  - destruct (main_start_good top path Hlt) as [H|[[H _]|H]]; [done| |]; done.
  - pose proof (rm_rf_async_root_J top path G_PRIORITY_DEFAULT None)
      as [J1 J2 J3 J4 J5 J6 J7 J8].
    by constructor.
Qed.

Lemma reachable top path cs :
  fs_wf top -> count_entries top < guint_max ->
  Reach top (count_entries top) (run top (main_start_path (Some path)) cs).
Proof.
  intros Hwf Hlt. apply run_reach; [done|]. by apply main_start_reach.
Qed.

Lemma reach_facts top total st : Reach top total st -> Facts top total st.
Proof.
  intros [[HI HJ]|[HF _]]; [by apply Facts_of_J|done].
Qed.
Lemma trace_ok_suffix top post t : trace_ok top (post ++ t) -> trace_ok top t.
Proof. induction post as [|ev post IH]; simpl; [done|]. intros [_ H]. auto. Qed.

Lemma reach_running top total st :
  Reach top total st -> status st = Running ->
  Inv top total 0 None st /\ J top st.
Proof.
  intros [H|[_ [(Hs & _)|Hs]]] Hrun; [done| |]; rewrite Hs in Hrun; done.
Qed.

(** A delivery changes the counter by nothing or by one. *)
Lemma transition_files top total st st' :
  Inv top total 0 None st -> transition top st st' ->
  files_deleted st' = files_deleted st \/
  files_deleted st' = files_deleted st + 1.
Proof.
  intros HI Htr. pose proof (inv_is_fresh _ _ _ _ _ HI) as Hfr.
  pose proof (inv_files _ _ _ _ _ HI) as Hnn.
  destruct Htr as [->|Ht ->|i o e Hi ->|i f a fl p cc c d es Hi Hd Hres ->
                  |i e n p cc c Hi ->|i f p cc c Hi Hroom ->
                  |i f p cc c d q Hi Hd Hcb Hroom ->|i f p cc d Hi Hd Hcb Hroom ->].
  - by left.
  - left. unfold timeout_dispatch. by destruct (timeout_source st).
  - by left.
  - by left.
  - left. by rewrite (ext_files _ _ (on_next_files_extends e n c (taken i st) Hfr)).
  - right. rewrite (ext_files _ _ (on_file_deleted_extends f c (taken i st))).
    unfold taken. st_simpl. apply guint_wrap_small. lia.
  - right. pose proof (inv_static _ _ _ _ _ HI c d Hd) as (Hs1 & _).
    st_simpl.
    rewrite (ext_files _ _ (on_rm_rf_complete_extends (result d) q _ Hs1)).
    unfold directory_gone, taken. st_simpl. apply guint_wrap_small. lia.
  - right. unfold main_finish, directory_gone, taken. st_simpl.
    apply guint_wrap_small. lia.
Qed.
Lemma hsum_pos_elem w (h : gmap nat AsyncRmContext) n :
  0 < hsum w h n -> exists c d, (c < n)%nat /\ h !! c = Some d /\ w d <> 0.
Proof.
  induction n as [|n IH]; intros H; [simpl in H; unfold hsum in H; simpl in H; lia|].
  rewrite hsum_S in H.
  destruct (decide (0 < hsum w h n)) as [Hp|Hz].
  - destruct (IH Hp) as (c & d & Hc & Hd & Hw). exists c, d. split; [lia|done].
  - destruct (h !! n) as [d|] eqn:Hd; simpl in H; [|lia].
    exists n, d. split; [lia|]. split; [done|]. lia.
Qed.

(** While the loop runs something is in flight: the run is never left
    waiting for nothing. *)
Lemma running_has_work top total st :
  Inv top total 0 None st -> J top st -> inflight st <> [].
Proof.
  intros HI HJ Hnil.
  assert (Hchain : forall k c d, heap st !! c = Some d ->
            (brk st - c <= k)%nat -> False).
  { induction k as [|k IH]; intros c d Hd Hk.
    - pose proof (inv_live_lt _ _ _ _ _ _ _ HI Hd). lia.
    - pose proof (inv_num _ _ _ _ _ HI c d Hd) as Hn. cbn [owed_at] in Hn.
      destruct Hn as (_ & _ & _ & _ & _ & _ & _ & _ & Hs & _).
      unfold_counts. rewrite Hnil in Hs. simpl in Hs.
      specialize (Hs eq_refl eq_refl).
      destruct (hsum_pos_elem _ _ _ Hs) as (c' & d' & Hc' & Hd' & Hw).
      pose proof (inv_static _ _ _ _ _ HI c' d' Hd') as (_ & _ & _ & Hst).
      unfold child_ctx_of in Hw.
      destruct (res_callback (result d')) as [q|]; [|done].
      destruct Hst as [Hq _].
      destruct (decide (q = c)) as [->|Hne].
      + apply (IH c' d' Hd'). lia.
      + rewrite bool_decide_eq_false_2 in Hw by done. done. }
  destruct (j_root _ _ HJ) as [d0 Hd0]. by eapply Hchain.
Qed.
(** * Runs that have stopped *)

Lemma run_stopped top cs : forall st,
  status st <> Running -> run top st cs = st.
Proof.
  induction cs as [|c cs IH]; intros st H; [done|].
  simpl. rewrite step_stopped by done. by apply IH.
Qed.

(** * The loop over a batch *)

Lemma guint_wrap_succ z : guint_wrap (guint_wrap z + 1) = guint_wrap (z + 1).
Proof. unfold guint_wrap. by rewrite Zplus_mod_idemp_l. Qed.

Lemma dispatched_ops_length parent prio canc data files : forall next,
  length (dispatched_ops parent prio canc data next files) = length files.
Proof.
  induction files as [|info files IH]; intros next; simpl; [done|].
  case_decide; simpl; by rewrite IH.
Qed.

(** What the loop of [on_next_files] does to the operations in flight and
    to the counter. *)
Lemma dispatch_loop_inflight parent c files : forall st d,
  heap st !! c = Some d -> fresh st -> g_file_base parent <> None ->
  let st' := fold_left (dispatch_entry parent c) files st in
  inflight st' =
    inflight st ++
    dispatched_ops parent (priority d) (cancellable d) c (brk st) files /\
  exists d', heap st' !! c = Some d' /\
    num_files_pending d' =
      (if files is [] then num_files_pending d
       else guint_wrap (num_files_pending d + Z.of_nat (length files))) /\
    priority d' = priority d /\ cancellable d' = cancellable d.
Proof.
  induction files as [|info files IH]; intros st d Hd Hf Hbase.
  - simpl. rewrite app_nil_r. split; [done|]. exists d. done.
  - assert (Hlt : (c < brk st)%nat).
    { destruct (decide (c < brk st)%nat); [done|].
      rewrite Hf in Hd by lia. done. }
    destruct (dispatch_entry_extends parent c st info Hf) as [_ Hf1].
    cbn [fold_left dispatched_ops].
    set (d1 := mkCtx (priority d) (cancellable d)
                 (guint_wrap (num_files_pending d + 1))
                 (have_more_files d) (file d) (result d)).
    assert (Hstep : heap (dispatch_entry parent c st info) !! c = Some d1 /\
              inflight (dispatch_entry parent c st info) =
                inflight st ++
                [if decide (g_file_info_get_file_type info = G_FILE_TYPE_DIRECTORY)
                 then OpEnumerateChildren
                        (g_file_get_child parent (g_file_info_get_name info))
                        "standard::name,standard::type"
                        G_FILE_QUERY_INFO_NOFOLLOW_SYMLINKS
                        (priority d) (cancellable d) (brk st)
                 else OpDelete
                        (g_file_get_child parent (g_file_info_get_name info))
                        (priority d) None CbOnFileDeleted c] /\
              brk (dispatch_entry parent c st info) =
                if decide (g_file_info_get_file_type info = G_FILE_TYPE_DIRECTORY)
                then S (brk st) else brk st).
    { unfold dispatch_entry, incr_pending. rewrite Hd. st_simpl.
      rewrite lookup_insert_eq. cbn [priority cancellable].
      case_decide.
      - unfold rm_rf_async, g_file_enumerate_children_async. cbn [file].
        destruct (g_file_base (g_file_get_child parent _)) eqn:Hb;
          [|by destruct parent as [[?|] ?]].
        st_simpl. rewrite lookup_insert_ne by lia.
        by rewrite lookup_insert_eq.
      - st_simpl. by rewrite lookup_insert_eq. }
    destruct Hstep as (Hd1 & Hin1 & Hbrk1).
    destruct (IH _ d1 Hd1 Hf1 Hbase) as (Hin & d' & Hd' & Hp & Hpr & Hca).
    split.
    + rewrite Hin, Hin1, Hbrk1. simpl.
      rewrite <- app_assoc. simpl. by case_decide.
    + exists d'. split; [done|]. split; [|done].
      rewrite Hp. simpl. destruct files as [|x l]; simpl.
      * done.
      * unfold guint_wrap. rewrite Zplus_mod_idemp_l. f_equal. lia.
Qed.

Lemma on_next_files_head_nonempty files e c st d :
  heap st !! c = Some d -> fresh st -> files <> [] ->
  let h := on_next_files_head files e c st in
  heap h !! c = Some (mkCtx (priority d) (cancellable d) (num_files_pending d)
                        true (file d) (result d)) /\
  inflight h = inflight st ++ [OpNextFiles e 20 G_PRIORITY_DEFAULT None c] /\
  brk h = brk st /\ fresh h.
Proof.
  intros Hd Hfr Hne. unfold on_next_files_head.
  destruct files as [|x l]; [done|].
  unfold set_have_more_files. rewrite Hd. st_simpl.
  rewrite lookup_insert_eq. repeat split; try done.
  intros k Hk. st_simpl. rewrite lookup_insert_ne; [by apply Hfr|].
  intros <-. rewrite Hfr in Hd by done. done.
Qed.

(** * Listings and the filesystem *)

Lemma listing_dirs top f es info :
  fs_wf top -> resolve top f = Some (FsDir es) ->
  info ∈ list_directory top G_FILE_QUERY_INFO_NOFOLLOW_SYMLINKS es ->
  g_file_info_get_file_type info = G_FILE_TYPE_DIRECTORY ->
  is_dir top (g_file_get_child f (g_file_info_get_name info)).
Proof.
  intros Hwf Hres Hin Hty.
  assert (Hnd : NoDup (map fst es)).
  { unfold resolve in Hres. destruct (g_file_base f); [|discriminate].
    apply (fs_lookup_wf _ _ _ Hwf) in Hres. by apply fs_wf_dir in Hres as [? _]. }
  apply list_elem_of_fmap in Hin as ([n x] & -> & Hx). simpl in *.
  rewrite reported_type_nofollow in Hty.
  destruct x as [| |t|es']; try discriminate.
  exists es'. by eapply resolve_child.
Qed.

(** Operations added to those in flight, all satisfying [P]. *)
Lemma K_adds top X Y ops :
  extends X Y -> inflight Y = inflight X ++ ops ->
  Forall (op_fs_ok top) ops -> K top X -> K top Y.
Proof.
  intros He Hin Hops [K1 K2].
  destruct (ext_ops _ _ He) as (ops' & Hin' & Htr).
  assert (ops' = ops) as -> by (rewrite Hin in Hin'; by apply app_inv_head in Hin').
  split.
  - rewrite Hin. by apply Forall_app.
  - intros o Ho. rewrite Htr in Ho. apply elem_of_app in Ho as [Ho|Ho]; [|auto].
    apply list_elem_of_fmap in Ho as (o' & [= <-] & Ho').
    rewrite elem_of_rev_list in Ho'. rewrite Forall_forall in Hops. auto.
Qed.

Lemma check_no_children_adds c st :
  exists ops, inflight (check_no_children c st) = inflight st ++ ops /\
              Forall is_delete ops.
Proof.
  unfold check_no_children. destruct (heap st !! c) as [d|].
  - destruct (_ && _).
    + eexists [_]. split; [reflexivity|]. by constructor.
    + exists []. by rewrite app_nil_r.
  - exists []. by rewrite app_nil_r.
Qed.

Lemma decr_pending_inflight c st : inflight (decr_pending c st) = inflight st.
Proof. unfold decr_pending. by destruct (heap st !! c). Qed.

Lemma set_have_more_files_inflight c b st :
  inflight (set_have_more_files c b st) = inflight st.
Proof. unfold set_have_more_files. by destruct (heap st !! c). Qed.

Lemma is_delete_fs_ok top ops :
  Forall is_delete ops -> Forall (op_fs_ok top) ops.
Proof. intros H. eapply Forall_impl; [exact H|]. by intros [| |]. Qed.

Lemma K_taken top st i : K top st -> K top (taken i st).
Proof. intros [K1 K2]. split; [by apply Forall_delete|done]. Qed.

Lemma K_emit top st ev :
  (forall o, ev <> EvIssue o) -> K top st -> K top (emit ev st).
Proof.
  intros Hev [K1 K2]. split; [done|]. intros o Ho. st_simpl.
  apply elem_of_cons in Ho as [Ho|Ho]; [|auto]. by destruct (Hev o).
Qed.

Lemma dispatched_ops_fs_ok top parent prio canc data files : forall next,
  (forall info, info ∈ files ->
     g_file_info_get_file_type info = G_FILE_TYPE_DIRECTORY ->
     is_dir top (g_file_get_child parent (g_file_info_get_name info))) ->
  Forall (op_fs_ok top) (dispatched_ops parent prio canc data next files).
Proof.
  induction files as [|info files IH]; intros next H; simpl; [done|].
  assert (Hrest : forall i, i ∈ files ->
            g_file_info_get_file_type i = G_FILE_TYPE_DIRECTORY ->
            is_dir top (g_file_get_child parent (g_file_info_get_name i))).
  { intros i Hi. apply H. apply elem_of_cons. by right. }
  case_decide; constructor; try (by apply IH); try done.
  simpl. split; [done|]. right. apply H; [|done]. apply elem_of_cons. by left.
Qed.

Lemma K_step top total st st' :
  fs_wf top -> Inv top total 0 None st -> K top st ->
  transition top st st' -> K top st'.
Proof.
  intros Hwf HI HK Htr.
  pose proof (inv_is_fresh _ _ _ _ _ HI) as Hfr.
  destruct Htr as [->|Ht ->|i o e Hi ->|i f a fl p cc c d es Hi Hd Hres ->
                  |i e n p cc c Hi ->|i f p cc c Hi Hroom ->
                  |i f p cc c d q Hi Hd Hcb Hroom ->|i f p cc d Hi Hd Hcb Hroom ->].
  - done.
  - unfold timeout_dispatch. rewrite Ht. simpl.
    destruct HK as [K1 K2]. split; [done|]. intros o Ho. simpl in Ho.
    apply elem_of_cons in Ho as [Ho|Ho]; [done|auto].
  - apply K_taken with (i := i) in HK. destruct HK as [K1 K2].
    split; [done|]. intros o' Ho. st_simpl.
    apply elem_of_cons in Ho as [Ho|Ho]; [done|auto].
  - destruct (inv_op_live _ _ _ _ _ _ _ HI Hi) as (d0 & Hd0 & -> & ->).
    eapply (K_adds top (taken i st)); [apply extends_issue|reflexivity| |].
    + constructor; [|done]. simpl. intros info Hin Hty.
      by eapply listing_dirs.
    + by apply K_taken.
  - destruct (inv_op_live _ _ _ _ _ _ _ HI Hi) as (d & Hd & Hn & Hcont).
    simpl in Hd.
    assert (Hcons : op_fs_ok top (OpNextFiles e n p cc c)).
    { destruct HK as [K1 _]. rewrite Forall_forall in K1.
      apply K1. by eapply list_elem_of_lookup_2. }
    simpl in Hcons.
    pose proof (on_next_files_extends e n c (taken i st) Hfr) as He.
    apply K_taken with (i := i) in HK.
    destruct (decide (take n (enum_rest e) = [])) as [Hnil|Hne].
    + unfold on_next_files, g_file_enumerator_next_files_finish in *.
      rewrite Hnil in *. simpl in *.
      destruct (check_no_children_adds c
                  (set_have_more_files c false (taken i st))) as (ops & Hin & Hops).
      rewrite set_have_more_files_inflight in Hin.
      eapply K_adds; [exact He|exact Hin| |done].
      by apply is_delete_fs_ok.
    + remember (mkEnum (g_file_enumerator_get_container e) (drop n (enum_rest e)))
        as e' eqn:He'.
      destruct (on_next_files_head_nonempty (take n (enum_rest e)) e' c
                  (taken i st) d Hd Hfr Hne) as (HdH & HinH & HbrkH & HfH).
      destruct (dispatch_loop_inflight (file d) c (take n (enum_rest e)) _ _
                  HdH HfH (inv_base _ _ _ _ _ _ _ HI Hd)) as (Hin & _).
      assert (Heq : on_next_files e n None c (taken i st) =
                    fold_left (dispatch_entry (file d) c) (take n (enum_rest e))
                      (on_next_files_head (take n (enum_rest e)) e' c (taken i st))).
      { unfold on_next_files, g_file_enumerator_next_files_finish.
        cbn [g_file_enumerator_get_container]. by rewrite <- He', Hcont. }
      rewrite Heq in *. rewrite HinH, <- app_assoc in Hin.
      eapply K_adds; [exact He|exact Hin| |done].
      apply Forall_app. split.
      * constructor; [|done]. rewrite He'. simpl. intros info Hinfo Hty.
        apply Hcons; [|done]. by eapply subseteq_drop.
      * apply dispatched_ops_fs_ok. intros info Hinfo Hty. rewrite <- Hcont.
        apply Hcons; [|done]. by eapply subseteq_take.
  - unfold on_file_deleted.
    set (X := incr_files_deleted (emit (EvRemoved f) (taken i st))).
    destruct (check_no_children_adds c (decr_pending c X)) as (ops & Hin & Hops).
    rewrite decr_pending_inflight in Hin.
    eapply (K_adds top X); [apply on_file_deleted_extends|exact Hin| |].
    + by apply is_delete_fs_ok.
    + subst X. destruct (K_taken top st i HK) as [K1 K2].
      split; [done|]. intros o Ho. st_simpl.
      apply elem_of_cons in Ho as [Ho|Ho]; [done|auto].
  - pose proof (inv_static _ _ _ _ _ HI c d Hd) as (Hs1 & _).
    set (X := directory_gone f c d (taken i st)).
    assert (HKX : K top X).
    { subst X. destruct (K_taken top st i HK) as [K1 K2].
      split; [done|]. intros o Ho. unfold directory_gone in Ho. st_simpl.
      apply elem_of_cons in Ho as [Ho|Ho]; [done|].
      apply elem_of_cons in Ho as [Ho|Ho]; [done|auto]. }
    assert (HKY : K top (on_rm_rf_complete (result d) q X)).
    { pose proof (on_rm_rf_complete_extends (result d) q X Hs1) as He.
      unfold on_rm_rf_complete, rm_rf_finish in *. rewrite Hs1 in *.
      destruct (check_no_children_adds q (decr_pending q X)) as (ops & Hin & Hops).
      rewrite decr_pending_inflight in Hin.
      eapply (K_adds top X); [exact He|exact Hin| |done].
      by apply is_delete_fs_ok. }
    exact HKY.
  - destruct (K_taken top st i HK) as [K1 K2].
    split; [done|]. intros o Ho.
    unfold main_finish, directory_gone in Ho. st_simpl.
    repeat (apply elem_of_cons in Ho as [Ho|Ho]; [done|]). auto.
Qed.
Lemma run_K top total cs : forall st,
  fs_wf top -> Reach top total st -> K top st -> K top (run top st cs).
Proof.
  induction cs as [|ch cs IH]; intros st Hwf HR HK; [done|].
  simpl. apply IH; [done|by apply step_reach|].
  destruct HR as [[HI HJ]|[_ HS]].
  - eapply K_step; try done. by eapply step_transition.
  - rewrite step_stopped; [done|]. destruct HS as [(-> & _)| ->]; done.
Qed.

Lemma main_start_K top path : K top (main_start_path (Some path)).
Proof.
  split.
  - constructor; [|done]. simpl. split; [done|by left].
  - intros o Ho. simpl in Ho.
    apply elem_of_cons in Ho as [[= ->]|Ho]; [|by apply elem_of_nil in Ho].
    simpl. split; [done|by left].
Qed.

(** * Termination *)

Lemma info_cost_bounds top parent i :
  2 <= info_cost top parent i <= 4 * info_weight top parent i.
Proof.
  unfold info_cost, info_weight. pose proof (entries_below_nonneg top
    (g_file_get_child parent (g_file_info_get_name i))).
  case_decide; lia.
Qed.

Lemma infos_cost_le top parent l :
  infos_cost top parent l <= 4 * infos_weight top parent l.
Proof.
  induction l as [|i l IH]; simpl; [lia|].
  pose proof (info_cost_bounds top parent i). lia.
Qed.

Lemma infos_cost_nonneg top parent l : 0 <= infos_cost top parent l.
Proof.
  induction l as [|i l IH]; simpl; [lia|].
  pose proof (info_cost_bounds top parent i). lia.
Qed.

Lemma infos_cost_app top parent l1 l2 :
  infos_cost top parent (l1 ++ l2) =
  infos_cost top parent l1 + infos_cost top parent l2.
Proof. induction l1 as [|i l1 IH]; simpl; [lia|]. rewrite IH. lia. Qed.

Lemma op_cost_nonneg top o : 0 <= op_cost top o.
Proof.
  destruct o as [f ? ? ? ? ?|e ? ? ? ?|? ? ? [] ?]; simpl; try lia.
  - pose proof (entries_below_nonneg top f). lia.
  - pose proof (infos_cost_nonneg top (g_file_enumerator_get_container e)
                  (enum_rest e)). lia.
Qed.

Lemma work_nonneg top st : 0 <= work top st.
Proof.
  unfold work.
  pose proof (osum_nonneg (op_cost top) (inflight st) (op_cost_nonneg top)).
  assert (0 <= hsum (fun _ => 1) (heap st) (brk st))
    by (apply hsum_nonneg; intros; lia).
  lia.
Qed.

Lemma work_issue top o st : work top (issue o st) = work top st + op_cost top o.
Proof. unfold work. st_simpl. rewrite osum_snoc. lia. Qed.

Lemma work_taken top i o st :
  inflight st !! i = Some o -> work top (taken i st) = work top st - op_cost top o.
Proof.
  intros Hi. unfold work, taken. st_simpl.
  rewrite (osum_delete _ _ _ _ Hi). lia.
Qed.

Lemma work_update top st c d d' :
  heap st !! c = Some d ->
  work top (set_heap (<[c := d']> (heap st)) st) = work top st.
Proof.
  intros Hd. unfold work. st_simpl.
  by rewrite (hsum_update_same _ _ _ d d' _ Hd).
Qed.

Lemma work_fault top st : work top (fault st) = work top st.
Proof. reflexivity. Qed.

Lemma work_decr_pending top c st : work top (decr_pending c st) = work top st.
Proof.
  unfold decr_pending. destruct (heap st !! c) as [d|] eqn:Hd; [|done].
  by eapply work_update.
Qed.

Lemma work_set_have_more_files top c b st :
  work top (set_have_more_files c b st) = work top st.
Proof.
  unfold set_have_more_files. destruct (heap st !! c) as [d|] eqn:Hd; [|done].
  by eapply work_update.
Qed.

Lemma work_check_no_children top c st :
  work top (check_no_children c st) = work top st.
Proof.
  unfold check_no_children. destruct (heap st !! c) as [d|] eqn:Hd; [|done].
  destruct (_ && _); [|done].
  unfold g_file_delete_async. rewrite work_issue. simpl. lia.
Qed.

Lemma work_g_free top c d st :
  heap st !! c = Some d -> (c < brk st)%nat ->
  work top (g_free c st) = work top st - 1.
Proof.
  intros Hd Hlt. unfold work. st_simpl.
  rewrite hsum_delete by done. rewrite Hd. simpl. lia.
Qed.

(** One turn of the loop turns an entry waiting in the batch into its
    operation, and for a directory its context. *)
Lemma work_dispatch_entry top parent c st info :
  is_Some (heap st !! c) -> fresh st -> g_file_base parent <> None ->
  work top (dispatch_entry parent c st info) =
  work top st + info_cost top parent info - 1.
Proof.
  intros [d Hd] Hf Hbase.
  assert (Hlt : (c < brk st)%nat).
  { destruct (decide (c < brk st)%nat); [done|].
    rewrite Hf in Hd by lia. done. }
  unfold dispatch_entry, incr_pending, info_cost. rewrite Hd. st_simpl.
  rewrite lookup_insert_eq. cbn [priority cancellable].
  case_decide.
  - unfold rm_rf_async, g_file_enumerate_children_async. cbn [file].
    destruct (g_file_base (g_file_get_child parent _)) eqn:Hb;
      [|by destruct parent as [[?|] ?]].
    unfold work. st_simpl. rewrite osum_snoc, hsum_S.
    rewrite lookup_insert_eq. rewrite hsum_insert_ge by lia.
    rewrite (hsum_update_same _ _ _ d _ _ Hd) by done.
    simpl. lia.
  - unfold g_file_delete_async. rewrite work_issue.
    rewrite (work_update _ _ _ d _ Hd). simpl. lia.
Qed.

Lemma work_dispatch_loop top parent c files : forall st,
  is_Some (heap st !! c) -> fresh st -> g_file_base parent <> None ->
  work top (fold_left (dispatch_entry parent c) files st) =
  work top st + infos_cost top parent files - Z.of_nat (length files).
Proof.
  induction files as [|info files IH]; intros st Hd Hf Hbase.
  - simpl. lia.
  - cbn [fold_left].
    destruct (dispatch_entry_extends parent c st info Hf) as [He Hf1].
    destruct Hd as [d Hd].
    destruct (ext_heap _ _ He c d Hd) as (d' & Hd' & _).
    rewrite IH by done.
    rewrite (work_dispatch_entry top parent c st info) by done.
    cbn [infos_cost foldr length]. fold (infos_cost top parent files). lia.
Qed.

(** A delivery after which the process still runs is the callback of the
    operation, and nothing else. *)
Lemma step_deliver_running top total st i o :
  Inv top total 0 None st -> inflight st !! i = Some o ->
  status (step top st (Complete i None)) = Running ->
  step top st (Complete i None) = deliver top o None (taken i st).
Proof.
  intros HI Hi. unfold step. rewrite (inv_status _ _ _ _ _ HI). simpl.
  rewrite Hi. fold (taken i st).
  destruct (status (deliver top o None (taken i st))) eqn:Hst; try done.
  destruct (loop_running _); [done|]. discriminate.
Qed.

Lemma work_live top total st c d :
  Inv top total 0 None st -> heap st !! c = Some d -> 1 <= work top st.
Proof.
  intros HI Hd. pose proof (inv_live_lt _ _ _ _ _ _ _ HI Hd) as Hlt.
  pose proof (hsum_elem (fun _ => 1) (heap st) (brk st) c d
                ltac:(intros; lia) Hlt Hd).
  pose proof (osum_nonneg _ (inflight st) (op_cost_nonneg top)).
  unfold work. cbn beta in *. lia.
Qed.

(** Every callback that returns to the loop leaves less to do. *)
Lemma work_deliver top total st i o :
  fs_wf top -> Inv top total 0 None st -> inflight st !! i = Some o ->
  status (deliver top o None (taken i st)) = Running ->
  work top (deliver top o None (taken i st)) < work top st.
Proof.
  intros Hwf HI Hi Hrun.
  destruct (inv_op_live _ _ _ _ _ _ _ HI Hi) as (d & Hd & Hok).
  pose proof (inv_static _ _ _ _ _ HI _ d Hd) as (Hs1 & Hs2 & Hs3 & Hs4).
  pose proof (inv_is_fresh _ _ _ _ _ HI) as Hfr.
  pose proof (work_taken top i o st Hi) as Htk.
  pose proof (work_live _ _ _ _ _ HI Hd) as Hpos.
  destruct o as [f a fl p cc c|e n p cc c|f p cc [] c];
    cbn [deliver op_data] in *.
  - destruct Hok as [-> ->].
    unfold on_enumerate_children, g_file_enumerate_children_finish in *.
    destruct (resolve top (file d)) as [[| | |es]|] eqn:Hres;
      try (simpl in Hrun; discriminate).
    unfold taken in Hrun |- *. st_simpl. rewrite Hd in *.
    fold (taken i st). unfold g_file_enumerator_next_files_async.
    rewrite work_issue, Htk. cbn [op_cost enum_rest g_file_enumerator_get_container].
    pose proof (infos_cost_le top (file d)
      (list_directory top G_FILE_QUERY_INFO_NOFOLLOW_SYMLINKS es)) as Hle.
    rewrite (infos_weight_listing top (file d) es Hwf Hres) in Hle.
    unfold entries_below. rewrite Hres. lia.
  - destruct Hok as [Hn0 Hcont].
    unfold on_next_files, g_file_enumerator_next_files_finish in *.
    cbn [g_file_enumerator_get_container] in *.
    pose proof (infos_cost_nonneg top (g_file_enumerator_get_container e)
                  (drop n (enum_rest e))) as Hdn.
    assert (Hsplit : infos_cost top (g_file_enumerator_get_container e) (enum_rest e) =
              infos_cost top (g_file_enumerator_get_container e) (take n (enum_rest e)) +
              infos_cost top (g_file_enumerator_get_container e) (drop n (enum_rest e))).
    { by rewrite <- infos_cost_app, take_drop. }
    cbn [op_cost] in Htk.
    destruct (take n (enum_rest e)) as [|x l] eqn:Htake.
    + cbn [fold_left on_next_files_head] in *.
      rewrite work_check_no_children, work_set_have_more_files, Htk.
      simpl in Hsplit. lia.
    + assert (Hdt : heap (taken i st) !! c = Some d) by done.
      assert (Hft : fresh (taken i st)) by done.
      destruct (on_next_files_head_nonempty (x :: l)
                  (mkEnum (g_file_enumerator_get_container e) (drop n (enum_rest e)))
                  c (taken i st) d Hdt Hft ltac:(done)) as (Hh & _ & _ & Hfh).
      rewrite work_dispatch_loop; [|by eexists|done|by rewrite Hcont].
      cbn [on_next_files_head].
      unfold g_file_enumerator_next_files_async.
      rewrite work_issue, work_set_have_more_files, Htk.
      cbn [op_cost enum_rest g_file_enumerator_get_container length]. lia.
  - unfold on_file_deleted in *.
    rewrite work_check_no_children, work_decr_pending.
    change (work top (incr_files_deleted (emit (EvRemoved f) (taken i st))))
      with (work top (taken i st)).
    rewrite Htk. simpl. lia.
  - destruct (res_callback (result d)) as [q|] eqn:Hcb.
    + unfold on_end_directory_deleted in *. st_simpl.
      unfold taken in Hrun |- *. st_simpl. rewrite Hd in *.
      unfold g_simple_async_result_complete in *. rewrite Hcb in *.
      set (X := emit (EvComplete c (result d)) _) in *.
      destruct (status (on_rm_rf_complete (result d) q X)) eqn:Hst;
        try congruence.
      pose proof (on_rm_rf_complete_extends (result d) q X Hs1) as He.
      destruct (ext_heap _ _ He c d Hd) as (d' & Hd' & _).
      rewrite (work_g_free top c d' _ Hd').
      2:{ pose proof (ext_brk _ _ He).
          pose proof (inv_live_lt _ _ _ _ _ _ _ HI Hd). simpl in *. lia. }
      unfold on_rm_rf_complete, rm_rf_finish. rewrite Hs1.
      rewrite work_check_no_children, work_decr_pending.
      change (work top X) with (work top (taken i st)).
      fold (taken i st) in Htk. cbn [op_cost] in Htk. lia.
    + destruct (on_end_directory_deleted_root _ _ _ _ _ _ _ _ _ HI Hi Hd Hcb)
        as (_ & _ & _ & H4 & H5 & _).
      fold (taken i st) in H4, H5.
      unfold work. rewrite H4, H5, hsum_empty. simpl.
      unfold work in Hpos. lia.
Qed.

(** With every operation succeeding on a tree whose root is a directory,
    an iteration leaves the process running or ends it with code 0. *)
Lemma step_success_status top total st i o es0 :
  top = FsDir es0 -> Inv top total 0 None st -> K top st ->
  inflight st !! i = Some o ->
  status (step top st (Complete i None)) = Running \/
  status (step top st (Complete i None)) = Exited 0.
Proof.
  intros Htop HI [HK _] Hi. unfold step. rewrite (inv_status _ _ _ _ _ HI).
  simpl. rewrite Hi. fold (taken i st).
  destruct (inv_op_live _ _ _ _ _ _ _ HI Hi) as (d & Hd & Hok).
  pose proof (inv_static _ _ _ _ _ HI _ d Hd) as (Hs1 & Hs2 & Hs3 & Hs4).
  rewrite Forall_lookup in HK. specialize (HK i o Hi).
  destruct o as [f a fl p cc c|e n p cc c|f p cc [] c];
    cbn [deliver op_data op_fs_ok] in *.
  - destruct Hok as [-> ->]. destruct HK as [_ Hdir].
    assert (Hres : exists es, resolve top (file d) = Some (FsDir es)).
    { destruct Hdir as [Hrel|Hdir]; [|done]. exists es0.
      unfold resolve. destruct (g_file_base (file d)); [|done].
      rewrite Hrel. by subst top. }
    destruct Hres as [es Hres].
    unfold on_enumerate_children, g_file_enumerate_children_finish.
    rewrite Hres. unfold taken. st_simpl. rewrite Hd. st_simpl.
    rewrite (inv_status _ _ _ _ _ HI), (inv_loop _ _ _ _ _ HI).
    left. exact (inv_status _ _ _ _ _ HI).
  - pose proof (on_next_files_inv _ _ _ _ _ _ _ _ _ HI Hi) as HI'.
    fold (taken i st) in HI'.
    rewrite (inv_status _ _ _ _ _ HI'), (inv_loop _ _ _ _ _ HI').
    left. exact (inv_status _ _ _ _ _ HI').
  - pose proof (on_file_deleted_inv _ _ _ _ _ _ _ _ HI Hi) as HI'.
    fold (taken i st) in HI'.
    rewrite (inv_status _ _ _ _ _ HI'), (inv_loop _ _ _ _ _ HI').
    left. exact (inv_status _ _ _ _ _ HI').
  - destruct (res_callback (result d)) as [q|] eqn:Hcb.
    + pose proof (on_end_directory_deleted_child_inv _ _ _ _ _ _ _ _ _ _
                    HI Hi Hd Hcb) as HI'.
      fold (taken i st) in HI'.
      rewrite (inv_status _ _ _ _ _ HI'), (inv_loop _ _ _ _ _ HI').
      left. exact (inv_status _ _ _ _ _ HI').
    + destruct (on_end_directory_deleted_root _ _ _ _ _ _ _ _ _ HI Hi Hd Hcb)
        as (H1 & H2 & _).
      fold (taken i st) in H1, H2. rewrite H1, H2. by right.
Qed.

Lemma work_tick top st : work top (timeout_dispatch st) = work top st.
Proof. unfold timeout_dispatch. by destruct (timeout_source st). Qed.

Lemma step_tick top total st :
  Inv top total 0 None st -> step top st Tick = timeout_dispatch st.
Proof.
  intros HI. pose proof (timeout_dispatch_inv _ _ _ HI) as HI'.
  unfold step. rewrite (inv_status _ _ _ _ _ HI). simpl.
  by rewrite (inv_status _ _ _ _ _ HI'), (inv_loop _ _ _ _ _ HI').
Qed.

(** Along a schedule in which every operation succeeds, each delivery
    uses up some of the work, until the process exits with code 0. *)
Lemma all_succeed_run top total es0 cs : forall st,
  fs_wf top -> top = FsDir es0 ->
  Inv top total 0 None st -> J top st -> K top st ->
  all_succeed top st cs ->
  (status (run top st cs) = Running /\
   work top (run top st cs) + deliveries cs <= work top st) \/
  status (run top st cs) = Exited 0.
Proof.
  induction cs as [|ch cs IH]; intros st Hwf Htop HI HJ HK Hall.
  { left. split; [exact (inv_status _ _ _ _ _ HI)|].
    unfold deliveries. simpl. lia. }
  destruct Hall as [Hch Hall]. specialize (Hch (inv_status _ _ _ _ _ HI)).
  cbn [run fold_left]. fold (run top (step top st ch) cs).
  assert (HR : Reach top total (step top st ch)).
  { apply step_reach; [done|]. by left. }
  assert (HK' : K top (step top st ch)).
  { eapply K_step; try done. by eapply step_transition. }
  destruct Hch as [->|(i & -> & Hlt)].
  - rewrite (step_tick _ _ _ HI) in *.
    pose proof (timeout_dispatch_inv _ _ _ HI) as HI'.
    destruct (reach_running _ _ _ HR (inv_status _ _ _ _ _ HI')) as [_ HJ'].
    destruct (IH _ Hwf Htop HI' HJ' HK' Hall) as [[Hr Hw]|Hx]; [|by right].
    left. split; [done|]. rewrite work_tick in Hw.
    unfold deliveries in *. simpl. lia.
  - destruct (lookup_lt_is_Some_2 _ _ Hlt) as [o Hi].
    destruct (step_success_status top total st i o es0 Htop HI HK Hi)
      as [Hrun|Hex].
    + destruct (reach_running _ _ _ HR Hrun) as [HI' HJ'].
      destruct (IH _ Hwf Htop HI' HJ' HK' Hall) as [[Hr Hw]|Hx]; [|by right].
      left. split; [done|].
      pose proof (step_deliver_running top total st i o HI Hi Hrun) as Heq.
      rewrite Heq in Hrun.
      pose proof (work_deliver top total st i o Hwf HI Hi Hrun) as Hdec.
      rewrite <- Heq in Hdec.
      unfold deliveries in *. simpl. lia.
    + right. rewrite run_stopped; [done|]. by rewrite Hex.
Qed.

Lemma work_main_start top path es :
  top = FsDir es ->
  work top (main_start_path (Some path)) = 4 * count_entries top - 1.
Proof.
  intros ->. rewrite count_entries_dir.
  unfold work, main_start_path, rm_rf_async,
    g_file_enumerate_children_async. simpl.
  unfold hsum. simpl. rewrite lookup_insert_eq. simpl.
  unfold entries_below. simpl. lia.
Qed.

(** If every operation succeeds, the process exits with code 0 before the
    main loop has delivered four completions per entry of the tree,
    whatever the order of the completions and whenever the timer fires. *)
Lemma all_succeed_exits_zero top path cs es :
  fs_wf top -> top = FsDir es -> count_entries top < guint_max ->
  all_succeed top (main_start_path (Some path)) cs ->
  4 * count_entries top <= deliveries cs ->
  status (run top (main_start_path (Some path)) cs) = Exited 0.
Proof.
  intros Hwf Htop Hlt Hall Hlen.
  destruct (main_start_reach top path Hlt) as [[HI HJ]|[_ [(Hs & _)|Hs]]];
    try (simpl in Hs; discriminate).
  destruct (all_succeed_run top _ es cs _ Hwf Htop HI HJ
              (main_start_K top path) Hall) as [[_ Hw]|Hx]; [|done].
  rewrite (work_main_start top path es Htop) in Hw.
  pose proof (work_nonneg top (run top (main_start_path (Some path)) cs)). lia.
Qed.

(** Delivering the oldest operation each time is such a schedule. *)
Lemma oldest_first_all_succeed top total n : forall st,
  fs_wf top -> Reach top total st -> all_succeed top st (oldest_first n).
Proof.
  induction n as [|n IH]; intros st Hwf HR; [done|].
  split; [|apply IH; [done|by apply step_reach]].
  intros Hrun. right. exists 0%nat. split; [done|].
  destruct (reach_running _ _ _ HR Hrun) as [HI HJ].
  pose proof (running_has_work _ _ _ HI HJ).
  destruct (inflight st); [done|simpl; lia].
Qed.

Lemma deliveries_oldest_first n : deliveries (oldest_first n) = Z.of_nat n.
Proof.
  unfold deliveries, oldest_first.
  assert (H : List.filter is_delivery (repeat (ok 0%nat) n) = repeat (ok 0%nat) n).
  { induction n as [|n IH]; [done|]. simpl. by rewrite IH. }
  by rewrite H, repeat_length.
Qed.

(** The program terminates: on a directory tree, with every operation
    succeeding, the process has exited with code 0 after four deliveries
    per entry. *)
Lemma oldest_first_exits_zero top path es :
  fs_wf top -> top = FsDir es -> count_entries top < guint_max ->
  status (run top (main_start_path (Some path))
            (oldest_first (Z.to_nat (4 * count_entries top)))) = Exited 0.
Proof.
  intros Hwf Htop Hlt. apply (all_succeed_exits_zero top path _ es); try done.
  - eapply oldest_first_all_succeed; [done|]. by apply main_start_reach.
  - rewrite deliveries_oldest_first. lia.
Qed.


(** * Properties *)

(** ** The command line *)

(** C10: [main] reads [argv[1]] without looking at [argc]: with the program
    name alone the NULL terminator is handed to [g_file_new_for_path], and
    arguments after the first play no part. *)
Theorem main_reads_argv1_unchecked :
  (forall argv, main_start argv = main_start_path <$> argv_get argv 1) /\
  (forall prog,
      argv_get [prog] 1 = Some None /\
      exists st d, main_start [prog] = Some st /\
                   heap st !! 0%nat = Some d /\
                   file d = g_file_new_for_path None) /\
  (forall prog path more,
      main_start (prog :: path :: more) = main_start [prog; path]).
Proof.
  split; [|split].
  - intros argv. unfold main_start.
    destruct (argv_get argv 1); reflexivity.
  - intros prog. split; [reflexivity|].
    eexists _, _. split; [reflexivity|]. split; reflexivity.
  - intros prog path more. reflexivity.
Qed.

(** ** Cancellation *)

(** C7: the token given to [rm_rf_async] is stored in the context, yet the
    request for the second batch and the delete of a plain file are issued
    with a NULL token (and the batch request with the default priority). *)
Theorem cancellable_not_passed_on (tok : GCancellable) :
  let st := run tree_one_file (engine_start 5 (Some tok)) [ok 0%nat; ok 0%nat] in
  (cancellable <$> heap st !! 0%nat) = Some (Some tok) /\
  inflight st =
    [OpNextFiles (mkEnum root_file []) 20 G_PRIORITY_DEFAULT None 0;
     OpDelete (g_file_get_child root_file "a.txt") 5 None CbOnFileDeleted 0].
Proof. split; reflexivity. Qed.

(** ** Progress reporting *)

Lemma timeout_dispatch_removes_source st :
  timeout_source (timeout_dispatch st) = false.
Proof. unfold timeout_dispatch. destruct (timeout_source st) eqn:E; simpl; auto. Qed.

Lemma timeout_dispatch_twice st :
  timeout_dispatch (timeout_dispatch st) = timeout_dispatch st.
Proof.
  unfold timeout_dispatch at 1.
  rewrite timeout_dispatch_removes_source. reflexivity.
Qed.

(** ** Ordering: children before their directory *)

(** C1: between two iterations of the main loop, the delete of a context's
    directory is in flight exactly when the context has no pending child
    operation and its listing is over; the check runs after every
    decrement and at the end of the listing; and in the history of every
    run, when the delete of a directory was issued every entry of that
    directory had already been removed. *)
Theorem directory_deleted_after_children top path cs :
  fs_wf top -> count_entries top < guint_max ->
  let st := run top (main_start_path (Some path)) cs in
  (status st = Running ->
   forall c d, heap st !! c = Some d ->
     (end_in_flight st c = 1 <->
      num_files_pending d = 0 /\ listing_in_flight st c = 0)) /\
  (forall post pre f p cc c es n x,
     trace st = post ++ EvIssue (OpDelete f p cc CbOnEndDirectoryDeleted c) :: pre ->
     resolve top f = Some (FsDir es) -> (n, x) ∈ es ->
     EvRemoved (g_file_get_child f n) ∈ pre) /\
  (forall f c s,
     on_file_deleted f None c s =
     check_no_children c (decr_pending c
       (incr_files_deleted (emit (EvRemoved f) s)))) /\
  (forall r c s,
     res_error r = None ->
     on_rm_rf_complete r c s = check_no_children c (decr_pending c s)) /\
  (forall e c s,
     on_next_files_head [] e c s =
     check_no_children c (set_have_more_files c false s)).
Proof.
  intros Hwf Hlt st.
  pose proof (reachable top path cs Hwf Hlt) as HR. fold st in HR.
  split; [|split; [|split; [|split]]].
  - intros Hrun c d Hd.
    destruct (reach_running _ _ _ HR Hrun) as [HI _].
    pose proof (inv_num _ _ _ _ _ HI c d Hd) as Hn. cbn [owed_at] in Hn.
    destruct Hn as (H1 & H2 & H3 & H4 & H5 & H6 & H7 & H8 & H9 & H10).
    simpl in H1. split.
    + intros He. specialize (H8 He). lia.
    + intros [Hp Hl]. specialize (H9 eq_refl). lia.
  - intros post pre f p cc c es n x Htr Hres Hx.
    pose proof (f_trace _ _ _ (reach_facts _ _ _ HR)) as Hok.
    rewrite Htr in Hok. apply trace_ok_suffix in Hok.
    destruct Hok as [Hev _]. by eapply Hev.
  - reflexivity.
  - intros r c s Hr. unfold on_rm_rf_complete, rm_rf_finish. by rewrite Hr.
  - reflexivity.
Qed.

(** ** Completion: once per directory *)

(** C2: for every context ever allocated, the delete of its directory is
    issued at most once and its completion callback is invoked at most
    once, right after the directory was removed; while the loop runs the
    callback has been invoked for exactly the contexts that are gone, and
    some operation is in flight, so that the run can go on; when every
    operation succeeds, four deliveries per entry of the tree are enough
    for every callback to have been invoked; and when [main] returns 0 the
    delete and the callback have happened exactly once for every
    context. *)
Theorem completion_exactly_once top path cs :
  fs_wf top -> count_entries top < guint_max ->
  let st := run top (main_start_path (Some path)) cs in
  (forall c, tsum (end_op_of c) (trace st) <= 1) /\
  (forall c, count_events (is_complete_of c) (trace st) <= 1) /\
  (forall post pre c r,
     trace st = post ++ EvComplete c r :: pre ->
     exists pre', pre = EvRemoved (res_source_object r) :: pre') /\
  (status st = Running ->
   forall c, (c < brk st)%nat ->
     count_events (is_complete_of c) (trace st) =
     match heap st !! c with Some _ => 0 | None => 1 end) /\
  (status st = Running -> inflight st <> []) /\
  (forall es, top = FsDir es ->
   all_succeed top (main_start_path (Some path)) cs ->
   4 * count_entries top <= deliveries cs ->
   forall c, (c < brk st)%nat ->
     count_events (is_complete_of c) (trace st) = 1) /\
  (status st = Exited 0 ->
   forall c, (c < brk st)%nat ->
     tsum (end_op_of c) (trace st) = 1 /\
     count_events (is_complete_of c) (trace st) = 1).
Proof.
  intros Hwf Hlt st.
  pose proof (reachable top path cs Hwf Hlt) as HR. fold st in HR.
  pose proof (reach_facts _ _ _ HR) as [F1 F2 F3 F4 F5 F6].
  assert (Hdone : status st = Exited 0 ->
            forall c, (c < brk st)%nat ->
              tsum (end_op_of c) (trace st) = 1 /\
              count_events (is_complete_of c) (trace st) = 1).
  { intros Hex. rewrite Hex in F6.
    destruct F6 as [(_ & _ & _ & _ & H)|(? & _)]; [done|lia]. }
  split; [done|]. split; [done|]. split; [|split; [|split; [|split]]].
  - intros post pre c r Htr. rewrite Htr in F1.
    apply trace_ok_suffix in F1. destruct F1 as [[_ Hev] _]. done.
  - intros Hrun c Hc. destruct (reach_running _ _ _ HR Hrun) as [_ HJ].
    rewrite (j_completed _ _ HJ c).
    destruct (heap st !! c); [done|]. by rewrite decide_True.
  - intros Hrun. destruct (reach_running _ _ _ HR Hrun) as [HI HJ].
    by eapply running_has_work.
  - intros es Htop Hall Hlen c Hc.
    pose proof (all_succeed_exits_zero top path cs es Hwf Htop Hlt Hall Hlen)
      as Hex.
    by apply (Hdone Hex c Hc).
  - exact Hdone.
Qed.

(** ** Counting pending children *)

(** C8: between two iterations of the main loop, the pending counter of
    every context is the number of its child operations scheduled and not
    yet completed, within the range of [guint]; so whenever a child
    operation completes, the counter it decrements is at least one. *)
Theorem pending_counts_children top path cs :
  fs_wf top -> count_entries top < guint_max ->
  let st := run top (main_start_path (Some path)) cs in
  status st = Running ->
  (forall c d, heap st !! c = Some d ->
     num_files_pending d = children_in_flight st c /\
     0 <= num_files_pending d < guint_max) /\
  (forall i f p cc c,
     inflight st !! i = Some (OpDelete f p cc CbOnFileDeleted c) ->
     exists d, heap st !! c = Some d /\ 1 <= num_files_pending d) /\
  (forall c d q,
     heap st !! c = Some d -> res_callback (result d) = CbOnRmRfComplete q ->
     exists dq, heap st !! q = Some dq /\ 1 <= num_files_pending dq).
Proof.
  intros Hwf Hlt st Hrun.
  pose proof (reachable top path cs Hwf Hlt) as HR. fold st in HR.
  destruct (reach_running _ _ _ HR Hrun) as [HI _].
  assert (Hpend : forall c d, heap st !! c = Some d ->
            num_files_pending d = children_in_flight st c).
  { intros c d Hd. pose proof (inv_num _ _ _ _ _ HI c d Hd) as Hn.
    cbn [owed_at] in Hn. destruct Hn as (H1 & _). simpl in H1. lia. }
  split; [|split].
  - intros c d Hd. split; [by apply Hpend|].
    rewrite (Hpend c d Hd).
    pose proof (counts_nonneg st c) as (H0 & _).
    pose proof (children_le_remaining top st c).
    pose proof (inv_pot _ _ _ _ _ HI). pose proof (inv_files _ _ _ _ _ HI).
    pose proof (inv_total _ _ _ _ _ HI). lia.
  - intros i f p cc c Hi.
    destruct (inv_op_live _ _ _ _ _ _ _ HI Hi) as (d & Hd & _). simpl in Hd.
    exists d. split; [done|]. rewrite (Hpend c d Hd).
    pose proof (osum_elem _ _ _ (leaf_op_of_nonneg c)
                  (list_elem_of_lookup_2 _ _ _ Hi)) as He.
    simpl in He. rewrite bool_decide_eq_true_2 in He by done. simpl in He.
    pose proof (hsum_nonneg _ (heap st) (brk st) (child_ctx_of_nonneg c)).
    unfold children_in_flight. lia.
  - intros c d q Hd Hcb.
    pose proof (inv_static _ _ _ _ _ HI c d Hd) as (_ & _ & _ & Hs).
    rewrite Hcb in Hs. destruct Hs as [_ [dq Hdq]].
    exists dq. split; [done|]. rewrite (Hpend q dq Hdq).
    pose proof (inv_live_lt _ _ _ _ _ _ _ HI Hd) as Hlt'.
    pose proof (hsum_elem _ _ _ _ _ (child_ctx_of_nonneg q) Hlt' Hd) as He.
    unfold child_ctx_of in He at 1. rewrite Hcb in He.
    rewrite bool_decide_eq_true_2 in He by done. simpl in He.
    pose proof (osum_nonneg _ (inflight st) (leaf_op_of_nonneg q)).
    unfold children_in_flight. lia.
Qed.

(** ** Fatal errors *)

(** C4, as stated, fails: when the delete of a file fails the process
    exits with code 1 and the completion callback of the top-level
    operation has not been invoked at all, let alone with an error. *)
Lemma fatal_error_not_notified :
  status failing_run = Exited 1 /\ ~ notified_with_error failing_run.
Proof.
  split; [reflexivity|].
  intros (c & r & e & Hin & _). vm_compute in Hin.
  repeat (apply elem_of_cons in Hin as [Hin|Hin]; [discriminate|]).
  by apply elem_of_nil in Hin.
Qed.

(** ** Progress reporting, continued *)

(** C5: the timeout source is removed the first time it fires, because
    [print_progress] returns FALSE: a second tick prints nothing, and three
    ticks in a row print the counter once. *)
Theorem progress_timer_fires_once :
  (forall st, timeout_source (timeout_dispatch st) = false) /\
  (forall top st,
     main_loop_iterate top Tick (timeout_dispatch st) = timeout_dispatch st) /\
  (let st := run tree_one_file (main_start_path (Some "root"%string))
               [Tick; Tick; Tick] in
   status st = Running /\ trace_prints st = [0]).
Proof.
  split; [apply timeout_dispatch_removes_source|]. split.
  - intros top st. apply timeout_dispatch_twice.
  - split; reflexivity.
Qed.

(** ** Batches *)

(** C6, as stated, fails: with one file in the batch, the request for the
    next batch is the first operation the callback issues, before the
    delete of the file. *)
Lemma next_batch_requested_before_dispatch :
  ~ request_after_dispatch
      (issued_by (taken 0 first_batch_pending)
         (step tree_one_file first_batch_pending (ok 0%nat))).
Proof.
  intros H.
  assert (Hops : issued_by (taken 0 first_batch_pending)
                   (step tree_one_file first_batch_pending (ok 0%nat)) =
                 [OpNextFiles (mkEnum root_file []) 20 G_PRIORITY_DEFAULT None 0;
                  OpDelete (g_file_get_child root_file "a.txt") 0 None
                    CbOnFileDeleted 0]) by reflexivity.
  rewrite Hops in H.
  specialize (H 0%nat 1%nat _ _ eq_refl eq_refl eq_refl eq_refl). lia.
Qed.

(** ** The theorems at work on sample trees *)

Lemma tree_one_file_wf : fs_wf tree_one_file.
Proof. split; [|done]. by apply (bool_decide_unpack _). Qed.

Lemma tree_nested_wf : fs_wf tree_nested.
Proof.
  split; [by apply (bool_decide_unpack _)|].
  split; [done|]. split; [|done].
  split; [by apply (bool_decide_unpack _)|done].
Qed.

Lemma tree_with_link_wf : fs_wf tree_with_link.
Proof.
  split; [by apply (bool_decide_unpack _)|].
  split; [done|]. split; [|done].
  split; [by apply (bool_decide_unpack _)|done].
Qed.

Lemma directory_deleted_after_children_witness :
  fs_wf tree_nested /\ count_entries tree_nested < guint_max /\
  forall d, heap nested_dispatched !! 0%nat = Some d ->
    (end_in_flight nested_dispatched 0 = 1 <->
     num_files_pending d = 0 /\ listing_in_flight nested_dispatched 0 = 0).
Proof.
  split; [exact tree_nested_wf|]. split; [reflexivity|].
  intros d Hd.
  apply (proj1 (directory_deleted_after_children tree_nested "root"
                  (oldest_first 2) tree_nested_wf eq_refl));
    [reflexivity|exact Hd].
Defined.

Lemma completion_exactly_once_witness :
  fs_wf tree_nested /\ count_entries tree_nested < guint_max /\
  status nested_done = Exited 0 /\
  tsum (end_op_of 1) (trace nested_done) = 1 /\
  count_events (is_complete_of 1) (trace nested_done) = 1.
Proof.
  split; [exact tree_nested_wf|]. split; [reflexivity|].
  split; [reflexivity|].
  apply (proj2 (proj2 (proj2 (proj2 (proj2 (proj2
           (completion_exactly_once tree_nested "root" (oldest_first 13)
              tree_nested_wf eq_refl)))))));
    [reflexivity|vm_compute; lia].
Defined.

Lemma pending_counts_children_witness :
  fs_wf tree_nested /\ count_entries tree_nested < guint_max /\
  forall c d, heap nested_dispatched !! c = Some d ->
    num_files_pending d = children_in_flight nested_dispatched c /\
    0 <= num_files_pending d < guint_max.
Proof.
  split; [exact tree_nested_wf|]. split; [reflexivity|].
  exact (proj1 (pending_counts_children tree_nested "root" (oldest_first 2)
                  tree_nested_wf eq_refl eq_refl)).
Defined.

(** The run on [tree_with_link] deletes the link, the file, the
    sub-directory and the root, and opens two listings only. *)
Example tree_with_link_run :
  let st := run tree_with_link (main_start_path (Some "root"%string))
              (oldest_first 11) in
  status st = Exited 0 /\ files_deleted st = 4 /\ brk st = 2%nat.
Proof. repeat split; reflexivity. Qed.

(** Siblings are removed in the order their deletes complete: either
    order can occur. *)
Example siblings_in_either_order :
  let removed st :=
    omap (fun ev => match ev with EvRemoved f => Some (g_file_rel f) | _ => None end)
      (rev (trace st)) in
  let two := FsDir [("a"%string, FsRegular); ("b"%string, FsRegular)] in
  let start := main_start_path (Some "root"%string) in
  removed (run two start [ok 0; ok 0; ok 0; ok 0; ok 0; ok 0]%nat)
    = [["a"]; ["b"]; []]%string /\
  removed (run two start [ok 0; ok 0; ok 0; ok 1; ok 0; ok 0]%nat)
    = [["b"]; ["a"]; []]%string.
Proof. split; reflexivity. Qed.

(** The spec's sample tree: the three files go before [sub], [sub] before
    the root, and five entries are counted. *)
Example nested_done_order :
  omap (fun ev => match ev with EvRemoved f => Some (g_file_rel f) | _ => None end)
    (rev (trace nested_done))
  = [["a.txt"]; ["sub"; "b.txt"]; ["sub"; "c.txt"]; ["sub"]; []]%string /\
  trace_prints nested_done = [5].
Proof. split; reflexivity. Qed.

(** The counter is printed at most twice in any run: once by the timer,
    once when [main] returns. *)
Lemma progress_printed_at_most_twice top path cs :
  fs_wf top -> count_entries top < guint_max ->
  count_events is_print (trace (run top (main_start_path (Some path)) cs)) <= 2.
Proof.
  intros Hwf Hlt.
  apply (f_prints _ _ _ (reach_facts _ _ _ (reachable top path cs Hwf Hlt))).
Qed.

(** * Further properties of the C program *)

(** ** Invariants along a run *)

(** A property that holds when [main] enters the loop and is kept by every
    iteration holds along every run. *)
Lemma run_invariant (P : State -> Prop) top path cs :
  fs_wf top -> count_entries top < guint_max ->
  P (main_start_path (Some path)) ->
  (forall st st',
     Inv top (count_entries top) 0 None st -> J top st -> K top st ->
     P st -> transition top st st' -> P st') ->
  P (run top (main_start_path (Some path)) cs).
Proof.
  intros Hwf Hlt H0 Hstep.
  assert (Hgen : forall cs st,
            Reach top (count_entries top) st -> K top st -> P st ->
            P (run top st cs)).
  { clear cs. induction cs as [|ch cs IH]; intros st HR HK HP; [done|].
    simpl. destruct HR as [[HI HJ]|[HF HS]].
    - pose proof (step_transition top _ st ch HI) as Htr.
      apply IH.
      + apply step_reach; [done|]. by left.
      + by eapply K_step.
      + by eapply Hstep.
    - rewrite step_stopped; [|destruct HS as [(-> & _)| ->]; done].
      apply IH; [by right|done|done]. }
  apply Hgen; [by apply main_start_reach|apply main_start_K|done].
Qed.

(** The step that ends a run. *)
Lemma run_last_step top cs : forall st0,
  status st0 = Running -> status (run top st0 cs) <> Running ->
  exists cs1 ch cs2,
    cs = cs1 ++ ch :: cs2 /\
    status (run top st0 cs1) = Running /\
    run top st0 cs = step top (run top st0 cs1) ch.
Proof.
  induction cs as [|ch cs IH]; intros st0 Hrun Hstop; [done|].
  destruct (status (step top st0 ch)) eqn:Hs;
    [|exists [], ch, cs; split; [done|]; split; [done|];
      simpl; apply run_stopped; by rewrite Hs..].
  rename Hs into Hr.
  - destruct (IH _ Hr Hstop) as (cs1 & ch' & cs2 & -> & H1 & H2).
    exists (ch :: cs1), ch', cs2. done.
Qed.

(** ** Contexts: no dangling pointer, no leak *)

(** X1: no callback ever dereferences a context that has been freed; and
    while the loop runs, the user data of every operation in flight is a
    context that is still allocated, and so is the parent stored in the
    result of every child context. *)
Theorem callbacks_find_their_context top path cs :
  fs_wf top -> count_entries top < guint_max ->
  let st := run top (main_start_path (Some path)) cs in
  status st <> Fault /\
  (status st = Running ->
   (forall o, o ∈ inflight st -> is_Some (heap st !! op_data o)) /\
   (forall c d q,
      heap st !! c = Some d ->
      res_callback (result d) = CbOnRmRfComplete q ->
      is_Some (heap st !! q))).
Proof.
  intros Hwf Hlt st.
  pose proof (reachable top path cs Hwf Hlt) as HR. fold st in HR.
  split.
  - pose proof (f_status _ _ _ (reach_facts _ _ _ HR)) as Hs.
    intros Hf. by rewrite Hf in Hs.
  - intros Hrun. destruct (reach_running _ _ _ HR Hrun) as [HI _].
    split.
    + intros o Ho. apply list_elem_of_lookup in Ho as [i Hi].
      destruct (inv_op_live _ _ _ _ _ _ _ HI Hi) as (d & Hd & _). by eexists.
    + intros c d q Hd Hcb.
      pose proof (inv_static _ _ _ _ _ HI c d Hd) as (_ & _ & _ & Hs).
      rewrite Hcb in Hs. by destruct Hs.
Qed.

Lemma exit_zero_quiescent top path cs :
  fs_wf top -> count_entries top < guint_max ->
  status (run top (main_start_path (Some path)) cs) = Exited 0 ->
  heap (run top (main_start_path (Some path)) cs) = ∅ /\
  inflight (run top (main_start_path (Some path)) cs) = [].
Proof.
  intros Hwf Hlt Hex.
  pose proof (reachable top path cs Hwf Hlt) as HR.
  destruct HR as [[HI _]|[HF [(_ & _ & H1 & H2)|Hs]]].
  - pose proof (inv_status _ _ _ _ _ HI) as Hr. rewrite Hr in Hex. done.
  - done.
  - rewrite Hs in Hex. done.
Qed.

(** X2: when [main] returns 0 every context that was allocated has been freed
    and no operation is left in flight. *)
Theorem exit_zero_all_freed top path cs :
  fs_wf top -> count_entries top < guint_max ->
  let st := run top (main_start_path (Some path)) cs in
  status st = Exited 0 -> heap st = ∅ /\ inflight st = [].
Proof. intros Hwf Hlt st Hex. by apply exit_zero_quiescent. Qed.

(** ** Paths that are not directories *)

(** X3: given the path of a regular or special file, the program deletes
    nothing: the open of the listing fails, whatever the environment
    answers, and the process exits with code 1.  It never exits with
    code 0. *)
Theorem not_a_directory_exits_one top path cs :
  top = FsRegular \/ top = FsSpecial ->
  let st := run top (main_start_path (Some path)) cs in
  files_deleted st = 0 /\
  (forall f, EvRemoved f ∉ trace st) /\
  (status st = Running \/ status st = Exited 1) /\
  (status st = Running ->
   forall failure, status (step top st (Complete 0 failure)) = Exited 1).
Proof.
  intros Htop st.
  set (o := OpEnumerateChildren (g_file_new_for_path (Some path))
              "standard::name,standard::type"
              G_FILE_QUERY_INFO_NOFOLLOW_SYMLINKS G_PRIORITY_DEFAULT None 0).
  set (P := fun s : State =>
         files_deleted s = 0 /\ (forall f, EvRemoved f ∉ trace s) /\
         ((status s = Running /\ loop_running s = true /\ inflight s = [o]) \/
          status s = Exited 1)).
  assert (Hfail : forall s failure,
            status s = Running -> inflight s = [o] ->
            step top s (Complete 0 failure) =
            fatal_gerror
              (match failure with
               | Some e => e
               | None => mkError "Error opening directory: Not a directory"
               end) (taken 0 s)).
  { intros s failure Hr Hin. unfold step. rewrite Hr. simpl. rewrite Hin. simpl.
    unfold on_enumerate_children, g_file_enumerate_children_finish.
    unfold taken. rewrite Hin.
    destruct failure as [e|]; [reflexivity|].
    unfold resolve. simpl.
    by destruct Htop as [-> | ->]. }
  assert (Hstep : forall s ch, P s -> P (step top s ch)).
  { intros s ch (Hf & Hrem & [(Hr & Hl & Hin)|Hs]).
    2:{ rewrite step_stopped; [|by rewrite Hs]. split; [done|]. split; [done|by right]. }
    destruct ch as [|i failure].
    - unfold step. rewrite Hr. simpl. unfold timeout_dispatch.
      destruct (timeout_source s) eqn:Ht; simpl; rewrite ?Hr, ?Hl; simpl.
      + split; [done|]. split; [|by left].
        intros f Hin'. apply elem_of_cons in Hin' as [?|Hin']; [done|].
        by apply (Hrem f).
      + split; [done|]. split; [done|]. by left.
    - destruct i as [|i].
      + rewrite (Hfail s failure Hr Hin). split; [done|]. split; [|by right].
        intros f Hin'. simpl in Hin'.
        apply elem_of_cons in Hin' as [?|Hin']; [done|]. by apply (Hrem f).
      + unfold step. rewrite Hr. simpl. rewrite Hin. simpl. rewrite Hr, Hl.
        split; [done|]. split; [done|]. by left. }
  assert (Hrun : forall cs s, P s -> P (run top s cs)).
  { clear cs st. induction cs as [|ch cs IH]; intros s HP; [done|].
    simpl. apply IH. by apply Hstep. }
  assert (H0 : P (main_start_path (Some path))).
  { split; [done|]. split; [|left; done].
    intros f Hin. simpl in Hin.
    apply elem_of_cons in Hin as [?|Hin]; [done|]. by apply elem_of_nil in Hin. }
  destruct (Hrun cs _ H0) as (Hf & Hrem & Hst). fold st in Hf, Hrem, Hst.
  split; [done|]. split; [done|]. split.
  - destruct Hst as [(? & _)|?]; [by left|by right].
  - intros Hr failure. destruct Hst as [(_ & _ & Hin)|Hs].
    + by rewrite (Hfail st failure Hr Hin).
    + rewrite Hs in Hr. done.
Qed.

Lemma not_a_directory_exits_one_witness :
  status (run FsRegular (main_start_path (Some "notes.txt"%string)) [ok 0%nat])
  = Exited 1 /\
  files_deleted (run FsRegular (main_start_path (Some "notes.txt"%string)) [Tick])
  = 0.
Proof.
  split.
  - exact (proj2 (proj2 (proj2 (not_a_directory_exits_one FsRegular "notes.txt" []
                                  (or_introl eq_refl)))) eq_refl None).
  - exact (proj1 (not_a_directory_exits_one FsRegular "notes.txt" [Tick]
                    (or_introl eq_refl))).
Defined.

(** ** No path on the command line *)

(** X4: started without a path argument, [rm_rf_async] is handed a NULL file:
    no operation is registered, so nothing is ever deleted and the main
    loop is never left; the timer prints its one line. *)
Theorem no_path_never_exits top cs :
  let st := run top (main_start_path None) cs in
  status st = Running /\ inflight st = [] /\ files_deleted st = 0 /\
  (trace st = [] \/ trace st = [EvPrint 0]).
Proof.
  intros st.
  set (P := fun s : State =>
         status s = Running /\ loop_running s = true /\ inflight s = [] /\
         files_deleted s = 0 /\
         (trace s = [] \/ (trace s = [EvPrint 0] /\ timeout_source s = false))).
  assert (Hstep : forall s ch, P s -> P (step top s ch)).
  { intros s ch (Hr & Hl & Hin & Hf & Ht).
    destruct ch as [|i failure]; unfold step; rewrite Hr; simpl.
    - unfold timeout_dispatch. destruct (timeout_source s) eqn:Hts; simpl.
      + rewrite Hr, Hl. simpl. repeat split; try done.
        right. split; [|done]. rewrite Hf.
        destruct Ht as [->|[_ ?]]; [done|congruence].
      + rewrite Hr, Hl. repeat split; try done.
        destruct Ht as [?|[? _]]; [by left|by right].
    - rewrite Hin. simpl. rewrite Hr, Hl. done. }
  assert (Hrun : forall cs s, P s -> P (run top s cs)).
  { clear cs st. induction cs as [|ch cs IH]; intros s HP; [done|].
    simpl. apply IH. by apply Hstep. }
  assert (H0 : P (main_start_path None)).
  { repeat split; try done. by left. }
  destruct (Hrun cs _ H0) as (Hr & _ & Hin & Hf & Ht). fold st in Hr, Hin, Hf, Ht.
  repeat split; try done. destruct Ht as [?|[? _]]; [by left|by right].
Qed.

(** ** The root directory goes last *)

Lemma extends_heap_back X Y c d' :
  extends X Y -> heap Y !! c = Some d' -> (c < brk X)%nat ->
  exists d, heap X !! c = Some d /\ file d' = file d /\ result d' = result d.
Proof.
  intros He Hd' Hlt.
  destruct (ext_old _ _ He c Hlt (mk_is_Some _ _ Hd')) as [d Hd].
  destruct (ext_heap _ _ He c d Hd) as (d'' & Hd'' & Hf & Hr).
  exists d. rewrite Hd' in Hd''. by inversion Hd''; subst d''.
Qed.

(** A context keeps its file and its result for as long as it lives. *)
Lemma transition_heap_back top total st st' c d' :
  Inv top total 0 None st -> transition top st st' ->
  heap st' !! c = Some d' -> (c < brk st)%nat ->
  exists d, heap st !! c = Some d /\ file d' = file d /\ result d' = result d.
Proof.
  intros HI Htr Hd' Hlt.
  pose proof (inv_is_fresh _ _ _ _ _ HI) as Hfr.
  destruct Htr as [E|Ht E|i o e Hi E|i f a fl p cc k d es Hi Hd Hres E
                  |i e n p cc k Hi E|i f p cc k Hi Hroom E
                  |i f p cc k d q Hi Hd Hcb Hroom E|i f p cc d Hi Hd Hcb Hroom E];
    rewrite E in Hd'.
  - eauto.
  - unfold timeout_dispatch in Hd'. destruct (timeout_source st); simpl in Hd'; eauto.
  - simpl in Hd'. eauto.
  - simpl in Hd'. eauto.
  - eapply (extends_heap_back (taken i st)); try done.
    by apply on_next_files_extends.
  - eapply (extends_heap_back (incr_files_deleted (emit (EvRemoved f) (taken i st))));
      try done.
    apply on_file_deleted_extends.
  - pose proof (inv_static _ _ _ _ _ HI k d Hd) as (Hs1 & _).
    simpl in Hd'. apply lookup_delete_Some in Hd' as [_ Hd'].
    eapply (extends_heap_back (directory_gone f k d (taken i st))); try done.
    by apply on_rm_rf_complete_extends.
  - simpl in Hd'. apply lookup_delete_Some in Hd' as [_ Hd']. eauto.
Qed.

(** The context at address 0 is the one [main] created. *)
Lemma root_context top path cs d :
  fs_wf top -> count_entries top < guint_max ->
  heap (run top (main_start_path (Some path)) cs) !! 0%nat = Some d ->
  file d = g_file_new_for_path (Some path) /\
  result d = mkResult (g_file_new_for_path (Some path)) CbOnRmFinished None.
Proof.
  intros Hwf Hlt. revert d.
  apply (run_invariant
           (fun s => forall d, heap s !! 0%nat = Some d ->
              file d = g_file_new_for_path (Some path) /\
              result d = mkResult (g_file_new_for_path (Some path))
                           CbOnRmFinished None) top path cs Hwf Hlt).
  - intros d Hd. simpl in Hd. rewrite lookup_insert_eq in Hd.
    by inversion Hd.
  - intros st st' HI HJ _ HP Htr d' Hd'.
    destruct (j_root _ _ HJ) as [d0 Hd0].
    pose proof (inv_live_lt _ _ _ _ _ _ _ HI Hd0) as Hlt0.
    destruct (transition_heap_back _ _ _ _ _ _ HI Htr Hd' Hlt0)
      as (d & Hd & Hf & Hr).
    rewrite Hf, Hr. by apply HP.
Qed.

(** Only the completion of the delete of the root directory ends the
    process with code 0. *)
Lemma transition_exit_zero top total st st' :
  Inv top total 0 None st -> transition top st st' -> status st' = Exited 0 ->
  exists i f p cc d,
    inflight st !! i = Some (OpDelete f p cc CbOnEndDirectoryDeleted 0) /\
    heap st !! 0%nat = Some d /\ f = file d /\
    st' = main_finish (g_free 0 (g_main_loop_quit
                         (directory_gone f 0 d (taken i st)))).
Proof.
  intros HI Htr Hex.
  pose proof (inv_status _ _ _ _ _ HI) as Hrun.
  destruct Htr as [E|Ht E|i o e Hi E|i f a fl p cc c d es Hi Hd Hres E
                  |i e n p cc c Hi E|i f p cc c Hi Hroom E
                  |i f p cc c d q Hi Hd Hcb Hroom E|i f p cc d Hi Hd Hcb Hroom E];
    rewrite E in Hex.
  - congruence.
  - unfold timeout_dispatch in Hex. destruct (timeout_source st); simpl in Hex;
      congruence.
  - simpl in Hex. congruence.
  - simpl in Hex. congruence.
  - pose proof (inv_status _ _ _ _ _
                  (on_next_files_inv _ _ _ _ _ _ _ _ _ HI Hi)) as Hs.
    fold (taken i st) in Hs. congruence.
  - pose proof (inv_status _ _ _ _ _
                  (on_file_deleted_inv _ _ _ _ _ _ _ _ HI Hi)) as Hs.
    fold (taken i st) in Hs. congruence.
  - exfalso.
    pose proof (inv_static _ _ _ _ _ HI c d Hd) as (Hs1 & Hs2 & Hs3 & Hs4).
    rewrite Hcb in Hs4. destruct Hs4 as [_ Hq].
    revert Hex. unfold on_rm_rf_complete, rm_rf_finish. rewrite Hs1. st_simpl.
    rewrite check_no_children_status, decr_pending_status; try done.
    + simpl. congruence.
    + apply decr_pending_live. done.
  - destruct (inv_op_live _ _ _ _ _ _ _ HI Hi) as (d0 & Hd0 & Hf).
    simpl in Hd0, Hf. rewrite Hd in Hd0. inversion Hd0; subst d0.
    exists i, f, p, cc, d. done.
Qed.

Lemma exit_zero_trace top path cs :
  fs_wf top -> count_entries top < guint_max ->
  let st := run top (main_start_path (Some path)) cs in
  status st = Exited 0 ->
  exists t,
    trace st =
      EvPrint (count_entries top)
      :: EvComplete 0 (mkResult (g_file_new_for_path (Some path))
                         CbOnRmFinished None)
      :: EvRemoved (g_file_new_for_path (Some path)) :: t /\
    count_events is_removed t = count_entries top - 1.
Proof.
  intros Hwf Hlt st Hex.
  assert (Hstart : status (main_start_path (Some path)) = Running) by done.
  assert (Hstop : status (run top (main_start_path (Some path)) cs) <> Running).
  { fold st. by rewrite Hex. }
  destruct (run_last_step top cs _ Hstart Hstop)
    as (cs1 & ch & cs2 & _ & Hr1 & Heq).
  fold st in Heq.
  pose proof (reachable top path cs1 Hwf Hlt) as HR1.
  destruct (reach_running _ _ _ HR1 Hr1) as [HI1 HJ1].
  pose proof (step_transition top _ _ ch HI1) as Htr. rewrite <- Heq in Htr.
  destruct (transition_exit_zero _ _ _ _ HI1 Htr Hex)
    as (i & f & p & cc & d & Hi & Hd & Hf & E).
  destruct (root_context top path cs1 d Hwf Hlt Hd) as [Hfile Hres].
  pose proof (reachable top path cs Hwf Hlt) as HR. fold st in HR.
  pose proof (reach_facts _ _ _ HR) as [F1 F2 F3 F4 F5 F6].
  rewrite Hex in F6.
  destruct F6 as [(_ & _ & Htot & [t Ht] & _)|(? & _)]; [|lia].
  exists (trace (run top (main_start_path (Some path)) cs1)).
  assert (Htrace : trace st =
            EvPrint (files_deleted st) :: EvComplete 0 (result d)
            :: EvRemoved f :: trace (run top (main_start_path (Some path)) cs1)).
  { rewrite E. reflexivity. }
  rewrite Htrace, Htot, Hres, Hf, Hfile. split; [done|].
  rewrite F4, Htrace in Htot. rewrite !count_events_cons in Htot. simpl in Htot.
  lia.
Qed.

(** X5: when the path on the command line is a directory itself and [main]
    returns 0, the last thing removed is that directory; its removal is
    followed at once by the top-level completion callback, without error,
    and by the final line of output. *)
Theorem root_removed_last top path cs es :
  fs_wf top -> count_entries top < guint_max ->
  top = FsDir es ->
  let st := run top (main_start_path (Some path)) cs in
  status st = Exited 0 ->
  resolve top (g_file_new_for_path (Some path)) = Some (FsDir es) /\
  exists t,
    trace st =
      EvPrint (count_entries top)
      :: EvComplete 0 (mkResult (g_file_new_for_path (Some path))
                         CbOnRmFinished None)
      :: EvRemoved (g_file_new_for_path (Some path)) :: t /\
    count_events is_removed t = count_entries top - 1.
Proof.
  intros Hwf Hlt Htop st Hex. split; [by rewrite Htop|].
  by apply exit_zero_trace.
Qed.

Lemma root_removed_last_witness :
  fs_wf tree_nested /\ count_entries tree_nested < guint_max /\
  exists t,
    trace nested_done =
      EvPrint 5 :: EvComplete 0 (mkResult root_file CbOnRmFinished None)
      :: EvRemoved root_file :: t /\
    count_events is_removed t = 4.
Proof.
  split; [exact tree_nested_wf|]. split; [reflexivity|].
  exact (proj2 (root_removed_last tree_nested "root" (oldest_first 13) _
                  tree_nested_wf eq_refl eq_refl eq_refl)).
Defined.

(** ** Deletes reach every entry of the tree, and nothing else *)

Lemma listing_entries top f es info :
  fs_wf top -> resolve top f = Some (FsDir es) ->
  info ∈ list_directory top G_FILE_QUERY_INFO_NOFOLLOW_SYMLINKS es ->
  exists x, resolve top (g_file_get_child f (g_file_info_get_name info)) = Some x /\
            g_file_info_get_file_type info = plain_type x.
Proof.
  intros Hwf Hres Hin.
  assert (Hnd : NoDup (map fst es)).
  { unfold resolve in Hres. destruct (g_file_base f); [|discriminate].
    apply (fs_lookup_wf _ _ _ Hwf) in Hres. by apply fs_wf_dir in Hres as [? _]. }
  apply list_elem_of_fmap in Hin as ([n x] & -> & Hx). simpl.
  exists x. split; [by eapply resolve_child|apply reported_type_nofollow].
Qed.

Lemma plain_type_dir x :
  plain_type x = G_FILE_TYPE_DIRECTORY -> exists es, x = FsDir es.
Proof. destruct x; try discriminate. eauto. Qed.

Lemma dispatched_ops_target_ok top parent prio canc data files : forall next,
  (forall info, info ∈ files ->
     exists x, resolve top (g_file_get_child parent (g_file_info_get_name info))
               = Some x /\
               g_file_info_get_file_type info = plain_type x) ->
  Forall (op_target_ok top) (dispatched_ops parent prio canc data next files).
Proof.
  induction files as [|info files IH]; intros next H; simpl; [done|].
  assert (Hrest : forall i, i ∈ files ->
            exists x, resolve top (g_file_get_child parent (g_file_info_get_name i))
                      = Some x /\ g_file_info_get_file_type i = plain_type x).
  { intros i Hi. apply H. apply elem_of_cons. by right. }
  destruct (H info) as (x & Hx & Hty); [apply elem_of_cons; by left|].
  case_decide as Hd; constructor; try (by apply IH); simpl.
  - rewrite Hty in Hd. destruct (plain_type_dir x Hd) as [es ->]. by exists es.
  - exists x. split; [done|]. by rewrite <- Hty.
Qed.

(** Operations added to those in flight, all on their proper targets. *)
Lemma targets_adds top X Y ops :
  extends X Y -> inflight Y = inflight X ++ ops ->
  Forall (op_target_ok top) ops ->
  Forall (op_target_ok top) (inflight X) ->
  (forall o, EvIssue o ∈ trace X -> op_target_ok top o) ->
  Forall (op_target_ok top) (inflight Y) /\
  (forall o, EvIssue o ∈ trace Y -> op_target_ok top o).
Proof.
  intros He Hin Hops K1 K2.
  destruct (ext_ops _ _ He) as (ops' & Hin' & Htr).
  assert (ops' = ops) as -> by (rewrite Hin in Hin'; by apply app_inv_head in Hin').
  split.
  - rewrite Hin. by apply Forall_app.
  - intros o Ho. rewrite Htr in Ho. apply elem_of_app in Ho as [Ho|Ho]; [|auto].
    apply list_elem_of_fmap in Ho as (o' & [= <-] & Ho').
    rewrite elem_of_rev_list in Ho'. rewrite Forall_forall in Hops. auto.
Qed.

(** What [check_no_children] may add: the delete of the context's own
    directory. *)
Lemma check_no_children_adds_end c st :
  exists ops, inflight (check_no_children c st) = inflight st ++ ops /\
    Forall (fun o => exists d p cc, heap st !! c = Some d /\
                       o = OpDelete (file d) p cc CbOnEndDirectoryDeleted c) ops.
Proof.
  unfold check_no_children. destruct (heap st !! c) as [d|] eqn:Hd.
  - destruct (_ && _).
    + eexists [_]. split; [reflexivity|]. constructor; [|done]. eauto.
    + exists []. by rewrite app_nil_r.
  - exists []. by rewrite app_nil_r.
Qed.

Lemma end_ops_target_ok top (h : gmap nat AsyncRmContext) c ops :
  (forall d, h !! c = Some d -> is_dir top (file d)) ->
  Forall (fun o => exists d p cc, h !! c = Some d /\
                     o = OpDelete (file d) p cc CbOnEndDirectoryDeleted c) ops ->
  Forall (op_target_ok top) ops.
Proof.
  intros Hh H. eapply Forall_impl; [exact H|].
  intros o (d & p & cc & Hd & ->). simpl. by apply Hh.
Qed.

Lemma decr_pending_heap_file c st k d' :
  heap (decr_pending c st) !! k = Some d' ->
  exists d, heap st !! k = Some d /\ file d' = file d.
Proof.
  unfold decr_pending. destruct (heap st !! c) as [d|] eqn:Hd; simpl; [|eauto].
  intros H. apply lookup_insert_Some in H as [[<- <-]|[_ H]]; eauto.
Qed.

Lemma set_have_more_files_heap_file c b st k d' :
  heap (set_have_more_files c b st) !! k = Some d' ->
  exists d, heap st !! k = Some d /\ file d' = file d.
Proof.
  unfold set_have_more_files. destruct (heap st !! c) as [d|] eqn:Hd; simpl; [|eauto].
  intros H. apply lookup_insert_Some in H as [[<- <-]|[_ H]]; eauto.
Qed.

Lemma heap_dirs_back top X Y c d' :
  extends X Y -> fresh Y ->
  (forall k d, heap X !! k = Some d -> is_dir top (file d)) ->
  Forall (op_target_ok top) (inflight Y) ->
  heap Y !! c = Some d' -> g_file_base (file d') <> None ->
  is_dir top (file d').
Proof.
  intros He Hf HX HY Hd' Hb.
  destruct (decide (c < brk X)%nat) as [Hlt|Hge].
  - destruct (extends_heap_back X Y c d' He Hd' Hlt) as (d & Hd & -> & _).
    by eapply HX.
  - assert (Hlt : (c < brk Y)%nat).
    { destruct (decide (c < brk Y)%nat); [done|]. rewrite Hf in Hd' by lia. done. }
    destruct (ext_new _ _ He c ltac:(lia) Hlt) as (d & Hd & [Hn|(a & fl & p & cc & Hin)]).
    + rewrite Hd' in Hd. inversion Hd; subst d. done.
    + rewrite Hd' in Hd. inversion Hd; subst d.
      rewrite Forall_forall in HY. exact (HY _ Hin).
Qed.

Lemma on_rm_rf_complete_brk r q st : brk (on_rm_rf_complete r q st) = brk st.
Proof.
  unfold on_rm_rf_complete, check_no_children, decr_pending.
  destruct (rm_rf_finish r); [done|].
  destruct (heap st !! q) as [d|] eqn:Hq; simpl.
  - rewrite lookup_insert_eq. by destruct (_ && _).
  - by rewrite Hq.
Qed.

Lemma targets_taken top st i :
  Forall (op_target_ok top) (inflight st) ->
  Forall (op_target_ok top) (inflight (taken i st)).
Proof. intros H. by apply Forall_delete. Qed.

Lemma Targets_step top total st st' :
  fs_wf top -> Inv top total 0 None st -> Targets top st ->
  transition top st st' -> Targets top st'.
Proof.
  intros Hwf HI (T1 & T2 & T3) Htr.
  pose proof (inv_is_fresh _ _ _ _ _ HI) as Hfr.
  pose proof (targets_taken top st) as Htk.
  pose proof Htr as Htr0.
  destruct Htr as [->|Ht ->|i o e Hi ->|i f a fl p cc c d es Hi Hd Hres ->
                  |i e n p cc c Hi ->|i f p cc c Hi Hroom ->
                  |i f p cc c d q Hi Hd Hcb Hroom ->|i f p cc d Hi Hd Hcb Hroom ->].
  - done.
  - unfold timeout_dispatch. rewrite Ht. simpl.
    split; [done|]. split; [|done]. intros o Ho.
    apply elem_of_cons in Ho as [Ho|Ho]; [done|auto].
  - split; [by apply Htk|]. split; [|done]. intros o' Ho. st_simpl.
    apply elem_of_cons in Ho as [Ho|Ho]; [done|auto].
  - destruct (inv_op_live _ _ _ _ _ _ _ HI Hi) as (d0 & Hd0 & -> & ->).
    destruct (targets_adds top (taken i st)
                (g_file_enumerator_next_files_async
                   (mkEnum (file d0)
                      (list_directory top G_FILE_QUERY_INFO_NOFOLLOW_SYMLINKS es))
                   20 (priority d) (cancellable d) c (taken i st))
                [OpNextFiles (mkEnum (file d0)
                   (list_directory top G_FILE_QUERY_INFO_NOFOLLOW_SYMLINKS es))
                   20 (priority d) (cancellable d) c])
      as [T1' T2']; try done.
    + apply extends_issue.
    + constructor; [|done]. simpl. intros info Hin. by eapply listing_entries.
    + by apply Htk.
  - destruct (inv_op_live _ _ _ _ _ _ _ HI Hi) as (d & Hd & Hn & Hcont).
    simpl in Hd.
    pose proof (on_next_files_inv _ _ _ _ _ _ _ _ _ HI Hi) as HI'.
    fold (taken i st) in HI'.
    assert (Hcons : op_target_ok top (OpNextFiles e n p cc c)).
    { rewrite Forall_forall in T1. apply T1. by eapply list_elem_of_lookup_2. }
    simpl in Hcons.
    pose proof (on_next_files_extends e n c (taken i st) Hfr) as He.
    assert (Hadd : exists ops,
              inflight (on_next_files e n None c (taken i st)) =
              inflight (taken i st) ++ ops /\ Forall (op_target_ok top) ops).
    { destruct (decide (take n (enum_rest e) = [])) as [Hnil|Hne].
      - unfold on_next_files, g_file_enumerator_next_files_finish in *.
        rewrite Hnil in *. simpl in *.
        destruct (check_no_children_adds_end c
                    (set_have_more_files c false (taken i st)))
          as (ops & Hin & Hops).
        rewrite set_have_more_files_inflight in Hin.
        exists ops. split; [done|].
        eapply end_ops_target_ok; [|exact Hops].
        intros d1 Hd1.
        destruct (set_have_more_files_heap_file _ _ _ _ _ Hd1) as (d2 & Hd2 & ->).
        by eapply T3.
      - remember (mkEnum (g_file_enumerator_get_container e) (drop n (enum_rest e)))
          as e' eqn:He'.
        destruct (on_next_files_head_nonempty (take n (enum_rest e)) e' c
                    (taken i st) d Hd Hfr Hne) as (HdH & HinH & HbrkH & HfH).
        destruct (dispatch_loop_inflight (file d) c (take n (enum_rest e)) _ _
                    HdH HfH (inv_base _ _ _ _ _ _ _ HI Hd)) as (Hin & _).
        assert (Heq : on_next_files e n None c (taken i st) =
                      fold_left (dispatch_entry (file d) c) (take n (enum_rest e))
                        (on_next_files_head (take n (enum_rest e)) e' c (taken i st))).
        { unfold on_next_files, g_file_enumerator_next_files_finish.
          cbn [g_file_enumerator_get_container]. by rewrite <- He', Hcont. }
        rewrite Heq. rewrite HinH, <- app_assoc in Hin.
        eexists. split; [exact Hin|].
        apply Forall_app. split.
        + constructor; [|done]. rewrite He'. simpl. intros info Hinfo.
          apply Hcons. by eapply subseteq_drop.
        + apply dispatched_ops_target_ok. intros info Hinfo. rewrite <- Hcont.
          apply Hcons. by eapply subseteq_take. }
    destruct Hadd as (ops & Hin & Hops).
    destruct (targets_adds top (taken i st) _ ops He Hin Hops
                (Htk i T1) T2) as [T1' T2'].
    split; [done|]. split; [done|].
    intros k dk Hk.
    eapply (heap_dirs_back top (taken i st)); try done.
    + apply (inv_is_fresh _ _ _ _ _ HI').
    + by eapply inv_base.
  - pose proof (on_file_deleted_inv _ _ _ _ _ _ _ _ HI Hi) as HI'.
    fold (taken i st) in HI'.
    set (X := incr_files_deleted (emit (EvRemoved f) (taken i st))) in *.
    pose proof (on_file_deleted_extends f c (taken i st)) as He. fold X in He.
    destruct (check_no_children_adds_end c (decr_pending c X)) as (ops & Hin & Hops).
    rewrite decr_pending_inflight in Hin.
    assert (Hops' : Forall (op_target_ok top) ops).
    { eapply end_ops_target_ok; [|exact Hops]. intros d1 Hd1.
      destruct (decr_pending_heap_file _ _ _ _ Hd1) as (d2 & Hd2 & ->).
      by eapply T3. }
    destruct (targets_adds top X (on_file_deleted f None c (taken i st)) ops
                He Hin Hops') as [T1' T2'].
    { by apply Htk. }
    { intros o Ho. subst X. st_simpl.
      apply elem_of_cons in Ho as [Ho|Ho]; [done|auto]. }
    split; [done|]. split; [done|].
    intros k dk Hk.
    eapply (heap_dirs_back top X); try done.
    + apply (inv_is_fresh _ _ _ _ _ HI').
    + by eapply inv_base.
  - pose proof (inv_static _ _ _ _ _ HI c d Hd) as (Hs1 & _).
    pose proof (on_end_directory_deleted_child_inv _ _ _ _ _ _ _ _ _ _
                  HI Hi Hd Hcb) as HI'.
    set (X := directory_gone f c d (taken i st)) in *.
    set (Y := on_rm_rf_complete (result d) q X) in *.
    pose proof (on_rm_rf_complete_extends (result d) q X Hs1) as He. fold Y in He.
    assert (HfY : fresh Y) by (by apply fresh_on_rm_rf_complete).
    assert (Hadd : exists ops, inflight Y = inflight X ++ ops /\
                     Forall (op_target_ok top) ops).
    { subst Y. unfold on_rm_rf_complete, rm_rf_finish. rewrite Hs1.
      destruct (check_no_children_adds_end q (decr_pending q X))
        as (ops & Hin & Hops).
      rewrite decr_pending_inflight in Hin. exists ops. split; [done|].
      eapply end_ops_target_ok; [|exact Hops]. intros d1 Hd1.
      destruct (decr_pending_heap_file _ _ _ _ Hd1) as (d2 & Hd2 & ->).
      by eapply T3. }
    destruct Hadd as (ops & Hin & Hops).
    destruct (targets_adds top X Y ops He Hin Hops) as [T1' T2'].
    { by apply Htk. }
    { intros o Ho. subst X. unfold directory_gone in Ho. st_simpl.
      apply elem_of_cons in Ho as [Ho|Ho]; [done|].
      apply elem_of_cons in Ho as [Ho|Ho]; [done|auto]. }
    split; [done|]. split; [done|].
    intros k dk Hk.
    destruct (transition_heap_back _ _ _ _ _ _ HI Htr0 Hk) as (d1 & Hd1 & -> & _).
    + simpl in Hk. apply lookup_delete_Some in Hk as [Hne Hk].
      destruct (decide (k < brk Y)%nat) as [Hlt|Hge].
      * subst Y. by rewrite on_rm_rf_complete_brk in Hlt.
      * rewrite HfY in Hk by lia. done.
    + by eapply T3.
  - split; [by apply Htk|]. split.
    + intros o Ho. unfold main_finish, directory_gone in Ho. st_simpl.
      repeat (apply elem_of_cons in Ho as [Ho|Ho]; [done|]). auto.
    + intros k dk Hk. simpl in Hk. apply lookup_delete_Some in Hk as [_ Hk].
      by eapply T3.
Qed.

(** The trace only grows, and a removal is the completion of a delete
    that was in flight. *)
Lemma transition_removed top total st st' :
  Inv top total 0 None st -> transition top st st' ->
  (forall ev, ev ∈ trace st -> ev ∈ trace st') /\
  (forall g, EvRemoved g ∈ trace st' ->
     EvRemoved g ∈ trace st \/
     exists i p cc cb c, inflight st !! i = Some (OpDelete g p cc cb c)).
Proof.
  intros HI Htr.
  pose proof (inv_is_fresh _ _ _ _ _ HI) as Hfr.
  destruct Htr as [->|Ht ->|i o e Hi ->|i f a fl p cc c d es Hi Hd Hres ->
                  |i e n p cc c Hi ->|i f p cc c Hi Hroom ->
                  |i f p cc c d q Hi Hd Hcb Hroom ->|i f p cc d Hi Hd Hcb Hroom ->].
  - split; [done|]. intros g Hg. by left.
  - unfold timeout_dispatch. rewrite Ht. simpl. split.
    + intros ev Hev. apply elem_of_cons. by right.
    + intros g Hg. apply elem_of_cons in Hg as [?|Hg]; [done|by left].
  - simpl. split.
    + intros ev Hev. apply elem_of_cons. by right.
    + intros g Hg. apply elem_of_cons in Hg as [?|Hg]; [done|by left].
  - simpl. split.
    + intros ev Hev. apply elem_of_cons. by right.
    + intros g Hg. apply elem_of_cons in Hg as [?|Hg]; [done|by left].
  - pose proof (on_next_files_extends e n c (taken i st) Hfr) as He. split.
    + intros ev Hev. by eapply extends_trace_elem.
    + intros g Hg. left. by eapply (extends_removed_elem (taken i st)).
  - pose proof (on_file_deleted_extends f c (taken i st)) as He. split.
    + intros ev Hev. eapply extends_trace_elem; [exact He|].
      simpl. apply elem_of_cons. by right.
    + intros g Hg. apply (extends_removed_elem _ _ _ He) in Hg. simpl in Hg.
      apply elem_of_cons in Hg as [[= ->]|Hg]; [|by left].
      right. by exists i, p, cc, CbOnFileDeleted, c.
  - pose proof (inv_static _ _ _ _ _ HI c d Hd) as (Hs1 & _).
    pose proof (on_rm_rf_complete_extends (result d) q
                  (directory_gone f c d (taken i st)) Hs1) as He.
    split.
    + intros ev Hev. simpl. eapply extends_trace_elem; [exact He|].
      simpl. apply elem_of_cons. right. apply elem_of_cons. by right.
    + intros g Hg. simpl in Hg.
      apply (extends_removed_elem _ _ _ He) in Hg. simpl in Hg.
      apply elem_of_cons in Hg as [?|Hg]; [done|].
      apply elem_of_cons in Hg as [[= ->]|Hg]; [|by left].
      right. by exists i, p, cc, CbOnEndDirectoryDeleted, c.
  - simpl. split.
    + intros ev Hev. repeat (apply elem_of_cons; right). done.
    + intros g Hg.
      apply elem_of_cons in Hg as [?|Hg]; [done|].
      apply elem_of_cons in Hg as [?|Hg]; [done|].
      apply elem_of_cons in Hg as [[= ->]|Hg]; [|by left].
      right. by exists i, p, cc, CbOnEndDirectoryDeleted, 0%nat.
Qed.

Lemma children_first_step top total st st' :
  Inv top total 0 None st -> J top st -> Targets top st ->
  children_first top st -> transition top st st' -> children_first top st'.
Proof.
  intros HI HJ (T1 & _) Hcf Htr f es n x Hf Hres Hx.
  destruct (transition_removed _ _ _ _ HI Htr) as [Hmono Hnew].
  destruct (Hnew f Hf) as [Hold|(i & p & cc & cb & c & Hi)].
  - apply Hmono. by eapply Hcf.
  - apply Hmono.
    pose proof (list_elem_of_lookup_2 _ _ _ Hi) as Hin.
    destruct cb.
    + rewrite Forall_forall in T1. destruct (T1 _ Hin) as (y & Hy & Hty).
      rewrite Hres in Hy. inversion Hy; subst y. done.
    + by eapply (end_in_flight_children_removed _ _ _ _ _ _ _ HI (j_cover _ _ HJ) Hin).
Qed.

Lemma main_start_Targets top path es :
  top = FsDir es -> Targets top (main_start_path (Some path)).
Proof.
  intros ->.
  assert (Hroot : is_dir (FsDir es) (g_file_new_for_path (Some path))).
  { by exists es. }
  split; [|split].
  - constructor; [done|done].
  - intros o Ho. simpl in Ho.
    apply elem_of_cons in Ho as [[= ->]|Ho]; [done|by apply elem_of_nil in Ho].
  - intros c d Hd. simpl in Hd.
    apply lookup_insert_Some in Hd as [[<- <-]|[_ Hd]]; [done|].
    by rewrite lookup_empty in Hd.
Qed.

(** Both invariants hold along every run on a directory. *)
Lemma run_targets top path es cs :
  fs_wf top -> count_entries top < guint_max -> top = FsDir es ->
  Targets top (run top (main_start_path (Some path)) cs) /\
  children_first top (run top (main_start_path (Some path)) cs).
Proof.
  intros Hwf Hlt Htop.
  apply (run_invariant (fun s => Targets top s /\ children_first top s)
           top path cs Hwf Hlt).
  - split; [by eapply main_start_Targets|].
    intros f es' n x Hf. simpl in Hf.
    apply elem_of_cons in Hf as [?|Hf]; [done|by apply elem_of_nil in Hf].
  - intros st st' HI HJ _ [HT Hcf] Htr. split.
    + by eapply Targets_step.
    + by eapply children_first_step.
Qed.

(** *** The paths of a tree *)

Lemma all_paths_dir es : all_paths (FsDir es) = [] :: all_paths_list es.
Proof. reflexivity. Qed.

Lemma all_paths_leaf t : (forall es, t <> FsDir es) -> all_paths t = [[]].
Proof. intros H. destruct t; try reflexivity. by destruct (H entries). Qed.

Lemma all_paths_length t : Z.of_nat (length (all_paths t)) = count_entries t.
Proof.
  induction t as [| |t|es IH] using fsnode_rect_list; try reflexivity.
  rewrite all_paths_dir, count_entries_dir. cbn [length].
  rewrite Nat2Z.inj_succ.
  assert (H : Z.of_nat (length (all_paths_list es)) = count_list es).
  { induction IH as [|[n x] es Hx _ IH']; [done|].
    cbn [all_paths_list count_list]. rewrite length_app, length_map.
    simpl in Hx. lia. }
  lia.
Qed.

(** Every path that resolves in the tree is listed. *)
Lemma all_paths_complete p : forall t x,
  fs_lookup t p = Some x -> p ∈ all_paths t.
Proof.
  induction p as [|n p IH]; intros t x H.
  - destruct t; apply elem_of_cons; by left.
  - simpl in H. destruct t as [| | |es]; try discriminate.
    destruct (lookup_entry n es) as [y|] eqn:E; [|discriminate].
    rewrite all_paths_dir. apply elem_of_cons. right.
    apply lookup_entry_elem in E. specialize (IH y x H).
    clear H. induction es as [|[m z] es IHes]; [by apply elem_of_nil in E|].
    cbn [all_paths_list]. apply elem_of_app.
    apply elem_of_cons in E as [[= <- <-]|E].
    + left. apply list_elem_of_fmap. by exists p.
    + right. by apply IHes.
Qed.

(** Every listed path resolves. *)
Lemma all_paths_sound t : forall p,
  fs_wf t -> p ∈ all_paths t -> is_Some (fs_lookup t p).
Proof.
  induction t as [| |t|es IH] using fsnode_rect_list; intros p Hwf Hp;
    try (apply elem_of_cons in Hp as [->|Hp]; [by eexists|by apply elem_of_nil in Hp]).
  rewrite all_paths_dir in Hp. apply elem_of_cons in Hp as [->|Hp]; [by eexists|].
  apply fs_wf_dir in Hwf as [Hnd Hwf].
  assert (Hex : exists n x q, (n, x) ∈ es /\ p = n :: q /\ q ∈ all_paths x).
  { clear IH Hnd Hwf. induction es as [|[m z] es IHes]; [by apply elem_of_nil in Hp|].
    cbn [all_paths_list] in Hp. apply elem_of_app in Hp as [Hp|Hp].
    - apply list_elem_of_fmap in Hp as (q & -> & Hq).
      exists m, z, q. split; [apply elem_of_cons; by left|done].
    - destruct (IHes Hp) as (n & x & q & Hin & -> & Hq).
      exists n, x, q. split; [apply elem_of_cons; by right|done]. }
  destruct Hex as (n & x & q & Hin & -> & Hq).
  simpl. rewrite (lookup_entry_NoDup n x es Hnd Hin).
  rewrite Forall_forall in IH. apply (IH (n, x) Hin q); [|done].
  by eapply fs_wf_list_elem.
Qed.

(** With unique sibling names no path is listed twice. *)
Lemma all_paths_NoDup t : fs_wf t -> NoDup (all_paths t).
Proof.
  induction t as [| |t|es IH] using fsnode_rect_list; intros Hwf;
    try (apply NoDup_singleton).
  rewrite all_paths_dir. apply fs_wf_dir in Hwf as [Hnd Hwf].
  apply NoDup_cons. split.
  - intros Hin. clear IH Hnd Hwf.
    induction es as [|[m z] es IHes]; [by apply elem_of_nil in Hin|].
    cbn [all_paths_list] in Hin. apply elem_of_app in Hin as [Hin|Hin]; [|auto].
    apply list_elem_of_fmap in Hin as (q & Hq & _). discriminate.
  - induction es as [|[m z] es IHes]; [apply NoDup_nil_2|].
    cbn [all_paths_list]. simpl in Hnd, Hwf.
    apply NoDup_cons in Hnd as [Hm Hnd]. destruct Hwf as [Hz Hwf].
    apply Forall_cons in IH as [IHz IH].
    apply NoDup_app. split; [|split].
    + apply NoDup_fmap_2; [|by apply IHz]. by intros ? ? [=].
    + intros p Hp Hp'. apply list_elem_of_fmap in Hp as (q & -> & Hq).
      apply Hm. clear - Hp'.
      induction es as [|[k y] es IHes]; [by apply elem_of_nil in Hp'|].
      cbn [all_paths_list] in Hp'. apply elem_of_app in Hp' as [Hp'|Hp'].
      * apply list_elem_of_fmap in Hp' as (q' & [= -> _] & _).
        simpl. apply elem_of_cons. by left.
      * simpl. apply elem_of_cons. right. by apply IHes.
    + by apply IHes.
Qed.

(** *** Deletes stay inside the tree *)

(** X6: every delete the program issues is on an entry of the tree: the delete
    of a leaf on an entry that is not a directory, the delete that ends a
    context on a directory; and whatever has been removed was an entry of
    the tree. *)
Theorem deletes_stay_in_tree top path es cs :
  fs_wf top -> count_entries top < guint_max -> top = FsDir es ->
  let st := run top (main_start_path (Some path)) cs in
  (forall f p cc c,
     EvIssue (OpDelete f p cc CbOnFileDeleted c) ∈ trace st ->
     exists x, resolve top f = Some x /\ forall es', x <> FsDir es') /\
  (forall f p cc c,
     EvIssue (OpDelete f p cc CbOnEndDirectoryDeleted c) ∈ trace st ->
     exists es', resolve top f = Some (FsDir es')) /\
  (forall f, EvRemoved f ∈ trace st -> is_Some (resolve top f)).
Proof.
  intros Hwf Hlt Htop st.
  destruct (run_targets top path es cs Hwf Hlt Htop) as [(T1 & T2 & T3) _].
  fold st in T1, T2, T3.
  split; [|split].
  - intros f p cc c Hin. destruct (T2 _ Hin) as (x & Hx & Hty).
    exists x. split; [done|]. intros es' ->. done.
  - intros f p cc c Hin. exact (T2 _ Hin).
  - revert st T1 T2 T3. intros st _ _ _. subst st.
    apply (run_invariant
             (fun s => Targets top s /\
                       forall f, EvRemoved f ∈ trace s -> is_Some (resolve top f))
             top path cs Hwf Hlt).
    + split; [by eapply main_start_Targets|].
      intros f Hf. simpl in Hf.
      apply elem_of_cons in Hf as [?|Hf]; [done|by apply elem_of_nil in Hf].
    + intros s s' HI HJ _ [HT Hrem] Htr. split; [by eapply Targets_step|].
      intros f Hf.
      destruct (transition_removed _ _ _ _ HI Htr) as [_ Hnew].
      destruct (Hnew f Hf) as [Hold|(i & p & cc & cb & c & Hi)]; [auto|].
      destruct HT as (T1 & _). rewrite Forall_forall in T1.
      pose proof (T1 _ (list_elem_of_lookup_2 _ _ _ Hi)) as Hok.
      destruct cb; simpl in Hok.
      * destruct Hok as (x & -> & _). by eexists.
      * destruct Hok as (es' & ->). by eexists.
Qed.

(** *** Every entry is removed, once *)

Lemma elem_of_removed_files st f : f ∈ removed_files st <-> EvRemoved f ∈ trace st.
Proof.
  unfold removed_files. rewrite list_elem_of_omap. split.
  - intros (ev & Hev & Hf). destruct ev; try discriminate. by inversion Hf; subst.
  - intros H. by exists (EvRemoved f).
Qed.

Lemma removed_files_length st :
  Z.of_nat (length (removed_files st)) = count_events is_removed (trace st).
Proof.
  unfold removed_files, omap. induction (trace st) as [|ev t IH]; [done|].
  rewrite count_events_cons. destruct ev; simpl in *; lia.
Qed.

Lemma all_entries_removed top path es cs :
  fs_wf top -> count_entries top < guint_max -> top = FsDir es ->
  let st := run top (main_start_path (Some path)) cs in
  status st = Exited 0 ->
  (forall p x, fs_lookup top p = Some x ->
     EvRemoved (mkFile (Some path) p) ∈ trace st) /\
  removed_files st ≡ₚ map (mkFile (Some path)) (all_paths top).
Proof.
  intros Hwf Hlt Htop st Hex.
  destruct (run_targets top path es cs Hwf Hlt Htop) as [_ Hcf]. fold st in Hcf.
  destruct (exit_zero_trace top path cs Hwf Hlt Hex) as (t & Htr & _).
  fold st in Htr.
  assert (Hall : forall p x, fs_lookup top p = Some x ->
            EvRemoved (mkFile (Some path) p) ∈ trace st).
  { induction p as [|n q IH] using rev_ind; intros x Hx.
    - rewrite Htr. do 2 (apply elem_of_cons; right). apply elem_of_cons. by left.
    - rewrite fs_lookup_app in Hx.
      destruct (fs_lookup top q) as [y|] eqn:Hq; [|discriminate].
      simpl in Hx. destruct y as [| | |es']; try discriminate.
      destruct (lookup_entry n es') as [z|] eqn:Hn; [|discriminate].
      apply lookup_entry_elem in Hn.
      exact (Hcf (mkFile (Some path) q) es' n z (IH _ eq_refl) Hq Hn). }
  split; [exact Hall|].
  symmetry. apply submseteq_length_Permutation.
  - apply NoDup_submseteq.
    + apply NoDup_fmap_2; [by intros ? ? [=]|by apply all_paths_NoDup].
    + intros f Hf. apply list_elem_of_fmap in Hf as (p & -> & Hp).
      apply elem_of_removed_files.
      destruct (all_paths_sound top p Hwf Hp) as [x Hx]. by eapply Hall.
  - pose proof (removed_files_length st) as Hlen.
    pose proof (all_paths_length top) as Hlen'.
    pose proof (reachable top path cs Hwf Hlt) as HR. fold st in HR.
    pose proof (reach_facts _ _ _ HR) as [F1 F2 F3 F4 F5 F6].
    rewrite Hex in F6.
    destruct F6 as [(_ & _ & Htot & _)|(? & _)]; [|lia].
    rewrite length_map. lia.
Qed.

(** X7: when [main] returns 0 every entry of the tree has been removed, each
    exactly once, and nothing else has: the handles removed are, up to
    their order, the paths of the tree below the path given on the command
    line. *)
Theorem every_entry_removed_once top path es cs :
  fs_wf top -> count_entries top < guint_max -> top = FsDir es ->
  let st := run top (main_start_path (Some path)) cs in
  status st = Exited 0 ->
  (forall p x, fs_lookup top p = Some x ->
     EvRemoved (mkFile (Some path) p) ∈ trace st) /\
  removed_files st ≡ₚ map (mkFile (Some path)) (all_paths top).
Proof. intros Hwf Hlt Htop st Hex. by eapply all_entries_removed. Qed.

Lemma every_entry_removed_once_witness :
  fs_wf tree_nested /\ count_entries tree_nested < guint_max /\
  EvRemoved (mkFile (Some "root"%string) ["sub"%string; "c.txt"%string])
    ∈ trace nested_done.
Proof.
  split; [exact tree_nested_wf|]. split; [reflexivity|].
  exact (proj1 (every_entry_removed_once tree_nested "root" _ (oldest_first 13)
                  tree_nested_wf eq_refl eq_refl eq_refl)
           ["sub"%string; "c.txt"%string] FsRegular eq_refl).
Defined.

(** ** The phases of a context *)

(** X8: while the loop runs every live context is in exactly one of three
    phases: listing, with exactly one request (the open or a batch) in
    flight; waiting, with children pending and nothing of its own in
    flight; or deleting its own directory, with no child left and the
    listing over.  In particular the batches of a directory are requested
    strictly one after another, and [have_more_files] is TRUE only while
    a request is in flight. *)
Theorem context_phases top path cs :
  fs_wf top -> count_entries top < guint_max ->
  let st := run top (main_start_path (Some path)) cs in
  status st = Running ->
  forall c d, heap st !! c = Some d ->
    (listing_in_flight st c = 1 /\ end_in_flight st c = 0) \/
    (listing_in_flight st c = 0 /\ end_in_flight st c = 0 /\
     1 <= num_files_pending d /\ have_more_files d = false) \/
    (listing_in_flight st c = 0 /\ end_in_flight st c = 1 /\
     num_files_pending d = 0 /\ have_more_files d = false).
Proof.
  intros Hwf Hlt st Hrun c d Hd.
  pose proof (reachable top path cs Hwf Hlt) as HR. fold st in HR.
  destruct (reach_running _ _ _ HR Hrun) as [HI _].
  pose proof (inv_num _ _ _ _ _ HI c d Hd) as Hn. cbn [owed_at] in Hn.
  destruct Hn as (H1 & H2 & H3 & H4 & H5 & H6 & H7 & H8 & H9 & H10).
  simpl in H1.
  assert (Hhm : listing_in_flight st c = 0 -> have_more_files d = false).
  { intros Hl. destruct (have_more_files d); [|done]. specialize (H6 eq_refl). lia. }
  destruct (decide (listing_in_flight st c = 1)) as [Hl|Hl].
  - left. split; [done|lia].
  - right. assert (Hl0 : listing_in_flight st c = 0) by lia.
    destruct (decide (end_in_flight st c = 1)) as [He|He].
    + right. specialize (H8 He). repeat split; try done; [lia|auto].
    + left. assert (He0 : end_in_flight st c = 0) by lia.
      specialize (H9 eq_refl ltac:(lia)). repeat split; try done; [lia|auto].
Qed.

(** ** One context per directory *)

Lemma count_dirs_dir es : count_dirs (FsDir es) = 1 + count_dirs_list es.
Proof. reflexivity. Qed.

Lemma infos_dirs_app top parent l1 l2 :
  infos_dirs top parent (l1 ++ l2) =
  infos_dirs top parent l1 + infos_dirs top parent l2.
Proof. induction l1 as [|i l1 IH]; simpl; [lia|]. rewrite IH. lia. Qed.

Lemma infos_dirs_listing top f es :
  fs_wf top -> resolve top f = Some (FsDir es) ->
  infos_dirs top f (list_directory top G_FILE_QUERY_INFO_NOFOLLOW_SYMLINKS es)
  = count_dirs_list es.
Proof.
  intros Hwf Hf.
  assert (Hnd : NoDup (map fst es)).
  { unfold resolve in Hf. destruct (g_file_base f); [|discriminate].
    apply (fs_lookup_wf _ _ _ Hwf) in Hf. by apply fs_wf_dir in Hf as [? _]. }
  assert (Hsub : forall e, e ∈ es -> e ∈ es) by auto.
  revert Hsub. generalize es at 1 3 4. intros l.
  induction l as [|[n x] l IH]; intros Hsub; simpl; [reflexivity|].
  rewrite IH by (intros e He; apply Hsub, elem_of_cons; by right).
  f_equal. unfold info_dirs. simpl. rewrite reported_type_nofollow.
  assert (Hx : (n, x) ∈ es) by (apply Hsub, elem_of_cons; by left).
  destruct x as [| |t|es']; simpl; try reflexivity.
  unfold dirs_below. rewrite (resolve_child top f es n _ Hf Hnd Hx).
  reflexivity.
Qed.

Lemma count_dirs_nonneg t : 0 <= count_dirs t.
Proof.
  induction t as [| |t|es IH] using fsnode_rect_list; try (simpl; lia).
  rewrite count_dirs_dir.
  induction IH as [|[n x] es Hx _ IH']; simpl in *; lia.
Qed.

Lemma count_dirs_list_nonneg es : 0 <= count_dirs_list es.
Proof.
  induction es as [|[n x] es IH]; simpl; [lia|].
  pose proof (count_dirs_nonneg x). lia.
Qed.

Lemma dirs_below_nonneg top f : 0 <= dirs_below top f.
Proof.
  unfold dirs_below. destruct (resolve top f) as [[| | |es]|]; try lia.
  apply count_dirs_list_nonneg.
Qed.

Lemma infos_dirs_nonneg top parent l : 0 <= infos_dirs top parent l.
Proof.
  induction l as [|i l IH]; simpl; [lia|].
  unfold info_dirs. pose proof (dirs_below_nonneg top
    (g_file_get_child parent (g_file_info_get_name i))).
  case_decide; lia.
Qed.

Lemma op_dirs_nonneg top o : 0 <= op_dirs top o.
Proof.
  destruct o; simpl; [apply dirs_below_nonneg|apply infos_dirs_nonneg|lia].
Qed.

Lemma dirs_accounted_issue top o st :
  dirs_accounted top (issue o st) = dirs_accounted top st + op_dirs top o.
Proof. unfold dirs_accounted. st_simpl. rewrite osum_snoc. lia. Qed.

Lemma dirs_accounted_taken top i o st :
  inflight st !! i = Some o ->
  dirs_accounted top (taken i st) = dirs_accounted top st - op_dirs top o.
Proof.
  intros Hi. unfold dirs_accounted, taken. st_simpl.
  rewrite (osum_delete _ _ _ _ Hi). lia.
Qed.

Lemma dirs_accounted_decr_pending top c st :
  dirs_accounted top (decr_pending c st) = dirs_accounted top st.
Proof. unfold decr_pending. by destruct (heap st !! c). Qed.

Lemma dirs_accounted_set_have_more_files top c b st :
  dirs_accounted top (set_have_more_files c b st) = dirs_accounted top st.
Proof. unfold set_have_more_files. by destruct (heap st !! c). Qed.

Lemma dirs_accounted_check_no_children top c st :
  dirs_accounted top (check_no_children c st) = dirs_accounted top st.
Proof.
  unfold check_no_children. destruct (heap st !! c) as [d|]; [|done].
  destruct (_ && _); [|done].
  unfold g_file_delete_async. rewrite dirs_accounted_issue. simpl. lia.
Qed.

Lemma dirs_accounted_dispatch_entry top parent c st info :
  is_Some (heap st !! c) -> g_file_base parent <> None ->
  dirs_accounted top (dispatch_entry parent c st info) =
  dirs_accounted top st + info_dirs top parent info.
Proof.
  intros [d Hd] Hbase.
  unfold dispatch_entry, incr_pending, info_dirs. rewrite Hd. st_simpl.
  rewrite lookup_insert_eq. cbn [priority cancellable].
  case_decide.
  - unfold rm_rf_async, g_file_enumerate_children_async. cbn [file].
    destruct (g_file_base (g_file_get_child parent _)) eqn:Hb;
      [|by destruct parent as [[?|] ?]].
    unfold dirs_accounted. st_simpl. rewrite osum_snoc. simpl. lia.
  - unfold g_file_delete_async. rewrite dirs_accounted_issue. simpl.
    unfold dirs_accounted. simpl. lia.
Qed.

Lemma dirs_accounted_dispatch_loop top parent c files : forall st,
  is_Some (heap st !! c) -> fresh st -> g_file_base parent <> None ->
  dirs_accounted top (fold_left (dispatch_entry parent c) files st) =
  dirs_accounted top st + infos_dirs top parent files.
Proof.
  induction files as [|info files IH]; intros st Hd Hf Hbase.
  - simpl. lia.
  - cbn [fold_left].
    destruct (dispatch_entry_extends parent c st info Hf) as [He Hf1].
    destruct Hd as [d Hd].
    destruct (ext_heap _ _ He c d Hd) as (d' & Hd' & _).
    rewrite IH by done.
    rewrite (dirs_accounted_dispatch_entry top parent c st info) by done.
    cbn [infos_dirs foldr]. fold (infos_dirs top parent files). lia.
Qed.

(** A delivery that does not fail neither loses nor invents a
    directory. *)
Lemma dirs_accounted_step top total st st' :
  fs_wf top -> Inv top total 0 None st -> transition top st st' ->
  (status st' = Exited 1 /\ dirs_accounted top st' <= dirs_accounted top st) \/
  dirs_accounted top st' = dirs_accounted top st.
Proof.
  intros Hwf HI Htr.
  pose proof (inv_is_fresh _ _ _ _ _ HI) as Hfr.
  destruct Htr as [->|Ht ->|i o e Hi ->|i f a fl p cc c d es Hi Hd Hres ->
                  |i e n p cc c Hi ->|i f p cc c Hi Hroom ->
                  |i f p cc c d q Hi Hd Hcb Hroom ->|i f p cc d Hi Hd Hcb Hroom ->].
  - by right.
  - right. unfold timeout_dispatch. by destruct (timeout_source st).
  - left. split; [done|].
    change (dirs_accounted top (fatal_gerror e (taken i st)))
      with (dirs_accounted top (taken i st)).
    rewrite (dirs_accounted_taken top i o st Hi).
    pose proof (op_dirs_nonneg top o). lia.
  - right. destruct (inv_op_live _ _ _ _ _ _ _ HI Hi) as (d0 & Hd0 & -> & ->).
    unfold g_file_enumerator_next_files_async.
    rewrite dirs_accounted_issue, (dirs_accounted_taken top i _ st Hi).
    cbn [op_dirs enum_rest g_file_enumerator_get_container].
    rewrite (infos_dirs_listing top (file d0) es Hwf Hres).
    unfold dirs_below. rewrite Hres. lia.
  - right. destruct (inv_op_live _ _ _ _ _ _ _ HI Hi) as (d & Hd & Hn & Hcont).
    simpl in Hd.
    pose proof (dirs_accounted_taken top i _ st Hi) as Htk. cbn [op_dirs] in Htk.
    assert (Hsplit : infos_dirs top (g_file_enumerator_get_container e) (enum_rest e) =
              infos_dirs top (g_file_enumerator_get_container e) (take n (enum_rest e)) +
              infos_dirs top (g_file_enumerator_get_container e) (drop n (enum_rest e))).
    { by rewrite <- infos_dirs_app, take_drop. }
    unfold on_next_files, g_file_enumerator_next_files_finish.
    cbn [g_file_enumerator_get_container].
    destruct (take n (enum_rest e)) as [|x l] eqn:Htake.
    + cbn [fold_left on_next_files_head].
      rewrite dirs_accounted_check_no_children,
        dirs_accounted_set_have_more_files, Htk.
      simpl in Hsplit.
      assert (Hdrop : drop n (enum_rest e) = []).
      { destruct (enum_rest e) as [|y r]; [by rewrite drop_nil|].
        destruct n; [lia|discriminate]. }
      rewrite Hdrop in Hsplit. simpl in Hsplit. lia.
    + assert (Hdt : heap (taken i st) !! c = Some d) by done.
      assert (Hft : fresh (taken i st)) by done.
      destruct (on_next_files_head_nonempty (x :: l)
                  (mkEnum (g_file_enumerator_get_container e) (drop n (enum_rest e)))
                  c (taken i st) d Hdt Hft ltac:(done)) as (Hh & _ & _ & Hfh).
      rewrite dirs_accounted_dispatch_loop;
        [|by eexists|done|rewrite Hcont; by eapply inv_base].
      cbn [on_next_files_head].
      unfold g_file_enumerator_next_files_async.
      rewrite dirs_accounted_issue, dirs_accounted_set_have_more_files, Htk.
      cbn [op_dirs enum_rest g_file_enumerator_get_container]. lia.
  - right. unfold on_file_deleted.
    rewrite dirs_accounted_check_no_children, dirs_accounted_decr_pending.
    change (dirs_accounted top (incr_files_deleted (emit (EvRemoved f) (taken i st))))
      with (dirs_accounted top (taken i st)).
    rewrite (dirs_accounted_taken top i _ st Hi). simpl. lia.
  - right. pose proof (inv_static _ _ _ _ _ HI c d Hd) as (Hs1 & _).
    change (dirs_accounted top (g_free c ?Y)) with (dirs_accounted top Y).
    unfold on_rm_rf_complete, rm_rf_finish. rewrite Hs1.
    rewrite dirs_accounted_check_no_children, dirs_accounted_decr_pending.
    change (dirs_accounted top (directory_gone f c d (taken i st)))
      with (dirs_accounted top (taken i st)).
    rewrite (dirs_accounted_taken top i _ st Hi). simpl. lia.
  - right.
    change (dirs_accounted top (main_finish (g_free 0 (g_main_loop_quit
              (directory_gone f 0 d (taken i st))))))
      with (dirs_accounted top (taken i st)).
    rewrite (dirs_accounted_taken top i _ st Hi). simpl. lia.
Qed.

Lemma contexts_count top path es cs :
  fs_wf top -> count_entries top < guint_max -> top = FsDir es ->
  let st := run top (main_start_path (Some path)) cs in
  Z.of_nat (brk st) <= count_dirs top /\
  (status st = Exited 0 -> Z.of_nat (brk st) = count_dirs top).
Proof.
  intros Hwf Hlt Htop st.
  assert (HP : dirs_accounted top st <= count_dirs top /\
               (status st <> Exited 1 -> dirs_accounted top st = count_dirs top)).
  { subst st.
    apply (run_invariant
             (fun s => dirs_accounted top s <= count_dirs top /\
                       (status s <> Exited 1 ->
                        dirs_accounted top s = count_dirs top))
             top path cs Hwf Hlt).
    - subst top. rewrite count_dirs_dir.
      assert (Hb : dirs_below (FsDir es) (g_file_new_for_path (Some path)) =
                   count_dirs_list es) by reflexivity.
      unfold dirs_accounted. simpl. rewrite Hb. lia.
    - intros s s' HI HJ _ [H1 H2] Htr.
      pose proof (inv_status _ _ _ _ _ HI) as Hrun.
      assert (H3 : dirs_accounted top s = count_dirs top).
      { apply H2. by rewrite Hrun. }
      destruct (dirs_accounted_step top _ s s' Hwf HI Htr) as [[Hx Hle]|Heq].
      + split; [lia|]. intros Hne. by destruct Hne.
      + split; [lia|]. intros _. lia. }
  destruct HP as [H1 H2].
  pose proof (osum_nonneg _ (inflight st) (op_dirs_nonneg top)) as Hnn.
  unfold dirs_accounted in *. split; [lia|].
  intros Hex.
  destruct (exit_zero_quiescent top path cs Hwf Hlt Hex) as [_ Hin].
  fold st in Hin. rewrite Hin in *. simpl in H2.
  rewrite <- H2; [lia|]. by rewrite Hex.
Qed.

(** X9: [rm_rf_async] runs once per directory: the contexts allocated never
    outnumber the directories of the tree, and when [main] returns 0 there
    has been exactly one for each directory, the root included. *)
Theorem one_context_per_directory top path es cs :
  fs_wf top -> count_entries top < guint_max -> top = FsDir es ->
  let st := run top (main_start_path (Some path)) cs in
  Z.of_nat (brk st) <= count_dirs top /\
  (status st = Exited 0 -> Z.of_nat (brk st) = count_dirs top).
Proof. intros Hwf Hlt Htop st. by eapply contexts_count. Qed.

Lemma one_context_per_directory_witness :
  fs_wf tree_nested /\ count_entries tree_nested < guint_max /\
  brk nested_done = 2%nat.
Proof.
  split; [exact tree_nested_wf|]. split; [reflexivity|].
  apply Nat2Z.inj.
  exact (proj2 (one_context_per_directory tree_nested "root" _ (oldest_first 13)
                  tree_nested_wf eq_refl eq_refl) eq_refl).
Defined.

(** ** The output of a run *)

Lemma transition_prints top total st st' :
  Inv top total 0 None st -> transition top st st' ->
  files_deleted st <= files_deleted st' /\
  forall n, EvPrint n ∈ trace st' ->
    EvPrint n ∈ trace st \/ n = files_deleted st \/ n = files_deleted st'.
Proof.
  intros HI Htr. split.
  { destruct (transition_files _ _ _ _ HI Htr) as [-> | ->]; lia. }
  pose proof (inv_is_fresh _ _ _ _ _ HI) as Hfr.
  assert (Hext : forall X, (forall n, EvPrint n ∈ trace X -> EvPrint n ∈ trace st) ->
            extends X st' ->
            forall n, EvPrint n ∈ trace st' ->
              EvPrint n ∈ trace st \/ n = files_deleted st \/ n = files_deleted st').
  { intros X HX [[ops [_ Ht]] _ _ _ _ _ _ _] n Hn. left. apply HX.
    rewrite Ht in Hn. apply elem_of_app in Hn as [Hn|Hn]; [|done].
    apply list_elem_of_fmap in Hn as (o & Ho & _). discriminate. }
  destruct Htr as [->|Ht ->|i o e Hi ->|i f a fl p cc c d es Hi Hd Hres ->
                  |i e n p cc c Hi ->|i f p cc c Hi Hroom ->
                  |i f p cc c d q Hi Hd Hcb Hroom ->|i f p cc d Hi Hd Hcb Hroom ->].
  - intros n Hn. by left.
  - unfold timeout_dispatch. rewrite Ht. simpl. intros n Hn.
    apply elem_of_cons in Hn as [[= ->]|Hn]; [right; by left|by left].
  - simpl. intros n Hn. apply elem_of_cons in Hn as [?|Hn]; [done|by left].
  - simpl. intros n Hn. apply elem_of_cons in Hn as [?|Hn]; [done|by left].
  - apply (Hext (taken i st)); [done|]. by apply on_next_files_extends.
  - apply (Hext (incr_files_deleted (emit (EvRemoved f) (taken i st)))).
    + simpl. intros n Hn. apply elem_of_cons in Hn as [?|Hn]; done.
    + apply on_file_deleted_extends.
  - pose proof (inv_static _ _ _ _ _ HI c d Hd) as (Hs1 & _).
    intros n Hn. simpl in Hn.
    pose proof (on_rm_rf_complete_extends (result d) q
                  (directory_gone f c d (taken i st)) Hs1) as [[ops [_ Ht]] _ _ _ _ _ _ _].
    rewrite Ht in Hn. apply elem_of_app in Hn as [Hn|Hn].
    + apply list_elem_of_fmap in Hn as (o & Ho & _). discriminate.
    + simpl in Hn. apply elem_of_cons in Hn as [?|Hn]; [done|].
      apply elem_of_cons in Hn as [?|Hn]; [done|by left].
  - simpl. intros n Hn.
    apply elem_of_cons in Hn as [[= ->]|Hn]; [right; by right|].
    apply elem_of_cons in Hn as [?|Hn]; [done|].
    apply elem_of_cons in Hn as [?|Hn]; [done|by left].
Qed.

Lemma trace_prints_count st :
  Z.of_nat (length (trace_prints st)) = count_events is_print (trace st).
Proof.
  unfold trace_prints.
  assert (H : forall t, Z.of_nat (length
                (omap (fun ev => match ev with EvPrint n => Some n | _ => None end) t))
              = count_events is_print t).
  { unfold omap. induction t as [|ev t IH]; [done|].
    rewrite count_events_cons. destruct ev; simpl in *; lia. }
  rewrite <- (H (trace st)).
  assert (Hp : rev (trace st) ≡ₚ trace st) by (symmetry; apply Permutation_rev).
  f_equal. apply Permutation_length.
  by apply omap_Permutation.
Qed.

(** X10: all a run ever prints on the output stream is the counter, at
    most twice, with values between 0 and the value the counter has
    reached; and what a run that returns 0 has printed is the total,
    preceded by the value the counter had when the timer fired, if it
    did. *)
Theorem output_of_a_run top path cs :
  fs_wf top -> count_entries top < guint_max ->
  let st := run top (main_start_path (Some path)) cs in
  (length (trace_prints st) <= 2)%nat /\
  (forall n, n ∈ trace_prints st -> 0 <= n <= files_deleted st) /\
  (status st = Exited 0 ->
   trace_prints st = [count_entries top] \/
   exists k, 0 <= k <= count_entries top /\
             trace_prints st = [k; count_entries top]).
Proof.
  intros Hwf Hlt st.
  pose proof (reachable top path cs Hwf Hlt) as HR. fold st in HR.
  pose proof (reach_facts _ _ _ HR) as [F1 F2 F3 F4 F5 F6].
  pose proof (trace_prints_count st) as Hcnt.
  assert (Hval : forall n, EvPrint n ∈ trace st -> 0 <= n <= files_deleted st).
  { subst st.
    apply (run_invariant
             (fun s => 0 <= files_deleted s /\
                       forall n, EvPrint n ∈ trace s -> 0 <= n <= files_deleted s)
             top path cs Hwf Hlt).
    - split; [done|]. intros n Hn. simpl in Hn.
      apply elem_of_cons in Hn as [?|Hn]; [done|by apply elem_of_nil in Hn].
    - intros s s' HI _ _ [H0 HP] Htr.
      destruct (transition_prints _ _ _ _ HI Htr) as [Hmono Hnew].
      split; [lia|]. intros n Hn.
      destruct (Hnew n Hn) as [Hold|[-> | ->]]; [|lia|lia].
      specialize (HP n Hold). lia. }
  assert (Hmem : forall n, n ∈ trace_prints st -> EvPrint n ∈ trace st).
  { intros n Hn. unfold trace_prints in Hn.
    apply list_elem_of_omap in Hn as (ev & Hev & Hn).
    destruct ev as [| | |m|]; try discriminate. injection Hn as ->.
    by rewrite elem_of_rev_list in Hev. }
  split; [lia|]. split; [by auto|].
  intros Hex. rewrite Hex in F6.
  destruct F6 as [(_ & _ & Htot & [t Ht] & _)|(? & _)]; [|lia].
  assert (Hlast : trace_prints st =
            omap (fun ev => match ev with EvPrint n => Some n | _ => None end) (rev t)
            ++ [count_entries top]).
  { unfold trace_prints. rewrite Ht. simpl. by rewrite omap_app. }
  destruct (omap _ (rev t)) as [|k [|k' l]] eqn:Hrest.
  - left. by rewrite Hlast.
  - right. exists k. split; [|by rewrite Hlast].
    rewrite <- Htot. apply Hval, Hmem. rewrite Hlast.
    apply elem_of_cons. by left.
  - rewrite Hlast in Hcnt. simpl in Hcnt. rewrite length_app in Hcnt.
    simpl in Hcnt. lia.
Qed.

Lemma output_of_a_run_witness :
  fs_wf tree_nested /\ count_entries tree_nested < guint_max /\
  (length (trace_prints (run tree_nested (main_start_path (Some "root"%string))
                           (oldest_first 4 ++ Tick :: oldest_first 9))) <= 2)%nat.
Proof.
  split; [exact tree_nested_wf|]. split; [reflexivity|].
  exact (proj1 (output_of_a_run tree_nested "root"
                  (oldest_first 4 ++ Tick :: oldest_first 9)
                  tree_nested_wf eq_refl)).
Defined.

Example output_with_a_tick :
  trace_prints (run tree_nested (main_start_path (Some "root"%string))
                  (oldest_first 4 ++ Tick :: oldest_first 9)) = [1; 5].
Proof. vm_compute. reflexivity. Qed.

(** ** The further properties at work on sample trees *)

Lemma callbacks_find_their_context_witness :
  fs_wf tree_nested /\ count_entries tree_nested < guint_max /\
  status nested_dispatched <> Fault /\
  forall o, o ∈ inflight nested_dispatched ->
            is_Some (heap nested_dispatched !! op_data o).
Proof.
  split; [exact tree_nested_wf|]. split; [reflexivity|].
  split.
  - exact (proj1 (callbacks_find_their_context tree_nested "root"
                    (oldest_first 2) tree_nested_wf eq_refl)).
  - exact (proj1 (proj2 (callbacks_find_their_context tree_nested "root"
                           (oldest_first 2) tree_nested_wf eq_refl)
                    eq_refl)).
Defined.

Lemma exit_zero_all_freed_witness :
  fs_wf tree_nested /\ count_entries tree_nested < guint_max /\
  status nested_done = Exited 0 /\
  heap nested_done = ∅ /\ inflight nested_done = [].
Proof.
  split; [exact tree_nested_wf|]. split; [reflexivity|].
  split; [reflexivity|].
  exact (exit_zero_all_freed tree_nested "root" (oldest_first 13)
           tree_nested_wf eq_refl eq_refl).
Defined.

Lemma deletes_stay_in_tree_witness :
  fs_wf tree_with_link /\ count_entries tree_with_link < guint_max /\
  forall f, EvRemoved f ∈ trace (run tree_with_link
                                  (main_start_path (Some "root"%string))
                                  (oldest_first 4)) ->
            is_Some (resolve tree_with_link f).
Proof.
  split; [exact tree_with_link_wf|]. split; [reflexivity|].
  exact (proj2 (proj2 (deletes_stay_in_tree tree_with_link "root" _
                         (oldest_first 4) tree_with_link_wf eq_refl eq_refl))).
Defined.

Lemma context_phases_witness :
  fs_wf tree_nested /\ count_entries tree_nested < guint_max /\
  status nested_dispatched = Running /\
  exists d, heap nested_dispatched !! 1%nat = Some d /\
    ((listing_in_flight nested_dispatched 1 = 1 /\
      end_in_flight nested_dispatched 1 = 0) \/
     (listing_in_flight nested_dispatched 1 = 0 /\
      end_in_flight nested_dispatched 1 = 0 /\
      1 <= num_files_pending d /\ have_more_files d = false) \/
     (listing_in_flight nested_dispatched 1 = 0 /\
      end_in_flight nested_dispatched 1 = 1 /\
      num_files_pending d = 0 /\ have_more_files d = false)).
Proof.
  split; [exact tree_nested_wf|]. split; [reflexivity|].
  split; [reflexivity|].
  eexists. split; [reflexivity|].
  exact (context_phases tree_nested "root" (oldest_first 2)
           tree_nested_wf eq_refl eq_refl 1%nat _ eq_refl).
Defined.

(** * The gjs script simulates the C program *)

(** ** The shape of the state *)

Lemma shape_issue js c o : Shape js c -> Shape (js_issue o js) (issue o c).
Proof.
  intros (H1 & H2 & H3). split; [done|]. split; [|done].
  simpl. rewrite H2, <- !app_assoc. apply Permutation_app_head.
  apply Permutation_app_comm.
Qed.

Lemma shape_taken js c i j o :
  Shape js c -> inflight c !! i = Some o -> js_inflight js !! j = Some o ->
  Shape (js_set_inflight (delete j (js_inflight js)) js) (taken i c).
Proof.
  intros (H1 & H2 & H3) Hi Hj. split; [done|]. split; [|done].
  simpl. apply (Permutation_cons_inv (a := o)).
  rewrite <- (delete_Permutation _ _ _ Hi), H2.
  rewrite (delete_Permutation _ _ _ Hj) at 1. done.
Qed.

Lemma shape_g_free js c k : Shape js c -> Shape js (g_free k c).
Proof.
  intros (H1 & H2 & H3). split; [done|]. split; [done|].
  intros k' d Hd. simpl in Hd. apply lookup_delete_Some in Hd as [_ Hd]. auto.
Qed.

(** The same field update on both sides. *)
Lemma shape_update js c k d d' f :
  Shape js c -> heap c !! k = Some d ->
  priority d' = priority d -> cancellable d' = cancellable d ->
  js_context_of d' = f (js_context_of d) ->
  Shape (js_update k f js) (set_heap (<[k := d']> (heap c)) c).
Proof.
  intros (H1 & H2 & H3) Hd Hp Hc Hf.
  destruct (H3 k d Hd) as (Hjs & Hp0 & Hc0).
  unfold js_update. rewrite Hjs.
  split; [done|]. split; [done|].
  intros k' d1 Hd1. simpl in *.
  apply lookup_insert_Some in Hd1 as [[<- <-]|[Hne Hd1]].
  - rewrite lookup_insert_eq, Hf. split; [done|]. split; congruence.
  - rewrite lookup_insert_ne by done. auto.
Qed.

(** Integers up to 2^53 in absolute value are doubles: on them [++] and
    [--] are exact. *)
Lemma js_number_exact z : - js_max_safe <= z <= js_max_safe -> js_number z = z.
Proof.
  unfold js_max_safe. intros H.
  assert (Hq : 2 ^ Z.max 0 (Z.log2 (Z.abs z) - 52) = 1 \/
               (2 ^ Z.max 0 (Z.log2 (Z.abs z) - 52) = 2 /\ Z.abs z = 2 ^ 53)).
  { destruct (decide (Z.abs z = 2 ^ 53)) as [Heq|Hne].
    - right. split; [|done]. rewrite Heq, Z.log2_pow2 by lia. reflexivity.
    - left. destruct (decide (Z.abs z = 0)) as [H0|H0].
      + rewrite H0. reflexivity.
      + assert (Z.log2 (Z.abs z) < 53) by (apply Z.log2_lt_pow2; lia).
        rewrite Z.max_l by lia. reflexivity. }
  unfold js_number.
  destruct Hq as [->|[-> Habs]].
  - rewrite Z.mod_1_r. rewrite decide_True by lia. lia.
  - assert (Hz : z mod 2 = 0).
    { assert (z = 2 ^ 53 \/ z = - 2 ^ 53) as [->| ->] by lia; reflexivity. }
    rewrite Hz. rewrite decide_True by lia. lia.
Qed.

Lemma js_decr_exact z : 1 <= z < guint_max -> js_decr z = guint_wrap (z - 1).
Proof.
  intros H. unfold js_decr.
  rewrite guint_wrap_small by (unfold guint_max in *; lia).
  apply js_number_exact. unfold js_max_safe, guint_max in *. lia.
Qed.

Lemma js_incr_exact z : 0 <= z -> z + 1 < guint_max -> js_incr z = guint_wrap (z + 1).
Proof.
  intros H0 H. unfold js_incr.
  rewrite guint_wrap_small by (unfold guint_max in *; lia).
  apply js_number_exact. unfold js_max_safe, guint_max in *. lia.
Qed.

(** Beyond 2^53 they are not: the count stays where it is, or moves by
    two. *)
Example js_incr_rounds :
  js_incr (2 ^ 53) = 2 ^ 53 /\ js_incr (2 ^ 53 + 2) = 2 ^ 53 + 4 /\
  js_decr (- 2 ^ 53) = - 2 ^ 53 /\ js_incr (- 2 ^ 53) = - 2 ^ 53 + 1.
Proof. by vm_compute. Qed.

Lemma shape_decr_pending js c k d :
  Shape js c -> heap c !! k = Some d -> 1 <= num_files_pending d < guint_max ->
  Shape (js_update k (fun d => js_set_numFilesPending (js_decr (numFilesPending d)) d) js)
        (decr_pending k c).
Proof.
  intros HS Hd Hn. unfold decr_pending. rewrite Hd.
  eapply shape_update; try done.
  unfold js_context_of, js_set_numFilesPending. simpl.
  by rewrite js_decr_exact.
Qed.

Lemma shape_incr_pending js c k d :
  Shape js c -> heap c !! k = Some d ->
  0 <= num_files_pending d -> num_files_pending d + 1 < guint_max ->
  Shape (js_update k (fun d => js_set_numFilesPending (js_incr (numFilesPending d)) d) js)
        (incr_pending k c).
Proof.
  intros HS Hd Hn0 Hn. unfold incr_pending. rewrite Hd.
  eapply shape_update; try done.
  unfold js_context_of, js_set_numFilesPending. simpl.
  by rewrite js_incr_exact.
Qed.

Lemma shape_set_have_more_files js c k b :
  Shape js c -> is_Some (heap c !! k) ->
  Shape (js_update k (js_set_haveMoreFiles b) js) (set_have_more_files k b c).
Proof.
  intros HS [d Hd]. unfold set_have_more_files. rewrite Hd.
  by eapply shape_update.
Qed.

Lemma shape_check_no_children js c k :
  Shape js c -> is_Some (heap c !! k) ->
  Shape (checkNoChildren k js) (check_no_children k c).
Proof.
  intros HS [d Hd]. pose proof HS as (H1 & H2 & H3).
  destruct (H3 k d Hd) as (Hjs & Hp & Hc).
  unfold checkNoChildren, check_no_children. rewrite Hd, Hjs. simpl.
  destruct (_ && _); [|done].
  unfold g_file_delete_async. rewrite Hp, Hc. by apply shape_issue.
Qed.

Lemma shape_rm_rf_async js c f cb :
  Shape js c -> fresh c -> g_file_base f <> None ->
  Shape (rmRfAsync f (js_callback_of cb) js) (rm_rf_async f 0 None cb c).
Proof.
  intros (H1 & H2 & H3) Hfr Hb.
  unfold rmRfAsync, rm_rf_async, g_file_enumerate_children_async. cbn [file].
  destruct (g_file_base f) eqn:Hbase; [|done].
  rewrite H1. apply shape_issue.
  split; [done|]. split; [done|]. simpl.
  intros k d Hd. apply lookup_insert_Some in Hd as [[<- <-]|[Hne Hd]].
  - by rewrite lookup_insert_eq.
  - rewrite lookup_insert_ne by done. auto.
Qed.

Lemma dispatch_entry_context parent c st info d :
  heap st !! c = Some d -> fresh st -> g_file_base parent <> None ->
  heap (dispatch_entry parent c st info) !! c =
  Some (mkCtx (priority d) (cancellable d) (guint_wrap (num_files_pending d + 1))
          (have_more_files d) (file d) (result d)).
Proof.
  intros Hd Hf Hbase.
  assert (Hlt : (c < brk st)%nat).
  { destruct (decide (c < brk st)%nat); [done|]. rewrite Hf in Hd by lia. done. }
  unfold dispatch_entry, incr_pending. rewrite Hd. st_simpl.
  rewrite lookup_insert_eq. cbn [priority cancellable].
  case_decide.
  - unfold rm_rf_async, g_file_enumerate_children_async. cbn [file].
    destruct (g_file_base (g_file_get_child parent _)) eqn:Hb;
      [|by destruct parent as [[?|] ?]].
    st_simpl. rewrite lookup_insert_ne by lia. by rewrite lookup_insert_eq.
  - st_simpl. by rewrite lookup_insert_eq.
Qed.

Lemma shape_dispatch_entry js c parent k d info :
  Shape js c -> heap c !! k = Some d -> fresh c -> g_file_base parent <> None ->
  0 <= num_files_pending d -> num_files_pending d + 1 < guint_max ->
  Shape (js_dispatch_entry parent k js info) (dispatch_entry parent k c info).
Proof.
  intros HS Hd Hf Hbase Hn0 Hn.
  pose proof (shape_incr_pending js c k d HS Hd Hn0 Hn) as HS1.
  pose proof HS as (_ & _ & H3). destruct (H3 k d Hd) as (_ & Hp & Hc).
  unfold js_dispatch_entry, dispatch_entry.
  assert (Hd1 : exists d1, heap (incr_pending k c) !! k = Some d1 /\
                  priority d1 = 0 /\ cancellable d1 = None).
  { unfold incr_pending. rewrite Hd. simpl. rewrite lookup_insert_eq.
    eexists. split; [done|]. done. }
  destruct Hd1 as (d1 & Hd1 & Hp1 & Hc1). rewrite Hd1, Hp1, Hc1.
  case_decide.
  - apply (shape_rm_rf_async _ _ _ (CbOnRmRfComplete k)); [done| |].
    + by apply fresh_incr_pending.
    + by destruct parent as [[?|] ?].
  - unfold g_file_delete_async. by apply shape_issue.
Qed.

Lemma shape_dispatch_loop parent k files : forall js c d,
  Shape js c -> heap c !! k = Some d -> fresh c -> g_file_base parent <> None ->
  0 <= num_files_pending d ->
  num_files_pending d + Z.of_nat (length files) < guint_max ->
  Shape (fold_left (js_dispatch_entry parent k) files js)
        (fold_left (dispatch_entry parent k) files c).
Proof.
  induction files as [|info files IH]; intros js c d HS Hd Hf Hbase Hn0 Hn; [done|].
  cbn [fold_left]. cbn [length] in Hn.
  eapply (IH _ _ _ (shape_dispatch_entry js c parent k d info HS Hd Hf Hbase Hn0
                      ltac:(lia))).
  - by apply dispatch_entry_context.
  - by apply dispatch_entry_extends.
  - done.
  - simpl. rewrite guint_wrap_small; lia.
  - simpl. rewrite guint_wrap_small; lia.
Qed.

(** ** What the context operations leave alone *)

Lemma js_counters_issue o js : js_counters (js_issue o js) = js_counters js.
Proof. done. Qed.

Lemma js_counters_update k f js : js_counters (js_update k f js) = js_counters js.
Proof. unfold js_update. by destruct (js_heap js !! k). Qed.

Lemma js_counters_checkNoChildren k js :
  js_counters (checkNoChildren k js) = js_counters js.
Proof.
  unfold checkNoChildren. destruct (js_heap js !! k); [|done].
  by destruct (_ && _).
Qed.

Lemma js_counters_dispatch_entry parent k js info :
  js_counters (js_dispatch_entry parent k js info) = js_counters js.
Proof.
  unfold js_dispatch_entry. case_decide.
  - unfold rmRfAsync. rewrite js_counters_issue.
    change (js_counters (mkJs ?h ?n (js_inflight ?s) (numFilesDeleted ?s)
                           (numDirsDeleted ?s) (js_loop_running ?s) (js_log ?s)))
      with (js_counters s).
    apply js_counters_update.
  - rewrite js_counters_issue. apply js_counters_update.
Qed.

Lemma js_counters_dispatch_loop parent k files : forall js,
  js_counters (fold_left (js_dispatch_entry parent k) files js) = js_counters js.
Proof.
  induction files as [|info files IH]; intros js; [done|].
  cbn [fold_left]. by rewrite IH, js_counters_dispatch_entry.
Qed.

Lemma js_counters_onNextFiles e n k js :
  js_counters (onNextFiles e n k js) = js_counters js.
Proof.
  unfold onNextFiles, g_file_enumerator_next_files_finish.
  rewrite js_counters_dispatch_loop.
  destruct (take n (enum_rest e)).
  - by rewrite js_counters_checkNoChildren, js_counters_update.
  - by rewrite js_counters_issue, js_counters_update.
Qed.

(** ** Contexts freed by the C program *)

Lemma freed_update c k d d' :
  heap c !! k = Some d -> freed (set_heap (<[k := d']> (heap c)) c) = freed c.
Proof.
  intros Hd. unfold freed. simpl.
  by rewrite (hsum_update_same _ _ _ d d' _ Hd).
Qed.

Lemma freed_decr_pending k c : freed (decr_pending k c) = freed c.
Proof.
  unfold decr_pending. destruct (heap c !! k) as [d|] eqn:Hd; [|done].
  by eapply freed_update.
Qed.

Lemma freed_set_have_more_files k b c : freed (set_have_more_files k b c) = freed c.
Proof.
  unfold set_have_more_files. destruct (heap c !! k) as [d|] eqn:Hd; [|done].
  by eapply freed_update.
Qed.

Lemma freed_check_no_children k c : freed (check_no_children k c) = freed c.
Proof.
  unfold check_no_children. destruct (heap c !! k) as [d|]; [|done].
  by destruct (_ && _).
Qed.

Lemma freed_dispatch_entry parent k c info :
  is_Some (heap c !! k) -> fresh c -> g_file_base parent <> None ->
  freed (dispatch_entry parent k c info) = freed c.
Proof.
  intros [d Hd] Hf Hbase.
  assert (Hlt : (k < brk c)%nat).
  { destruct (decide (k < brk c)%nat); [done|]. rewrite Hf in Hd by lia. done. }
  unfold dispatch_entry, incr_pending. rewrite Hd. st_simpl.
  rewrite lookup_insert_eq. cbn [priority cancellable].
  case_decide.
  - unfold rm_rf_async, g_file_enumerate_children_async. cbn [file].
    destruct (g_file_base (g_file_get_child parent _)) eqn:Hb;
      [|by destruct parent as [[?|] ?]].
    unfold freed. st_simpl. rewrite hsum_S.
    rewrite lookup_insert_eq. rewrite hsum_insert_ge by lia.
    rewrite (hsum_update_same _ _ _ d _ _ Hd) by done.
    simpl. lia.
  - unfold g_file_delete_async. unfold freed. st_simpl.
    by rewrite (hsum_update_same _ _ _ d _ _ Hd).
Qed.

Lemma freed_dispatch_loop parent k files : forall c,
  is_Some (heap c !! k) -> fresh c -> g_file_base parent <> None ->
  freed (fold_left (dispatch_entry parent k) files c) = freed c.
Proof.
  induction files as [|info files IH]; intros c Hd Hf Hbase; [done|].
  cbn [fold_left].
  destruct (dispatch_entry_extends parent k c info Hf) as [He Hf1].
  destruct Hd as [d Hd].
  destruct (ext_heap _ _ He k d Hd) as (d' & Hd' & _).
  rewrite IH by done. by apply freed_dispatch_entry.
Qed.

Lemma freed_nonneg c : 0 <= freed c.
Proof.
  unfold freed.
  assert (H : forall (h : gmap nat AsyncRmContext) n, hsum (fun _ => 1) h n <= Z.of_nat n).
  { intros h n. induction n as [|n IH]; [done|].
    rewrite hsum_S. destruct (h !! n); simpl; lia. }
  specialize (H (heap c) (brk c)). lia.
Qed.

(** ** The pending counters stay in range *)

Lemma pending_is_children top total st c d :
  Inv top total 0 None st -> heap st !! c = Some d ->
  num_files_pending d = children_in_flight st c.
Proof.
  intros HI Hd. pose proof (inv_num _ _ _ _ _ HI c d Hd) as Hn.
  cbn [owed_at] in Hn. destruct Hn as (H1 & _). simpl in H1. lia.
Qed.

Lemma pending_range top total st c d :
  Inv top total 0 None st -> heap st !! c = Some d ->
  0 <= num_files_pending d < guint_max.
Proof.
  intros HI Hd. rewrite (pending_is_children _ _ _ _ _ HI Hd).
  pose proof (counts_nonneg st c) as (H0 & _).
  pose proof (children_le_remaining top st c).
  pose proof (inv_pot _ _ _ _ _ HI). pose proof (inv_files _ _ _ _ _ HI).
  pose proof (inv_total _ _ _ _ _ HI). lia.
Qed.

Lemma leaf_pending_pos top total st i f p cc c d :
  Inv top total 0 None st ->
  inflight st !! i = Some (OpDelete f p cc CbOnFileDeleted c) ->
  heap st !! c = Some d -> 1 <= num_files_pending d.
Proof.
  intros HI Hi Hd. rewrite (pending_is_children _ _ _ _ _ HI Hd).
  pose proof (osum_elem _ _ _ (leaf_op_of_nonneg c)
                (list_elem_of_lookup_2 _ _ _ Hi)) as He.
  simpl in He. rewrite bool_decide_eq_true_2 in He by done. simpl in He.
  pose proof (hsum_nonneg _ (heap st) (brk st) (child_ctx_of_nonneg c)).
  unfold children_in_flight. lia.
Qed.

Lemma child_pending_pos top total st c d q dq :
  Inv top total 0 None st -> heap st !! c = Some d ->
  res_callback (result d) = CbOnRmRfComplete q ->
  heap st !! q = Some dq -> 1 <= num_files_pending dq.
Proof.
  intros HI Hd Hcb Hdq. rewrite (pending_is_children _ _ _ _ _ HI Hdq).
  pose proof (inv_live_lt _ _ _ _ _ _ _ HI Hd) as Hlt'.
  pose proof (hsum_elem _ _ _ _ _ (child_ctx_of_nonneg q) Hlt' Hd) as He.
  unfold child_ctx_of in He at 1. rewrite Hcb in He.
  rewrite bool_decide_eq_true_2 in He by done. simpl in He.
  pose proof (osum_nonneg _ (inflight st) (leaf_op_of_nonneg q)).
  unfold children_in_flight. lia.
Qed.

(** The entries of a batch still to come are room the counter has. *)
Lemma batch_pending_room top total st i e n p cc c d :
  Inv top total 0 None st ->
  inflight st !! i = Some (OpNextFiles e n p cc c) ->
  heap st !! c = Some d ->
  num_files_pending d + Z.of_nat (length (take n (enum_rest e))) < guint_max.
Proof.
  intros HI Hi Hd. rewrite (pending_is_children _ _ _ _ _ HI Hd).
  pose proof (inv_pot _ _ _ _ _ HI) as Hpot.
  pose proof (inv_files _ _ _ _ _ HI) as Hf.
  pose proof (inv_total _ _ _ _ _ HI) as Htot.
  unfold children_in_flight, remaining in *.
  pose proof (osum_delete (leaf_op_of c) _ _ _ Hi) as Hd1.
  pose proof (osum_delete (op_weight top) _ _ _ Hi) as Hd2.
  pose proof (osum_le (leaf_op_of c) (op_weight top) (delete i (inflight st))
                (leaf_op_of_le_weight top c)) as Hle.
  pose proof (hsum_le (child_ctx_of c) (fun _ => 1) (heap st) (brk st)
                (child_ctx_of_le1 c)) as Hle'.
  cbn [leaf_op_of op_weight] in *.
  pose proof (infos_weight_length top (g_file_enumerator_get_container e)
                (enum_rest e)) as Hlen.
  pose proof (length_take_le (enum_rest e) n) as Hk.
  assert (Htk : (length (take n (enum_rest e)) <= length (enum_rest e))%nat).
  { rewrite length_take. lia. }
  cbn beta in *. lia.
Qed.

(** ** One delivery on both sides *)

Lemma step_of_deliver top c i o :
  status c = Running -> inflight c !! i = Some o ->
  status (deliver top o None (taken i c)) = Running ->
  step top c (Complete i None) =
  if loop_running (deliver top o None (taken i c))
  then deliver top o None (taken i c)
  else main_finish (deliver top o None (taken i c)).
Proof.
  intros Hr Hi Hs. unfold step. rewrite Hr. simpl. rewrite Hi.
  fold (taken i c). by rewrite Hs.
Qed.

Lemma js_step_of_deliver top js j o :
  js_loop_running js = true -> js_inflight js !! j = Some o ->
  js_step top js (Complete j None) =
  js_deliver top o None (js_set_inflight (delete j (js_inflight js)) js).
Proof. intros Hr Hj. unfold js_step. by rewrite Hr, Hj. Qed.

Lemma freed_g_free c k d :
  heap c !! k = Some d -> (k < brk c)%nat -> freed (g_free k c) = freed c + 1.
Proof.
  intros Hd Hlt. unfold freed. simpl.
  rewrite hsum_delete by done. rewrite Hd. simpl. lia.
Qed.

(** The listing has been opened. *)
Lemma sim_enumerate top total es0 js0 c i f a fl p cc k :
  top = FsDir es0 -> Inv top total 0 None c -> K top c ->
  inflight c !! i = Some (OpEnumerateChildren f a fl p cc k) ->
  Shape js0 (taken i c) ->
  exists L,
    step top c (Complete i None) =
      issue (OpNextFiles (mkEnum f L) 20 0 None k) (taken i c) /\
    js_deliver top (OpEnumerateChildren f a fl p cc k) None js0 =
      js_issue (OpNextFiles (mkEnum f L) 20 0 None k) js0.
Proof.
  intros Htop HI [HK _] Hi HS0.
  destruct (inv_op_live _ _ _ _ _ _ _ HI Hi) as (d & Hd & Hok).
  pose proof (inv_static _ _ _ _ _ HI _ d Hd) as (Hs1 & Hs2 & Hs3 & Hs4).
  rewrite Forall_lookup in HK. specialize (HK i _ Hi).
  cbn [op_data op_fs_ok] in *.
  destruct Hok as [-> ->]. destruct HK as [_ Hdir].
  assert (Hres : exists es, resolve top (file d) = Some (FsDir es)).
  { destruct Hdir as [Hrel|Hdir]; [|done]. exists es0.
    unfold resolve. destruct (g_file_base (file d)); [|done].
    rewrite Hrel. by subst top. }
  destruct Hres as [es Hres].
  destruct HS0 as (_ & _ & H3). destruct (H3 k d Hd) as (_ & Hp & Hc).
  exists (list_directory top G_FILE_QUERY_INFO_NOFOLLOW_SYMLINKS es).
  assert (Hdel : deliver top (OpEnumerateChildren (file d) a
                   G_FILE_QUERY_INFO_NOFOLLOW_SYMLINKS p cc k) None (taken i c) =
                 issue (OpNextFiles (mkEnum (file d)
                          (list_directory top G_FILE_QUERY_INFO_NOFOLLOW_SYMLINKS es))
                          20 0 None k) (taken i c)).
  { cbn [deliver]. unfold on_enumerate_children, g_file_enumerate_children_finish.
    rewrite Hres. change (heap (taken i c)) with (heap c). rewrite Hd.
    unfold g_file_enumerator_next_files_async. by rewrite Hp, Hc. }
  split.
  - rewrite (step_of_deliver top c i _ (inv_status _ _ _ _ _ HI) Hi);
      rewrite Hdel; simpl.
    + by rewrite (inv_loop _ _ _ _ _ HI).
    + exact (inv_status _ _ _ _ _ HI).
  - cbn [js_deliver]. unfold onEnumerateChildren,
      g_file_enumerate_children_finish. by rewrite Hres.
Qed.

(** A batch has arrived. *)
Lemma sim_next_files top total js0 c i e n p cc k :
  Inv top total 0 None c ->
  inflight c !! i = Some (OpNextFiles e n p cc k) ->
  Shape js0 (taken i c) ->
  let c1 := on_next_files e n None k (taken i c) in
  step top c (Complete i None) = c1 /\
  Shape (onNextFiles e n k js0) c1 /\
  status c1 = Running /\ files_deleted c1 = files_deleted c /\ freed c1 = freed c.
Proof.
  intros HI Hi HS0 c1.
  pose proof (on_next_files_inv _ _ _ _ _ _ _ _ _ HI Hi) as HI'.
  fold (taken i c) in HI'. fold c1 in HI'.
  pose proof (inv_is_fresh _ _ _ _ _ HI) as Hfr.
  destruct (inv_op_live _ _ _ _ _ _ _ HI Hi) as (d & Hd & Hn0 & Hcont).
  simpl in Hd.
  pose proof (inv_base _ _ _ _ _ _ _ HI Hd) as Hbase.
  pose proof (pending_range _ _ _ _ _ HI Hd) as Hrange.
  pose proof (batch_pending_room _ _ _ _ _ _ _ _ _ _ HI Hi Hd) as Hroom.
  assert (Hdt : heap (taken i c) !! k = Some d) by done.
  assert (Hft : fresh (taken i c)) by done.
  split; [|split; [|split; [exact (inv_status _ _ _ _ _ HI')|split]]].
  - rewrite (step_of_deliver top c i _ (inv_status _ _ _ _ _ HI) Hi);
      cbn [deliver]; fold c1.
    + by rewrite (inv_loop _ _ _ _ _ HI').
    + exact (inv_status _ _ _ _ _ HI').
  - subst c1. unfold onNextFiles, on_next_files,
      g_file_enumerator_next_files_finish.
    cbn [g_file_enumerator_get_container].
    destruct (take n (enum_rest e)) as [|x l] eqn:Htake.
    + cbn [fold_left on_next_files_head].
      apply shape_check_no_children.
      * apply shape_set_have_more_files; [done|by eexists].
      * unfold set_have_more_files. rewrite Hdt. simpl.
        rewrite lookup_insert_eq. by eexists.
    + destruct (on_next_files_head_nonempty (x :: l)
                  (mkEnum (g_file_enumerator_get_container e) (drop n (enum_rest e)))
                  k (taken i c) d Hdt Hft ltac:(done)) as (Hh & _ & _ & Hfh).
      eapply shape_dispatch_loop; try exact Hh; try done.
      * cbn [on_next_files_head].
        unfold g_file_enumerator_next_files_async.
        apply shape_issue. apply shape_set_have_more_files; [done|by eexists].
      * by rewrite Hcont.
      * simpl. lia.
  - exact (ext_files _ _ (on_next_files_extends e n k (taken i c) Hft)).
  - subst c1. unfold on_next_files, g_file_enumerator_next_files_finish.
    cbn [g_file_enumerator_get_container].
    destruct (take n (enum_rest e)) as [|x l] eqn:Htake.
    + cbn [fold_left on_next_files_head].
      by rewrite freed_check_no_children, freed_set_have_more_files.
    + destruct (on_next_files_head_nonempty (x :: l)
                  (mkEnum (g_file_enumerator_get_container e) (drop n (enum_rest e)))
                  k (taken i c) d Hdt Hft ltac:(done)) as (Hh & _ & _ & Hfh).
      rewrite freed_dispatch_loop; [|by eexists|done|by rewrite Hcont].
      cbn [on_next_files_head].
      unfold g_file_enumerator_next_files_async.
      change (freed (issue ?o ?s)) with (freed s).
      by rewrite freed_set_have_more_files.
Qed.

(** A leaf has been deleted. *)
Lemma sim_leaf top total js0 c i f p cc k :
  Inv top total 0 None c ->
  inflight c !! i = Some (OpDelete f p cc CbOnFileDeleted k) ->
  Shape js0 (taken i c) ->
  let c1 := on_file_deleted f None k (taken i c) in
  step top c (Complete i None) = c1 /\
  Shape (onFileDeleted k js0) c1 /\
  status c1 = Running /\ files_deleted c1 = files_deleted c + 1 /\
  freed c1 = freed c.
Proof.
  intros HI Hi HS0 c1.
  pose proof (on_file_deleted_inv _ _ _ _ _ _ _ _ HI Hi) as HI'.
  fold (taken i c) in HI'. fold c1 in HI'.
  destruct (inv_op_live _ _ _ _ _ _ _ HI Hi) as (d & Hd & _). simpl in Hd.
  pose proof (pending_range _ _ _ _ _ HI Hd) as Hrange.
  pose proof (leaf_pending_pos _ _ _ _ _ _ _ _ _ HI Hi Hd) as Hpos.
  pose proof (files_deleted_room _ _ _ HI (remaining_live _ _ _ _ _ HI Hd)) as Hroom.
  pose proof (inv_files _ _ _ _ _ HI) as Hf0.
  split; [|split; [|split; [exact (inv_status _ _ _ _ _ HI')|split]]].
  - rewrite (step_of_deliver top c i _ (inv_status _ _ _ _ _ HI) Hi);
      cbn [deliver]; fold c1.
    + by rewrite (inv_loop _ _ _ _ _ HI').
    + exact (inv_status _ _ _ _ _ HI').
  - subst c1. unfold onFileDeleted, on_file_deleted.
    set (X := incr_files_deleted (emit (EvRemoved f) (taken i c))).
    assert (HSX : Shape (js_incr_numFilesDeleted js0) X) by exact HS0.
    apply shape_check_no_children.
    + eapply shape_decr_pending; [exact HSX|exact Hd|lia].
    + unfold decr_pending. subst X. simpl. rewrite Hd. simpl.
      rewrite lookup_insert_eq. by eexists.
  - subst c1. rewrite (ext_files _ _ (on_file_deleted_extends f k (taken i c))).
    simpl. apply guint_wrap_small. lia.
  - subst c1. unfold on_file_deleted.
    by rewrite freed_check_no_children, freed_decr_pending.
Qed.

(** A child directory has been deleted. *)
Lemma sim_end_child top total js0 c i f p cc k d q :
  Inv top total 0 None c ->
  inflight c !! i = Some (OpDelete f p cc CbOnEndDirectoryDeleted k) ->
  heap c !! k = Some d -> res_callback (result d) = CbOnRmRfComplete q ->
  Shape js0 (taken i c) ->
  let c1 := g_free k (on_rm_rf_complete (result d) q
                        (directory_gone f k d (taken i c))) in
  step top c (Complete i None) = c1 /\
  Shape (onEndDirectoryDeleted k js0) c1 /\
  js_counters (onEndDirectoryDeleted k js0) =
    (numFilesDeleted js0, js_incr (numDirsDeleted js0),
     js_loop_running js0, js_log js0) /\
  status c1 = Running /\ files_deleted c1 = files_deleted c + 1 /\
  freed c1 = freed c + 1.
Proof.
  intros HI Hi Hd Hcb HS0 c1.
  pose proof (on_end_directory_deleted_child_inv _ _ _ _ _ _ _ _ _ _
                HI Hi Hd Hcb) as HI'.
  fold (taken i c) in HI'.
  pose proof (inv_static _ _ _ _ _ HI k d Hd) as (Hs1 & Hs2 & Hs3 & Hs4).
  rewrite Hcb in Hs4. destruct Hs4 as [Hqk [dq Hdq]].
  pose proof (inv_live_lt _ _ _ _ _ _ _ HI Hd) as Hlt.
  pose proof (pending_range _ _ _ _ _ HI Hdq) as Hrange.
  pose proof (child_pending_pos _ _ _ _ _ _ _ HI Hd Hcb Hdq) as Hpos.
  pose proof (files_deleted_room _ _ _ HI (remaining_live _ _ _ _ _ HI Hd)) as Hroom.
  pose proof (inv_files _ _ _ _ _ HI) as Hf0.
  assert (Heq : on_end_directory_deleted f None k (taken i c) = c1).
  { subst c1. pose proof (inv_status _ _ _ _ _ HI') as Hst. revert Hst.
    unfold on_end_directory_deleted, directory_gone.
    cbn [heap emit incr_files_deleted]. change (heap (taken i c)) with (heap c).
    rewrite Hd. unfold g_simple_async_result_complete. rewrite Hcb.
    match goal with
    | |- status (match status ?S with _ => _ end) = _ -> _ =>
        destruct (status S) eqn:HsY
    end; [done| |]; intros Hst; rewrite HsY in Hst; discriminate. }
  rewrite Heq in HI'.
  set (X := directory_gone f k d (taken i c)) in *.
  set (Y := on_rm_rf_complete (result d) q X) in *.
  assert (HY : Y = check_no_children q (decr_pending q X)).
  { subst Y. unfold on_rm_rf_complete, rm_rf_finish. by rewrite Hs1. }
  pose proof (on_rm_rf_complete_extends (result d) q X Hs1) as He. fold Y in He.
  destruct (ext_heap _ _ He k d Hd) as (d' & Hd' & _).
  pose proof HS0 as (_ & _ & H3). destruct (H3 k d Hd) as (Hjs & _).
  split; [|split; [|split; [|split; [exact (inv_status _ _ _ _ _ HI')|split]]]].
  - rewrite (step_of_deliver top c i _ (inv_status _ _ _ _ _ HI) Hi);
      cbn [deliver]; rewrite Heq.
    + by rewrite (inv_loop _ _ _ _ _ HI').
    + exact (inv_status _ _ _ _ _ HI').
  - subst c1. apply shape_g_free. rewrite HY.
    unfold onEndDirectoryDeleted. rewrite Hjs. simpl. rewrite Hcb. simpl.
    unfold onRmRfComplete.
    assert (HSX : Shape (js_incr_numDirsDeleted js0) X) by exact HS0.
    apply shape_check_no_children.
    + eapply shape_decr_pending; [exact HSX|exact Hdq|lia].
    + unfold decr_pending. subst X. simpl. rewrite Hdq. simpl.
      rewrite lookup_insert_eq. by eexists.
  - unfold onEndDirectoryDeleted. rewrite Hjs. simpl. rewrite Hcb. simpl.
    unfold onRmRfComplete.
    by rewrite js_counters_checkNoChildren, js_counters_update.
  - subst c1. change (files_deleted (g_free k Y)) with (files_deleted Y).
    rewrite (ext_files _ _ He). subst X. simpl. apply guint_wrap_small. lia.
  - subst c1. rewrite (freed_g_free Y k d' Hd').
    + rewrite HY. by rewrite freed_check_no_children, freed_decr_pending.
    + subst Y. by rewrite on_rm_rf_complete_brk.
Qed.

(** The root directory has been deleted. *)
Lemma sim_end_root top total js0 c i f p cc k d :
  Inv top total 0 None c ->
  inflight c !! i = Some (OpDelete f p cc CbOnEndDirectoryDeleted k) ->
  heap c !! k = Some d -> res_callback (result d) = CbOnRmFinished ->
  Shape js0 (taken i c) ->
  let c1 := step top c (Complete i None) in
  Shape (onEndDirectoryDeleted k js0) c1 /\
  js_counters (onEndDirectoryDeleted k js0) =
    (numFilesDeleted js0, numDirsDeleted js0, false, js_log js0) /\
  status c1 = Exited 0 /\ files_deleted c1 = files_deleted c + 1 /\
  freed c1 = freed c + 1.
Proof.
  intros HI Hi Hd Hcb HS0 c1.
  pose proof (inv_static _ _ _ _ _ HI k d Hd) as (Hs1 & Hs2 & Hs3 & Hs4).
  rewrite Hcb in Hs4. subst k.
  destruct (on_end_directory_deleted_root _ _ _ _ _ _ _ _ _ HI Hi Hd Hcb)
    as (H1 & H2 & _).
  fold (taken i c) in H1, H2.
  pose proof (on_end_directory_deleted_root_eq _ _ _ _ _ _ _ _ HI Hi Hd Hcb) as Heq.
  pose proof (inv_live_lt _ _ _ _ _ _ _ HI Hd) as Hlt.
  pose proof (files_deleted_room _ _ _ HI (remaining_live _ _ _ _ _ HI Hd)) as Hroom.
  pose proof (inv_files _ _ _ _ _ HI) as Hf0.
  assert (Hc1 : c1 = main_finish (g_free 0 (g_main_loop_quit
                       (directory_gone f 0 d (taken i c))))).
  { subst c1. rewrite (step_of_deliver top c i _ (inv_status _ _ _ _ _ HI) Hi);
      cbn [deliver]; [|done]. by rewrite H2, Heq. }
  pose proof HS0 as (_ & _ & H3). destruct (H3 0%nat d Hd) as (Hjs & _).
  rewrite Hc1.
  split; [|split; [|split; [done|split]]].
  - unfold onEndDirectoryDeleted. rewrite Hjs. simpl. rewrite Hcb. simpl.
    assert (HS1 : Shape (js_loop_quit js0) (g_free 0 (taken i c))).
    { apply shape_g_free. exact HS0. }
    exact HS1.
  - unfold onEndDirectoryDeleted. rewrite Hjs. simpl. by rewrite Hcb.
  - simpl. apply guint_wrap_small. lia.
  - change (freed (main_finish (g_free 0 (g_main_loop_quit
              (directory_gone f 0 d (taken i c))))))
      with (freed (g_free 0 c)).
    by apply (freed_g_free c 0 d).
Qed.

Lemma js_incr_small z : 0 <= z < guint_max -> js_incr z = z + 1.
Proof.
  intros H. unfold js_incr. apply js_number_exact.
  unfold js_max_safe, guint_max in *. lia.
Qed.

(** The successful completion of the same operation on both sides keeps
    the simulation. *)
Lemma sim_deliver top total es0 js c i j o :
  top = FsDir es0 -> Inv top total 0 None c -> K top c -> Sim js c ->
  inflight c !! i = Some o -> js_inflight js !! j = Some o ->
  Sim (js_step top js (Complete j None)) (step top c (Complete i None)).
Proof.
  intros Htop HI HK (HS & Hnf0 & Hnf & Hst) Hi Hj.
  rewrite (inv_status _ _ _ _ _ HI) in Hst. destruct Hst as [Hloop HnD].
  rewrite (js_step_of_deliver top js j o Hloop Hj).
  set (js0 := js_set_inflight (delete j (js_inflight js)) js).
  assert (HS0 : Shape js0 (taken i c)) by (by eapply shape_taken).
  pose proof (freed_nonneg c) as Hfr0.
  pose proof (inv_files _ _ _ _ _ HI) as Hfd0.
  assert (Hfdmax : files_deleted c < guint_max).
  { pose proof (inv_pot _ _ _ _ _ HI). pose proof (inv_total _ _ _ _ _ HI).
    pose proof (remaining_nonneg top c). lia. }
  destruct o as [f a fl p cc k|e n p cc k|f p cc [] k].
  - destruct (sim_enumerate top total es0 js0 c i f a fl p cc k Htop HI HK Hi HS0)
      as (L & Hstep & Hjs).
    rewrite Hstep, Hjs. split; [by apply shape_issue|].
    split; [done|]. split; [done|].
    change (status (issue (OpNextFiles (mkEnum f L) 20 0 None k) (taken i c)))
      with (status c).
    rewrite (inv_status _ _ _ _ _ HI). done.
  - destruct (sim_next_files top total js0 c i e n p cc k HI Hi HS0)
      as (Hstep & HS1 & Hs1 & Hfd & Hfr).
    cbn [js_deliver]. rewrite Hstep.
    pose proof (js_counters_onNextFiles e n k js0) as Hc.
    unfold js_counters in Hc. injection Hc as Hc1 Hc2 Hc3 Hc4.
    split; [done|]. rewrite Hc1, Hfd, Hfr, Hs1, Hc2, Hc3. done.
  - destruct (sim_leaf top total js0 c i f p cc k HI Hi HS0)
      as (Hstep & HS1 & Hs1 & Hfd & Hfr).
    cbn [js_deliver]. rewrite Hstep.
    assert (Hc : js_counters (onFileDeleted k js0) =
                 (js_incr (numFilesDeleted js), numDirsDeleted js,
                  js_loop_running js, js_log js)).
    { unfold onFileDeleted.
      by rewrite js_counters_checkNoChildren, js_counters_update. }
    unfold js_counters in Hc. injection Hc as Hc1 Hc2 Hc3 Hc4.
    split; [done|]. rewrite Hc1, Hfd, Hfr, Hs1, Hc2, Hc3.
    rewrite js_incr_small by lia. split; [lia|]. split; [lia|done].
  - destruct (inv_op_live _ _ _ _ _ _ _ HI Hi) as (d & Hd & _). simpl in Hd.
    cbn [js_deliver].
    destruct (res_callback (result d)) as [q|] eqn:Hcb.
    + destruct (sim_end_child top total js0 c i f p cc k d q HI Hi Hd Hcb HS0)
        as (Hstep & HS1 & Hc & Hs1 & Hfd & Hfr).
      rewrite Hstep.
      unfold js_counters in Hc. injection Hc as Hc1 Hc2 Hc3 Hc4.
      split; [done|]. rewrite Hc1, Hfd, Hfr, Hs1, Hc2, Hc3.
      change (numFilesDeleted js0) with (numFilesDeleted js).
      change (numDirsDeleted js0) with (numDirsDeleted js).
      change (js_loop_running js0) with (js_loop_running js).
      rewrite js_incr_small by lia. split; [lia|]. split; [lia|].
      split; [done|lia].
    + destruct (sim_end_root top total js0 c i f p cc k d HI Hi Hd Hcb HS0)
        as (HS1 & Hc & Hs1 & Hfd & Hfr).
      unfold js_counters in Hc. injection Hc as Hc1 Hc2 Hc3 Hc4.
      split; [done|]. rewrite Hc1, Hfd, Hfr, Hs1, Hc2, Hc3.
      change (numFilesDeleted js0) with (numFilesDeleted js).
      change (numDirsDeleted js0) with (numDirsDeleted js).
      split; [lia|]. split; [lia|]. split; [done|lia].
Qed.

(** A callback that throws: the operation is gone from the script, and
    stays in flight for ever in the C program. *)
Lemma sim_throw top js c j o e :
  status c = Running -> Sim js c -> js_inflight js !! j = Some o ->
  Sim (js_step top js (Complete j (Some e))) c.
Proof.
  intros Hrun ((H1 & H2 & H3) & Hnf0 & Hnf & Hst) Hj.
  rewrite Hrun in Hst. destruct Hst as [Hloop HnD].
  unfold js_step. rewrite Hloop, Hj. cbn [js_deliver].
  split; [|by rewrite Hrun].
  split; [done|]. split; [|done]. simpl.
  rewrite H2. rewrite (delete_Permutation _ _ _ Hj) at 1.
  rewrite <- Permutation_middle. done.
Qed.

(** ** Whole runs *)

Lemma run_snoc top st cs ch :
  run top st (cs ++ [ch]) = step top (run top st cs) ch.
Proof. unfold run. by rewrite fold_left_app. Qed.

Lemma js_run_snoc top st cs ch :
  js_run top st (cs ++ [ch]) = js_step top (js_run top st cs) ch.
Proof. unfold js_run. by rewrite fold_left_app. Qed.

Lemma all_succeed_snoc top cs ch : forall st,
  all_succeed top st cs ->
  (status (run top st cs) = Running ->
   ch = Tick \/
   exists i, ch = Complete i None /\
             (i < length (inflight (run top st cs)))%nat) ->
  all_succeed top st (cs ++ [ch]).
Proof.
  induction cs as [|x cs IH]; intros st Hall Hch; simpl in *.
  - done.
  - destruct Hall as [Hx Hall]. split; [done|]. by apply IH.
Qed.

Lemma js_productive_snoc top cs ch : forall st,
  js_productive top st (cs ++ [ch]) ->
  js_productive top st cs /\
  (js_loop_running (js_run top st cs) = true ->
   exists i, ch = Complete i None /\
             (i < length (js_inflight (js_run top st cs)))%nat).
Proof.
  induction cs as [|x cs IH]; intros st H; simpl in *.
  - by destruct H.
  - destruct H as [Hx H]. destruct (IH _ H) as [H1 H2]. done.
Qed.

Lemma deliveries_snoc cs ch :
  deliveries (cs ++ [ch]) = deliveries cs + (if is_delivery ch then 1 else 0).
Proof.
  unfold deliveries. rewrite List.filter_app, length_app. simpl.
  destruct (is_delivery ch); simpl; lia.
Qed.

Lemma js_step_stopped top js ch :
  js_loop_running js = false -> js_step top js ch = js.
Proof. intros H. unfold js_step. by rewrite H. Qed.

Lemma sim_start path :
  Sim (js_main_start path) (main_start_path (Some path)).
Proof.
  split; [|done]. split; [done|]. split; [done|].
  intros k d Hd. simpl in Hd.
  apply lookup_insert_Some in Hd as [[<- <-]|[_ Hd]].
  - simpl. by rewrite lookup_insert_eq.
  - by rewrite lookup_empty in Hd.
Qed.

(** Every run of the script is matched by a run of the C program in which
    every operation succeeds: the operations the script saw fail are just
    never delivered there. *)
Lemma js_sim_run top path es0 jcs :
  fs_wf top -> count_entries top < guint_max -> top = FsDir es0 ->
  exists cs,
    Sim (js_run top (js_main_start path) jcs)
        (run top (main_start_path (Some path)) cs) /\
    all_succeed top (main_start_path (Some path)) cs /\
    (js_productive top (js_main_start path) jcs ->
     js_loop_running (js_run top (js_main_start path) jcs) = true ->
     deliveries cs = Z.of_nat (length jcs)).
Proof.
  intros Hwf Hlt Htop.
  induction jcs as [|ch jcs IH] using rev_ind.
  { exists []. split; [apply sim_start|]. split; [done|]. done. }
  destruct IH as (cs & HSim & Hall & Hlen).
  rewrite js_run_snoc.
  set (js := js_run top (js_main_start path) jcs) in *.
  set (c := run top (main_start_path (Some path)) cs) in *.
  pose proof (reachable top path cs Hwf Hlt) as HR. fold c in HR.
  assert (Hsame : Sim js c ->
            (js_productive top (js_main_start path) (jcs ++ [ch]) ->
             js_loop_running js = true -> False) ->
            exists cs0,
              Sim js (run top (main_start_path (Some path)) cs0) /\
              all_succeed top (main_start_path (Some path)) cs0 /\
              (js_productive top (js_main_start path) (jcs ++ [ch]) ->
               js_loop_running js = true ->
               deliveries cs0 = Z.of_nat (length (jcs ++ [ch])))).
  { intros HS Hno. exists cs. split; [done|]. split; [done|].
    intros Hp Hr. destruct (Hno Hp Hr). }
  destruct (js_loop_running js) eqn:Hloop.
  2:{ rewrite js_step_stopped by done. rewrite Hloop.
      apply Hsame; [done|]. intros _ ?. done. }
  assert (Hrun : status c = Running).
  { destruct HSim as (_ & _ & _ & Hst).
    destruct (status c) as [|[| |]|]; try done. destruct Hst. congruence. }
  destruct (reach_running _ _ _ HR Hrun) as [HI HJ].
  assert (HK : K top c).
  { subst c. eapply run_K; [done|by apply main_start_reach|apply main_start_K]. }
  destruct ch as [|j [e|]].
  - unfold js_step. rewrite Hloop.
    destruct (Hsame HSim) as (cs0 & H1 & H2 & H3).
    { intros Hp _. apply js_productive_snoc in Hp as [_ Hp].
      destruct (Hp Hloop) as (i & Hi & _). discriminate. }
    exists cs0. split; [done|]. split; [done|]. intros Hp _. by apply H3.
  - destruct (js_inflight js !! j) as [o|] eqn:Hj.
    + exists cs. split; [by eapply sim_throw|]. split; [done|].
      intros Hp _. apply js_productive_snoc in Hp as [_ Hp].
      destruct (Hp Hloop) as (i & Hi & _). discriminate.
    + unfold js_step. rewrite Hloop, Hj.
      destruct (Hsame HSim) as (cs0 & H1 & H2 & H3).
      { intros Hp _. apply js_productive_snoc in Hp as [_ Hp].
        destruct (Hp Hloop) as (i & Hi & _). discriminate. }
      exists cs0. split; [done|]. split; [done|]. intros Hp _. by apply H3.
  - destruct (js_inflight js !! j) as [o|] eqn:Hj.
    + assert (Hin : o ∈ inflight c).
      { destruct HSim as ((_ & Hperm & _) & _). rewrite Hperm.
        apply elem_of_app. left. by eapply list_elem_of_lookup_2. }
      apply list_elem_of_lookup in Hin as [i Hi].
      exists (cs ++ [Complete i None]). rewrite run_snoc. fold c.
      split; [by eapply sim_deliver|]. split.
      * apply all_succeed_snoc; [done|]. fold c. intros _. right.
        exists i. split; [done|]. by eapply lookup_lt_Some.
      * intros Hp Hr. apply js_productive_snoc in Hp as [Hp _].
        rewrite deliveries_snoc, length_app. simpl.
        rewrite (Hlen Hp eq_refl). lia.
    + unfold js_step. rewrite Hloop, Hj.
      destruct (Hsame HSim) as (cs0 & H1 & H2 & H3).
      { intros Hp _. apply js_productive_snoc in Hp as [_ Hp].
        destruct (Hp Hloop) as (i & [= <-] & Hlti).
        apply lookup_ge_None in Hj. fold js in Hlti. lia. }
      exists cs0. split; [done|]. split; [done|]. intros Hp _. by apply H3.
Qed.

(** ** What the script does *)

Lemma js_quit_counters top path es jcs :
  fs_wf top -> count_entries top < guint_max -> top = FsDir es ->
  let js := js_run top (js_main_start path) jcs in
  js_loop_running js = false ->
  numDirsDeleted js = count_dirs top - 1 /\
  numFilesDeleted js = count_entries top - count_dirs top /\
  numFilesDeleted js + numDirsDeleted js = count_entries top - 1 /\
  js_log js = [] /\ js_inflight js = [].
Proof.
  intros Hwf Hlt Htop js Hq.
  destruct (js_sim_run top path es jcs Hwf Hlt Htop)
    as (cs & ((H1 & H2 & H3) & Hnf0 & Hnf & Hst) & _). fold js in H1, H2, H3, Hnf, Hst.
  set (c := run top (main_start_path (Some path)) cs) in *.
  destruct (status c) as [|[| |]|] eqn:Hs; try done.
  { destruct Hst. congruence. }
  destruct Hst as [_ HnD].
  destruct (exit_zero_quiescent top path cs Hwf Hlt Hs) as [Hheap Hin].
  fold c in Hheap, Hin.
  destruct (contexts_count top path es cs Hwf Hlt Htop) as [_ Hbrk].
  specialize (Hbrk Hs). fold c in Hbrk.
  pose proof (reachable top path cs Hwf Hlt) as HR. fold c in HR.
  pose proof (f_status _ _ _ (reach_facts _ _ _ HR)) as F6. rewrite Hs in F6.
  destruct F6 as [(_ & _ & Htot & _)|(? & _)]; [|lia].
  assert (Hfreed : freed c = count_dirs top).
  { unfold freed. rewrite Hheap, hsum_empty. lia. }
  rewrite Hin in H2. symmetry in H2. apply Permutation_nil_r in H2.
  apply app_eq_nil in H2 as [Hjin Hlog].
  apply fmap_nil_inv in Hlog.
  repeat split; try done; lia.
Qed.

(** X11: when the loop of the script quits, no callback has thrown, nothing is
    left in flight, and the two counters are the number of entries that
    are not directories and the number of sub-directories: the directory
    given on the command line is deleted but not counted. *)
Theorem js_counters_at_quit top path es jcs :
  fs_wf top -> count_entries top < guint_max -> top = FsDir es ->
  let js := js_run top (js_main_start path) jcs in
  js_loop_running js = false ->
  numDirsDeleted js = count_dirs top - 1 /\
  numFilesDeleted js = count_entries top - count_dirs top /\
  numFilesDeleted js + numDirsDeleted js = count_entries top - 1 /\
  js_log js = [] /\ js_inflight js = [].
Proof. intros Hwf Hlt Htop js Hq. by eapply js_quit_counters. Qed.

Lemma js_log_deliver top o js :
  js_log (js_deliver top o None js) = js_log js \/
  exists x, js_log (js_deliver top o None js) = x :: js_log js.
Proof.
  destruct o as [f a fl p cc k|e n p cc k|f p cc [] k]; cbn [js_deliver].
  - unfold onEnumerateChildren.
    destruct (g_file_enumerate_children_finish _ _ _ _); [right; by eexists|by left].
  - left. pose proof (js_counters_onNextFiles e n k js) as Hc.
    unfold js_counters in Hc. by injection Hc.
  - left. unfold onFileDeleted.
    pose proof (js_counters_checkNoChildren k
      (js_update k (fun d => js_set_numFilesPending (js_decr (numFilesPending d)) d)
         (js_incr_numFilesDeleted js))) as Hc.
    rewrite js_counters_update in Hc. unfold js_counters in Hc. by injection Hc.
  - left. unfold onEndDirectoryDeleted.
    destruct (js_heap js !! k) as [d|]; [|done].
    destruct (callback d) as [q|]; [|done]. simpl. unfold onRmRfComplete.
    pose proof (js_counters_checkNoChildren q
      (js_update q (fun d => js_set_numFilesPending (js_decr (numFilesPending d)) d)
         (js_incr_numDirsDeleted js))) as Hc.
    rewrite js_counters_update in Hc. unfold js_counters in Hc. by injection Hc.
Qed.

Lemma js_log_step top js ch :
  js_log js <> [] -> js_log (js_step top js ch) <> [].
Proof.
  intros Hne. unfold js_step. destruct (js_loop_running js); [|done].
  destruct ch as [|i [e|]]; [done| |].
  - destruct (js_inflight js !! i); [|done]. done.
  - destruct (js_inflight js !! i) as [o|]; [|done].
    destruct (js_log_deliver top o
                (js_set_inflight (delete i (js_inflight js)) js)) as [->|[x ->]];
      done.
Qed.

Lemma js_log_run top cs : forall js,
  js_log js <> [] -> js_log (js_run top js cs) <> [].
Proof.
  induction cs as [|ch cs IH]; intros js H; [done|].
  simpl. apply IH. by apply js_log_step.
Qed.

(** X12: a failed operation is fatal to the script in another way than to the
    C program: its callback throws, the context it belongs to never
    completes, and the loop never quits, whatever happens next. *)
Theorem js_failure_never_quits top path es jcs j e jcs' :
  fs_wf top -> count_entries top < guint_max -> top = FsDir es ->
  let js := js_run top (js_main_start path) jcs in
  js_loop_running js = true -> (j < length (js_inflight js))%nat ->
  js_loop_running
    (js_run top (js_main_start path) (jcs ++ Complete j (Some e) :: jcs')) = true.
Proof.
  intros Hwf Hlt Htop js Hloop Hj.
  destruct (lookup_lt_is_Some_2 _ _ Hj) as [o Ho].
  set (js' := js_run top (js_main_start path) (jcs ++ Complete j (Some e) :: jcs')).
  assert (Hlog : js_log js' <> []).
  { subst js'. unfold js_run. rewrite fold_left_app. cbn [fold_left].
    apply js_log_run. fold (js_run top (js_main_start path) jcs). fold js.
    unfold js_step. rewrite Hloop, Ho. done. }
  destruct (js_sim_run top path es (jcs ++ Complete j (Some e) :: jcs')
              Hwf Hlt Htop) as (cs & ((H1 & H2 & H3) & Hnf0 & Hnf & Hst) & _).
  fold js' in H1, H2, H3, Hnf, Hst.
  set (c := run top (main_start_path (Some path)) cs) in *.
  destruct (status c) as [|[| |]|] eqn:Hs; try done.
  { by destruct Hst. }
  exfalso. destruct (exit_zero_quiescent top path cs Hwf Hlt Hs) as [_ Hin].
  fold c in Hin. rewrite Hin in H2. symmetry in H2.
  apply Permutation_nil_r in H2. apply app_eq_nil in H2 as [_ Hl].
  apply fmap_nil_inv in Hl. done.
Qed.

(** X13: when every operation succeeds the loop of the script quits, within
    four deliveries per entry of the tree. *)
Theorem js_all_succeed_quits top path es jcs :
  fs_wf top -> count_entries top < guint_max -> top = FsDir es ->
  js_productive top (js_main_start path) jcs ->
  4 * count_entries top <= Z.of_nat (length jcs) ->
  js_loop_running (js_run top (js_main_start path) jcs) = false.
Proof.
  intros Hwf Hlt Htop Hp Hlen.
  destruct (js_sim_run top path es jcs Hwf Hlt Htop)
    as (cs & (_ & _ & _ & Hst) & Hall & Hdel).
  destruct (js_loop_running (js_run top (js_main_start path) jcs)) eqn:Hloop;
    [|done].
  specialize (Hdel Hp eq_refl).
  pose proof (all_succeed_exits_zero top path cs es Hwf Htop Hlt Hall
                ltac:(lia)) as Hex.
  rewrite Hex in Hst. destruct Hst. congruence.
Qed.

(** X14: given the path of a regular or special file, the script deletes
    nothing and never quits: the open of the listing fails, the callback
    throws, and nothing is left to wake the loop. *)
Theorem js_not_a_directory_hangs top path jcs :
  top = FsRegular \/ top = FsSpecial ->
  let js := js_run top (js_main_start path) jcs in
  js_loop_running js = true /\
  numFilesDeleted js = 0 /\ numDirsDeleted js = 0 /\
  (js_inflight js = [] \/ js_log js = []).
Proof.
  intros Htop js.
  set (o := OpEnumerateChildren (g_file_new_for_path (Some path))
              "standard::name,standard::type"
              G_FILE_QUERY_INFO_NOFOLLOW_SYMLINKS 0 None 0).
  set (P := fun s : JsState =>
         js_loop_running s = true /\ numFilesDeleted s = 0 /\
         numDirsDeleted s = 0 /\
         ((js_inflight s = [o] /\ js_log s = []) \/ js_inflight s = [])).
  assert (Hstep : forall s ch, P s -> P (js_step top s ch)).
  { intros s ch (Hl & Hf & Hd & Hin). unfold js_step. rewrite Hl.
    destruct ch as [|i failure]; [done|].
    destruct Hin as [[Hin Hlog]|Hin]; rewrite Hin.
    - destruct i as [|i]; simpl; [|by repeat split; try done; left].
      destruct failure as [e|]; simpl.
      + repeat split; try done. by right.
      + unfold onEnumerateChildren, g_file_enumerate_children_finish.
        unfold resolve. simpl.
        destruct Htop as [-> | ->]; simpl; repeat split; try done; by right.
    - simpl. repeat split; try done. by right. }
  assert (Hrun : forall cs s, P s -> P (js_run top s cs)).
  { clear jcs js. induction cs as [|ch cs IH]; intros s HP; [done|].
    simpl. apply IH. by apply Hstep. }
  assert (H0 : P (js_main_start path)).
  { repeat split; try done. by left. }
  destruct (Hrun jcs _ H0) as (Hl & Hf & Hd & Hin). fold js in Hl, Hf, Hd, Hin.
  repeat split; try done.
  destruct Hin as [[_ ?]|?]; [by right|by left].
Qed.

(** ** The script at work on sample trees *)

Lemma js_counters_at_quit_witness :
  fs_wf tree_nested /\ count_entries tree_nested < guint_max /\
  js_loop_running (js_run tree_nested (js_main_start "root") (oldest_first 12))
  = false /\
  numDirsDeleted (js_run tree_nested (js_main_start "root") (oldest_first 12)) = 1 /\
  numFilesDeleted (js_run tree_nested (js_main_start "root") (oldest_first 12)) = 3.
Proof.
  split; [exact tree_nested_wf|]. split; [reflexivity|].
  split; [reflexivity|].
  destruct (js_counters_at_quit tree_nested "root" _ (oldest_first 12)
              tree_nested_wf eq_refl eq_refl eq_refl) as (H1 & H2 & _).
  split; [exact H1|exact H2].
Defined.

Lemma js_failure_never_quits_witness :
  fs_wf tree_one_file /\ count_entries tree_one_file < guint_max /\
  js_loop_running
    (js_run tree_one_file (js_main_start "root")
       ([ok 0%nat; ok 0%nat]
        ++ Complete 1 (Some (mkError "Permission denied")) :: oldest_first 5))
  = true.
Proof.
  split; [exact tree_one_file_wf|]. split; [reflexivity|].
  exact (js_failure_never_quits tree_one_file "root" _ [ok 0%nat; ok 0%nat] 1
           (mkError "Permission denied") (oldest_first 5)
           tree_one_file_wf eq_refl eq_refl eq_refl
           ltac:(vm_compute; lia)).
Defined.

Lemma js_all_succeed_quits_witness :
  fs_wf tree_one_file /\ count_entries tree_one_file < guint_max /\
  js_loop_running (js_run tree_one_file (js_main_start "root") (oldest_first 8))
  = false.
Proof.
  split; [exact tree_one_file_wf|]. split; [reflexivity|].
  apply (js_all_succeed_quits tree_one_file "root" _ (oldest_first 8)
           tree_one_file_wf eq_refl eq_refl).
  - repeat (split; [intros H;
                    first [discriminate H
                          |exists 0%nat; split; [reflexivity|vm_compute; lia]]|]).
    exact I.
  - vm_compute. discriminate.
Defined.

Lemma js_not_a_directory_hangs_witness :
  js_loop_running (js_run FsRegular (js_main_start "notes.txt") (oldest_first 3))
  = true.
Proof.
  exact (proj1 (js_not_a_directory_hangs FsRegular "notes.txt" (oldest_first 3)
                  (or_introl eq_refl))).
Defined.

(** X15: the script and the C program stay in step.  Every run of the script
    on a directory is matched by a run of the C program in which every
    operation succeeds (the operations whose callback threw in the script
    are simply never delivered there): the contexts the C program still
    has are those of the script, field by field; the operations in flight
    are the same; the loop of the script runs exactly as long as the C
    program does; and [numFilesDeleted + numDirsDeleted] is
    [files_deleted], less the root directory once it is gone. *)
Theorem js_simulates_c top path es jcs :
  fs_wf top -> count_entries top < guint_max -> top = FsDir es ->
  exists cs,
    let js := js_run top (js_main_start path) jcs in
    let c := run top (main_start_path (Some path)) cs in
    all_succeed top (main_start_path (Some path)) cs /\
    js_next js = brk c /\
    inflight c ≡ₚ js_inflight js ++ map fst (js_log js) /\
    (forall k d, heap c !! k = Some d ->
       js_heap js !! k =
       Some (mkJsCtx (num_files_pending d) (file d)
               (js_callback_of (res_callback (result d))) (have_more_files d))) /\
    (js_loop_running js = true <-> status c = Running) /\
    (js_loop_running js = false <-> status c = Exited 0) /\
    numFilesDeleted js + numDirsDeleted js =
      files_deleted c - (if js_loop_running js then 0 else 1).
Proof.
  intros Hwf Hlt Htop.
  destruct (js_sim_run top path es jcs Hwf Hlt Htop)
    as (cs & ((H1 & H2 & H3) & Hnf0 & Hnf & Hst) & Hall & _).
  exists cs. intros js c. fold js in H1, H2, H3, Hnf, Hst. fold c in H1, H2, H3, Hnf, Hst.
  split; [done|]. split; [done|]. split; [done|]. split.
  { intros k d Hd. by destruct (H3 k d Hd) as [? _]. }
  destruct (status c) as [|[| |]|] eqn:Hs; try done; destruct Hst as [Hl HnD];
    rewrite Hl; repeat split; try done; lia.
Qed.

Lemma js_simulates_c_witness :
  fs_wf tree_nested /\ count_entries tree_nested < guint_max /\
  exists cs,
    js_next (js_run tree_nested (js_main_start "root") (oldest_first 2)) =
    brk (run tree_nested (main_start_path (Some "root"%string)) cs).
Proof.
  split; [exact tree_nested_wf|]. split; [reflexivity|].
  destruct (js_simulates_c tree_nested "root" _ (oldest_first 2)
              tree_nested_wf eq_refl eq_refl) as (cs & _ & H & _).
  exists cs. exact H.
Defined.

(** * The counters, errors, batches and links, in full *)

(** ** The counters *)

(** C3, as stated, fails for the script: on the sample tree of five
    entries the loop quits with three files and one directory counted.
    The directory given on the command line is deleted by the last call of
    [onEndDirectoryDeleted], whose callback is [loop.quit]; only
    [onRmRfComplete] counts a directory. *)
Lemma js_counters_miss_the_root :
  let js := js_run tree_nested (js_main_start "root") (oldest_first 13) in
  js_loop_running js = false /\ js_log js = [] /\ js_inflight js = [] /\
  numFilesDeleted js = 3 /\ numDirsDeleted js = 1 /\
  count_entries tree_nested = 5 /\
  numFilesDeleted js + numDirsDeleted js <> count_entries tree_nested.
Proof. vm_compute. repeat split; discriminate. Qed.

(** [files_deleted] is a [guint]: the increment after 2^32 - 1 gives 0. *)
Lemma files_deleted_wraps st :
  files_deleted st = guint_max - 1 ->
  files_deleted (incr_files_deleted st) = 0.
Proof. intros H. unfold incr_files_deleted. simpl. rewrite H. reflexivity. Qed.

(** C3, amended: for a tree of fewer than 2^32 entries, the counter of the
    C program equals the number of removals so far; an iteration of the
    loop leaves it unchanged or adds one; and when [main] returns 0 it
    equals the number of entries of the tree, the root included, and is
    the last line printed.  In the script, when the loop quits the two
    counters are the number of entries that are not directories and the
    number of directories below the root: together, one less than the
    number of entries. *)
Theorem files_deleted_counts_entries top path cs :
  fs_wf top -> count_entries top < guint_max ->
  let st := run top (main_start_path (Some path)) cs in
  files_deleted st = count_events is_removed (trace st) /\
  (forall ch, files_deleted (step top st ch) = files_deleted st \/
              files_deleted (step top st ch) = files_deleted st + 1) /\
  (status st = Exited 0 ->
   files_deleted st = count_entries top /\
   exists t, trace st = EvPrint (count_entries top) :: t) /\
  (forall es jcs,
     top = FsDir es ->
     let js := js_run top (js_main_start path) jcs in
     js_loop_running js = false ->
     numFilesDeleted js = count_entries top - count_dirs top /\
     numDirsDeleted js = count_dirs top - 1 /\
     numFilesDeleted js + numDirsDeleted js = count_entries top - 1).
Proof.
  intros Hwf Hlt st.
  pose proof (reachable top path cs Hwf Hlt) as HR. fold st in HR.
  pose proof (reach_facts _ _ _ HR) as [F1 F2 F3 F4 F5 F6].
  split; [done|]. split; [|split].
  - intros ch. destruct (status st) eqn:Hst.
    + destruct (reach_running _ _ _ HR Hst) as [HI _].
      eapply transition_files; [exact HI|]. by eapply step_transition.
    + left. rewrite step_stopped; [done|]. by rewrite Hst.
    + left. rewrite step_stopped; [done|]. by rewrite Hst.
  - intros Hex. rewrite Hex in F6.
    destruct F6 as [(_ & _ & H1 & H2 & _)|(? & _)]; [done|lia].
  - intros es jcs Htop js Hq.
    destruct (js_quit_counters top path es jcs Hwf Hlt Htop Hq)
      as (H1 & H2 & H3 & _).
    done.
Qed.

Lemma files_deleted_counts_entries_witness :
  fs_wf tree_nested /\ count_entries tree_nested < guint_max /\
  status nested_done = Exited 0 /\ files_deleted nested_done = 5 /\
  numFilesDeleted (js_run tree_nested (js_main_start "root") (oldest_first 13))
  + numDirsDeleted (js_run tree_nested (js_main_start "root") (oldest_first 13))
  = 4.
Proof.
  split; [exact tree_nested_wf|]. split; [reflexivity|].
  split; [reflexivity|].
  pose proof (files_deleted_counts_entries tree_nested "root"
                (oldest_first 13) tree_nested_wf eq_refl) as (_ & _ & H3 & H4).
  split.
  - exact (proj1 (H3 eq_refl)).
  - exact (proj2 (proj2 (H4 _ (oldest_first 13) eq_refl eq_refl))).
Defined.

(** ** Fatal errors, amended *)

(** The top-level callback is invoked by the iteration that ends the
    process with code 0, and by no other. *)
Lemma transition_top_callback top total st st' :
  Inv top total 0 None st -> transition top st st' ->
  forall c r, EvComplete c r ∈ trace st' ->
    res_callback r = CbOnRmFinished ->
    EvComplete c r ∈ trace st \/ status st' = Exited 0.
Proof.
  intros HI Htr.
  pose proof (inv_is_fresh _ _ _ _ _ HI) as Hfr.
  assert (Hext : forall X,
            (forall c r, EvComplete c r ∈ trace X -> EvComplete c r ∈ trace st) ->
            extends X st' ->
            forall c r, EvComplete c r ∈ trace st' ->
              res_callback r = CbOnRmFinished ->
              EvComplete c r ∈ trace st \/ status st' = Exited 0).
  { intros X HX [[ops [_ Ht]] _ _ _ _ _ _ _] c r Hn _. left. apply HX.
    rewrite Ht in Hn. apply elem_of_app in Hn as [Hn|Hn]; [|done].
    apply list_elem_of_fmap in Hn as (o & Ho & _). discriminate. }
  destruct Htr as [->|Ht ->|i o e Hi ->|i f a fl p cc c d es Hi Hd Hres ->
                  |i e n p cc c Hi ->|i f p cc c Hi Hroom ->
                  |i f p cc c d q Hi Hd Hcb Hroom ->|i f p cc d Hi Hd Hcb Hroom ->].
  - intros c0 r0 Hn _. by left.
  - unfold timeout_dispatch. rewrite Ht. simpl. intros c0 r0 Hn _.
    apply elem_of_cons in Hn as [?|Hn]; [done|by left].
  - simpl. intros c0 r0 Hn _. apply elem_of_cons in Hn as [?|Hn]; [done|by left].
  - simpl. intros c0 r0 Hn _. apply elem_of_cons in Hn as [?|Hn]; [done|by left].
  - apply (Hext (taken i st)); [done|]. by apply on_next_files_extends.
  - apply (Hext (incr_files_deleted (emit (EvRemoved f) (taken i st)))).
    + simpl. intros c0 r0 Hn. apply elem_of_cons in Hn as [?|Hn]; done.
    + apply on_file_deleted_extends.
  - pose proof (inv_static _ _ _ _ _ HI c d Hd) as (Hs1 & _).
    intros c0 r0 Hn Hr. simpl in Hn.
    pose proof (on_rm_rf_complete_extends (result d) q
                  (directory_gone f c d (taken i st)) Hs1) as [[ops [_ Ht]] _ _ _ _ _ _ _].
    rewrite Ht in Hn. apply elem_of_app in Hn as [Hn|Hn].
    + apply list_elem_of_fmap in Hn as (o & Ho & _). discriminate.
    + simpl in Hn. apply elem_of_cons in Hn as [[= -> ->]|Hn]; [congruence|].
      apply elem_of_cons in Hn as [?|Hn]; [done|by left].
  - intros c0 r0 Hn _. by right.
Qed.

Lemma top_callback_only_at_exit_zero top path cs :
  fs_wf top -> count_entries top < guint_max ->
  forall c r,
    EvComplete c r ∈ trace (run top (main_start_path (Some path)) cs) ->
    res_callback r = CbOnRmFinished ->
    status (run top (main_start_path (Some path)) cs) = Exited 0.
Proof.
  intros Hwf Hlt.
  apply (run_invariant
           (fun st => forall c r, EvComplete c r ∈ trace st ->
                        res_callback r = CbOnRmFinished ->
                        status st = Exited 0) top path cs Hwf Hlt).
  - intros c r Hn _. simpl in Hn.
    apply elem_of_cons in Hn as [?|Hn]; [done|]. by apply elem_of_nil in Hn.
  - intros st st' HI _ _ HP Htr c r Hn Hr.
    destruct (transition_top_callback _ _ _ _ HI Htr c r Hn Hr) as [Hold|Hex];
      [|done].
    pose proof (HP c r Hold Hr) as Hs.
    rewrite (inv_status _ _ _ _ _ HI) in Hs. done.
Qed.

(** C4, amended: the first operation that fails makes the process print
    the message on the error stream and exit with code 1 at once, from
    inside the callback that saw the error; nothing is retried and nothing
    more happens.  No completion callback is ever invoked with an error,
    and the top-level one is invoked in no run but one that exits with
    code 0: never in a failing run.  The process exits with 0 only after
    everything was deleted, with no error printed, and with no other code
    than 0 or 1; and when every operation succeeds on a directory it does
    exit with 0, within four deliveries per entry of the tree. *)
Theorem fatal_error_exits_at_once top path cs :
  fs_wf top -> count_entries top < guint_max ->
  let st := run top (main_start_path (Some path)) cs in
  (forall i o e,
     status st = Running -> inflight st !! i = Some o ->
     let st' := step top st (Complete i (Some e)) in
     status st' = Exited 1 /\
     trace st' = EvPrintErr (error_message e) :: trace st /\
     files_deleted st' = files_deleted st /\
     forall cs', run top st' cs' = st') /\
  (forall post pre c r,
     trace st = post ++ EvComplete c r :: pre -> res_error r = None) /\
  match status st with
  | Running => count_events is_print_err (trace st) = 0
  | Exited code =>
      (code = 0 /\ count_events is_print_err (trace st) = 0 /\
       files_deleted st = count_entries top) \/
      (code = 1 /\ exists msg t, trace st = EvPrintErr msg :: t)
  | Fault => False
  end /\
  (forall es, top = FsDir es ->
   all_succeed top (main_start_path (Some path)) cs ->
   4 * count_entries top <= deliveries cs ->
   status st = Exited 0) /\
  (status st <> Exited 0 ->
   forall c r, EvComplete c r ∈ trace st -> res_callback r <> CbOnRmFinished).
Proof.
  intros Hwf Hlt st.
  pose proof (reachable top path cs Hwf Hlt) as HR. fold st in HR.
  pose proof (reach_facts _ _ _ HR) as [F1 F2 F3 F4 F5 F6].
  split; [|split; [|split; [|split]]].
  - intros i o e Hrun Hi st'.
    assert (Hst' : st' = fatal_gerror e (taken i st)).
    { subst st'. unfold step. rewrite Hrun. simpl. rewrite Hi.
      fold (taken i st).
      destruct (deliver_failure top o e (taken i st)) as [Hs _].
      rewrite Hs. by destruct o as [| |? ? ? [] ?]. }
    rewrite Hst'. repeat split; try done.
    intros cs'. by apply run_stopped.
  - intros post pre c r Htr. rewrite Htr in F1.
    apply trace_ok_suffix in F1. by destruct F1 as [[? _] _].
  - destruct (status st); [done| |done].
    destruct F6 as [(? & ? & ? & _)|(? & _ & ?)]; [left|right]; done.
  - intros es Htop Hall Hlen.
    exact (all_succeed_exits_zero top path cs es Hwf Htop Hlt Hall Hlen).
  - intros Hne c r Hin Hcb. apply Hne.
    by apply (top_callback_only_at_exit_zero top path cs Hwf Hlt c r).
Qed.

Lemma fatal_error_exits_at_once_witness :
  fs_wf tree_one_file /\ count_entries tree_one_file < guint_max /\
  status failing_run = Exited 1 /\
  trace failing_run =
    EvPrintErr "Permission denied"
    :: trace (run tree_one_file (main_start_path (Some "root"%string))
                (oldest_first 2)) /\
  forall c r, EvComplete c r ∈ trace failing_run ->
              res_callback r <> CbOnRmFinished.
Proof.
  split; [exact tree_one_file_wf|]. split; [reflexivity|].
  destruct (proj1 (fatal_error_exits_at_once tree_one_file "root"
                     (oldest_first 2) tree_one_file_wf eq_refl)
              1%nat _ (mkError "Permission denied") eq_refl eq_refl)
    as (H1 & H2 & _).
  split; [exact H1|]. split; [exact H2|].
  refine (proj2 (proj2 (proj2 (proj2
            (fatal_error_exits_at_once tree_one_file "root"
               [ok 0%nat; ok 0%nat;
                Complete 1 (Some (mkError "Permission denied"))]
               tree_one_file_wf eq_refl)))) _).
  discriminate.
Defined.

(** ** Batches, amended *)

(** The delivery of a non-empty batch runs the head of [on_next_files] and
    then its loop over the batch. *)
Lemma next_files_step top total st i e n p cc c d :
  Inv top total 0 None st ->
  inflight st !! i = Some (OpNextFiles e n p cc c) ->
  heap st !! c = Some d ->
  let files := take n (enum_rest e) in
  let e' := mkEnum (g_file_enumerator_get_container e) (drop n (enum_rest e)) in
  step top st (ok i) =
  fold_left (dispatch_entry (file d) c) files
    (on_next_files_head files e' c (taken i st)).
Proof.
  intros HI Hi Hd files e'.
  pose proof (on_next_files_inv _ _ _ _ _ _ _ _ _ HI Hi) as HI'.
  fold (taken i st) in HI'.
  destruct (inv_op_live _ _ _ _ _ _ _ HI Hi) as (d0 & Hd0 & Hn & Hcont).
  simpl in Hd0. rewrite Hd in Hd0. inversion Hd0; subst d0.
  unfold step, ok. rewrite (inv_status _ _ _ _ _ HI).
  cbn [main_loop_iterate]. rewrite Hi. cbn [deliver].
  fold (taken i st).
  rewrite (inv_status _ _ _ _ _ HI'), (inv_loop _ _ _ _ _ HI').
  unfold on_next_files, g_file_enumerator_next_files_finish.
  cbn [g_file_enumerator_get_container]. fold files. fold e'.
  by rewrite Hcont.
Qed.

(** The state at the top of each turn of that loop: the request for the
    next batch is in flight, followed by one operation for each entry
    taken so far, and the counter has gone up by one for each of them. *)
Lemma next_files_prefix top total st i e n p cc c d k :
  Inv top total 0 None st ->
  inflight st !! i = Some (OpNextFiles e n p cc c) ->
  heap st !! c = Some d ->
  take n (enum_rest e) <> [] ->
  (k <= length (take n (enum_rest e)))%nat ->
  let files := take n (enum_rest e) in
  let e' := mkEnum (g_file_enumerator_get_container e) (drop n (enum_rest e)) in
  let s := fold_left (dispatch_entry (file d) c) (take k files)
             (on_next_files_head files e' c (taken i st)) in
  inflight s =
    delete i (inflight st) ++
    OpNextFiles e' 20 G_PRIORITY_DEFAULT None c ::
    dispatched_ops (file d) (priority d) (cancellable d) c (brk st)
      (take k files) /\
  (num_files_pending <$> heap s !! c) = Some (num_files_pending d + Z.of_nat k).
Proof.
  intros HI Hi Hd Hne Hk files e' s. fold files in Hk.
  pose proof (inv_base _ _ _ _ _ _ _ HI Hd) as Hbase.
  pose proof (inv_is_fresh _ _ _ _ _ HI) as Hfr.
  destruct (on_next_files_head_nonempty files e' c (taken i st) d Hd Hfr Hne)
    as (HdH & HinH & HbrkH & HfH).
  destruct (dispatch_loop_inflight (file d) c (take k files) _ _ HdH HfH Hbase)
    as (Hin & d' & Hd' & Hp' & _).
  fold s in Hin, Hd'. split.
  - rewrite Hin, HinH, HbrkH. simpl. rewrite <- app_assoc. done.
  - rewrite Hd'. simpl. f_equal. rewrite Hp'. simpl.
    assert (Hlen : length (take k files) = k) by (rewrite length_take; lia).
    destruct (take k files) as [|x l] eqn:Hfiles.
    + simpl in Hlen. subst k. lia.
    + rewrite Hlen. apply guint_wrap_small.
      pose proof (pending_range _ _ _ _ _ HI Hd).
      pose proof (batch_pending_room _ _ _ _ _ _ _ _ _ _ HI Hi Hd) as Hroom.
      fold files in Hroom. lia.
Qed.

(** C6, amended: when a non-empty batch arrives, the request for the next
    batch is issued first, the pending counter still being what it was;
    then the loop takes the entries of the batch in listing order, each
    turn adding one to the pending counter and issuing one operation, the
    delete of the entry or the listing of the directory it is.  All of it
    happens in one callback, so the next batch is delivered only after the
    whole batch has been dispatched and counted. *)
Theorem batch_requested_then_dispatched top path cs :
  fs_wf top -> count_entries top < guint_max ->
  let st := run top (main_start_path (Some path)) cs in
  status st = Running ->
  forall i e n p cc c d,
    inflight st !! i = Some (OpNextFiles e n p cc c) ->
    heap st !! c = Some d ->
    take n (enum_rest e) <> [] ->
    let files := take n (enum_rest e) in
    let e' := mkEnum (g_file_enumerator_get_container e)
                (drop n (enum_rest e)) in
    let st' := step top st (ok i) in
    let turn k := fold_left (dispatch_entry (file d) c) (take k files)
                    (on_next_files_head files e' c (taken i st)) in
    (inflight st' =
       delete i (inflight st) ++
       OpNextFiles e' 20 G_PRIORITY_DEFAULT None c ::
       dispatched_ops (file d) (priority d) (cancellable d) c (brk st) files /\
     length (dispatched_ops (file d) (priority d) (cancellable d) c (brk st)
               files) = length files /\
     (num_files_pending <$> heap st' !! c) =
       Some (num_files_pending d + Z.of_nat (length files))) /\
    (forall k, (k <= length files)%nat ->
       inflight (turn k) =
         delete i (inflight st) ++
         OpNextFiles e' 20 G_PRIORITY_DEFAULT None c ::
         dispatched_ops (file d) (priority d) (cancellable d) c (brk st)
           (take k files) /\
       length (dispatched_ops (file d) (priority d) (cancellable d) c (brk st)
                 (take k files)) = k /\
       (num_files_pending <$> heap (turn k) !! c) =
         Some (num_files_pending d + Z.of_nat k)) /\
    (forall k info, files !! k = Some info ->
       turn (S k) = dispatch_entry (file d) c (turn k) info) /\
    turn 0%nat = g_file_enumerator_next_files_async e' 20 G_PRIORITY_DEFAULT
                   None c (set_have_more_files c true (taken i st)) /\
    st' = turn (length files).
Proof.
  intros Hwf Hlt st Hrun i e n p cc c d Hi Hd Hne files e' st' turn.
  pose proof (reachable top path cs Hwf Hlt) as HR. fold st in HR.
  destruct (reach_running _ _ _ HR Hrun) as [HI _].
  assert (Hlast : st' = turn (length files)).
  { subst st' turn. cbn beta. rewrite firstn_all.
    by apply (next_files_step _ _ _ _ _ _ _ _ _ _ HI Hi Hd). }
  assert (Hturn : forall k, (k <= length files)%nat ->
            inflight (turn k) =
              delete i (inflight st) ++
              OpNextFiles e' 20 G_PRIORITY_DEFAULT None c ::
              dispatched_ops (file d) (priority d) (cancellable d) c (brk st)
                (take k files) /\
            (num_files_pending <$> heap (turn k) !! c) =
              Some (num_files_pending d + Z.of_nat k)).
  { intros k Hk.
    exact (next_files_prefix _ _ _ _ _ _ _ _ _ _ k HI Hi Hd Hne Hk). }
  split; [|split; [|split; [|split]]].
  - destruct (Hturn (length files) (le_n _)) as [H1 H2].
    rewrite <- Hlast in H1, H2. rewrite firstn_all in H1.
    split; [done|]. split; [apply dispatched_ops_length|done].
  - intros k Hk. destruct (Hturn k Hk) as [H1 H2].
    split; [done|]. split; [|done].
    rewrite dispatched_ops_length, length_take. lia.
  - intros k info Hk. subst turn. cbn beta.
    rewrite (take_S_r _ _ _ Hk), fold_left_app. done.
  - subst turn. cbn beta. rewrite take_0. simpl.
    unfold on_next_files_head. fold files in Hne. clearbody files.
    by destruct files.
  - exact Hlast.
Qed.

Lemma batch_requested_then_dispatched_witness :
  fs_wf tree_one_file /\ count_entries tree_one_file < guint_max /\
  (num_files_pending <$>
     heap (step tree_one_file first_batch_pending (ok 0%nat)) !! 0%nat)
  = Some (0 + 1).
Proof.
  split; [exact tree_one_file_wf|]. split; [reflexivity|].
  refine (proj2 (proj2 (proj1
            (batch_requested_then_dispatched tree_one_file "root"
               [ok 0%nat] tree_one_file_wf eq_refl eq_refl 0%nat _ _ _ _
               0%nat _ eq_refl eq_refl _)))).
  discriminate.
Defined.

(** ** Symbolic links, amended *)

(** An entry of a batch that is not reported as a directory gets one
    delete, with the leaf callback and no cancellation token. *)
Lemma dispatched_ops_leaf parent prio canc data info files : forall next,
  info ∈ files ->
  g_file_info_get_file_type info <> G_FILE_TYPE_DIRECTORY ->
  OpDelete (g_file_get_child parent (g_file_info_get_name info)) prio None
    CbOnFileDeleted data
  ∈ dispatched_ops parent prio canc data next files.
Proof.
  induction files as [|x files IH]; intros next Hin Hty.
  - by apply elem_of_nil in Hin.
  - cbn [dispatched_ops].
    apply elem_of_cons in Hin as [<-|Hin].
    + rewrite decide_False by done. apply elem_of_cons. by left.
    + destruct (decide _); apply elem_of_cons; right; by apply IH.
Qed.

(** The successful completion of a leaf delete removes the entry. *)
Lemma leaf_delete_removes top total st i f p cc c :
  Inv top total 0 None st ->
  inflight st !! i = Some (OpDelete f p cc CbOnFileDeleted c) ->
  EvRemoved f ∈ trace (step top st (ok i)) /\
  status (step top st (ok i)) = Running.
Proof.
  intros HI Hi.
  pose proof (on_file_deleted_inv _ _ _ _ _ _ _ _ HI Hi) as HI'.
  fold (taken i st) in HI'.
  assert (Hst : step top st (ok i) = on_file_deleted f None c (taken i st)).
  { unfold ok. rewrite (step_of_deliver top st i _ (inv_status _ _ _ _ _ HI) Hi);
      cbn [deliver].
    - by rewrite (inv_loop _ _ _ _ _ HI').
    - exact (inv_status _ _ _ _ _ HI'). }
  rewrite Hst. split; [|exact (inv_status _ _ _ _ _ HI')].
  eapply extends_trace_elem; [apply on_file_deleted_extends|].
  simpl. apply elem_of_cons. by left.
Qed.

(** C9: every listing the program ever opens is opened without following
    symbolic links and, the handle made from the command line apart (the
    one with no child name), on an entry that is a directory itself, never
    on a link to one; such a listing reports a symbolic link as a symbolic
    link; and an entry so reported is dispatched as one delete, with no
    context allocated.  In the run on a directory: when a batch is
    delivered, every symbolic link in it is reported as one and has its
    delete in flight when the callback returns; the completion of that
    delete removes the link itself; no listing is ever opened on a
    symbolic link, no context ever stands for one, and no delete of it is
    the delete that ends a directory; and when [main] returns 0 every
    symbolic link of the tree has been removed. *)
Theorem symlinks_deleted_not_followed top path cs :
  fs_wf top -> count_entries top < guint_max ->
  let st := run top (main_start_path (Some path)) cs in
  (forall f a fl p cc c,
     EvIssue (OpEnumerateChildren f a fl p cc c) ∈ trace st ->
     fl = G_FILE_QUERY_INFO_NOFOLLOW_SYMLINKS /\
     (g_file_rel f = [] \/ exists es, resolve top f = Some (FsDir es))) /\
  (forall es n target,
     (n, FsSymlink target) ∈ es ->
     mkInfo n G_FILE_TYPE_SYMBOLIC_LINK
       ∈ list_directory top G_FILE_QUERY_INFO_NOFOLLOW_SYMLINKS es) /\
  (forall parent c s d info,
     heap s !! c = Some d ->
     g_file_info_get_file_type info = G_FILE_TYPE_SYMBOLIC_LINK ->
     let s' := dispatch_entry parent c s info in
     issued_by s s' =
       [OpDelete (g_file_get_child parent (g_file_info_get_name info))
          (priority d) None CbOnFileDeleted c] /\
     brk s' = brk s) /\
  (forall es, top = FsDir es ->
     (status st = Running ->
      forall i e n p cc c d info target,
        inflight st !! i = Some (OpNextFiles e n p cc c) ->
        heap st !! c = Some d ->
        info ∈ take n (enum_rest e) ->
        resolve top (g_file_get_child (g_file_enumerator_get_container e)
                       (g_file_info_get_name info))
          = Some (FsSymlink target) ->
        g_file_info_get_file_type info = G_FILE_TYPE_SYMBOLIC_LINK /\
        OpDelete (g_file_get_child (g_file_enumerator_get_container e)
                    (g_file_info_get_name info))
          (priority d) None CbOnFileDeleted c
        ∈ inflight (step top st (ok i))) /\
     (status st = Running ->
      forall i f p cc c,
        inflight st !! i = Some (OpDelete f p cc CbOnFileDeleted c) ->
        EvRemoved f ∈ trace (step top st (ok i))) /\
     (forall f target,
        resolve top f = Some (FsSymlink target) ->
        (forall a fl p cc c,
           EvIssue (OpEnumerateChildren f a fl p cc c) ∉ trace st) /\
        (forall c d, heap st !! c = Some d -> file d <> f) /\
        (forall p cc cb c,
           EvIssue (OpDelete f p cc cb c) ∈ trace st ->
           cb = CbOnFileDeleted)) /\
     (status st = Exited 0 ->
      forall p target,
        fs_lookup top p = Some (FsSymlink target) ->
        EvRemoved (mkFile (Some path) p) ∈ trace st)).
Proof.
  intros Hwf Hlt st.
  split; [|split; [|split]].
  - intros f a fl p cc c Hin.
    pose proof (run_K top (count_entries top) cs _ Hwf
                  (main_start_reach top path Hlt) (main_start_K top path))
      as [_ HK].
    apply (HK _ Hin).
  - intros es n target Hin. unfold list_directory.
    apply list_elem_of_fmap. exists (n, FsSymlink target). done.
  - intros parent c s d info Hd Hty s'. subst s'.
    unfold dispatch_entry, incr_pending, issued_by. rewrite Hd. st_simpl.
    rewrite lookup_insert_eq, Hty. simpl.
    rewrite drop_app_length. done.
  - intros es Htop.
    pose proof (reachable top path cs Hwf Hlt) as HR. fold st in HR.
    destruct (run_targets top path es cs Hwf Hlt Htop) as [[HT1 [HT2 HT3]] _].
    fold st in HT1, HT2, HT3.
    split; [|split; [|split]].
    + intros Hrun i e n p cc c d info target Hi Hd Hin Hres.
      destruct (reach_running _ _ _ HR Hrun) as [HI _].
      assert (Hty : g_file_info_get_file_type info = G_FILE_TYPE_SYMBOLIC_LINK).
      { pose proof (proj1 (Forall_lookup _ _) HT1 _ _ Hi) as Hok.
        cbn [op_target_ok] in Hok.
        destruct (Hok info (subseteq_take _ _ _ Hin)) as (x & Hx & Hty).
        rewrite Hres in Hx. inversion Hx; subst x. exact Hty. }
      split; [exact Hty|].
      destruct (inv_op_live _ _ _ _ _ _ _ HI Hi) as (d0 & Hd0 & _ & Hcont).
      simpl in Hd0. rewrite Hd in Hd0. inversion Hd0; subst d0.
      destruct (decide (take n (enum_rest e) = [])) as [He|Hne].
      { rewrite He in Hin. by apply elem_of_nil in Hin. }
      destruct (next_files_prefix _ _ _ _ _ _ _ _ _ _
                  (length (take n (enum_rest e))) HI Hi Hd Hne (le_n _))
        as [Hfl _].
      rewrite firstn_all in Hfl.
      rewrite <- (next_files_step _ _ _ _ _ _ _ _ _ _ HI Hi Hd) in Hfl.
      rewrite Hfl, Hcont.
      apply elem_of_app. right. apply elem_of_cons. right.
      apply dispatched_ops_leaf; [done|]. by rewrite Hty.
    + intros Hrun i f p cc c Hi.
      destruct (reach_running _ _ _ HR Hrun) as [HI _].
      by destruct (leaf_delete_removes _ _ _ _ _ _ _ _ HI Hi).
    + intros f target Hres. split; [|split].
      * intros a fl p cc c Hin. apply HT2 in Hin.
        cbn [op_target_ok] in Hin. destruct Hin as [es' Hes'].
        rewrite Hres in Hes'. discriminate.
      * intros c d Hd <-. destruct (HT3 _ _ Hd) as [es' Hes'].
        rewrite Hres in Hes'. discriminate.
      * intros p cc cb c Hin. apply HT2 in Hin.
        destruct cb as [|]; [done|].
        cbn [op_target_ok] in Hin. destruct Hin as [es' Hes'].
        rewrite Hres in Hes'. discriminate.
    + intros Hex p target Hp.
      destruct (all_entries_removed top path es cs Hwf Hlt Htop Hex) as [Hall _].
      by eapply Hall.
Qed.

Lemma symlinks_deleted_not_followed_witness :
  fs_wf tree_with_link /\ count_entries tree_with_link < guint_max /\
  OpDelete (g_file_get_child root_file "lnk") 0 None CbOnFileDeleted 0
  ∈ inflight (step tree_with_link
                (run tree_with_link (main_start_path (Some "root"%string))
                   [ok 0%nat])
                (ok 0%nat)).
Proof.
  split; [exact tree_with_link_wf|]. split; [reflexivity|].
  refine (proj2 (proj1 (proj2 (proj2 (proj2
            (symlinks_deleted_not_followed tree_with_link "root" [ok 0%nat]
               tree_with_link_wf eq_refl))) _ eq_refl) eq_refl
            0%nat _ _ _ _ 0%nat _
            (mkInfo "lnk" G_FILE_TYPE_SYMBOLIC_LINK) ["sub"%string]
            eq_refl eq_refl _ eq_refl)).
  apply elem_of_cons. left. reflexivity.
Defined.
